(** * Quiz pipeline: markdown parser, identifiers, attachment URLs, consolidation

    A shallow embedding of
      - [scripts/generate-quiz-json.js]  (module [GenerateQuizJson]),
      - [scripts/build-quizz-sets.js]    (module [BuildQuizzSets]),
      - [seeder.ts]                      (module [Seeder]),
    together with the platform functions they call: JavaScript string
    methods and the regular expressions of the sources (module [Js]), Node's
    [path.posix] (module [PosixPath]) and SHA-256 (module [Sha256]).

    Text is a [string] of JavaScript code units below U+0100; a character
    is the [ascii] with that code.  Code units from U+0100 on are outside the
    model.  The platform is POSIX: [path.sep] is "/". *)

From Stdlib Require Import List String Ascii NArith Bool Arith Lia.
From Stdlib Require Import DecimalString.
Import ListNotations.
Open Scope string_scope.

(** ** JavaScript strings *)

Module Js.
Local Open Scope nat_scope.

Definition code (c : ascii) : nat := nat_of_ascii c.

(** [WhiteSpace] and [LineTerminator] of ECMAScript, below U+0100: what
    [String.prototype.trim] removes and what [\s] matches. *)
Definition isSpace (c : ascii) : bool :=
  let n := code c in
  ((9 <=? n) && (n <=? 13)) || (n =? 32) || (n =? 160).

(** What [.] does not match: "\n" and "\r". *)
Definition isLineTerminator (c : ascii) : bool :=
  let n := code c in (n =? 10) || (n =? 13).

Definition isDigit (c : ascii) : bool :=
  let n := code c in (48 <=? n) && (n <=? 57).

Definition isLower (c : ascii) : bool :=
  let n := code c in (97 <=? n) && (n <=? 122).

Definition isUpper (c : ascii) : bool :=
  let n := code c in (65 <=? n) && (n <=? 90).

(** [À-ÿ] of [stripQuestionNumber]. *)
Definition isLatinHigh (c : ascii) : bool := 192 <=? code c.

(** [toLowerCase] on one code unit: A-Z, and À-Þ without the
    multiplication sign. *)
Definition lowerChar (c : ascii) : ascii :=
  let n := code c in
  if isUpper c then ascii_of_nat (n + 32)
  else if (192 <=? n) && (n <=? 222) && negb (n =? 215) then ascii_of_nat (n + 32)
  else c.

(** [toUpperCase] on a text of one code unit: a-z and à-þ without the
    division sign lose 32, U+00DF becomes "SS", and the others stay, but for
    U+00B5 and U+00FF, whose upper case (U+039C, U+0178) is outside the
    model: for them the result is [None]. *)
Definition upperChar (c : ascii) : option string :=
  let n := code c in
  if isLower c then Some (String (ascii_of_nat (n - 32)) EmptyString)
  else if (224 <=? n) && (n <=? 254) && negb (n =? 247)
       then Some (String (ascii_of_nat (n - 32)) EmptyString)
  else if n =? 223 then Some (String "S" (String "S" EmptyString))
  else if (n =? 181) || (n =? 255) then None
  else Some (String c EmptyString).

Fixpoint map (f : ascii -> ascii) (s : string) : string :=
  match s with
  | EmptyString => EmptyString
  | String c r => String (f c) (map f r)
  end.

Definition toLowerCase : string -> string := map lowerChar.

Definition isEmpty (s : string) : bool :=
  match s with EmptyString => true | _ => false end.

(** [s.startsWith(p)] *)
Definition startsWith (s p : string) : bool := String.prefix p s.

Fixpoint rev_onto (s acc : string) : string :=
  match s with
  | EmptyString => acc
  | String c r => rev_onto r (String c acc)
  end.

Definition rev (s : string) : string := rev_onto s EmptyString.

Fixpoint dropWhile (p : ascii -> bool) (s : string) : string :=
  match s with
  | EmptyString => EmptyString
  | String c r => if p c then dropWhile p r else s
  end.

Fixpoint all (p : ascii -> bool) (s : string) : bool :=
  match s with
  | EmptyString => true
  | String c r => p c && all p r
  end.

Definition trimStart (s : string) : string := dropWhile isSpace s.

(** Removes the trailing white space: a character is kept when something
    other than white space follows it or it is itself not white space. *)
Fixpoint trimEnd (s : string) : string :=
  match s with
  | EmptyString => EmptyString
  | String c r =>
      match trimEnd r with
      | EmptyString => if isSpace c then EmptyString else String c EmptyString
      | r' => String c r'
      end
  end.

(** [s.trim()] *)
Definition trim (s : string) : string := trimEnd (trimStart s).

(** [s.split(sep)] for a one-character separator: always at least one
    piece. *)
Fixpoint splitOn (sep : ascii) (s : string) : list string :=
  match s with
  | EmptyString => [EmptyString]
  | String c r =>
      if Ascii.eqb c sep then EmptyString :: splitOn sep r
      else match splitOn sep r with
           | [] => [String c EmptyString]
           | p :: ps => String c p :: ps
           end
  end.

(** [s.split(/[-_]/)] *)
Fixpoint splitWhen (p : ascii -> bool) (s : string) : list string :=
  match s with
  | EmptyString => [EmptyString]
  | String c r =>
      if p c then EmptyString :: splitWhen p r
      else match splitWhen p r with
           | [] => [String c EmptyString]
           | q :: qs => String c q :: qs
           end
  end.

(** [content.split(/\r?\n/)]: a "\r" directly before the "\n" belongs to the
    separator. *)
Fixpoint splitLines (s : string) : list string :=
  match s with
  | EmptyString => [EmptyString]
  | String c r =>
      if Ascii.eqb c "010"%char then EmptyString :: splitLines r
      else if Ascii.eqb c "013"%char && startsWith r (String "010"%char EmptyString)
      then match r with
           | String _ r' => EmptyString :: splitLines r'
           | EmptyString => [String c EmptyString]
           end
      else match splitLines r with
           | [] => [String c EmptyString]
           | p :: ps => String c p :: ps
           end
  end.

(** [parts.join(sep)] *)
Definition join (sep : string) (parts : list string) : string :=
  String.concat sep parts.

(** [.filter(Boolean)] on an array of strings. *)
Definition filterNonEmpty (l : list string) : list string :=
  filter (fun s => negb (isEmpty s)) l.

(** [String(n)] for a non-negative integer. *)
Definition ofNat (n : nat) : string :=
  NilEmpty.string_of_uint (Nat.to_uint n).

(** [s.replace(/\s+/g, ' ')] *)
Fixpoint collapseFrom (inSpace : bool) (s : string) : string :=
  match s with
  | EmptyString => EmptyString
  | String c r =>
      if isSpace c
      then if inSpace then collapseFrom true r
           else String " " (collapseFrom true r)
      else String c (collapseFrom false r)
  end.

Definition collapseSpaces : string -> string := collapseFrom false.

End Js.

(** ** Node's [path.posix]

    [normalizeString] is given on the "/"-separated segments of the path;
    [Node]'s character loop computes the same string. *)

Module PosixPath.

Definition sep : ascii := "/"%char.

Definition isAbsolute (p : string) : bool :=
  match p with
  | String c _ => Ascii.eqb c sep
  | EmptyString => false
  end.

Fixpoint endsWithSep (p : string) : bool :=
  match p with
  | EmptyString => false
  | String c EmptyString => Ascii.eqb c sep
  | String _ r => endsWithSep r
  end.

(** One segment against the segments kept so far (last kept first). *)
Definition normalizeStep (allowAboveRoot : bool) (kept : list string)
    (seg : string) : list string :=
  if String.eqb seg "" || String.eqb seg "." then kept
  else if String.eqb seg ".." then
    match kept with
    | [] => if allowAboveRoot then [".."] else []
    | top :: below =>
        if String.eqb top ".."
        then if allowAboveRoot then ".." :: kept else kept
        else below
    end
  else seg :: kept.

Definition normalizeSegments (allowAboveRoot : bool) (segs : list string)
    : list string :=
  List.rev (fold_left (normalizeStep allowAboveRoot) segs []).

Definition normalizeString (p : string) (allowAboveRoot : bool) : string :=
  Js.join "/" (normalizeSegments allowAboveRoot (Js.splitOn sep p)).

(** [path.posix.normalize] *)
Definition normalize (p : string) : string :=
  if Js.isEmpty p then "."
  else
    let abs := isAbsolute p in
    let trailing := endsWithSep p in
    let q := normalizeString p (negb abs) in
    if Js.isEmpty q then (if abs then "/" else if trailing then "./" else ".")
    else
      let q' := if trailing then q ++ "/" else q in
      if abs then String sep q' else q'.

(** [path.posix.join(...args)] *)
Definition join (args : list string) : string :=
  match Js.filterNonEmpty args with
  | [] => "."
  | parts => normalize (Js.join "/" parts)
  end.

(** [path.resolve(p)] with one argument; [cwd] is [process.cwd()]. *)
Definition resolve (cwd p : string) : string :=
  let start := if Js.isEmpty p then "" else p ++ "/" in
  let abs1 := isAbsolute p in
  let full :=
    if abs1 then start
    else if Js.isEmpty cwd then start else cwd ++ "/" ++ start in
  let abs := abs1 || isAbsolute cwd in
  let q := normalizeString full (negb abs) in
  if abs then String sep q
  else if Js.isEmpty q then "." else q.

(** The segments of a resolved path. *)
Definition segments (p : string) : list string :=
  Js.filterNonEmpty (Js.splitOn sep p).

Fixpoint dropCommon (a b : list string) : list string * list string :=
  match a, b with
  | x :: a', y :: b' => if String.eqb x y then dropCommon a' b' else (a, b)
  | _, _ => (a, b)
  end.

(** [path.relative(from, to)] *)
Definition relative (cwd from to : string) : string :=
  if String.eqb from to then ""
  else
    let f := resolve cwd from in
    let t := resolve cwd to in
    if String.eqb f t then ""
    else
      let '(fs, ts) := dropCommon (segments f) (segments t) in
      Js.join "/" (List.map (fun _ => "..") fs ++ ts).

(** [path.dirname(p)].  The loop of [Node] reads [p] from its end: it
    passes the trailing separators, then the last segment, and stops at the
    separator before it, never looking at the first character; [r2] is what
    is left of the reversed path at that point. *)
Definition dirname (p : string) : string :=
  if Js.isEmpty p then "."
  else
    let hasRoot := isAbsolute p in
    let r1 := Js.dropWhile (Ascii.eqb sep) (Js.rev p) in
    let r2 := Js.dropWhile (fun c => negb (Ascii.eqb sep c)) r1 in
    match r2 with
    | EmptyString | String _ EmptyString => if hasRoot then "/" else "."
    | String _ (String _ EmptyString as before) =>
        if hasRoot then "//" else Js.rev before
    | String _ before => Js.rev before
    end.

Fixpoint lastSegment (segs : list string) : string :=
  match segs with
  | [] => ""
  | [s] => s
  | _ :: r => lastSegment r
  end.

Definition stripSuffix (s suffix : string) : option string :=
  let n := String.length s in
  let k := String.length suffix in
  if (k <=? n)%nat && String.eqb (String.substring (n - k) k s) suffix
  then Some (String.substring 0 (n - k) s) else None.

(** [path.basename(p)] *)
Definition basename (p : string) : string :=
  lastSegment (segments p).

(** [path.basename(p, suffix)] for a non-empty [suffix]. *)
Definition basenameExt (p suffix : string) : string :=
  if String.eqb p suffix then ""
  else
    let b := basename p in
    match stripSuffix b suffix with
    | Some stem => if Js.isEmpty stem then b else stem
    | None => b
    end.

End PosixPath.

(** ** SHA-256 (FIPS 180-4), as [crypto.createHash('sha256')] computes it

    Words are [N] below [2^32]; additions wrap. *)

Module Sha256.
Local Open Scope N_scope.

Definition wrap (x : N) : N := x mod 0x100000000.
Definition add32 (x y : N) : N := wrap (x + y).
Definition rotr (n x : N) : N :=
  N.lor (N.shiftr x n) (wrap (N.shiftl x (32 - n))).
Definition not32 (x : N) : N := N.lxor x 0xffffffff.

Definition Ch (x y z : N) : N := N.lxor (N.land x y) (N.land (not32 x) z).
Definition Maj (x y z : N) : N :=
  N.lxor (N.lxor (N.land x y) (N.land x z)) (N.land y z).
Definition bigSigma0 (x : N) : N :=
  N.lxor (N.lxor (rotr 2 x) (rotr 13 x)) (rotr 22 x).
Definition bigSigma1 (x : N) : N :=
  N.lxor (N.lxor (rotr 6 x) (rotr 11 x)) (rotr 25 x).
Definition smallSigma0 (x : N) : N :=
  N.lxor (N.lxor (rotr 7 x) (rotr 18 x)) (N.shiftr x 3).
Definition smallSigma1 (x : N) : N :=
  N.lxor (N.lxor (rotr 17 x) (rotr 19 x)) (N.shiftr x 10).

(** The constants are, as the standard defines them, the first 32 bits of
    the fractional parts of the cube roots (for [K]) and of the square
    roots (for the initial state) of the first primes. *)
Definition isPrime (n : N) : bool :=
  List.forallb (fun d => negb (n mod N.of_nat d =? 0))
               (List.seq 2 (N.to_nat n - 2)).

Definition primes : list N :=
  List.filter isPrime (List.map N.of_nat (List.seq 2 310)).

(** The integer cube root of [n], bit by bit from bit [bits - 1] down. *)
Fixpoint cubeRoot (bits : nat) (n r : N) : N :=
  match bits with
  | O => r
  | S b =>
      let c := r + N.shiftl 1 (N.of_nat b) in
      cubeRoot b n (if c * c * c <=? n then c else r)
  end.

Definition cubeRootFraction (p : N) : N :=
  wrap (cubeRoot 40 (N.shiftl p 96) 0).

Definition squareRootFraction (p : N) : N :=
  wrap (N.sqrt (N.shiftl p 64)).

Definition K : list N :=
  Eval vm_compute in List.map cubeRootFraction (List.firstn 64 primes).

Record state : Type := mkState {
  ha : N; hb : N; hc : N; hd : N; he : N; hf : N; hg : N; hh : N }.

Definition initial : state :=
  Eval vm_compute in
  match List.map squareRootFraction (List.firstn 8 primes) with
  | [a; b; c; d; e; f; g; h] => mkState a b c d e f g h
  | _ => mkState 0 0 0 0 0 0 0 0
  end.

(** The message: the bytes, 0x80, zero bytes up to 56 modulo 64, and the
    bit length as eight bytes, most significant first. *)
Definition lengthBytes (bits : N) : list N :=
  List.map (fun i => N.shiftr bits (8 * i) mod 256) [7; 6; 5; 4; 3; 2; 1; 0].

Definition pad (msg : list N) : list N :=
  let len := List.length msg in
  let zeros := ((64 - ((len + 9) mod 64)) mod 64)%nat in
  msg ++ [0x80] ++ List.repeat 0 zeros ++ lengthBytes (8 * N.of_nat len).

Fixpoint toWords (bytes : list N) : list N :=
  match bytes with
  | b0 :: b1 :: b2 :: b3 :: r =>
      (N.shiftl b0 24 + N.shiftl b1 16 + N.shiftl b2 8 + b3) :: toWords r
  | _ => []
  end.

(** The message schedule, latest word first: [w] holds W(t-1), W(t-2), ... *)
Definition nextW (w : list N) : N :=
  add32 (add32 (smallSigma1 (nth 1 w 0)) (nth 6 w 0))
        (add32 (smallSigma0 (nth 14 w 0)) (nth 15 w 0)).

Fixpoint extend (n : nat) (w : list N) : list N :=
  match n with
  | O => w
  | S n' => extend n' (nextW w :: w)
  end.

Definition schedule (block : list N) : list N :=
  List.rev (extend 48 (List.rev block)).

Definition round (s : state) (kw : N * N) : state :=
  let '(k, w) := kw in
  let t1 := add32 (add32 (add32 (hh s) (bigSigma1 (he s)))
                         (add32 (Ch (he s) (hf s) (hg s)) k)) w in
  let t2 := add32 (bigSigma0 (ha s)) (Maj (ha s) (hb s) (hc s)) in
  mkState (add32 t1 t2) (ha s) (hb s) (hc s)
          (add32 (hd s) t1) (he s) (hf s) (hg s).

Definition compress (s : state) (block : list N) : state :=
  let r := fold_left round (List.combine K (schedule block)) s in
  mkState (add32 (ha s) (ha r)) (add32 (hb s) (hb r))
          (add32 (hc s) (hc r)) (add32 (hd s) (hd r))
          (add32 (he s) (he r)) (add32 (hf s) (hf r))
          (add32 (hg s) (hg r)) (add32 (hh s) (hh r)).

(** The 16-word blocks of a word list whose length is a multiple of 16. *)
Fixpoint blocks (n : nat) (ws : list N) : list (list N) :=
  match n with
  | O => []
  | S n' => List.firstn 16 ws :: blocks n' (List.skipn 16 ws)
  end.

Definition hash (msg : list N) : state :=
  let ws := toWords (pad msg) in
  fold_left compress (blocks (List.length ws / 16) ws) initial.

Definition hexDigit (n : N) : ascii :=
  if n <? 10 then ascii_of_N (48 + n) else ascii_of_N (87 + n).

Definition hex8 (w : N) : string :=
  String (hexDigit (N.shiftr w 28 mod 16))
 (String (hexDigit (N.shiftr w 24 mod 16))
 (String (hexDigit (N.shiftr w 20 mod 16))
 (String (hexDigit (N.shiftr w 16 mod 16))
 (String (hexDigit (N.shiftr w 12 mod 16))
 (String (hexDigit (N.shiftr w 8 mod 16))
 (String (hexDigit (N.shiftr w 4 mod 16))
 (String (hexDigit (w mod 16)) EmptyString))))))).

(** [hash.digest('hex')] *)
Definition digestHex (s : state) : string :=
  (hex8 (ha s) ++ hex8 (hb s) ++ hex8 (hc s) ++ hex8 (hd s) ++
   hex8 (he s) ++ hex8 (hf s) ++ hex8 (hg s) ++ hex8 (hh s))%string.

(** The UTF-8 bytes of a string of code units below U+0100, as
    [hash.update(string)] feeds them. *)
Fixpoint utf8 (s : string) : list N :=
  match s with
  | EmptyString => []
  | String c r =>
      let n := N_of_ascii c in
      if n <? 128 then n :: utf8 r
      else (0xC0 + N.shiftr n 6) :: (0x80 + n mod 64) :: utf8 r
  end.

Definition sha256Hex (s : string) : string := digestHex (hash (utf8 s)).

End Sha256.

(** ** The data model shared by the three programs

    The JSON shape of the header comment of [generate-quiz-json.js].  An
    attachment read back from a JSON file may lack a string [url]
    ([att_url = None]) and may carry fields beyond the three the parser
    writes ([att_rest], kept as serialized name/value pairs). *)

Inductive Nature : Type := ChooseOne | ChooseMany.

Record Attachment : Type := mkAttachment {
  att_id : string;
  att_url : option string;
  att_type : string;
  att_rest : list (string * string) }.

Record Question : Type := mkQuestion {
  q_id : string;
  q_question : string;
  q_answer : option string;
  q_explanation : option string;
  q_hint : option string;
  q_correctAnswer : list string;
  q_options : list string;
  q_nature : Nature;
  q_attachments : list Attachment }.

(** [{ ...att, url }] *)
Definition withUrl (a : Attachment) (u : string) : Attachment :=
  mkAttachment (att_id a) (Some u) (att_type a) (att_rest a).

(** ** [scripts/generate-quiz-json.js] *)

Module GenerateQuizJson.
Local Open Scope list_scope.

(** A part handed to [stableId]: a string, or a question index. *)
Inductive Part : Type :=
  | PStr (s : string)
  | PNum (n : nat).

(** [String(part || '')]: the empty string and the number 0 are falsy. *)
Definition partString (p : Part) : string :=
  match p with
  | PStr s => s
  | PNum O => ""
  | PNum n => Js.ofNat n
  end.

(** What the hash has been fed once the loop of [stableId] is over. *)
Definition hashInput (parts : list Part) : string :=
  String.concat "" (List.map (fun p => (partString p ++ "|")%string) parts).

Definition stableId (parts : list Part) : string :=
  String.substring 0 24 (Sha256.sha256Hex (hashInput parts)).

(** *** The regular expressions *)

Fixpoint span (p : ascii -> bool) (s : string) : string * string :=
  match s with
  | EmptyString => (EmptyString, EmptyString)
  | String c r =>
      if p c then let '(a, b) := span p r in (String c a, b)
      else (EmptyString, s)
  end.

Fixpoint lastChar (s : string) : option ascii :=
  match s with
  | EmptyString => None
  | String c EmptyString => Some c
  | String _ r => lastChar r
  end.

Definition noLineTerminator (s : string) : bool :=
  Js.all (fun c => negb (Js.isLineTerminator c)) s.

(** [\s*(.+)$] at the end of [optionPattern]: the white space is taken
    greedily but gives one character back when nothing else is left. *)
Definition optionText (r : string) : option string :=
  match Js.dropWhile Js.isSpace r with
  | EmptyString =>
      match lastChar r with
      | Some c =>
          if Js.isLineTerminator c then None else Some (String c EmptyString)
      | None => None
      end
  | body => if noLineTerminator body then Some body else None
  end.

Definition isBullet (c : ascii) : bool :=
  Ascii.eqb c "-" || Ascii.eqb c "*" || Ascii.eqb c "+".

Definition isMark (c : ascii) : bool :=
  Ascii.eqb c " " || Ascii.eqb c "x" || Ascii.eqb c "X".

(** [line.match(/^\s*[-*+]\s*\[( |x|X)\]\s*(.+)$/)]: groups 1 and 2. *)
Definition matchOption (line : string) : option (ascii * string) :=
  match Js.dropWhile Js.isSpace line with
  | String b r1 =>
      if isBullet b then
        match Js.dropWhile Js.isSpace r1 with
        | String "[" (String m (String "]" r2)) =>
            if isMark m then
              match optionText r2 with
              | Some t => Some (m, t)
              | None => None
              end
            else None
        | _ => None
        end
      else None
  | EmptyString => None
  end.

(** [/!\[[^\]]*]\(([^)]+)\)/] at the start of [s]: group 1 and the length
    of the match. *)
Definition matchImage (s : string) : option (string * nat) :=
  match s with
  | String "!" (String "[" r) =>
      let '(alt, r1) := span (fun c => negb (Ascii.eqb c "]")) r in
      match r1 with
      | String "]" (String "(" r2) =>
          let '(ref, r3) := span (fun c => negb (Ascii.eqb c ")")) r2 in
          match ref, r3 with
          | String _ _, String ")" _ =>
              Some (ref, 5 + String.length alt + String.length ref)
          | _, _ => None
          end
      | _ => None
      end
  | _ => None
  end.

(** [line.matchAll(...)]: the matches from left to right; the search goes
    on behind each match ([skip] counts the characters still inside one). *)
Fixpoint scanImages (skip : nat) (s : string) : list string :=
  match s with
  | EmptyString => []
  | String _ r =>
      match skip with
      | S k => scanImages k r
      | O =>
          match matchImage s with
          | Some (ref, len) => ref :: scanImages (len - 1) r
          | None => scanImages 0 r
          end
      end
  end.

Definition imageRefs (line : string) : list string := scanImages 0 line.

(** [/^hint[:\-]?\s*/i]: what is left of [t] behind the match. *)
Definition stripHint (t : string) : option string :=
  match t with
  | String h (String i (String n (String t' r))) =>
      if String.eqb (Js.toLowerCase (String h (String i (String n (String t' "")))))
                    "hint"
      then
        let r' := match r with
                  | String c r0 =>
                      if Ascii.eqb c ":" || Ascii.eqb c "-" then r0 else r
                  | EmptyString => r
                  end in
        Some (Js.dropWhile Js.isSpace r')
      else None
  | _ => None
  end.

(** The class [[A-Za-zÀ-ÿ?¿¡']] *)
Definition isLabelChar (c : ascii) : bool :=
  Js.isUpper c || Js.isLower c || Js.isLatinHigh c ||
  Ascii.eqb c "?" || (Js.code c =? 191)%nat || (Js.code c =? 161)%nat ||
  Ascii.eqb c "'".

Definition stripQuestionNumber (text : string) : string :=
  let r1 := Js.dropWhile Js.isSpace (Js.dropWhile isLabelChar text) in
  match r1 with
  | String d _ =>
      if Js.isDigit d then
        let r2 := Js.dropWhile Js.isDigit r1 in
        let r3 := match r2 with
                  | String c r => if Ascii.eqb c "." then r else r2
                  | EmptyString => r2
                  end in
        let rest := Js.dropWhile Js.isSpace r3 in
        if noLineTerminator rest && negb (Js.isEmpty rest)
        then Js.trim rest else Js.trim text
      else Js.trim text
  | EmptyString => Js.trim text
  end.

(** *** [parseQuestionBlock] *)

Record Block : Type := mkBlock { heading : string; body : list string }.

(** The variables of the loop over [block.body]. *)
Record Scan : Type := mkScan {
  questionLines : list string;
  trailingLines : list string;
  options : list string;
  correctAnswer : list string;
  attachments : list Attachment;
  insideOptions : bool;
  insideCode : bool }.

Definition scanStart : Scan := mkScan [] [] [] [] [] false false.

Definition newAttachment (quizId : string) (questionIndex : nat)
    (ref : string) : Attachment :=
  mkAttachment
    (stableId [PStr "attachment"; PStr quizId; PNum questionIndex; PStr ref])
    (Some ref) "question" [].

(** One turn of the loop. *)
Definition scanLine (quizId : string) (questionIndex : nat) (s : Scan)
    (line : string) : Scan :=
  let code :=
    if Js.startsWith (Js.trim line) "```" then negb (insideCode s)
    else insideCode s in
  let atts :=
    attachments s ++ List.map (newAttachment quizId questionIndex) (imageRefs line) in
  match matchOption line, code with
  | Some (mark, group2), false =>
      let text := Js.trim group2 in
      mkScan (questionLines s) (trailingLines s)
             (options s ++ [text])
             (if Ascii.eqb (Js.lowerChar mark) "x"
              then correctAnswer s ++ [text] else correctAnswer s)
             atts true code
  | _, _ =>
      if negb (insideOptions s) then
        mkScan (questionLines s ++ [line]) (trailingLines s) (options s)
               (correctAnswer s) atts (insideOptions s) code
      else
        mkScan (questionLines s) (trailingLines s ++ [line]) (options s)
               (correctAnswer s) atts (insideOptions s) code
  end.

Definition scanBody (quizId : string) (questionIndex : nat)
    (lines : list string) : Scan :=
  fold_left (scanLine quizId questionIndex) lines scanStart.

(** The loop over [trailingLines]: hint lines and explanation lines. *)
Definition classifyTrailing (acc : list string * list string)
    (line : string) : list string * list string :=
  let '(hintLines, explanationLines) := acc in
  let trimmed := Js.trim line in
  if Js.isEmpty trimmed then acc
  else match stripHint trimmed with
       | Some h => (hintLines ++ [h], explanationLines)
       | None => (hintLines, explanationLines ++ [trimmed])
       end.

(** [s || null] *)
Definition orNull (s : string) : option string :=
  if Js.isEmpty s then None else Some s.

Definition parseQuestionBlock (block : Block) (quizId : string)
    (questionIndex : nat) : Question :=
  let baseQuestion := stripQuestionNumber (heading block) in
  let s := scanBody quizId questionIndex (body block) in
  let '(hintLines, explanationLines) :=
    fold_left classifyTrailing (trailingLines s) ([], []) in
  let extraQuestionText := Js.trim (Js.join (String "010" "") (questionLines s)) in
  let questionTextParts :=
    if Js.isEmpty extraQuestionText then [baseQuestion]
    else [baseQuestion; extraQuestionText] in
  mkQuestion
    (stableId [PStr "question"; PStr quizId; PNum questionIndex;
               PStr (heading block)])
    (Js.trim (Js.join (String "010" "") questionTextParts))
    (orNull (Js.join "; " (correctAnswer s)))
    (orNull (Js.trim (Js.join (String "010" "") explanationLines)))
    (orNull (Js.trim (Js.join (String "010" "") hintLines)))
    (correctAnswer s)
    (options s)
    (if (1 <? List.length (correctAnswer s))%nat then ChooseMany else ChooseOne)
    (attachments s).

(** *** [buildTitleFromPath] and [deriveLanguageFromFilename] *)

(** [part.charAt(0).toUpperCase() + part.slice(1)]; [None] when the
    result is outside the model. *)
Definition capitalize (part : string) : option string :=
  match part with
  | EmptyString => Some EmptyString
  | String c r =>
      match Js.upperChar c with
      | Some upper => Some (upper ++ r)%string
      | None => None
      end
  end.

(** [parts.map(capitalize)]; [None] when one of the results is outside the
    model. *)
Fixpoint capitalizeAll (parts : list string) : option (list string) :=
  match parts with
  | [] => Some []
  | part :: rest =>
      match capitalize part, capitalizeAll rest with
      | Some p, Some r => Some (p :: r)
      | _, _ => None
      end
  end.

Definition isDashOrUnderscore (c : ascii) : bool :=
  Ascii.eqb c "-" || Ascii.eqb c "_".

(** [None] when the title is outside the model. *)
Definition buildTitleFromPath (sourcePath : string) : option string :=
  let segments := Js.splitOn PosixPath.sep sourcePath in
  let folder := match segments with
                | seg :: _ => seg
                | [] => "Quiz"
                end in
  match capitalizeAll (Js.splitWhen isDashOrUnderscore folder) with
  | Some parts => Some (Js.join " " parts)
  | None => None
  end.

Definition isLetter (c : ascii) : bool := Js.isUpper c || Js.isLower c.

(** [/-quiz[-.]([a-z]{2}(?:-[A-Za-z]{2})?)/i] at the start of [s]. *)
Definition matchLanguageAt (s : string) : option string :=
  match s with
  | String d (String q (String u (String i (String z (String p
      (String l1 (String l2 r))))))) =>
      if Ascii.eqb d "-"
         && String.eqb (Js.toLowerCase (String q (String u (String i (String z "")))))
                       "quiz"
         && (Ascii.eqb p "-" || Ascii.eqb p ".")
         && isLetter l1 && isLetter l2
      then
        match r with
        | String h (String m1 (String m2 _)) =>
            if Ascii.eqb h "-" && isLetter m1 && isLetter m2
            then Some (String l1 (String l2 (String h (String m1 (String m2 "")))))
            else Some (String l1 (String l2 ""))
        | _ => Some (String l1 (String l2 ""))
        end
      else None
  | _ => None
  end.

Fixpoint searchLanguage (s : string) : option string :=
  match matchLanguageAt s with
  | Some l => Some l
  | None =>
      match s with
      | String _ r => searchLanguage r
      | EmptyString => None
      end
  end.

Definition deriveLanguageFromFilename (filePath : string) : string :=
  match searchLanguage (PosixPath.basename filePath) with
  | Some l => l
  | None => "en"
  end.

(** *** [parseQuizMarkdown] *)

(** The variables of the loop over the lines; [title] is [None] for
    [null]. *)
Record Lines : Type := mkLines {
  title : option string;
  introLines : list string;
  questionBlocks : list Block;
  currentQuestion : option Block;
  inQuestions : bool }.

Definition linesStart : Lines := mkLines None [] [] None false.

(** [!title] *)
Definition noTitle (t : option string) : bool :=
  match t with
  | None => true
  | Some s => Js.isEmpty s
  end.

(** [line.replace(/^#...#\s*/, '').trim()] for a line that starts with [n]
    hash signs. *)
Definition headingText (n : nat) (line : string) : string :=
  Js.trim (Js.dropWhile Js.isSpace
             (String.substring n (String.length line - n) line)).

Definition pushCurrent (d : Lines) : list Block :=
  match currentQuestion d with
  | Some b => questionBlocks d ++ [b]
  | None => questionBlocks d
  end.

(** One turn of the loop. *)
Definition readLine (d : Lines) (line : string) : Lines :=
  if noTitle (title d) && Js.startsWith line "## " then
    mkLines (Some (headingText 2 line)) (introLines d) (questionBlocks d)
            (currentQuestion d) (inQuestions d)
  else if Js.startsWith line "#### " then
    mkLines (title d) (introLines d) (pushCurrent d)
            (Some (mkBlock (headingText 4 line) [])) true
  else if negb (inQuestions d) then
    mkLines (title d) (introLines d ++ [line]) (questionBlocks d)
            (currentQuestion d) (inQuestions d)
  else
    match currentQuestion d with
    | Some b =>
        mkLines (title d) (introLines d) (questionBlocks d)
                (Some (mkBlock (heading b) (body b ++ [line]))) (inQuestions d)
    | None => d
    end.

Definition readLines (lines : list string) : Lines :=
  fold_left readLine lines linesStart.

Definition warnNoAnswer (index : nat) : string :=
  ("Question " ++ Js.ofNat (index + 1) ++ " has no marked correct answers")%string.

Definition warnNoOptions (index : nat) : string :=
  ("Question " ++ Js.ofNat (index + 1) ++ " has no options")%string.

(** The warnings the callback of [questionBlocks.map] pushes for one
    question. *)
Definition questionWarnings (index : nat) (q : Question) : list string :=
  (match q_correctAnswer q with [] => [warnNoAnswer index] | _ => [] end) ++
  (match q_options q with [] => [warnNoOptions index] | _ => [] end).

(** [questionBlocks.map((block, index) => ...)] from [index] on: the
    questions, and [warnings] with what the callback pushed. *)
Fixpoint mapBlocks (quizId : string) (index : nat) (blocks : list Block)
    (warnings : list string) : list Question * list string :=
  match blocks with
  | [] => ([], warnings)
  | block :: rest =>
      let parsedQuestion := parseQuestionBlock block quizId index in
      let '(qs, ws) :=
        mapBlocks quizId (S index) rest
                  (warnings ++ questionWarnings index parsedQuestion) in
      (parsedQuestion :: qs, ws)
  end.

(** [quizz_title] is [None] when the title is outside the model: it is
    built from a path one part of which begins with U+00B5 or U+00FF. *)
Record Quizz : Type := mkQuizz {
  quizz_id : string;
  quizz_title : option string;
  quizz_description : string;
  quizz_createdById : string;
  quizz_questions : list Question }.

Record Meta : Type := mkMeta {
  meta_source : string;
  meta_language : string;
  meta_generatedAt : string;
  meta_warnings : list string }.

Record Parsed : Type := mkParsed { quizz : Quizz; meta : Meta }.

(** [now] is [new Date().toISOString()]. *)
Definition parseQuizMarkdown (now content sourcePath createdById : string)
    : Parsed :=
  let d := readLines (Js.splitLines content) in
  let blocks := pushCurrent d in
  let intro := Js.trim (Js.collapseSpaces (Js.join " " (introLines d))) in
  let description :=
    if Js.isEmpty intro then ("Seeded from " ++ sourcePath)%string else intro in
  let quizId := stableId [PStr "quiz"; PStr sourcePath] in
  let '(questions, warnings) := mapBlocks quizId 0 blocks [] in
  mkParsed
    (mkQuizz quizId
             (if noTitle (title d) then buildTitleFromPath sourcePath
              else title d)
             description createdById questions)
    (mkMeta sourcePath (deriveLanguageFromFilename sourcePath) now warnings).

End GenerateQuizJson.

(** ** What the two normalizers share

    Both test the trimmed reference the same way; they are written out once
    here and used by [BuildQuizzSets] and [Seeder]. *)

Module Url.

(** [/^https?:\/\//i.test(t)] *)
Definition isHttp (t : string) : bool :=
  match t with
  | String h (String t1 (String t2 (String p r))) =>
      String.eqb (Js.toLowerCase (String h (String t1 (String t2 (String p "")))))
                 "http"
      && (Js.startsWith r "://"
          || match r with
             | String c r' =>
                 Ascii.eqb (Js.lowerChar c) "s" && Js.startsWith r' "://"
             | EmptyString => false
             end)
  | _ => false
  end.

(** The [isAbsolute] flag of both normalizers. *)
Definition isAbsoluteRef (basePrefix t : string) : bool :=
  isHttp t || Js.startsWith t "~" || Js.startsWith t "/"
  || Js.startsWith t basePrefix.

(** [relDir ? relDir.split(path.sep).filter(Boolean) : []] *)
Definition relParts (relDir : string) : list string :=
  if Js.isEmpty relDir then []
  else Js.filterNonEmpty (Js.splitOn PosixPath.sep relDir).

(** [path.resolve(root).split(path.sep).join('/')] *)
Definition basePrefix (cwd root : string) : string :=
  Js.join "/" (Js.splitOn PosixPath.sep (PosixPath.resolve cwd root)).

(** [t.replace(/^\.\//, '')] *)
Definition stripDotSlash (t : string) : string :=
  match t with
  | String "." (String "/" r) => r
  | _ => t
  end.

(** [t.replace(/^\//, '')] *)
Definition stripSlash (t : string) : string :=
  match t with
  | String "/" r => r
  | _ => t
  end.

(** [t.replace(/^\.?\//, '')] *)
Definition stripDotOrSlash (t : string) : string :=
  match t with
  | String "." (String "/" r) => r
  | String "/" r => r
  | _ => t
  end.

End Url.

(** ** [scripts/build-quizz-sets.js] *)

Module BuildQuizzSets.
Local Open Scope list_scope.

Definition KNOWN_LANGS : list string :=
  ["en"; "fr"; "es"; "it"; "ch"; "de"; "ua"; "hi"; "ptbr"; "tr"; "pt"; "ja"; "vi"].

Definition endsWith (s suffix : string) : bool :=
  match PosixPath.stripSuffix s suffix with
  | Some _ => true
  | None => false
  end.

(** [base.match(LANG_SUFFIX)] followed by [match[1].toLowerCase()]: the
    known language that [base] ends with, behind a hyphen, in any case. *)
Definition matchLangSuffix (base : string) : option string :=
  List.find (fun lang => endsWith (Js.toLowerCase base) ("-" ++ lang)%string)
            KNOWN_LANGS.

Definition isKnownLang (l : string) : bool :=
  List.existsb (String.eqb l) KNOWN_LANGS.

(** [metaLanguage] is [None] when [json.meta.language] is missing or not a
    string. *)
Definition inferLanguage (metaLanguage : option string) (filePath : string)
    : string :=
  let fromName :=
    match matchLangSuffix (PosixPath.basenameExt filePath ".json") with
    | Some l => l
    | None => "en"
    end in
  match metaLanguage with
  | Some m =>
      if Js.isEmpty m then fromName
      else
        let normalized := Js.toLowerCase (Js.trim m) in
        if isKnownLang normalized then normalized else fromName
  | None => fromName
  end.

(** [.replace(/c/g, word)] for a single character. *)
Fixpoint replaceChar (c : ascii) (word : string) (s : string) : string :=
  match s with
  | EmptyString => EmptyString
  | String d r =>
      if Ascii.eqb d c then (word ++ replaceChar c word r)%string
      else String d (replaceChar c word r)
  end.

Definition isSlugChar (c : ascii) : bool := Js.isLower c || Js.isDigit c.

(** [.replace(/[^a-z0-9]+/g, '-')]; [inRun] says that the previous
    character was replaced already. *)
Fixpoint hyphenate (inRun : bool) (s : string) : string :=
  match s with
  | EmptyString => EmptyString
  | String c r =>
      if isSlugChar c then String c (hyphenate false r)
      else if inRun then hyphenate true r
      else String "-" (hyphenate true r)
  end.

Definition isHyphen (c : ascii) : bool := Ascii.eqb c "-".

(** [.replace(/^-+|-+$/g, '')] *)
Definition trimHyphens (s : string) : string :=
  Js.rev (Js.dropWhile isHyphen (Js.rev (Js.dropWhile isHyphen s))).

(** [.replace(/--+/g, '-')] *)
Fixpoint squeezeHyphens (prev : bool) (s : string) : string :=
  match s with
  | EmptyString => EmptyString
  | String c r =>
      if isHyphen c
      then if prev then squeezeHyphens true r
           else String c (squeezeHyphens true r)
      else String c (squeezeHyphens false r)
  end.

(** [input] is [None] when the title is missing or not a string. *)
Definition slugify (input : option string) : string :=
  match input with
  | None => ""
  | Some t =>
      squeezeHyphens false
        (trimHyphens
           (hyphenate false
              (replaceChar "&" " and "
                 (replaceChar "#" " sharp "
                    (replaceChar "+" " plus " (Js.toLowerCase t))))))
  end.

(** *** [normalizeAttachments] *)

(** The callback of [attachments.map]. *)
Definition normalizeAttachment (basePrefix : string) (relParts : list string)
    (att : Attachment) : Attachment :=
  match att_url att with
  | None => att
  | Some url =>
      let trimmed := Js.trim url in
      if Url.isAbsoluteRef basePrefix trimmed then
        (if String.eqb trimmed url then att else withUrl att trimmed)
      else
        let clean := Url.stripSlash (Url.stripDotSlash trimmed) in
        let normalized := PosixPath.join (basePrefix :: relParts ++ [clean]) in
        if String.eqb normalized url then att else withUrl att normalized
  end.

(** [cwd] is [process.cwd()], which [path.resolve] reads. *)
Definition normalizeAttachments (cwd : string) (attachments : list Attachment)
    (relDir root : string) : list Attachment :=
  List.map (normalizeAttachment (Url.basePrefix cwd root) (Url.relParts relDir))
           attachments.

(** *** [buildCombinedPayload] *)

(** One quiz JSON file as [JSON.parse] returns it, read through the
    optional chains of the source: a field is [None] when it is missing. *)
Record QuizJson : Type := mkQuizJson {
  j_language : option string;
  j_source : option string;
  j_warnings : list string;
  j_id : option string;
  j_title : option string;
  j_description : option string;
  j_createdById : option string;
  j_questions : list Question }.

Record ParsedFile : Type := mkParsedFile {
  file : string;
  language : string;
  data : QuizJson }.

(** A question of a set: [{ ...q, setId, quizzId, attachments, ... }]. *)
Record SetQuestion : Type := mkSetQuestion {
  sq_question : Question;
  sq_setId : string;
  sq_quizzId : string }.

Record QuizzSet : Type := mkQuizzSet {
  set_id : string;
  set_language : string;
  set_title : string;
  set_description : string;
  set_questions : list SetQuestion }.

Record CombinedQuizz : Type := mkCombinedQuizz {
  cq_id : string;
  cq_slug : string;
  cq_createdById : string;
  cq_sets : list QuizzSet }.

Record CombinedMeta : Type := mkCombinedMeta {
  cm_languages : list string;
  cm_sources : list string;
  cm_generatedAt : string;
  cm_warnings : list string }.

Record Combined : Type := mkCombined {
  combined_quizz : CombinedQuizz;
  combined_meta : CombinedMeta }.

(** [a.language.localeCompare(b.language) > 0].  The languages are those
    [inferLanguage] returns, lower-case ASCII words, which the collation
    orders as their code units do. *)
Definition languageAfter (a b : ParsedFile) : bool :=
  match String.compare (language a) (language b) with
  | Gt => true
  | _ => false
  end.

Fixpoint insertSorted (x : ParsedFile) (l : list ParsedFile) : list ParsedFile :=
  match l with
  | [] => [x]
  | y :: r => if languageAfter x y then y :: insertSorted x r else x :: l
  end.

(** [parsedFiles.sort(...)]: stable. *)
Definition sortByLanguage (l : list ParsedFile) : list ParsedFile :=
  fold_right insertSorted [] l.

Definition pickBase (parsedFiles : list ParsedFile) : option ParsedFile :=
  match List.find (fun p => String.eqb (language p) "en") parsedFiles with
  | Some en => Some en
  | None => List.hd_error parsedFiles
  end.

(** [value || fallback] for an optional string. *)
Definition orElse (value : option string) (fallback : string) : string :=
  match value with
  | Some v => if Js.isEmpty v then fallback else v
  | None => fallback
  end.

(** [value ?? ''] *)
Definition orEmpty (value : option string) : string :=
  match value with
  | Some v => v
  | None => ""
  end.

Definition DEFAULT_CREATOR : string := "cmiz68drf00004eqsc3izonqy".

(** What the run reads besides its arguments: [process.cwd()], the value
    [crypto.randomUUID()] returns and [new Date().toISOString()]. *)
Record Env : Type := mkEnv { cwd : string; uuid : string; now : string }.

Definition stampQuestion (env : Env) (setId quizzId relDir root : string)
    (q : Question) : SetQuestion :=
  mkSetQuestion
    (mkQuestion (q_id q) (q_question q) (q_answer q) (q_explanation q)
                (q_hint q) (q_correctAnswer q) (q_options q) (q_nature q)
                (normalizeAttachments (cwd env) (q_attachments q) relDir root))
    setId quizzId.

Definition buildSet (env : Env) (quizzId relDir root : string)
    (entry : ParsedFile) : QuizzSet :=
  let setId := (quizzId ++ "-" ++ language entry)%string in
  mkQuizzSet setId (language entry)
    (orEmpty (j_title (data entry)))
    (orEmpty (j_description (data entry)))
    (List.map (stampQuestion env setId quizzId relDir root)
              (j_questions (data entry))).

Definition someNonEmpty (o : option string) : list string :=
  match o with
  | Some v => if Js.isEmpty v then [] else [v]
  | None => []
  end.

(** [files] pairs each path with the JSON read from it. *)
Definition buildCombinedPayload (env : Env) (dir : string)
    (files : list (string * QuizJson)) (root : string) : Combined :=
  let parsedFiles :=
    sortByLanguage
      (List.map (fun '(f, json) =>
                   mkParsedFile f (inferLanguage (j_language json) f) json)
                files) in
  let base := pickBase parsedFiles in
  let quizzId := orElse (match base with
                         | Some b => j_id (data b)
                         | None => None
                         end) (uuid env) in
  let slug :=
    let t := slugify (match base with
                      | Some b => j_title (data b)
                      | None => None
                      end) in
    if Js.isEmpty t then PosixPath.basename dir else t in
  let createdById := orElse (match base with
                             | Some b => j_createdById (data b)
                             | None => None
                             end) DEFAULT_CREATOR in
  let relDir := PosixPath.relative (cwd env) root dir in
  mkCombined
    (mkCombinedQuizz quizzId slug createdById
       (List.map (buildSet env quizzId relDir root) parsedFiles))
    (mkCombinedMeta
       (List.map language parsedFiles)
       (List.flat_map (fun p => someNonEmpty (j_source (data p))) parsedFiles)
       (now env)
       (List.filter (fun w => negb (Js.isEmpty w))
          (List.flat_map (fun p => j_warnings (data p)) parsedFiles))).

(** The JSON file [generate-quiz-json.js] writes for a parsed quiz, read
    back; [None] for a quiz whose title is outside the model. *)
Definition ofParsed (p : GenerateQuizJson.Parsed) : option QuizJson :=
  let q := GenerateQuizJson.quizz p in
  let m := GenerateQuizJson.meta p in
  match GenerateQuizJson.quizz_title q with
  | Some title =>
      Some (mkQuizJson (Some (GenerateQuizJson.meta_language m))
                       (Some (GenerateQuizJson.meta_source m))
                       (GenerateQuizJson.meta_warnings m)
                       (Some (GenerateQuizJson.quizz_id q))
                       (Some title)
                       (Some (GenerateQuizJson.quizz_description q))
                       (Some (GenerateQuizJson.quizz_createdById q))
                       (GenerateQuizJson.quizz_questions q))
  | None => None
  end.

End BuildQuizzSets.

(** ** [seeder.ts] *)

Module Seeder.
Local Open Scope list_scope.

(** The callback of [question.attachments.map]: the attachment, and
    whether [localChanges] was incremented. *)
Definition normalizeAttachment (absRoot : string) (relParts : list string)
    (attachment : Attachment) : Attachment * bool :=
  match att_url attachment with
  | None => (attachment, false)
  | Some url =>
      let trimmed := Js.trim url in
      if Js.isEmpty trimmed then (attachment, false)
      else if Url.isAbsoluteRef absRoot trimmed then
        (if String.eqb trimmed url then attachment
         else withUrl attachment trimmed, false)
      else
        let clean := Url.stripDotOrSlash trimmed in
        let normalized := PosixPath.join (absRoot :: relParts ++ [clean]) in
        if negb (String.eqb normalized url)
        then (withUrl attachment normalized, true)
        else (attachment, false)
  end.

Definition countTrue (l : list bool) : nat :=
  List.length (List.filter (fun b => b) l).

Definition setAttachments (q : Question) (atts : list Attachment) : Question :=
  mkQuestion (q_id q) (q_question q) (q_answer q) (q_explanation q) (q_hint q)
             (q_correctAnswer q) (q_options q) (q_nature q) atts.

(** [normalizeList]: the questions with their attachments rewritten, and
    [localChanges]. *)
Definition normalizeList (absRoot : string) (relParts : list string)
    (questions : list Question) : list Question * nat :=
  let step q :=
    let r := List.map (normalizeAttachment absRoot relParts) (q_attachments q) in
    (setAttachments q (List.map fst r), countTrue (List.map snd r)) in
  let rs := List.map step questions in
  (List.map fst rs, List.fold_left Nat.add (List.map snd rs) 0).

(** The payload: a combined file with sets, or a single quiz. *)
Inductive Payload : Type :=
  | WithSets (sets : list (list Question))
  | Single (questions : list Question).

(** The payload is changed in place; the embedding returns it next to the
    count. *)
Definition normalizeAttachmentUrls (cwd : string) (payload : Payload)
    (filePath root : string) : Payload * nat :=
  let baseDir := PosixPath.dirname filePath in
  let relDir := PosixPath.relative cwd root baseDir in
  let relParts := Url.relParts relDir in
  let absRoot := Url.basePrefix cwd root in
  match payload with
  | WithSets sets =>
      let rs := List.map (normalizeList absRoot relParts) sets in
      (WithSets (List.map fst rs), List.fold_left Nat.add (List.map snd rs) 0)
  | Single questions =>
      let '(qs, n) := normalizeList absRoot relParts questions in
      (Single qs, n)
  end.

End Seeder.

(** ** Notions used to state the properties *)

Module Props.
Local Open Scope list_scope.
Import GenerateQuizJson.

(** The questions of the blocks, numbered from [index]. *)
Fixpoint questionsFrom (quizId : string) (index : nat) (blocks : list Block)
    : list Question :=
  match blocks with
  | [] => []
  | b :: r => parseQuestionBlock b quizId index :: questionsFrom quizId (S index) r
  end.

(** The warnings of the questions, numbered from [index]. *)
Fixpoint warningsFrom (index : nat) (qs : list Question) : list string :=
  match qs with
  | [] => []
  | q :: r => questionWarnings index q ++ warningsFrom (S index) r
  end.

(** The blocks [parseQuizMarkdown] cuts the text into. *)
Definition blocksOf (content : string) : list Block :=
  pushCurrent (readLines (Js.splitLines content)).

(** The attachments of one line of a block. *)
Definition lineAttachments (quizId : string) (questionIndex : nat)
    (line : string) : list Attachment :=
  List.map (newAttachment quizId questionIndex) (imageRefs line).

(** A line that opens or closes a fenced code span. *)
Definition isFence (line : string) : bool :=
  Js.startsWith (Js.trim line) "```".

(** The lines without those the loop takes for the title and passes over:
    the lines that start with "## ", up to the first of them that has a
    text. *)
Fixpoint withoutTitleLines (lines : list string) : list string :=
  match lines with
  | [] => []
  | l :: r =>
      if Js.startsWith l "## " then
        if Js.isEmpty (headingText 2 l) then withoutTitleLines r else r
      else l :: withoutTitleLines r
  end.

(** Lines cut into blocks at the lines that start with "#### ": the text
    of such a line is the heading of a block, the lines up to the next one
    are its body, and the lines before the first one belong to no block;
    [current] is the block that is open. *)
Fixpoint blocksFrom (current : option Block) (lines : list string)
    : list Block :=
  match lines with
  | [] => match current with
          | Some b => [b]
          | None => []
          end
  | l :: r =>
      if Js.startsWith l "#### " then
        match current with
        | Some b => b :: blocksFrom (Some (mkBlock (headingText 4 l) [])) r
        | None => blocksFrom (Some (mkBlock (headingText 4 l) [])) r
        end
      else
        blocksFrom (match current with
                    | Some b => Some (mkBlock (heading b) (body b ++ [l]))
                    | None => None
                    end) r
  end.

(** The description of a quiz with the intro lines [lines]. *)
Definition descriptionOf (lines : list string) (sourcePath : string) : string :=
  let intro := Js.trim (Js.collapseSpaces (Js.join " " lines)) in
  if Js.isEmpty intro then ("Seeded from " ++ sourcePath)%string else intro.

(** A text without the character [c]. *)
Definition without (c : ascii) (s : string) : bool :=
  Js.all (fun d => negb (Ascii.eqb d c)) s.

(** An image of markdown with the text [alt] and the reference [ref]. *)
Definition image (alt ref : string) : string :=
  ("![" ++ alt ++ "](" ++ ref ++ ")")%string.

(** The first line that [readLine] takes for the title: it starts with
    "## " and its text is not empty. *)
Definition firstTitleLine (lines : list string) : option string :=
  List.find (fun l => Js.startsWith l "## " && negb (Js.isEmpty (headingText 2 l)))
            lines.

(** The lines of the preamble: those before the first question heading. *)
Fixpoint preamble (lines : list string) : list string :=
  match lines with
  | [] => []
  | l :: r => if Js.startsWith l "#### " then [] else l :: preamble r
  end.

(** [inQuestions] holds exactly when a block is open. *)
Definition consistent (d : Lines) : Prop :=
  inQuestions d = match currentQuestion d with
                  | Some _ => true
                  | None => false
                  end.

(** What the loop has read and will read: the blocks and the intro lines
    it ends with when [rest] holds no line it takes for the title. *)
Definition outcome (d : Lines) (rest : list string)
    : list Block * list string :=
  (questionBlocks d ++ blocksFrom (currentQuestion d) rest,
   introLines d ++ (if inQuestions d then [] else preamble rest)).


(** A digit of [digest('hex')]. *)
Definition isHexChar (c : ascii) : bool :=
  Js.isDigit c || ((97 <=? Js.code c) && (Js.code c <=? 102))%nat.

Definition hasPipe (s : string) : bool :=
  negb (Js.all (fun c => negb (Ascii.eqb c "|")) s).

(** No part holds the separator of [stableId]. *)
Definition pipeFree (parts : list Part) : bool :=
  List.forallb (fun p => negb (hasPipe (partString p))) parts.

(** The URL [BuildQuizzSets.normalizeAttachment] gives an attachment whose
    URL was [url]. *)
Definition consolidatorUrl (basePrefix : string) (relParts : list string)
    (url : string) : string :=
  let t := Js.trim url in
  if Url.isAbsoluteRef basePrefix t then t
  else PosixPath.join
         (basePrefix :: relParts ++ [Url.stripSlash (Url.stripDotSlash t)]).

(** The URL [Seeder.normalizeAttachment] gives it. *)
Definition seederUrl (absRoot : string) (relParts : list string)
    (url : string) : string :=
  let t := Js.trim url in
  if Js.isEmpty t then url
  else if Url.isAbsoluteRef absRoot t then t
  else PosixPath.join (absRoot :: relParts ++ [Url.stripDotOrSlash t]).

(** The URL of the attachment, if it has one, carries no white space at
    either end. *)
Definition urlTrimmed (a : Attachment) : Prop :=
  match att_url a with
  | Some u => Js.trim u = u
  | None => True
  end.

(** The URL of the attachment, if it has one, is white space only. *)
Definition urlBlank (a : Attachment) : Prop :=
  match att_url a with
  | Some u => Js.trim u = ""
  | None => True
  end.

(** The attachment with its URL trimmed. *)
Definition trimUrl (a : Attachment) : Attachment :=
  match att_url a with
  | Some u => withUrl a (Js.trim u)
  | None => a
  end.

(** A string without "/". *)
Definition noSep (s : string) : bool :=
  Js.all (fun c => negb (Ascii.eqb c PosixPath.sep)) s.

(** A path segment that normalization keeps as it is. *)
Definition plain (s : string) : bool :=
  negb (Js.isEmpty s) && negb (String.eqb s ".") && negb (String.eqb s "..")
  && noSep s.

(** The resolved root as a prefix: nothing for the root directory itself,
    so that a path can follow after a "/". *)
Definition rooted (p : string) : string :=
  if String.eqb p "/" then "" else p.

End Props.

(** ** Sample inputs *)

Module Sample.
Local Open Scope list_scope.
Import GenerateQuizJson.

Definition nl : string := String "010" "".

(** A quiz with a fenced option line, two marked answers and an image. *)
Definition content : string :=
  Js.join nl
    [ "## Python Quiz"; "";
      "#### Q1. Which are even?"; "```"; "- [x] in code ![i](p.png)"; "```";
      "- [x] 2"; "- [ ] 3"; "- [X] 4"; "Hint: halves";
      "#### 2. No choices here"; "![fig](./img/q1.png)" ].

Definition parsed : Parsed :=
  parseQuizMarkdown "2024-01-01T00:00:00.000Z" content
                    "python/python-quiz.md" "seed-user".

Definition firstQuestion : Question :=
  parseQuestionBlock
    (mkBlock "Q1. Which are even?"
       [ "```"; "- [x] in code ![i](p.png)"; "```";
         "- [x] 2"; "- [ ] 3"; "- [X] 4"; "Hint: halves" ])
    (quizz_id (quizz parsed)) 0.


(** An attachment as the parser writes it, for the reference [ref]. *)
Definition attachment (ref : string) : Attachment :=
  newAttachment (quizz_id (quizz parsed)) 1 ref.

(** A question whose only attachment has the URL [url]. *)
Definition questionWith (url : string) : Question :=
  mkQuestion "q" "Which figure?" None None None [] [] ChooseOne
             [attachment url].

(** The JSON file of a sample quiz; the samples have their titles in the
    model. *)
Definition jsonOf (p : Parsed) : BuildQuizzSets.QuizJson :=
  match BuildQuizzSets.ofParsed p with
  | Some json => json
  | None => BuildQuizzSets.mkQuizJson None None [] None None None None []
  end.

(** The sample quiz as its JSON file, and a French sibling. *)
Definition english : BuildQuizzSets.QuizJson := jsonOf parsed.

Definition french : BuildQuizzSets.QuizJson :=
  jsonOf
    (parseQuizMarkdown "2024-01-01T00:00:00.000Z"
       (Js.join nl [ "## Quiz Python"; "#### Q1. Lesquels sont pairs ?";
                     "- [x] 2"; "- [ ] 3" ])
       "python/python-quiz-fr.md" "seed-user").

(** A quiz whose title has no letter or digit. *)
Definition untitled : BuildQuizzSets.QuizJson :=
  jsonOf
    (parseQuizMarkdown "2024-01-01T00:00:00.000Z"
       (Js.join nl [ "## ???"; "#### Q1. Why?"; "- [x] yes" ])
       "python/python-quiz.md" "seed-user").

Definition env : BuildQuizzSets.Env :=
  BuildQuizzSets.mkEnv "/repo" "123e4567-e89b-42d3-a456-426614174000"
                       "2024-01-02T00:00:00.000Z".

End Sample.

(** ** Further notions *)

From Stdlib Require Import Sorted Permutation.
From Stdlib Require DecimalNat.

Module Order.

(** [l1] is [l2] with some entries left out, the others in place. *)
Inductive Subsequence {A : Type} : list A -> list A -> Prop :=
  | sub_nil : forall l, Subsequence [] l
  | sub_keep : forall x l1 l2, Subsequence l1 l2 -> Subsequence (x :: l1) (x :: l2)
  | sub_skip : forall x l1 l2, Subsequence l1 l2 -> Subsequence l1 (x :: l2).

(** A text without white space at either end. *)
Definition Trimmed (s : string) : Prop := Js.trim s = s.

(** An optional text that, when present, is trimmed and not empty. *)
Definition TrimmedText (o : option string) : Prop :=
  match o with
  | Some s => Trimmed s /\ s <> ""
  | None => True
  end.

(** Every white-space character of [s] is a blank, and none is followed
    by another. *)
Fixpoint SingleSpaced (s : string) : bool :=
  match s with
  | EmptyString => true
  | String c r =>
      (if Js.isSpace c
       then Ascii.eqb c " "
            && match r with
               | String d _ => negb (Js.isSpace d)
               | EmptyString => true
               end
       else true)
      && SingleSpaced r
  end.


(** A text without "-" and "_". *)
Definition noDash (s : string) : bool :=
  Js.all (fun c => negb (GenerateQuizJson.isDashOrUnderscore c)) s.

(** The first segment of a source path. *)
Definition firstSegment (sourcePath : string) : string :=
  match Js.splitOn PosixPath.sep sourcePath with
  | seg :: _ => seg
  | [] => ""
  end.

(** A text whose upper case has its length: it holds none of U+00B5,
    U+00DF and U+00FF. *)
Definition evenCase (s : string) : bool :=
  Js.all (fun c => negb ((Js.code c =? 181) || (Js.code c =? 223)
                         || (Js.code c =? 255))%nat) s.

(** What [stableId] feeds the hash for a quiz, a question, an attachment. *)
Definition quizInput (sourcePath : string) : string :=
  GenerateQuizJson.hashInput
    [GenerateQuizJson.PStr "quiz"; GenerateQuizJson.PStr sourcePath].

Definition questionInput (quizId : string) (index : nat) (heading : string)
    : string :=
  GenerateQuizJson.hashInput
    [GenerateQuizJson.PStr "question"; GenerateQuizJson.PStr quizId;
     GenerateQuizJson.PNum index; GenerateQuizJson.PStr heading].

Definition attachmentInput (quizId : string) (index : nat) (ref : string)
    : string :=
  GenerateQuizJson.hashInput
    [GenerateQuizJson.PStr "attachment"; GenerateQuizJson.PStr quizId;
     GenerateQuizJson.PNum index; GenerateQuizJson.PStr ref].


(** [a] does not come behind [b]: [a.localeCompare(b) <= 0]. *)
Definition languageLe (a b : BuildQuizzSets.ParsedFile) : Prop :=
  BuildQuizzSets.languageAfter a b = false.

(** The files of [l] with the language [lang], in their order. *)
Definition ofLanguage (lang : string) (l : list BuildQuizzSets.ParsedFile)
    : list BuildQuizzSets.ParsedFile :=
  List.filter (fun p => String.eqb (BuildQuizzSets.language p) lang) l.

(** The files as [buildCombinedPayload] reads them, before it sorts them. *)
Definition readFiles (files : list (string * BuildQuizzSets.QuizJson))
    : list BuildQuizzSets.ParsedFile :=
  List.map (fun '(f, json) =>
              BuildQuizzSets.mkParsedFile f
                (BuildQuizzSets.inferLanguage (BuildQuizzSets.j_language json) f)
                json)
           files.

(** The first character of a text. *)
Definition head (s : string) : option ascii :=
  match s with
  | String c _ => Some c
  | EmptyString => None
  end.

Definition notHyphen (o : option ascii) : bool :=
  match o with
  | Some c => negb (BuildQuizzSets.isHyphen c)
  | None => true
  end.

Fixpoint noDoubleHyphen (s : string) : bool :=
  match s with
  | EmptyString => true
  | String c r =>
      (if BuildQuizzSets.isHyphen c then notHyphen (head r) else true)
      && noDoubleHyphen r
  end.

Definition slugOrHyphen (c : ascii) : bool :=
  BuildQuizzSets.isSlugChar c || BuildQuizzSets.isHyphen c.

(** A slug: lower-case letters, digits and single hyphens, none of them at
    an end. *)
Definition isSlug (s : string) : bool :=
  Js.all slugOrHyphen s && noDoubleHyphen s
  && notHyphen (head s) && notHyphen (GenerateQuizJson.lastChar s).

(** A URL that does not depend on where the document lies: an http(s)
    URL, or one that begins with "~" or "/". *)
Definition isRooted (u : string) : bool :=
  Url.isHttp u || Js.startsWith u "~" || Js.startsWith u "/".

(** The attachments of the questions, question by question. *)
Definition attachmentsOf (questions : list Question) : list (list Attachment) :=
  List.map q_attachments questions.

Definition payloadAttachments (p : Seeder.Payload) : list Attachment :=
  match p with
  | Seeder.WithSets sets => List.concat (List.concat (List.map attachmentsOf sets))
  | Seeder.Single questions => List.concat (attachmentsOf questions)
  end.

End Order.

(** ** The file system *)

Module Fs.
Local Open Scope list_scope.

(** An entry of [fs.readdir(dir, { withFileTypes: true })] with what lies
    below it: [isFile()], [isDirectory()], or neither of the two. *)
#[warnings="-register-all"] Inductive Entry : Type :=
  | File (name : string)
  | Dir (name : string) (entries : list Entry)
  | Other (name : string).

(** [s.includes(sub)] *)
Fixpoint includes (s sub : string) : bool :=
  String.prefix sub s
  || match s with
     | EmptyString => false
     | String _ r => includes r sub
     end.

(** [keyword && !fullPath.includes(keyword)] does not hold: the path stays. *)
Definition keeps (keyword : option string) (fullPath : string) : bool :=
  match keyword with
  | Some k => Js.isEmpty k || includes fullPath k
  | None => true
  end.

(** [results.sort(compare)], which is stable; [after a b] stands for
    [compare(a, b) > 0]. *)
Fixpoint insert (after : string -> string -> bool) (x : string)
    (l : list string) : list string :=
  match l with
  | [] => [x]
  | y :: r => if after x y then y :: insert after x r else x :: l
  end.

Definition sortWith (after : string -> string -> bool) (l : list string)
    : list string :=
  fold_right (insert after) [] l.

(** The order of [results.sort()] without a comparator: by code units. *)
Definition codeUnitsAfter (a b : string) : bool :=
  match String.compare a b with
  | Gt => true
  | _ => false
  end.

(** The file system a run is in.  The paths are absolute and normalised,
    as the programs build them, and are compared as texts.  [contents]: the
    files and their texts; [unreadable]: the files at which [fs.readFile]
    throws; [directories]: directories, and what lies above one of them is
    a directory too; [makes] and [writable]: where [fs.mkdir] and
    [fs.writeFile] are permitted. *)
Record World : Type := mkWorld {
  contents : list (string * string);
  unreadable : list string;
  directories : list string;
  makes : string -> bool;
  writable : string -> bool }.

Fixpoint lookup (p : string) (l : list (string * string)) : option string :=
  match l with
  | [] => None
  | (q, s) :: r => if String.eqb q p then Some s else lookup p r
  end.

Definition listed (p : string) (l : list string) : bool :=
  existsb (String.eqb p) l.

(** [q] is [p] or lies above it. *)
Definition above (q p : string) : bool :=
  String.eqb q p
  || (String.eqb q "/" && String.prefix "/" p)
  || (negb (Js.isEmpty q) && String.prefix (q ++ "/") p).

Definition isDirectory (w : World) (p : string) : bool :=
  existsb (above p) (directories w).

Definition isFile (w : World) (p : string) : bool :=
  listed p (unreadable w)
  || match lookup p (contents w) with
     | Some _ => true
     | None => false
     end.

(** [fs.readFile(p, 'utf8')]; [None] when it throws. *)
Definition readFile (w : World) (p : string) : option string :=
  if listed p (unreadable w) then None else lookup p (contents w).

(** [fileExists(p)]: whether [fs.access(p)] succeeds, which it does at a
    file, read or not, and at a directory. *)
Definition fileExists (w : World) (p : string) : bool :=
  isFile w p || isDirectory w p.

(** [fs.mkdir(dir, { recursive: true })]; [None] when it throws, which it
    does where a file lies at [dir] or above it. *)
Definition mkdir (w : World) (dir : string) : option World :=
  if makes w dir
     && negb (existsb (fun q => above q dir)
                      (List.map fst (contents w) ++ unreadable w))
  then Some (mkWorld (contents w) (unreadable w) (dir :: directories w)
                     (makes w) (writable w))
  else None.

(** [fs.writeFile(p, s, 'utf8')]; [None] when it throws, which it does at
    a directory. *)
Definition writeFile (w : World) (p s : string) : option World :=
  if writable w p && negb (isDirectory w p)
  then Some (mkWorld
               ((p, s) :: List.filter (fun e => negb (String.eqb (fst e) p))
                                      (contents w))
               (unreadable w) (directories w) (makes w) (writable w))
  else None.

End Fs.

(** ** The run of [scripts/generate-quiz-json.js] *)

Module GenerateQuizJsonCli.
Import Fs.
Local Open Scope list_scope.

(** [config]; a field is [None] when it is [null] or [undefined]. *)
Record Config : Type := mkConfig {
  root : option string;
  output : option string;
  overwrite : bool;
  dryRun : bool;
  match_ : option string;
  createdById : option string }.

Inductive Flag : Type := Root | Output | Overwrite | DryRun | Match | CreatedBy.

(** The [case] labels of [parseArgs]. *)
Definition flagOf (arg : string) : option Flag :=
  if String.eqb arg "--root" then Some Root
  else if String.eqb arg "--output" then Some Output
  else if String.eqb arg "--overwrite" then Some Overwrite
  else if String.eqb arg "--dry-run" then Some DryRun
  else if String.eqb arg "--match" then Some Match
  else if String.eqb arg "--created-by" then Some CreatedBy
  else None.

(** The cases that read [argv[++i]]. *)
Definition takesValue (f : Flag) : bool :=
  match f with
  | Overwrite | DryRun => false
  | _ => true
  end.

(** The assignment of a case; [v] is [argv[++i]], [None] behind the end. *)
Definition assign (f : Flag) (v : option string) (c : Config) : Config :=
  match f with
  | Root =>
      mkConfig v (output c) (overwrite c) (dryRun c) (match_ c) (createdById c)
  | Output =>
      mkConfig (root c) v (overwrite c) (dryRun c) (match_ c) (createdById c)
  | Overwrite =>
      mkConfig (root c) (output c) true (dryRun c) (match_ c) (createdById c)
  | DryRun =>
      mkConfig (root c) (output c) (overwrite c) true (match_ c) (createdById c)
  | Match =>
      mkConfig (root c) (output c) (overwrite c) (dryRun c) v (createdById c)
  | CreatedBy =>
      mkConfig (root c) (output c) (overwrite c) (dryRun c) (match_ c) v
  end.

(** The loop of [parseArgs] from the argument [argv[i]] on. *)
Fixpoint parseArgsFrom (config : Config) (argv : list string) : Config :=
  match argv with
  | [] => config
  | arg :: rest =>
      match flagOf arg with
      | None => parseArgsFrom config rest
      | Some f =>
          if takesValue f then
            match rest with
            | [] => assign f None config
            | v :: rest' => parseArgsFrom (assign f (Some v) config) rest'
            end
          else parseArgsFrom (assign f None config) rest
      end
  end.

(** [parseArgs(argv)]; [cwd] is [process.cwd()] and [seedUserId] is
    [process.env.SEED_USER_ID]. *)
Definition parseArgs (cwd : string) (seedUserId : option string)
    (argv : list string) : Config :=
  parseArgsFrom
    (mkConfig (Some cwd) None false false None
              (Some (BuildQuizzSets.orElse seedUserId "seed-user")))
    argv.

Definition buildOutputPath (root outputRoot sourcePath : string) : string :=
  let baseDir := PosixPath.dirname sourcePath in
  let baseName := PosixPath.basenameExt sourcePath ".md" in
  let targetDir := PosixPath.join [outputRoot; baseDir] in
  PosixPath.join [targetDir; (baseName ++ ".json")%string].

(** The entries [walk] passes over. *)
Definition skipped (name : string) : bool :=
  Js.startsWith name ".git" || String.eqb name "node_modules".

Definition isQuizMarkdown (name : string) : bool :=
  BuildQuizzSets.endsWith name ".md" && includes (Js.toLowerCase name) "quiz".

(** The body of the loop of [walk(dir)] for one entry: what it pushes onto
    [results]. *)
Fixpoint walk (keyword : option string) (dir : string) (entry : Entry)
    : list string :=
  match entry with
  | Dir name entries =>
      if skipped name then []
      else List.flat_map (walk keyword (PosixPath.join [dir; name])) entries
  | File name =>
      if skipped name then []
      else if isQuizMarkdown name && keeps keyword (PosixPath.join [dir; name])
           then [PosixPath.join [dir; name]]
           else []
  | Other _ => []
  end.

(** [findQuizFiles(root, keyword)] where [tree] is what lies below [root];
    every directory of it can be read. *)
Definition findQuizFiles (root : string) (keyword : option string)
    (tree : list Entry) : list string :=
  sortWith codeUnitsAfter (List.flat_map (walk keyword root) tree).

Record Summary : Type := mkSummary {
  written : nat;
  skipped_ : nat;
  warnings : nat;
  files : nat }.

(** What a run reads besides its arguments and the files: [process.cwd()],
    [process.env.SEED_USER_ID], [new Date().toISOString()] in the round [k]
    of the loop, and [JSON.stringify(parsed, null, 2)], whose first argument
    is [config.createdById]: undefined, it is left out of the text. *)
Record Env : Type := mkEnv {
  cwd : string;
  seedUserId : option string;
  clock : nat -> string;
  stringify : option string -> GenerateQuizJson.Parsed -> string }.

Record Run : Type := mkRun { world : World; summary : Summary }.

Definition failed (r : Run) : Run :=
  let s := summary r in
  mkRun (world r) (mkSummary (written s) (skipped_ s) (S (warnings s)) (files s)).

Definition skipOne (r : Run) : Run :=
  let s := summary r in
  mkRun (world r) (mkSummary (written s) (S (skipped_ s)) (warnings s) (files s)).

Definition count (w : World) (r : Run) (writes : nat)
    (parsed : GenerateQuizJson.Parsed) : Run :=
  let s := summary r in
  mkRun w (mkSummary (written s + writes) (skipped_ s)
             (warnings s
              + List.length (GenerateQuizJson.meta_warnings
                               (GenerateQuizJson.meta parsed)))
             (files s)).

(** One round of the loop of [main], for the file [filePath], the [k]-th. *)
Definition processFile (env : Env) (config : Config)
    (root outputRoot : string) (r : Run) (entry : nat * string) : Run :=
  let '(k, filePath) := entry in
  let relPath := PosixPath.relative (cwd env) root filePath in
  match readFile (world r) filePath with
  | None => failed r
  | Some content =>
      let parsed :=
        GenerateQuizJson.parseQuizMarkdown (clock env k) content relPath
          (BuildQuizzSets.orEmpty (createdById config)) in
      let outputFile := buildOutputPath root outputRoot relPath in
      if negb (overwrite config) && negb (dryRun config)
         && fileExists (world r) outputFile
      then skipOne r
      else if dryRun config then count (world r) r 0 parsed
      else
        match mkdir (world r) (PosixPath.dirname outputFile) with
        | None => failed r
        | Some made =>
            match writeFile made outputFile
                    (stringify env (createdById config) parsed) with
            | Some w => count w r 1 parsed
            | None => failed (mkRun made (summary r))
            end
        end
  end.

Definition processFiles (env : Env) (config : Config)
    (root outputRoot : string) (quizFiles : list string) (w : World) : Run :=
  fold_left (processFile env config root outputRoot)
            (List.combine (List.seq 0 (List.length quizFiles)) quizFiles)
            (mkRun w (mkSummary 0 0 0 (List.length quizFiles))).

Definition rootOf (env : Env) (config : Config) : string :=
  PosixPath.resolve (cwd env)
    (match root config with
     | Some r => r
     | None => cwd env
     end).

Definition outputRootOf (env : Env) (config : Config) : string :=
  PosixPath.resolve (cwd env)
    (match output config with
     | Some o => o
     | None => rootOf env config
     end).

(** [main()]: the files afterwards and the summary, which is [None] when no
    quiz file was found. *)
Definition main (env : Env) (argv : list string) (tree : list Entry)
    (w : World) : World * option Summary :=
  let config := parseArgs (cwd env) (seedUserId env) argv in
  let root := rootOf env config in
  let outputRoot := outputRootOf env config in
  let quizFiles := findQuizFiles root (match_ config) tree in
  match quizFiles with
  | [] => (w, None)
  | _ =>
      let r := processFiles env config root outputRoot quizFiles w in
      (world r, Some (summary r))
  end.

End GenerateQuizJsonCli.

(** ** The run of [scripts/build-quizz-sets.js] *)

Module BuildQuizzSetsCli.
Import Fs.
Local Open Scope list_scope.

(** [process.argv[process.argv.indexOf('--root') + 1]]: [None] without
    "--root", [Some None] when nothing follows it. *)
Fixpoint rootArg (argv : list string) : option (option string) :=
  match argv with
  | [] => None
  | arg :: rest =>
      if String.eqb arg "--root" then Some (List.hd_error rest)
      else rootArg rest
  end.

(** The root of the run; [None] when [path.resolve(undefined)] throws. *)
Definition rootOf (cwd : string) (argv : list string) : option string :=
  match rootArg argv with
  | None => Some cwd
  | Some (Some r) => Some (PosixPath.resolve cwd r)
  | Some None => None
  end.

Definition skipped (name : string) : bool :=
  Js.startsWith name ".git" || String.eqb name "node_modules".

Definition isQuizJson (name : string) : bool :=
  includes name "quiz" && BuildQuizzSets.endsWith name ".json".

Fixpoint walk (dir : string) (entry : Entry) : list string :=
  match entry with
  | Dir name entries =>
      if skipped name then []
      else List.flat_map (walk (PosixPath.join [dir; name])) entries
  | File name =>
      if skipped name then []
      else if String.eqb name "quizz.json" then []
      else if isQuizJson name then [PosixPath.join [dir; name]]
      else []
  | Other _ => []
  end.

(** [collectQuizFiles(root)] where [tree] is what lies below [root]. *)
Definition collectQuizFiles (root : string) (tree : list Entry)
    : list string :=
  List.flat_map (walk root) tree.

(** [grouped.set(dir, list)] with [file] pushed onto the list of [dir]: a
    [Map] keeps its keys in the order they were first set. *)
Fixpoint push (dir file : string) (grouped : list (string * list string))
    : list (string * list string) :=
  match grouped with
  | [] => [(dir, [file])]
  | (d, l) :: r =>
      if String.eqb d dir then (d, l ++ [file]) :: r
      else (d, l) :: push dir file r
  end.

Definition groupByDirectory (files : list string)
    : list (string * list string) :=
  fold_left (fun grouped file => push (PosixPath.dirname file) file grouped)
            files [].

(** What a run reads besides its arguments and the files: [process.cwd()],
    [crypto.randomUUID()] and [new Date().toISOString()] in the round [k] of
    the loop, the document [JSON.parse] returns with the fields the script
    reads ([None] when [JSON.parse] throws, or [buildCombinedPayload] on the
    document), and [JSON.stringify(payload, null, 2)]. *)
Record Env : Type := mkEnv {
  cwd : string;
  uuid : nat -> string;
  now : nat -> string;
  parse : string -> option BuildQuizzSets.QuizJson;
  stringify : BuildQuizzSets.Combined -> string }.

(** The files of a directory read and parsed, as [Promise.all] gives them;
    [None] when one of them fails. *)
Fixpoint readAll (env : Env) (w : World) (files : list string)
    : option (list (string * BuildQuizzSets.QuizJson)) :=
  match files with
  | [] => Some []
  | file :: rest =>
      match readFile w file with
      | None => None
      | Some raw =>
          match parse env raw, readAll env w rest with
          | Some json, Some l => Some ((file, json) :: l)
          | _, _ => None
          end
      end
  end.

(** One round of the loop of [main]: the files and [written]. *)
Definition processDirectory (env : Env) (root : string) (r : World * nat)
    (entry : nat * (string * list string)) : World * nat :=
  let '(k, (dir, files)) := entry in
  let '(w, written) := r in
  match readAll env w files with
  | None => r
  | Some read =>
      let payload :=
        BuildQuizzSets.buildCombinedPayload
          (BuildQuizzSets.mkEnv (cwd env) (uuid env k) (now env k))
          dir read root in
      match writeFile w (PosixPath.join [dir; "quizz.json"])
              (stringify env payload) with
      | Some w' => (w', S written)
      | None => r
      end
  end.

Definition processDirectories (env : Env) (root : string)
    (grouped : list (string * list string)) (w : World) : World * nat :=
  fold_left (processDirectory env root)
            (List.combine (List.seq 0 (List.length grouped)) grouped)
            (w, 0).

(** [main()]: the files afterwards and [written]; [None] when it throws
    before it has read a directory. *)
Definition main (env : Env) (argv : list string) (tree : list Entry)
    (w : World) : option (World * nat) :=
  match rootOf (cwd env) argv with
  | None => None
  | Some root =>
      Some (processDirectories env root
              (groupByDirectory (collectQuizFiles root tree)) w)
  end.

End BuildQuizzSetsCli.

(** ** The run of [seeder.ts] *)

Module SeederCli.
Import Fs.
Local Open Scope list_scope.

Record SeedConfig : Type := mkSeedConfig {
  root : string;
  endpoint : option string;
  match_ : option string;
  dryRun : bool }.

Inductive Status : Type := Ok | Failed | DryRun.

Record SeedResult : Type := mkSeedResult {
  file : string;
  status : Status;
  detail : option string }.

(** The loop of [parseArgs]; [None] when [path.resolve(undefined)] throws,
    behind a last "--root". *)
Fixpoint parseArgsFrom (cwd : string) (config : SeedConfig)
    (argv : list string) : option SeedConfig :=
  match argv with
  | [] => Some config
  | arg :: rest =>
      if String.eqb arg "--root" then
        match rest with
        | [] => None
        | v :: rest' =>
            parseArgsFrom cwd
              (mkSeedConfig (PosixPath.resolve cwd v) (endpoint config)
                            (match_ config) (dryRun config))
              rest'
        end
      else if String.eqb arg "--endpoint" then
        match rest with
        | [] => Some (mkSeedConfig (root config) None (match_ config)
                                   (dryRun config))
        | v :: rest' =>
            parseArgsFrom cwd
              (mkSeedConfig (root config) (Some v) (match_ config)
                            (dryRun config))
              rest'
        end
      else if String.eqb arg "--match" then
        match rest with
        | [] => Some (mkSeedConfig (root config) (endpoint config) None
                                   (dryRun config))
        | v :: rest' =>
            parseArgsFrom cwd
              (mkSeedConfig (root config) (endpoint config) (Some v)
                            (dryRun config))
              rest'
        end
      else if String.eqb arg "--dry-run" then
        parseArgsFrom cwd
          (mkSeedConfig (root config) (endpoint config) (match_ config) true)
          rest
      else parseArgsFrom cwd config rest
  end.

Definition parseArgs (cwd : string) (argv : list string) : option SeedConfig :=
  parseArgsFrom cwd
    (mkSeedConfig cwd (Some "http://localhost:3000/api/seed") None false)
    argv.

Definition skip (name : string) : bool :=
  List.existsb (String.eqb name) [".git"; ".github"; ".vscode"; "node_modules"].

(** [entries.some((entry) => entry.isFile() && entry.name === 'quizz.json')] *)
Definition hasCombined (entries : list Entry) : bool :=
  List.existsb (fun entry => match entry with
                             | File name => String.eqb name "quizz.json"
                             | _ => false
                             end)
               entries.

Definition isQuizJson (lower : string) : bool :=
  BuildQuizzSets.endsWith lower ".json" && includes lower "quiz".

(** The body of the loop of [walk(dir)] for one entry; [combined] is
    [hasCombined] of the directory. *)
Fixpoint walk (keyword : option string) (dir : string) (combined : bool)
    (entry : Entry) : list string :=
  match entry with
  | Dir name entries =>
      if skip name then []
      else List.flat_map (walk keyword (PosixPath.join [dir; name])
                               (hasCombined entries))
                         entries
  | File name =>
      if skip name then []
      else
        let lower := Js.toLowerCase name in
        if combined && negb (String.eqb lower "quizz.json") then []
        else if isQuizJson lower && keeps keyword (PosixPath.join [dir; name])
             then [PosixPath.join [dir; name]]
             else []
  | Other _ => []
  end.

(** A multipart request: the endpoint, the name and the text of the "file"
    field (the payload, normalized) and the "path" field. *)
Record Request : Type := mkRequest {
  req_endpoint : option string;
  req_name : string;
  req_body : Seeder.Payload;
  req_path : string }.

(** What a run reads besides its arguments: [process.cwd()], the collation
    of [localeCompare], whether [fetch] and [FormData] exist, a file read
    and parsed (the message of the error when that throws) and the answer
    to a request behind those sent before it ([None] when it is ok, else the
    message of the error). *)
Record Env : Type := mkEnv {
  cwd : string;
  localeCompare : string -> string -> comparison;
  runtimeSupport : bool;
  readJson : string -> string + Seeder.Payload;
  respond : list Request -> Request -> option string }.

Definition localeAfter (env : Env) (a b : string) : bool :=
  match localeCompare env a b with
  | Gt => true
  | _ => false
  end.

(** [findQuizJsonFiles(root, keyword)] where [tree] is what lies below
    [root]. *)
Definition findQuizJsonFiles (env : Env) (root : string)
    (keyword : option string) (tree : list Entry) : list string :=
  sortWith (localeAfter env)
    (List.flat_map (walk keyword (PosixPath.resolve (cwd env) root)
                         (hasCombined tree))
                   tree).

Definition normalized (n : nat) : string :=
  ("attachment urls normalized: " ++ Js.ofNat n)%string.

(** [seedFile(filePath, config)]: the result, and the requests sent so
    far, the last one first. *)
Definition seedFile (env : Env) (config : SeedConfig) (sent : list Request)
    (filePath : string) : SeedResult * list Request :=
  let relPath := PosixPath.relative (cwd env) (root config) filePath in
  let absRoot := Url.basePrefix (cwd env) (root config) in
  let tildePath :=
    PosixPath.join [absRoot; Js.join "/" (Js.splitOn PosixPath.sep relPath)] in
  match readJson env filePath with
  | inl message => (mkSeedResult tildePath Failed (Some message), sent)
  | inr parsed =>
      let '(payload, attachmentUpdates) :=
        Seeder.normalizeAttachmentUrls (cwd env) parsed filePath (root config) in
      if dryRun config then
        (mkSeedResult tildePath DryRun
           (Some (if Nat.eqb attachmentUpdates 0 then "no attachment changes"
                  else normalized attachmentUpdates)),
         sent)
      else
        let request :=
          mkRequest (endpoint config) (PosixPath.basename filePath) payload
                    tildePath in
        match respond env sent request with
        | Some message =>
            (mkSeedResult tildePath Failed (Some message), request :: sent)
        | None =>
            (mkSeedResult tildePath Ok
               (if Nat.eqb attachmentUpdates 0 then None
                else Some (normalized attachmentUpdates)),
             request :: sent)
        end
  end.

Definition isOk (r : SeedResult) : bool :=
  match status r with
  | Ok => true
  | _ => false
  end.

Definition isFailed (r : SeedResult) : bool :=
  match status r with
  | Failed => true
  | _ => false
  end.

(** What a run leaves: the results in the order of the files, the requests
    sent (the last one first), the counts of the last line it prints, and
    [process.exitCode]. *)
Record Outcome : Type := mkOutcome {
  results : list SeedResult;
  requests : list Request;
  uploaded : nat;
  failures : nat;
  exitCode : nat }.

Definition seedFiles (env : Env) (config : SeedConfig) (files : list string)
    : list SeedResult * list Request :=
  fold_left (fun acc filePath =>
               let '(result, sent) := seedFile env config (snd acc) filePath in
               (fst acc ++ [result], sent))
            files ([], []).

Definition main (env : Env) (argv : list string) (tree : list Entry)
    : Outcome :=
  if negb (runtimeSupport env) then mkOutcome [] [] 0 0 1%nat
  else
    match parseArgs (cwd env) argv with
    | None => mkOutcome [] [] 0 0 1
    | Some config =>
        match findQuizJsonFiles env (root config) (match_ config) tree with
        | [] => mkOutcome [] [] 0 0 0
        | files =>
            let '(results, sent) := seedFiles env config files in
            let ok := List.length (List.filter isOk results) in
            let failed := List.length (List.filter isFailed results) in
            mkOutcome results sent ok failed
              (if (0 <? failed)%nat && negb (dryRun config) then 1 else 0)%nat
        end
    end.

End SeederCli.

(** ** The older [seeder.ts] *)

Module SeederOld.
Import Fs.
Local Open Scope list_scope.

(** The root the older seeder has written out. *)
Definition HOME : string :=
  "/Users/arslankaleem/Workspace/Junk/linkedin-skill-assessments-quizzes".

Definition isAbsolute (t : string) : bool :=
  Url.isHttp t || Js.startsWith t HOME.

(** The callback of [question.attachments.map]: the attachment, and
    whether [changes] was incremented. *)
Definition normalizeAttachment (relParts : list string)
    (attachment : Attachment) : Attachment * bool :=
  match att_url attachment with
  | None => (attachment, false)
  | Some url =>
      let trimmed := Js.trim url in
      if Js.isEmpty trimmed then (attachment, false)
      else if isAbsolute trimmed then
        (if String.eqb trimmed url then attachment
         else withUrl attachment trimmed, false)
      else
        let clean := Url.stripDotOrSlash trimmed in
        let normalized := PosixPath.join (HOME :: relParts ++ [clean]) in
        if negb (String.eqb normalized url)
        then (withUrl attachment normalized, true)
        else (attachment, false)
  end.

(** A payload with sets has no [quizz.questions]: it is left as it is. *)
Definition normalizeAttachmentUrls (cwd : string) (payload : Seeder.Payload)
    (filePath root : string) : Seeder.Payload * nat :=
  match payload with
  | Seeder.WithSets _ => (payload, 0)
  | Seeder.Single questions =>
      let baseDir := PosixPath.dirname filePath in
      let relDir := PosixPath.relative cwd root baseDir in
      let relParts := Url.relParts relDir in
      let step q :=
        let r := List.map (normalizeAttachment relParts) (q_attachments q) in
        (Seeder.setAttachments q (List.map fst r),
         Seeder.countTrue (List.map snd r)) in
      let rs := List.map step questions in
      (Seeder.Single (List.map fst rs),
       List.fold_left Nat.add (List.map snd rs) 0)
  end.

Fixpoint walk (keyword : option string) (dir : string) (entry : Entry)
    : list string :=
  match entry with
  | Dir name entries =>
      if SeederCli.skip name then []
      else List.flat_map (walk keyword (PosixPath.join [dir; name])) entries
  | File name =>
      if SeederCli.skip name then []
      else if SeederCli.isQuizJson (Js.toLowerCase name)
              && keeps keyword (PosixPath.join [dir; name])
           then [PosixPath.join [dir; name]]
           else []
  | Other _ => []
  end.

Definition findQuizJsonFiles (env : SeederCli.Env) (root : string)
    (keyword : option string) (tree : list Entry) : list string :=
  sortWith (SeederCli.localeAfter env)
    (List.flat_map (walk keyword (PosixPath.resolve (SeederCli.cwd env) root))
                   tree).

End SeederOld.

(** ** Notions for the runs *)

Module Runs.
Import Fs.
Local Open Scope list_scope.

(** An argument that [parseArgs] of the generator follows with a value. *)
Definition isValueFlag (arg : string) : bool :=
  match GenerateQuizJsonCli.flagOf arg with
  | Some f => GenerateQuizJsonCli.takesValue f
  | None => false
  end.

(** A resolved path: "/" and the segments, "/" between them. *)
Definition rootPath (segs : list string) : string :=
  String PosixPath.sep (Js.join "/" segs).

(** The names of a listing are names of files: single segments other than
    "." and "..". *)
Fixpoint wellNamed (entry : Entry) : bool :=
  match entry with
  | File name | Other name => Props.plain name
  | Dir name entries => Props.plain name && List.forallb wellNamed entries
  end.

(** The listing [listing] lies in [tree] below the directories [dirs]. *)
Inductive listingAt : list Entry -> list string -> list Entry -> Prop :=
  | listing_here (tree : list Entry) : listingAt tree [] tree
  | listing_below (tree : list Entry) (dir : string) (entries : list Entry)
      (dirs : list string) (listing : list Entry) :
      In (Dir dir entries) tree -> listingAt entries dirs listing ->
      listingAt tree (dir :: dirs) listing.

(** A walk in general: it enters the directories [enters] holds for and
    takes the files [takes] holds for, which sees the listing of the file,
    its name and its path. *)
Fixpoint paths (enters : string -> bool)
    (takes : list Entry -> string -> string -> bool)
    (dir : string) (listing : list Entry) (entry : Entry) : list string :=
  match entry with
  | Dir name entries =>
      if enters name
      then List.flat_map (paths enters takes (PosixPath.join [dir; name]) entries)
                         entries
      else []
  | File name =>
      if takes listing name (PosixPath.join [dir; name])
      then [PosixPath.join [dir; name]]
      else []
  | Other _ => []
  end.

(** What the generator takes for a quiz file. *)
Definition markdownTaken (keyword : option string) (name path : string) : bool :=
  negb (GenerateQuizJsonCli.skipped name)
  && GenerateQuizJsonCli.isQuizMarkdown name && keeps keyword path.

(** What the consolidator takes for a quiz file. *)
Definition jsonCollected (name : string) : bool :=
  negb (BuildQuizzSetsCli.skipped name) && negb (String.eqb name "quizz.json")
  && BuildQuizzSetsCli.isQuizJson name.

(** What the seeder takes for a quiz file in the listing [listing]. *)
Definition jsonSeeded (keyword : option string) (listing : list Entry)
    (name path : string) : bool :=
  negb (SeederCli.skip name)
  && negb (SeederCli.hasCombined listing
           && negb (String.eqb (Js.toLowerCase name) "quizz.json"))
  && SeederCli.isQuizJson (Js.toLowerCase name) && keeps keyword path.

(** The URL of the attachment, if it has one, is an http(s) URL, begins
    with "~" or "/", or is white space only. *)
Definition rootedOrBlank (a : Attachment) : Prop :=
  match att_url a with
  | Some u => Order.isRooted u = true \/ Js.trim u = ""
  | None => True
  end.

(** The path a result of the seeder and a request carry. *)
Definition tildePath (env : SeederCli.Env) (config : SeederCli.SeedConfig)
    (filePath : string) : string :=
  SeederCli.file (fst (SeederCli.seedFile env config [] filePath)).

(** A URL the two seeders read alike: it does not begin with "~", and
    with "/" only when it begins with the root the older one has written
    out. *)
Definition readAlike (a : Attachment) : Prop :=
  match att_url a with
  | Some u =>
      Js.startsWith (Js.trim u) "~" = false
      /\ (Js.startsWith (Js.trim u) "/" = true ->
          Js.startsWith (Js.trim u) SeederOld.HOME = true)
  | None => True
  end.

(** No listing of the entry holds a file "quizz.json". *)
Fixpoint combinedFree (entry : Entry) : bool :=
  match entry with
  | Dir _ entries =>
      negb (SeederCli.hasCombined entries) && List.forallb combinedFree entries
  | _ => true
  end.

(** A question without its attachments. *)
Definition withoutAttachments (q : Question) : Question :=
  Seeder.setAttachments q [].

(** [a] does not come behind [b] in the order of the code units. *)
Definition codeUnitsLe (a b : string) : Prop := String.compare a b <> Gt.

(** The elements of [l], each at its first place. *)
Fixpoint distinct (l : list string) : list string :=
  match l with
  | [] => []
  | x :: r => x :: List.filter (fun y => negb (String.eqb y x)) (distinct r)
  end.

End Runs.

(** * Properties *)

(** ** The question parser *)

Section QuestionParser.
Import GenerateQuizJson Props.
Local Open Scope list_scope.

Lemma nature_of_length (block : Block) (quizId : string) (index : nat) :
  let q := parseQuestionBlock block quizId index in
  q_nature q =
  if (1 <? List.length (q_correctAnswer q))%nat then ChooseMany else ChooseOne.
Proof.
  unfold parseQuestionBlock.
  destruct (fold_left classifyTrailing _ _) as [hl el].
  reflexivity.
Qed.

Lemma mapBlocks_spec (quizId : string) (blocks : list Block) :
  forall index warnings,
    mapBlocks quizId index blocks warnings =
    (questionsFrom quizId index blocks,
     warnings ++ warningsFrom index (questionsFrom quizId index blocks)).
Proof.
  induction blocks as [|b r IH]; intros index warnings; simpl.
  - now rewrite app_nil_r.
  - rewrite IH. now rewrite <- app_assoc.
Qed.

Lemma parse_questions (now content sourcePath createdById : string) :
  let p := parseQuizMarkdown now content sourcePath createdById in
  quizz_questions (quizz p) =
    questionsFrom (quizz_id (quizz p)) 0 (blocksOf content)
  /\ meta_warnings (meta p) = warningsFrom 0 (quizz_questions (quizz p)).
Proof.
  unfold parseQuizMarkdown, blocksOf.
  rewrite mapBlocks_spec. simpl. split; reflexivity.
Qed.

Lemma questionsFrom_In (quizId : string) (blocks : list Block) :
  forall index q, In q (questionsFrom quizId index blocks) ->
    exists b i, In b blocks /\ q = parseQuestionBlock b quizId i.
Proof.
  induction blocks as [|b r IH]; intros index q H; simpl in H.
  - contradiction.
  - destruct H as [H|H].
    + exists b, index. split; [now left | now symmetry].
    + destruct (IH _ _ H) as (b' & i & Hin & Heq).
      exists b', i. split; [now right | assumption].
Qed.


(** C1.  Every question the markdown parser produces has nature
    [ChooseMany] exactly when its [correctAnswer] list has more than one
    entry, and [ChooseOne] otherwise, also when nothing is marked. *)
Theorem nature_invariant (now content sourcePath createdById : string)
    (q : Question) :
  In q (quizz_questions (quizz (parseQuizMarkdown now content sourcePath createdById))) ->
  (q_nature q = ChooseMany <-> 1 < List.length (q_correctAnswer q))
  /\ (q_nature q = ChooseOne <-> List.length (q_correctAnswer q) <= 1).
Proof.
  intros Hin.
  destruct (parse_questions now content sourcePath createdById) as [Hq _].
  cbv zeta in Hq. rewrite Hq in Hin.
  apply questionsFrom_In in Hin. destruct Hin as (b & i & _ & ->).
  pose proof (nature_of_length b
    (quizz_id (quizz (parseQuizMarkdown now content sourcePath createdById))) i) as Hn.
  cbv zeta in Hn. rewrite Hn.
  destruct (Nat.ltb_spec 1 (List.length (q_correctAnswer
    (parseQuestionBlock b
       (quizz_id (quizz (parseQuizMarkdown now content sourcePath createdById))) i)))).
  - split; split; intros; try reflexivity; try assumption; try discriminate; lia.
  - split; split; intros; try reflexivity; try assumption; try discriminate; lia.
Qed.

Lemma scanLine_code (quizId : string) (index : nat) (s : Scan) (line : string) :
  insideCode (scanLine quizId index s line) = xorb (insideCode s) (isFence line).
Proof.
  unfold scanLine, isFence.
  destruct (matchOption line) as [[mark g]|];
    destruct (Js.startsWith (Js.trim line) "```");
    destruct (insideCode s); destruct (insideOptions s); reflexivity.
Qed.

Lemma scanLine_attachments (quizId : string) (index : nat) (s : Scan)
    (line : string) :
  attachments (scanLine quizId index s line) =
  attachments s ++ lineAttachments quizId index line.
Proof.
  unfold scanLine, lineAttachments.
  destruct (matchOption line) as [[mark g]|];
    destruct (Js.startsWith (Js.trim line) "```");
    destruct (insideCode s); destruct (insideOptions s); reflexivity.
Qed.

Lemma scanLine_in_code (quizId : string) (index : nat) (s : Scan)
    (line : string) :
  insideCode (scanLine quizId index s line) = true ->
  options (scanLine quizId index s line) = options s
  /\ correctAnswer (scanLine quizId index s line) = correctAnswer s.
Proof.
  unfold scanLine.
  destruct (matchOption line) as [[mark g]|];
    destruct (Js.startsWith (Js.trim line) "```");
    destruct (insideCode s); destruct (insideOptions s); simpl;
    intros H; try discriminate H; split; reflexivity.
Qed.


Lemma fold_scan_attachments (quizId : string) (index : nat)
    (lines : list string) :
  forall s,
    attachments (fold_left (scanLine quizId index) lines s) =
    attachments s ++ flat_map (lineAttachments quizId index) lines.
Proof.
  induction lines as [|l r IH]; intros s; simpl.
  - now rewrite app_nil_r.
  - rewrite IH, scanLine_attachments. now rewrite <- app_assoc.
Qed.


Lemma question_fields (block : Block) (quizId : string) (index : nat) :
  let q := parseQuestionBlock block quizId index in
  let s := scanBody quizId index (body block) in
  q_options q = options s /\ q_correctAnswer q = correctAnswer s
  /\ q_attachments q = attachments s.
Proof.
  unfold parseQuestionBlock.
  destruct (fold_left classifyTrailing _ _) as [hl el].
  repeat split; reflexivity.
Qed.

Lemma question_attachments (block : Block) (quizId : string) (index : nat) :
  q_attachments (parseQuestionBlock block quizId index) =
  flat_map (lineAttachments quizId index) (body block).
Proof.
  destruct (question_fields block quizId index) as (_ & _ & ->).
  unfold scanBody. now rewrite fold_scan_attachments.
Qed.

(** *** Images in a line *)

Lemma length_append (a b : string) :
  String.length (a ++ b)%string = String.length a + String.length b.
Proof. induction a as [|c a IH]; simpl; [reflexivity | now rewrite IH]. Qed.

Lemma append_assoc (a b c : string) : ((a ++ b) ++ c = a ++ (b ++ c))%string.
Proof. induction a as [|x a IH]; simpl; [reflexivity | now rewrite IH]. Qed.

Lemma append_empty (a : string) : (a ++ "")%string = a.
Proof. induction a as [|x a IH]; simpl; [reflexivity | now rewrite IH]. Qed.

Lemma span_until (p : ascii -> bool) (a : string) (c : ascii) (rest : string) :
  Js.all p a = true -> p c = false ->
  span p (a ++ String c rest) = (a, String c rest).
Proof.
  intros Ha Hc. induction a as [|d a IH]; cbn [append span].
  - now rewrite Hc.
  - cbn [Js.all] in Ha. apply andb_prop in Ha. destruct Ha as [Hd Ha].
    now rewrite Hd, (IH Ha).
Qed.

Lemma length_image (alt ref : string) :
  String.length (image alt ref) = 5 + String.length alt + String.length ref.
Proof.
  unfold image. rewrite !length_append. cbn [String.length]. lia.
Qed.

(** The pattern at an image. *)
Lemma matchImage_image (alt ref post : string) :
  without "]" alt = true -> without ")" ref = true -> ref <> "" ->
  matchImage (image alt ref ++ post)
  = Some (ref, String.length (image alt ref)).
Proof.
  intros Ha Hr Hne. rewrite length_image. unfold image, matchImage.
  rewrite !append_assoc. cbn [append].
  change (alt ++ String "]" (String "(" (ref ++ String ")" post)))%string
    with (alt ++ String "]" (String "(" (ref ++ String ")" post)))%string.
  rewrite (span_until _ alt "]" _ Ha eq_refl).
  rewrite (span_until _ ref ")" _ Hr eq_refl).
  destruct ref; [contradiction | reflexivity].
Qed.

Lemma span_spec (p : ascii -> bool) (s a b : string) :
  span p s = (a, b) ->
  s = (a ++ b)%string /\ Js.all p a = true
  /\ match b with
     | EmptyString => True
     | String c _ => p c = false
     end.
Proof.
  revert a b. induction s as [|c r IH]; intros a b; cbn [span].
  - intros H. injection H as <- <-. repeat split.
  - destruct (p c) eqn:Ec.
    + destruct (span p r) as [a' b'] eqn:E. intros H. injection H as <- <-.
      destruct (IH a' b' eq_refl) as (-> & Ha & Hb).
      cbn [append Js.all]. rewrite Ec, Ha. repeat split. exact Hb.
    + intros H. injection H as <- <-. repeat split. exact Ec.
Qed.

Lemma not_other (c d : ascii) : negb (Ascii.eqb c d) = false -> c = d.
Proof. intros H. apply negb_false_iff in H. now apply Ascii.eqb_eq. Qed.

(** The pattern matches at an image and nowhere else. *)
Lemma matchImage_shape (s ref : string) (n : nat) :
  matchImage s = Some (ref, n) ->
  exists alt post,
    s = (image alt ref ++ post)%string
    /\ without "]" alt = true /\ without ")" ref = true /\ ref <> ""
    /\ n = String.length (image alt ref).
Proof.
  destruct s as [|c r]; [discriminate|].
  destruct (Ascii.eqb c "!") eqn:Ec.
  2:{ destruct c as [[] [] [] [] [] [] [] []]; first [discriminate Ec | discriminate]. }
  apply Ascii.eqb_eq in Ec. subst c.
  destruct r as [|d r]; [discriminate|].
  destruct (Ascii.eqb d "[") eqn:Ed.
  2:{ destruct d as [[] [] [] [] [] [] [] []]; first [discriminate Ed | discriminate]. }
  apply Ascii.eqb_eq in Ed. subst d. unfold matchImage.
  destruct (span (fun c => negb (Ascii.eqb c "]")) r) as [alt r1] eqn:E1.
  destruct (span_spec _ _ _ _ E1) as (-> & Ha & Hb).
  destruct r1 as [|e r1]; [discriminate|]. apply not_other in Hb. subst e.
  destruct r1 as [|d r2]; [discriminate|].
  destruct (Ascii.eqb d "(") eqn:Ed.
  2:{ destruct d as [[] [] [] [] [] [] [] []]; first [discriminate Ed | discriminate]. }
  apply Ascii.eqb_eq in Ed. subst d.
  destruct (span (fun c => negb (Ascii.eqb c ")")) r2) as [ref' r3] eqn:E2.
  destruct (span_spec _ _ _ _ E2) as (-> & Hr & Hc).
  destruct ref' as [|x ref']; [discriminate|].
  destruct r3 as [|e post]; [discriminate|]. apply not_other in Hc. subst e.
  intros H. injection H as <- <-. exists alt, post.
  split; [|split; [exact Ha|split; [exact Hr|split; [discriminate|]]]].
  - unfold image. rewrite !append_assoc. reflexivity.
  - now rewrite length_image.
Qed.

(** The pattern matches at "!" only. *)
Lemma matchImage_bang (c : ascii) (r : string) :
  Ascii.eqb c "!" = false -> matchImage (String c r) = None.
Proof.
  destruct c as [[] [] [] [] [] [] [] []]; intros H; try reflexivity.
  discriminate.
Qed.

Lemma scan_before (pre s : string) :
  without "!" pre = true -> scanImages 0 (pre ++ s) = scanImages 0 s.
Proof.
  unfold without. induction pre as [|c pre IH]; [reflexivity|].
  cbn [Js.all append scanImages]. intros H. apply andb_prop in H.
  destruct H as [Hc H]. apply negb_true_iff in Hc.
  now rewrite (matchImage_bang c _ Hc), (IH H).
Qed.

Lemma scan_skip (a post : string) :
  scanImages (String.length a) (a ++ post) = scanImages 0 post.
Proof. induction a as [|c a IH]; [reflexivity | exact IH]. Qed.

(** The references of a line up to its first image and behind it. *)
Lemma imageRefs_image (pre alt ref post : string) :
  without "!" pre = true -> without "]" alt = true ->
  without ")" ref = true -> ref <> "" ->
  imageRefs (pre ++ image alt ref ++ post) = ref :: imageRefs post.
Proof.
  intros Hp Ha Hr Hne. unfold imageRefs. rewrite (scan_before _ _ Hp).
  pose proof (matchImage_image alt ref post Ha Hr Hne) as M.
  remember (String "[" (alt ++ String "]" (String "(" (ref ++ ")"))))%string
    as tail eqn:T.
  assert (E : image alt ref = String "!" tail) by (subst tail; reflexivity).
  rewrite E in *. cbn [append String.length] in *. cbn [scanImages].
  rewrite M. replace (S (String.length tail) - 1) with (String.length tail)
    by lia.
  f_equal. apply scan_skip.
Qed.

Lemma imageRefs_none (line : string) :
  without "!" line = true -> imageRefs line = [].
Proof.
  intros H. unfold imageRefs.
  rewrite <- (append_empty line), (scan_before line "" H). reflexivity.
Qed.

(** C9.  A line whose trimmed text starts with the fence flips
    [insideCode]; a line read while [insideCode] holds adds nothing to the
    options or the correct answers, yet its image references are appended
    to the attachments; the attachments of a block are the image references
    of its lines, in the order of the document, code or not.  The image
    references of a line are read off the images in it: the pattern matches
    where an image "![alt](ref)" begins, [alt] without "]" and [ref] not
    empty and without ")", and nowhere else; where it does not match the
    search goes on one character further; a line without "!" has no
    reference, and a line with an image behind a text without "!" has the
    reference [ref] and then those of what follows the image;
    so such a line read inside code adds the attachment of [ref], with the
    URL [ref] and the type "question", and no option. *)
Theorem code_span_options_and_images (quizId : string) (index : nat) :
  (forall s line,
      let s' := scanLine quizId index s line in
      insideCode s' = xorb (insideCode s) (isFence line)
      /\ attachments s' = attachments s ++ lineAttachments quizId index line
      /\ (insideCode s' = true ->
          options s' = options s /\ correctAnswer s' = correctAnswer s))
  /\ (forall block,
        q_attachments (parseQuestionBlock block quizId index) =
        flat_map (lineAttachments quizId index) (body block))
  /\ (forall s ref n,
        matchImage s = Some (ref, n)
        <-> exists alt post,
              s = (image alt ref ++ post)%string
              /\ without "]" alt = true /\ without ")" ref = true /\ ref <> ""
              /\ n = String.length (image alt ref))
  /\ (forall c r, matchImage (String c r) = None ->
                  imageRefs (String c r) = imageRefs r)
  /\ (forall line, without "!" line = true -> imageRefs line = [])
  /\ (forall pre alt ref post,
        without "!" pre = true -> without "]" alt = true ->
        without ")" ref = true -> ref <> "" ->
        imageRefs (pre ++ image alt ref ++ post) = ref :: imageRefs post)
  /\ (forall s pre alt ref post,
        without "!" pre = true -> without "]" alt = true ->
        without ")" ref = true -> ref <> "" ->
        let s' := scanLine quizId index s (pre ++ image alt ref ++ post) in
        insideCode s' = true ->
        options s' = options s /\ correctAnswer s' = correctAnswer s
        /\ attachments s'
           = attachments s
             ++ mkAttachment
                  (stableId [PStr "attachment"; PStr quizId; PNum index; PStr ref])
                  (Some ref) "question" []
                :: List.map (newAttachment quizId index) (imageRefs post)).
Proof.
  split; [|split; [|split; [|split; [|split; [|split]]]]].
  - intros s line s'. subst s'. split; [apply scanLine_code|].
    split; [apply scanLine_attachments | apply scanLine_in_code].
  - intros block. apply question_attachments.
  - intros s ref n. split; [apply matchImage_shape|].
    intros (alt & post & -> & Ha & Hr & Hne & ->). now apply matchImage_image.
  - intros c r H. unfold imageRefs. cbn [scanImages]. now rewrite H.
  - apply imageRefs_none.
  - apply imageRefs_image.
  - intros s pre alt ref post Hp Ha Hr Hne s' Hc. subst s'.
    destruct (scanLine_in_code quizId index s _ Hc) as [O C].
    split; [exact O|]. split; [exact C|].
    rewrite scanLine_attachments. unfold lineAttachments.
    now rewrite (imageRefs_image pre alt ref post Hp Ha Hr Hne).
Qed.


Lemma splitOn_cons (sep : ascii) (s : string) :
  exists p ps, Js.splitOn sep s = p :: ps.
Proof.
  destruct s as [|c r]; simpl.
  - now exists "", [].
  - destruct (Ascii.eqb c sep).
    + now exists "", (Js.splitOn sep r).
    + destruct (Js.splitOn sep r) as [|q qs].
      * now exists (String c ""), [].
      * now exists (String c q), qs.
Qed.

Lemma readLine_titled (d : Lines) (line : string) :
  noTitle (title d) = false -> title (readLine d line) = title d.
Proof.
  intros H. unfold readLine. rewrite H. simpl.
  destruct (Js.startsWith line "#### "); [reflexivity|].
  destruct (inQuestions d); simpl; [|reflexivity].
  destruct (currentQuestion d); reflexivity.
Qed.

Lemma readLine_other (d : Lines) (line : string) :
  Js.startsWith line "## " && negb (Js.isEmpty (headingText 2 line)) = false ->
  noTitle (title d) = true ->
  noTitle (title (readLine d line)) = true.
Proof.
  intros H Hd. unfold readLine. rewrite Hd. simpl.
  destruct (Js.startsWith line "## "); simpl in *.
  - destruct (Js.isEmpty (headingText 2 line)); [reflexivity | discriminate].
  - destruct (Js.startsWith line "#### "); [assumption|].
    destruct (inQuestions d); simpl; [|assumption].
    destruct (currentQuestion d); assumption.
Qed.

Lemma readLines_titled (lines : list string) :
  forall d, noTitle (title d) = false ->
    title (fold_left readLine lines d) = title d.
Proof.
  induction lines as [|l r IH]; intros d H; simpl; [reflexivity|].
  rewrite IH.
  - now apply readLine_titled.
  - now rewrite readLine_titled.
Qed.

Lemma readLines_title (lines : list string) :
  forall d, noTitle (title d) = true ->
    match firstTitleLine lines with
    | Some l => title (fold_left readLine lines d) = Some (headingText 2 l)
    | None => noTitle (title (fold_left readLine lines d)) = true
    end.
Proof.
  unfold firstTitleLine.
  induction lines as [|l r IH]; intros d H; simpl; [assumption|].
  destruct (Js.startsWith l "## " && negb (Js.isEmpty (headingText 2 l))) eqn:E.
  - apply andb_prop in E. destruct E as [E1 E2].
    assert (Ht : title (readLine d l) = Some (headingText 2 l)).
    { unfold readLine. rewrite H, E1. reflexivity. }
    rewrite readLines_titled; [assumption|].
    rewrite Ht. simpl. now destruct (Js.isEmpty (headingText 2 l)).
  - apply IH. now apply readLine_other.
Qed.

(** *** What is left of the lines once the title is taken *)

Lemma outcome_end (d : Lines) : outcome d [] = (pushCurrent d, introLines d).
Proof.
  unfold outcome, pushCurrent. cbn [blocksFrom preamble].
  destruct (currentQuestion d), (inQuestions d); now rewrite !app_nil_r.
Qed.

(** A turn of the loop for a line it does not take for the title. *)
Lemma readLine_rest (d : Lines) (line : string) :
  noTitle (title d) && Js.startsWith line "## " = false -> consistent d ->
  title (readLine d line) = title d
  /\ consistent (readLine d line)
  /\ forall rest, outcome (readLine d line) rest = outcome d (line :: rest).
Proof.
  unfold consistent, readLine, outcome. intros H Hc. rewrite H.
  cbn [blocksFrom preamble].
  destruct (Js.startsWith line "#### ") eqn:E4.
  - cbn [title inQuestions currentQuestion questionBlocks introLines].
    split; [reflexivity|]. split; [reflexivity|]. intros rest.
    unfold pushCurrent. rewrite Hc.
    destruct (currentQuestion d) as [b|]; [|reflexivity].
    now rewrite <- app_assoc.
  - destruct (currentQuestion d) as [b|]; rewrite Hc; cbn [negb];
      cbn [title inQuestions currentQuestion questionBlocks introLines];
      (split; [reflexivity|]); (split; [reflexivity|]); intros rest;
      [reflexivity | now rewrite <- app_assoc].
Qed.

Lemma read_titled (lines : list string) :
  forall d, noTitle (title d) = false -> consistent d ->
    outcome (fold_left readLine lines d) [] = outcome d lines.
Proof.
  induction lines as [|l r IH]; intros d Ht Hc; [reflexivity|].
  cbn [fold_left].
  destruct (readLine_rest d l) as (T & C & O); [now rewrite Ht | exact Hc|].
  rewrite IH; [apply O | now rewrite T | exact C].
Qed.

Lemma read_untitled (lines : list string) :
  forall d, noTitle (title d) = true -> consistent d ->
    outcome (fold_left readLine lines d) [] = outcome d (withoutTitleLines lines).
Proof.
  induction lines as [|l r IH]; intros d Ht Hc; [reflexivity|].
  cbn [fold_left withoutTitleLines].
  destruct (Js.startsWith l "## ") eqn:E2.
  - assert (R : readLine d l
                = mkLines (Some (headingText 2 l)) (introLines d) (questionBlocks d)
                          (currentQuestion d) (inQuestions d)).
    { unfold readLine. now rewrite Ht, E2. }
    rewrite R. destruct (Js.isEmpty (headingText 2 l)) eqn:E.
    + rewrite IH; [reflexivity | cbn; exact E | exact Hc].
    + rewrite read_titled; [reflexivity | cbn; exact E | exact Hc].
  - destruct (readLine_rest d l) as (T & C & O);
      [rewrite E2; apply andb_false_r | exact Hc|].
    rewrite IH; [apply O | now rewrite T | exact C].
Qed.

(** The blocks and the intro lines of a document. *)
Lemma read_blocks (lines : list string) :
  pushCurrent (readLines lines) = blocksFrom None (withoutTitleLines lines)
  /\ introLines (readLines lines) = preamble (withoutTitleLines lines).
Proof.
  pose proof (read_untitled lines linesStart eq_refl eq_refl) as H.
  rewrite outcome_end in H. unfold outcome in H. cbn in H.
  fold (readLines lines) in H. injection H as H1 H2. now split.
Qed.

Lemma parse_title (now content sourcePath createdById : string) :
  quizz_title (quizz (parseQuizMarkdown now content sourcePath createdById)) =
  match firstTitleLine (Js.splitLines content) with
  | Some l => Some (headingText 2 l)
  | None => buildTitleFromPath sourcePath
  end.
Proof.
  unfold parseQuizMarkdown.
  destruct (mapBlocks _ _ _ _) as [qs ws]. simpl.
  pose proof (readLines_title (Js.splitLines content) linesStart eq_refl) as H.
  unfold readLines.
  destruct (firstTitleLine (Js.splitLines content)) as [l|] eqn:E.
  - rewrite H. simpl.
    unfold firstTitleLine in E. apply find_some in E. destruct E as [_ E].
    apply andb_prop in E. destruct E as [_ E].
    now destruct (Js.isEmpty (headingText 2 l)).
  - now rewrite H.
Qed.

Lemma parse_description (now content sourcePath createdById : string) :
  quizz_description (quizz (parseQuizMarkdown now content sourcePath createdById))
  = descriptionOf (preamble (withoutTitleLines (Js.splitLines content))) sourcePath.
Proof.
  unfold parseQuizMarkdown. destruct (mapBlocks _ _ _ _) as [qs ws].
  cbn [quizz quizz_description]. unfold descriptionOf.
  now destruct (read_blocks (Js.splitLines content)) as [_ ->].
Qed.

(** *** The first character of a part in upper case *)






(** The witnesses of C1, C8 and C9 on the sample quiz. *)
Lemma nature_invariant_witness :
  (q_nature Sample.firstQuestion = ChooseMany
     <-> 1 < List.length (q_correctAnswer Sample.firstQuestion))
  /\ (q_nature Sample.firstQuestion = ChooseOne
     <-> List.length (q_correctAnswer Sample.firstQuestion) <= 1).
Proof.
  apply (nature_invariant "2024-01-01T00:00:00.000Z" Sample.content
           "python/python-quiz.md" "seed-user" Sample.firstQuestion).
  vm_compute. left. reflexivity.
Defined.


Lemma code_span_options_and_images_witness :
  let s := scanLine "722ce245b18cbae797f5c517" 0 scanStart "```" in
  let s' := scanLine "722ce245b18cbae797f5c517" 0 s "- [x] in code ![i](p.png)" in
  options s' = [] /\ correctAnswer s' = []
  /\ List.map att_url (attachments s') = [Some "p.png"]
  /\ List.map att_url (q_attachments Sample.firstQuestion) = [Some "p.png"].
Proof.
  intros s s'.
  destruct (code_span_options_and_images "722ce245b18cbae797f5c517" 0)
    as (_ & _ & _ & _ & _ & _ & H).
  destruct (H s "- [x] in code " "i" "p.png" "" eq_refl eq_refl eq_refl
              ltac:(discriminate) eq_refl) as (O & C & A).
  split; [exact O|]. split; [exact C|]. split.
  - change (attachments s') with
      (attachments (scanLine "722ce245b18cbae797f5c517" 0 s
                      ("- [x] in code " ++ image "i" "p.png" ++ ""))).
    rewrite A. reflexivity.
  - unfold Sample.firstQuestion.
    destruct (code_span_options_and_images (quizz_id (quizz Sample.parsed)) 0)
      as (_ & B' & _).
    rewrite B'. vm_compute. reflexivity.
Defined.

End QuestionParser.

(** ** Identifiers *)

Section Identifiers.
Import GenerateQuizJson Props.
Local Open Scope list_scope.

(** The digests of the standard's sample messages. *)
Example sha256_abc :
  Sha256.sha256Hex "abc" =
  "ba7816bf8f01cfea414140de5dae2223b00361a396177a9cb410ff61f20015ad".
Proof. vm_compute. reflexivity. Qed.

Example sha256_empty :
  Sha256.sha256Hex "" =
  "e3b0c44298fc1c149afbf4c8996fb92427ae41e4649b934ca495991b7852b855".
Proof. vm_compute. reflexivity. Qed.

Example sha256_two_blocks :
  Sha256.sha256Hex "abcdbcdecdefdefgefghfghighijhijkijkljklmklmnlmnomnopnopq" =
  "248d6a61d20638b8e5c026930c3e6039a33ce45964ff2167f6ecedd419db06c1".
Proof. vm_compute. reflexivity. Qed.

Example stableId_quiz :
  stableId [PStr "quiz"; PStr "python/python-quiz.md"] = "5357dda4d5cd74202128d676".
Proof. vm_compute. reflexivity. Qed.

Lemma all_append (p : ascii -> bool) (a b : string) :
  Js.all p (a ++ b) = Js.all p a && Js.all p b.
Proof.
  induction a as [|c a IH]; simpl; [reflexivity|].
  rewrite IH. now rewrite andb_assoc.
Qed.


Lemma all_prefix (p : ascii -> bool) (n : nat) :
  forall s, Js.all p s = true -> Js.all p (String.substring 0 n s) = true.
Proof.
  induction n as [|n IH]; intros s H.
  - now destruct s.
  - destruct s as [|c s]; simpl in *; [reflexivity|].
    apply andb_prop in H. destruct H as [H1 H2]. now rewrite H1, IH.
Qed.

Lemma hexDigit_hex (k : N) : (k < 16)%N -> isHexChar (Sha256.hexDigit k) = true.
Proof.
  intros H. rewrite <- (N2Nat.id k).
  assert (Hn : N.to_nat k < 16) by lia.
  revert Hn. generalize (N.to_nat k). clear. intros n Hn.
  do 16 (destruct n as [|n]; [reflexivity|]). lia.
Qed.


Lemma hex8_hex (w : N) : Js.all isHexChar (Sha256.hex8 w) = true.
Proof.
  unfold Sha256.hex8. cbn [Js.all].
  rewrite !hexDigit_hex; try reflexivity; now apply N.mod_lt.
Qed.


Lemma digest_hex (s : Sha256.state) : Js.all isHexChar (Sha256.digestHex s) = true.
Proof.
  unfold Sha256.digestHex. rewrite !all_append, !hex8_hex. reflexivity.
Qed.

Lemma concat_cons (x : string) (xs : list string) :
  String.concat "" (x :: xs) = (x ++ String.concat "" xs)%string.
Proof.
  destruct xs as [|y ys]; simpl; [|reflexivity].
  induction x as [|c x IH]; simpl; [reflexivity | now rewrite <- IH].
Qed.

Lemma hashInput_cons (p : Part) (ps : list Part) :
  hashInput (p :: ps) = (partString p ++ "|" ++ hashInput ps)%string.
Proof.
  unfold hashInput. cbn [List.map]. rewrite concat_cons.
  induction (partString p) as [|c a IH]; simpl; [reflexivity | now rewrite IH].
Qed.

Lemma cut_at_pipe (a b r r' : string) :
  hasPipe a = false -> hasPipe b = false ->
  (a ++ "|" ++ r)%string = (b ++ "|" ++ r')%string -> a = b /\ r = r'.
Proof.
  unfold hasPipe. revert b.
  induction a as [|c a IH]; intros [|d b] Ha Hb E; simpl in *.
  - injection E as ->. now split.
  - injection E as <- _. simpl in Hb. discriminate.
  - injection E as -> _. simpl in Ha. discriminate.
  - injection E as -> E.
    destruct (Ascii.eqb d "|"); simpl in *; [discriminate|].
    destruct (IH b Ha Hb E) as [-> ->]. now split.
Qed.


Lemma append_pipe_injective (a b : string) :
  (a ++ "|")%string = (b ++ "|")%string -> a = b.
Proof.
  revert b. induction a as [|c a IH]; intros [|d b] E; simpl in E.
  - reflexivity.
  - injection E as _ E. destruct b; discriminate.
  - injection E as _ E. destruct a; discriminate.
  - injection E as -> E. now rewrite (IH b E).
Qed.

Lemma hashInput_injective_last (ps : list Part) :
  forall ps', List.length ps = List.length ps' ->
    pipeFree (removelast ps) = true -> pipeFree (removelast ps') = true ->
    hashInput ps = hashInput ps' ->
    List.map partString ps = List.map partString ps'.
Proof.
  induction ps as [|p ps IH]; intros [|p' ps'] Hl H H' E; try discriminate Hl.
  - reflexivity.
  - rewrite !hashInput_cons in E.
    destruct ps as [|p2 ps]; destruct ps' as [|p2' ps']; try discriminate Hl.
    + unfold hashInput in E. simpl in E.
      apply append_pipe_injective in E. simpl. now rewrite E.
    + change (removelast (p :: p2 :: ps)) with (p :: removelast (p2 :: ps)) in H.
      change (removelast (p' :: p2' :: ps')) with (p' :: removelast (p2' :: ps')) in H'.
      cbn [pipeFree forallb] in H, H'.
      apply andb_prop in H. destruct H as [H1 H2].
      apply andb_prop in H'. destruct H' as [H1' H2'].
      apply negb_true_iff in H1, H1'.
      destruct (cut_at_pipe _ _ _ _ H1 H1' E) as [E1 E2].
      change (List.map partString (p :: p2 :: ps))
        with (partString p :: List.map partString (p2 :: ps)).
      change (List.map partString (p' :: p2' :: ps'))
        with (partString p' :: List.map partString (p2' :: ps')).
      rewrite E1. f_equal.
      apply IH; [simpl in Hl |- *; lia | exact H2 | exact H2' | exact E2].
Qed.




End Identifiers.

(** ** Attachment URLs *)

Section AttachmentUrls.
Import Props.
Local Open Scope list_scope.

(** *** Trimming *)

Lemma trimEnd_keeps_head (c : ascii) (r : string) :
  Js.isSpace c = false -> exists r', Js.trimEnd (String c r) = String c r'.
Proof.
  intros H. simpl. destruct (Js.trimEnd r) as [|d r'].
  - rewrite H. now exists "".
  - now exists (String d r').
Qed.

Lemma trimEnd_idem (s : string) : Js.trimEnd (Js.trimEnd s) = Js.trimEnd s.
Proof.
  induction s as [|c r IH]; simpl; [reflexivity|].
  destruct (Js.trimEnd r) as [|d r'] eqn:E.
  - destruct (Js.isSpace c) eqn:Hc; simpl; [reflexivity | now rewrite Hc].
  - simpl in *. now rewrite IH.
Qed.

Lemma trimStart_head (s : string) :
  Js.trimStart s = ""
  \/ exists c r, Js.trimStart s = String c r /\ Js.isSpace c = false.
Proof.
  unfold Js.trimStart. induction s as [|c r IH]; simpl; [now left|].
  destruct (Js.isSpace c) eqn:Hc; [assumption|].
  right. now exists c, r.
Qed.

Lemma trim_head (s : string) :
  Js.trim s = ""
  \/ exists c r, Js.trim s = String c r /\ Js.isSpace c = false.
Proof.
  unfold Js.trim. destruct (trimStart_head s) as [->|(c & r & -> & Hc)].
  - now left.
  - right. destruct (trimEnd_keeps_head c r Hc) as [r' E].
    now exists c, r'.
Qed.

Lemma trim_idem (s : string) : Js.trim (Js.trim s) = Js.trim s.
Proof.
  destruct (trim_head s) as [->|(c & r & E & Hc)]; [reflexivity|].
  unfold Js.trim at 1. rewrite E. unfold Js.trimStart. simpl. rewrite Hc.
  rewrite <- E. unfold Js.trim. apply trimEnd_idem.
Qed.

Lemma trim_absolute (s : string) :
  PosixPath.isAbsolute s = true -> Js.startsWith (Js.trim s) "/" = true.
Proof.
  destruct s as [|c r]; simpl; [discriminate|].
  intros H. apply Ascii.eqb_eq in H. unfold PosixPath.sep in H. subst c.
  unfold Js.trim, Js.trimStart.
  change (Js.dropWhile Js.isSpace (String "/" r)) with (String "/"%char r).
  destruct (trimEnd_keeps_head "/" r eq_refl) as [r' E].
  rewrite E. unfold Js.startsWith. simpl. now destruct r'.
Qed.

(** *** Paths *)

Lemma join_splitOn (c : ascii) (s : string) :
  String.concat (String c "") (Js.splitOn c s) = s.
Proof.
  induction s as [|d r IH]; simpl; [reflexivity|].
  destruct (Ascii.eqb_spec d c) as [->|Hd].
  - destruct (Js.splitOn c r) as [|q qs] eqn:E.
    + destruct (splitOn_cons c r) as (q & qs & E'). congruence.
    + change (String.concat (String c "") ("" :: q :: qs))
        with (String c (String.concat (String c "") (q :: qs))).
      now rewrite IH.
  - destruct (Js.splitOn c r) as [|q qs] eqn:E.
    + destruct (splitOn_cons c r) as (q & qs & E'). congruence.
    + rewrite <- IH. destruct qs; reflexivity.
Qed.

Lemma basePrefix_resolve (cwd root : string) :
  Url.basePrefix cwd root = PosixPath.resolve cwd root.
Proof. unfold Url.basePrefix, Js.join. apply join_splitOn. Qed.

Lemma resolve_absolute (cwd root : string) :
  PosixPath.isAbsolute cwd = true ->
  PosixPath.isAbsolute (PosixPath.resolve cwd root) = true.
Proof.
  intros H. unfold PosixPath.resolve. rewrite H, orb_true_r. reflexivity.
Qed.

Lemma basePrefix_absolute (cwd root : string) :
  PosixPath.isAbsolute cwd = true ->
  PosixPath.isAbsolute (Url.basePrefix cwd root) = true.
Proof. rewrite basePrefix_resolve. apply resolve_absolute. Qed.

Lemma normalize_absolute (p : string) :
  PosixPath.isAbsolute p = true ->
  PosixPath.isAbsolute (PosixPath.normalize p) = true.
Proof.
  intros H. unfold PosixPath.normalize.
  destruct p as [|c r]; [discriminate|]. cbn [Js.isEmpty]. cbv zeta.
  rewrite H. destruct (Js.isEmpty _); reflexivity.
Qed.

Lemma join_absolute (base : string) (rest : list string) :
  PosixPath.isAbsolute base = true ->
  PosixPath.isAbsolute (PosixPath.join (base :: rest)) = true.
Proof.
  intros H. unfold PosixPath.join, Js.filterNonEmpty.
  destruct base as [|c b]; [discriminate|]. cbn [filter Js.isEmpty negb].
  apply normalize_absolute. unfold Js.join.
  destruct (filter _ rest); simpl in *; assumption.
Qed.

Lemma absolute_is_absoluteRef (base t : string) :
  Js.startsWith t "/" = true -> Url.isAbsoluteRef base t = true.
Proof.
  intros H. unfold Url.isAbsoluteRef. rewrite H.
  now rewrite orb_true_r.
Qed.

(** *** What each normalizer does to one attachment *)

Lemma withUrl_same (a : Attachment) (u : string) :
  att_url a = Some u -> withUrl a u = a.
Proof. destruct a; simpl; now intros ->. Qed.

Lemma consolidator_attachment (base : string) (parts : list string)
    (a : Attachment) (url : string) :
  att_url a = Some url ->
  BuildQuizzSets.normalizeAttachment base parts a =
  withUrl a (consolidatorUrl base parts url).
Proof.
  intros H. unfold BuildQuizzSets.normalizeAttachment, consolidatorUrl.
  rewrite H. cbv zeta.
  destruct (Url.isAbsoluteRef base (Js.trim url)).
  - destruct (String.eqb_spec (Js.trim url) url) as [E|E].
    + rewrite E. symmetry. now apply withUrl_same.
    + reflexivity.
  - match goal with |- context [String.eqb ?n url] =>
      destruct (String.eqb_spec n url) as [E|E]; [rewrite E|reflexivity] end.
    symmetry. now apply withUrl_same.
Qed.

Lemma seeder_attachment (base : string) (parts : list string)
    (a : Attachment) (url : string) :
  att_url a = Some url ->
  fst (Seeder.normalizeAttachment base parts a) =
  withUrl a (seederUrl base parts url).
Proof.
  intros H. unfold Seeder.normalizeAttachment, seederUrl.
  rewrite H. cbv zeta.
  destruct (Js.isEmpty (Js.trim url)).
  - simpl. symmetry. now apply withUrl_same.
  - destruct (Url.isAbsoluteRef base (Js.trim url)).
    + simpl. destruct (String.eqb_spec (Js.trim url) url) as [E|E].
      * rewrite E. symmetry. now apply withUrl_same.
      * reflexivity.
    + match goal with |- context [String.eqb ?n url] =>
        destruct (String.eqb_spec n url) as [E|E]; [rewrite E|reflexivity] end.
      simpl. symmetry. now apply withUrl_same.
Qed.

Lemma consolidatorUrl_absolute (base : string) (parts : list string)
    (url : string) :
  PosixPath.isAbsolute base = true ->
  Url.isAbsoluteRef base (Js.trim (consolidatorUrl base parts url)) = true.
Proof.
  intros Hb. unfold consolidatorUrl. cbv zeta.
  destruct (Url.isAbsoluteRef base (Js.trim url)) eqn:E.
  - now rewrite trim_idem.
  - apply absolute_is_absoluteRef, trim_absolute. now apply join_absolute.
Qed.

Lemma consolidatorUrl_twice (base : string) (parts : list string)
    (url : string) :
  PosixPath.isAbsolute base = true ->
  consolidatorUrl base parts (consolidatorUrl base parts url) =
  Js.trim (consolidatorUrl base parts url).
Proof.
  intros Hb. unfold consolidatorUrl at 1. cbv zeta.
  now rewrite consolidatorUrl_absolute.
Qed.

Lemma seederUrl_twice (base : string) (parts : list string) (url : string) :
  PosixPath.isAbsolute base = true ->
  seederUrl base parts (seederUrl base parts url) =
  if Js.isEmpty (Js.trim url) then url
  else Js.trim (seederUrl base parts url).
Proof.
  intros Hb.
  destruct (Js.isEmpty (Js.trim url)) eqn:E0.
  - assert (E : seederUrl base parts url = url)
      by (unfold seederUrl; cbv zeta; now rewrite E0).
    rewrite E. exact E.
  - assert (H : Url.isAbsoluteRef base (Js.trim (seederUrl base parts url)) = true
                /\ Js.isEmpty (Js.trim (seederUrl base parts url)) = false).
    { unfold seederUrl. cbv zeta. rewrite E0.
      destruct (Url.isAbsoluteRef base (Js.trim url)) eqn:E.
      - rewrite trim_idem. now split.
      - match goal with |- context [Js.trim (PosixPath.join ?l)] =>
          pose proof (trim_absolute (PosixPath.join l) (join_absolute base _ Hb)) as Ht;
          set (n := PosixPath.join l) in * end.
        split; [now apply absolute_is_absoluteRef|].
        destruct (Js.trim n); [discriminate | reflexivity]. }
    destruct H as [Ha He]. unfold seederUrl at 1. cbv zeta.
    now rewrite He, Ha.
Qed.

Lemma withUrl_withUrl (a : Attachment) (u v : string) :
  withUrl (withUrl a u) v = withUrl a v.
Proof. reflexivity. Qed.

Lemma consolidator_twice (base : string) (parts : list string) (a : Attachment) :
  PosixPath.isAbsolute base = true ->
  BuildQuizzSets.normalizeAttachment base parts
    (BuildQuizzSets.normalizeAttachment base parts a) =
  trimUrl (BuildQuizzSets.normalizeAttachment base parts a).
Proof.
  intros Hb. destruct (att_url a) as [url|] eqn:E.
  - rewrite (consolidator_attachment base parts a url E).
    rewrite (consolidator_attachment base parts
               (withUrl a (consolidatorUrl base parts url))
               (consolidatorUrl base parts url) eq_refl).
    rewrite consolidatorUrl_twice by assumption. reflexivity.
  - unfold BuildQuizzSets.normalizeAttachment, trimUrl. rewrite E.
    unfold BuildQuizzSets.normalizeAttachment. now rewrite E.
Qed.

Lemma trimUrl_trimmed (a : Attachment) : urlTrimmed a -> trimUrl a = a.
Proof.
  unfold urlTrimmed, trimUrl. destruct (att_url a) as [u|] eqn:E; [|reflexivity].
  intros ->. now apply withUrl_same.
Qed.

(** C3, as the code has it.  With the working directory absolute, as
    [process.cwd()] is, a second pass of either normalizer only trims the URL
    the first pass left: it changes nothing when that URL carries no white
    space at its ends (for the seeder also when it is blank), and in
    particular when the trimmed reference was an http(s) URL, began with
    "~" or "/", or began with the root. *)
Theorem second_pass_only_trims (cwd root relDir : string) :
  PosixPath.isAbsolute cwd = true ->
  let base := Url.basePrefix cwd root in
  let parts := Url.relParts relDir in
  (forall atts,
      let once := BuildQuizzSets.normalizeAttachments cwd atts relDir root in
      BuildQuizzSets.normalizeAttachments cwd once relDir root = List.map trimUrl once
      /\ (Forall urlTrimmed once ->
          BuildQuizzSets.normalizeAttachments cwd once relDir root = once))
  /\ (forall a,
      let once := fst (Seeder.normalizeAttachment base parts a) in
      urlTrimmed once \/ urlBlank once ->
      fst (Seeder.normalizeAttachment base parts once) = once)
  /\ (forall a url,
      att_url a = Some url ->
      Url.isAbsoluteRef base (Js.trim url) = true ->
      let once := BuildQuizzSets.normalizeAttachment base parts a in
      let once' := fst (Seeder.normalizeAttachment base parts a) in
      once = withUrl a (Js.trim url) /\ once' = once
      /\ BuildQuizzSets.normalizeAttachment base parts once = once
      /\ fst (Seeder.normalizeAttachment base parts once') = once').
Proof.
  intros Hcwd base parts.
  assert (Hb : PosixPath.isAbsolute base = true) by now apply basePrefix_absolute.
  split; [|split].
  - intros atts once. subst once. unfold BuildQuizzSets.normalizeAttachments.
    fold base. fold parts.
    assert (H1 : List.map (BuildQuizzSets.normalizeAttachment base parts)
                   (List.map (BuildQuizzSets.normalizeAttachment base parts) atts) =
                 List.map trimUrl
                   (List.map (BuildQuizzSets.normalizeAttachment base parts) atts)).
    { rewrite !map_map. apply map_ext. intros a. now apply consolidator_twice. }
    split; [exact H1|].
    intros HF. rewrite H1.
    rewrite <- (map_id (List.map _ atts)) at 2.
    apply map_ext_Forall. revert HF. apply Forall_impl.
    intros a. apply trimUrl_trimmed.
  - intros a once H. subst once.
    destruct (att_url a) as [url|] eqn:E.
    + rewrite (seeder_attachment base parts a url E) in *.
      rewrite (seeder_attachment base parts
                 (withUrl a (seederUrl base parts url))
                 (seederUrl base parts url) eq_refl).
      rewrite withUrl_withUrl, seederUrl_twice by assumption.
      destruct (Js.isEmpty (Js.trim url)) eqn:E0.
      * unfold seederUrl. cbv zeta. now rewrite E0.
      * unfold urlTrimmed, urlBlank in H. simpl in H.
        destruct H as [->|H]; [reflexivity|].
        exfalso. revert H. unfold seederUrl. cbv zeta. rewrite E0.
        destruct (Url.isAbsoluteRef base (Js.trim url)).
        -- rewrite trim_idem. intros H. now rewrite H in E0.
        -- match goal with |- context [Js.trim (PosixPath.join ?l)] =>
             pose proof (trim_absolute (PosixPath.join l) (join_absolute base _ Hb)) as Ht
           end.
           intros H. now rewrite H in Ht.
    + unfold Seeder.normalizeAttachment. rewrite E. unfold fst.
      unfold Seeder.normalizeAttachment. now rewrite E.
  - intros a url E Habs once once'. subst once once'.
    assert (Hne : Js.isEmpty (Js.trim url) = false).
    { destruct (Js.trim url); [|reflexivity].
      unfold Url.isAbsoluteRef in Habs. destruct base; discriminate. }
    assert (E1 : consolidatorUrl base parts url = Js.trim url)
      by (unfold consolidatorUrl; cbv zeta; now rewrite Habs).
    assert (E2 : seederUrl base parts url = Js.trim url)
      by (unfold seederUrl; cbv zeta; now rewrite Hne, Habs).
    rewrite (consolidator_attachment base parts a url E), E1.
    rewrite (seeder_attachment base parts a url E), E2.
    split; [reflexivity|]. split; [reflexivity|].
    rewrite (consolidator_attachment base parts (withUrl a (Js.trim url))
               (Js.trim url) eq_refl).
    rewrite (seeder_attachment base parts (withUrl a (Js.trim url))
               (Js.trim url) eq_refl).
    unfold consolidatorUrl, seederUrl. cbv zeta.
    rewrite trim_idem, Hne, Habs. split; reflexivity.
Qed.

Lemma second_pass_only_trims_witness :
  let once :=
    BuildQuizzSets.normalizeAttachments "/home/user" [Sample.attachment "./img/q1.png"]
      "python" "/repo" in
  BuildQuizzSets.normalizeAttachments "/home/user" once "python" "/repo" = once.
Proof.
  intros once.
  destruct (second_pass_only_trims "/home/user" "/repo" "python" eq_refl) as (H & _ & _).
  destruct (H [Sample.attachment "./img/q1.png"]) as [_ H'].
  apply H'. repeat constructor.
Defined.

(** C3, as the claim has it, fails: the reference "a /." is normalized to a
    path that ends in a blank, which the second pass trims away. *)
Lemma normalizing_twice_differs :
  let a := Sample.attachment "a /." in
  let once := BuildQuizzSets.normalizeAttachments "/repo" [a] "python" "/repo" in
  let twice := BuildQuizzSets.normalizeAttachments "/repo" once "python" "/repo" in
  List.map att_url once = [Some "/repo/python/a "]
  /\ List.map att_url twice = [Some "/repo/python/a"]
  /\ twice <> once.
Proof.
  vm_compute. split; [reflexivity|]. split; [reflexivity|]. discriminate.
Qed.

(** *** Identity of attachments *)

Lemma consolidator_frame (base : string) (parts : list string) (a : Attachment) :
  let a' := BuildQuizzSets.normalizeAttachment base parts a in
  att_id a' = att_id a /\ att_type a' = att_type a /\ att_rest a' = att_rest a.
Proof.
  cbv zeta. destruct (att_url a) as [url|] eqn:E.
  - rewrite (consolidator_attachment base parts a url E). now repeat split.
  - unfold BuildQuizzSets.normalizeAttachment. rewrite E. now repeat split.
Qed.

Lemma seeder_frame (base : string) (parts : list string) (a : Attachment) :
  let a' := fst (Seeder.normalizeAttachment base parts a) in
  att_id a' = att_id a /\ att_type a' = att_type a /\ att_rest a' = att_rest a.
Proof.
  cbv zeta. destruct (att_url a) as [url|] eqn:E.
  - rewrite (seeder_attachment base parts a url E). now repeat split.
  - unfold Seeder.normalizeAttachment. rewrite E. now repeat split.
Qed.

(** C6.  Either normalizer leaves the id, the type and every further field
    of an attachment as they were; the parser gives an attachment the
    reference as written for its URL and an id computed from the quiz id,
    the question index and that reference; so under two roots the
    consolidated attachments have the same ids, while their URLs may
    differ. *)
Theorem attachment_identity_stable :
  (forall base parts a,
      let a' := BuildQuizzSets.normalizeAttachment base parts a in
      let a'' := fst (Seeder.normalizeAttachment base parts a) in
      (att_id a' = att_id a /\ att_type a' = att_type a /\ att_rest a' = att_rest a)
      /\ (att_id a'' = att_id a /\ att_type a'' = att_type a /\ att_rest a'' = att_rest a))
  /\ (forall block quizId index a,
      In a (q_attachments (GenerateQuizJson.parseQuestionBlock block quizId index)) ->
      exists ref,
        In ref (flat_map GenerateQuizJson.imageRefs (GenerateQuizJson.body block))
        /\ att_url a = Some ref
        /\ att_id a =
           GenerateQuizJson.stableId
             [GenerateQuizJson.PStr "attachment"; GenerateQuizJson.PStr quizId;
              GenerateQuizJson.PNum index; GenerateQuizJson.PStr ref])
  /\ (forall cwd atts relDir root root',
      List.map att_id (BuildQuizzSets.normalizeAttachments cwd atts relDir root) =
      List.map att_id (BuildQuizzSets.normalizeAttachments cwd atts relDir root'))
  /\ (let atts := [Sample.attachment "./img/q1.png"] in
      List.map att_url (BuildQuizzSets.normalizeAttachments "/" atts "python" "/repo")
        = [Some "/repo/python/img/q1.png"]
      /\ List.map att_url (BuildQuizzSets.normalizeAttachments "/" atts "python" "/srv/quizzes")
        = [Some "/srv/quizzes/python/img/q1.png"]).
Proof.
  split; [|split; [|split]].
  - intros base parts a. split; [apply consolidator_frame | apply seeder_frame].
  - intros block quizId index a Hin.
    rewrite question_attachments in Hin. unfold lineAttachments in Hin.
    apply in_flat_map in Hin. destruct Hin as (line & Hl & Ha).
    apply in_map_iff in Ha. destruct Ha as (ref & <- & Hr).
    exists ref. split; [|split; reflexivity].
    apply in_flat_map. now exists line.
  - intros cwd atts relDir root root'.
    unfold BuildQuizzSets.normalizeAttachments. rewrite !map_map.
    apply map_ext. intros a.
    destruct (consolidator_frame (Url.basePrefix cwd root) (Url.relParts relDir) a)
      as (-> & _).
    destruct (consolidator_frame (Url.basePrefix cwd root') (Url.relParts relDir) a)
      as (-> & _).
    reflexivity.
  - vm_compute. split; reflexivity.
Qed.

Lemma attachment_identity_stable_witness :
  exists ref,
    In ref (flat_map GenerateQuizJson.imageRefs
              ["![fig](./img/q1.png)"])
    /\ att_url (Sample.attachment "./img/q1.png") = Some ref
    /\ att_id (Sample.attachment "./img/q1.png") =
       GenerateQuizJson.stableId
         [GenerateQuizJson.PStr "attachment";
          GenerateQuizJson.PStr
            (GenerateQuizJson.quizz_id (GenerateQuizJson.quizz Sample.parsed));
          GenerateQuizJson.PNum 1; GenerateQuizJson.PStr ref].
Proof.
  destruct attachment_identity_stable as (_ & H & _).
  apply (H (GenerateQuizJson.mkBlock "2. No choices here" ["![fig](./img/q1.png)"])
           (GenerateQuizJson.quizz_id (GenerateQuizJson.quizz Sample.parsed)) 1
           (Sample.attachment "./img/q1.png")).
  vm_compute. left. reflexivity.
Defined.

End AttachmentUrls.

(** ** Joining a reference to the root and the directory *)

Section RelativeReferences.
Import Props.
Local Open Scope list_scope.

Lemma isEmpty_append (a b : string) :
  Js.isEmpty a = false -> Js.isEmpty (a ++ b) = false.
Proof. now destruct a. Qed.

Lemma isAbsolute_append (a b : string) :
  Js.isEmpty a = false ->
  PosixPath.isAbsolute (a ++ b) = PosixPath.isAbsolute a.
Proof. now destruct a. Qed.

Lemma endsWithSep_append (a b : string) :
  Js.isEmpty b = false ->
  PosixPath.endsWithSep (a ++ b) = PosixPath.endsWithSep b.
Proof.
  intros Hb. induction a as [|x a IH]; [reflexivity|].
  cbn [append]. destruct (a ++ b)%string as [|y r] eqn:E.
  - destruct a; [simpl in E; subst b; discriminate | discriminate].
  - exact IH.
Qed.

Lemma endsWithSep_noSep (s : string) :
  noSep s = true -> PosixPath.endsWithSep s = false.
Proof.
  unfold noSep. induction s as [|x [|y r] IH]; simpl; intros H.
  - reflexivity.
  - rewrite andb_true_r in H. now apply negb_true_iff in H.
  - apply andb_prop in H. destruct H as [_ H]. now apply IH.
Qed.

Lemma splitOn_append (c : ascii) (a b : string) :
  Js.splitOn c (a ++ String c b) = Js.splitOn c a ++ Js.splitOn c b.
Proof.
  induction a as [|d a IH]; simpl.
  - now rewrite Ascii.eqb_refl.
  - destruct (Ascii.eqb d c); rewrite IH; [reflexivity|].
    destruct (splitOn_cons c a) as (q & qs & ->). reflexivity.
Qed.

Lemma splitOn_noSep (s : string) :
  noSep s = true -> Js.splitOn PosixPath.sep s = [s].
Proof.
  unfold noSep. induction s as [|d r IH]; simpl; intros H; [reflexivity|].
  apply andb_prop in H. destruct H as [Hd H].
  apply negb_true_iff in Hd. rewrite Hd, (IH H). reflexivity.
Qed.

Lemma splitOn_pieces (s : string) :
  forallb noSep (Js.splitOn PosixPath.sep s) = true.
Proof.
  induction s as [|d r IH]; simpl; [reflexivity|].
  destruct (Ascii.eqb d PosixPath.sep) eqn:E; simpl.
  - exact IH.
  - destruct (Js.splitOn PosixPath.sep r) as [|q qs]; simpl in *.
    + unfold noSep. simpl. now rewrite E.
    + unfold noSep in *. simpl. now rewrite E.
Qed.

Lemma plain_noSep (s : string) : plain s = true -> noSep s = true.
Proof. unfold plain. intros H. now apply andb_prop in H. Qed.

Lemma plain_not_empty (s : string) : plain s = true -> Js.isEmpty s = false.
Proof.
  unfold plain. intros H. destruct (Js.isEmpty s); [discriminate | reflexivity].
Qed.

Lemma forallb_plain_noSep (l : list string) :
  forallb plain l = true -> forallb noSep l = true.
Proof.
  rewrite !forallb_forall. intros H x Hx. apply plain_noSep. now apply H.
Qed.

Lemma concat_two (sep x y : string) (r : list string) :
  String.concat sep (x :: y :: r) = (x ++ sep ++ String.concat sep (y :: r))%string.
Proof. reflexivity. Qed.

Lemma concat_app (sep : string) (l1 l2 : list string) :
  l1 <> [] -> l2 <> [] ->
  String.concat sep (l1 ++ l2) =
  (String.concat sep l1 ++ sep ++ String.concat sep l2)%string.
Proof.
  intros H1 H2. induction l1 as [|x [|y r] IH]; [contradiction| |].
  - destruct l2 as [|z l2]; [contradiction | reflexivity].
  - change ((x :: y :: r) ++ l2) with (x :: y :: (r ++ l2)).
    rewrite !concat_two.
    change (y :: r ++ l2) with ((y :: r) ++ l2). rewrite IH by discriminate.
    now rewrite !append_assoc.
Qed.

Lemma join_not_empty (l : list string) :
  l <> [] -> forallb plain l = true -> Js.isEmpty (Js.join "/" l) = false.
Proof.
  unfold Js.join. destruct l as [|x [|y r]]; [contradiction| |]; simpl; intros _ H.
  - rewrite andb_true_r in H. now apply plain_not_empty.
  - apply andb_prop in H. destruct H as [H _].
    apply plain_not_empty in H. now destruct x.
Qed.

Lemma splitOn_join (l : list string) :
  l <> [] -> forallb noSep l = true ->
  Js.splitOn PosixPath.sep (Js.join "/" l) = l.
Proof.
  unfold Js.join. induction l as [|x [|y r] IH]; [contradiction| |]; intros _ H.
  - simpl in *. rewrite andb_true_r in H. now apply splitOn_noSep.
  - rewrite concat_two.
    change ("/" ++ String.concat "/" (y :: r))%string
      with (String PosixPath.sep (String.concat "/" (y :: r))).
    cbn [forallb] in H. apply andb_prop in H. destruct H as [Hx H].
    rewrite splitOn_append, (splitOn_noSep x Hx), IH; [reflexivity | discriminate | exact H].
Qed.

Lemma endsWithSep_join (l : list string) :
  forallb plain l = true -> PosixPath.endsWithSep (Js.join "/" l) = false.
Proof.
  unfold Js.join. induction l as [|x [|y r] IH]; intros H.
  - reflexivity.
  - simpl in *. rewrite andb_true_r in H.
    now apply endsWithSep_noSep, plain_noSep.
  - rewrite concat_two. cbn [forallb] in H.
    apply andb_prop in H. destruct H as [_ H].
    rewrite endsWithSep_append by reflexivity.
    pose proof (join_not_empty (y :: r) ltac:(discriminate) H) as Hne.
    unfold Js.join in Hne.
    rewrite endsWithSep_append by exact Hne. now apply IH.
Qed.

(** *** Normalizing segments *)

Lemma step_plain (allow : bool) (kept : list string) (s : string) :
  plain s = true -> PosixPath.normalizeStep allow kept s = s :: kept.
Proof.
  unfold plain, PosixPath.normalizeStep. intros H.
  apply andb_prop in H. destruct H as [H _].
  apply andb_prop in H. destruct H as [H H2].
  apply andb_prop in H. destruct H as [H0 H1].
  apply negb_true_iff in H0, H1, H2.
  assert (E : String.eqb s "" = false) by (destruct s; [discriminate | reflexivity]).
  now rewrite E, H1, H2.
Qed.

Lemma fold_plain (allow : bool) (l : list string) :
  forallb plain l = true ->
  forall kept, fold_left (PosixPath.normalizeStep allow) l kept = rev l ++ kept.
Proof.
  induction l as [|x r IH]; intros H kept; [reflexivity|].
  cbn [forallb] in H. apply andb_prop in H. destruct H as [Hx H].
  cbn [fold_left rev]. rewrite (step_plain allow kept x Hx), (IH H).
  now rewrite <- app_assoc.
Qed.

Lemma normalizeSegments_plain (allow : bool) (l : list string) :
  forallb plain l = true -> PosixPath.normalizeSegments allow l = l.
Proof.
  intros H. unfold PosixPath.normalizeSegments.
  rewrite (fold_plain allow l H), app_nil_r. apply rev_involutive.
Qed.

Lemma normalizeSegments_blank (allow : bool) (l : list string) :
  PosixPath.normalizeSegments allow ("" :: l) = PosixPath.normalizeSegments allow l.
Proof. reflexivity. Qed.

Lemma normalizeSegments_blank_inside (allow : bool) (l1 l2 : list string) :
  PosixPath.normalizeSegments allow (l1 ++ "" :: l2) =
  PosixPath.normalizeSegments allow (l1 ++ l2).
Proof.
  unfold PosixPath.normalizeSegments. now rewrite !fold_left_app.
Qed.

Lemma step_keeps_plain (kept : list string) (s : string) :
  forallb plain kept = true -> noSep s = true ->
  forallb plain (PosixPath.normalizeStep false kept s) = true.
Proof.
  intros Hk Hs. unfold PosixPath.normalizeStep.
  destruct (String.eqb s "") eqn:E0; [exact Hk|].
  destruct (String.eqb s ".") eqn:E1; [exact Hk|]. cbn [orb].
  destruct (String.eqb s "..") eqn:E2.
  - destruct kept as [|top below]; [reflexivity|].
    destruct (String.eqb top ".."); [exact Hk|].
    cbn [forallb] in Hk. apply andb_prop in Hk. now destruct Hk.
  - cbn [forallb]. rewrite Hk, andb_true_r. unfold plain.
    rewrite E1, E2, Hs. destruct s; [discriminate | reflexivity].
Qed.

Lemma normalizeSegments_false_plain (l : list string) :
  forallb noSep l = true ->
  forallb plain (PosixPath.normalizeSegments false l) = true.
Proof.
  intros H. unfold PosixPath.normalizeSegments.
  assert (G : forall kept, forallb plain kept = true ->
                forallb plain (fold_left (PosixPath.normalizeStep false) l kept) = true).
  { induction l as [|x r IH]; intros kept Hk; [exact Hk|].
    cbn [forallb] in H. apply andb_prop in H. destruct H as [Hx H].
    cbn [fold_left]. apply (IH H). now apply step_keeps_plain. }
  specialize (G [] eq_refl). rewrite forallb_forall in *.
  intros x Hx. apply G. now apply in_rev.
Qed.

(** A path resolved against an absolute working directory is "/" followed
    by plain segments. *)
Lemma resolve_shape (cwd root : string) :
  PosixPath.isAbsolute cwd = true ->
  exists segs, forallb plain segs = true
    /\ PosixPath.resolve cwd root = String PosixPath.sep (Js.join "/" segs).
Proof.
  intros H. unfold PosixPath.resolve. rewrite H, orb_true_r. cbv zeta.
  cbn [negb]. unfold PosixPath.normalizeString.
  eexists. split; [|reflexivity].
  apply normalizeSegments_false_plain, splitOn_pieces.
Qed.

Lemma filterNonEmpty_plain (l : list string) :
  forallb plain l = true -> Js.filterNonEmpty l = l.
Proof.
  intros H. unfold Js.filterNonEmpty. apply forallb_filter_id.
  rewrite forallb_forall in *. intros x Hx.
  now rewrite (plain_not_empty x (H x Hx)).
Qed.

Lemma join_flatten (parts refsegs : list string) :
  refsegs <> [] ->
  Js.join "/" (parts ++ [Js.join "/" refsegs]) = Js.join "/" (parts ++ refsegs).
Proof.
  intros Hr. unfold Js.join. destruct parts as [|x r]; [reflexivity|].
  rewrite !concat_app by (assumption || discriminate). reflexivity.
Qed.

Lemma rooted_join (segs l : list string) :
  forallb plain segs = true -> l <> [] ->
  String PosixPath.sep (Js.join "/" (segs ++ l)) =
  (rooted (String PosixPath.sep (Js.join "/" segs)) ++ "/" ++ Js.join "/" l)%string.
Proof.
  intros Hs Hl. destruct segs as [|x r]; [reflexivity|].
  pose proof (join_not_empty (x :: r) ltac:(discriminate) Hs) as Hne.
  unfold rooted, Js.join in *.
  rewrite concat_app by (assumption || discriminate).
  destruct (String.concat "/" (x :: r)) as [|c t]; [discriminate|]. reflexivity.
Qed.

(** Plain segments behind a resolved root are joined as they are. *)
Lemma join_plain (segs parts refsegs : list string) :
  forallb plain segs = true -> forallb plain parts = true ->
  forallb plain refsegs = true -> refsegs <> [] ->
  PosixPath.join (String PosixPath.sep (Js.join "/" segs)
                    :: parts ++ [Js.join "/" refsegs]) =
  String PosixPath.sep (Js.join "/" (segs ++ parts ++ refsegs)).
Proof.
  intros Hs Hp Hr Hne.
  assert (Hl : forallb plain (parts ++ refsegs) = true)
    by (rewrite forallb_app, Hp, Hr; reflexivity).
  assert (Hlne : parts ++ refsegs <> [])
    by (destruct parts; [assumption | discriminate]).
  pose proof (join_not_empty refsegs Hne Hr) as Hrne.
  unfold PosixPath.join.
  assert (F : Js.filterNonEmpty
                (String PosixPath.sep (Js.join "/" segs)
                   :: parts ++ [Js.join "/" refsegs]) =
              String PosixPath.sep (Js.join "/" segs)
                :: parts ++ [Js.join "/" refsegs]).
  { unfold Js.filterNonEmpty. cbn [filter Js.isEmpty negb].
    rewrite filter_app. fold (Js.filterNonEmpty parts).
    rewrite (filterNonEmpty_plain parts Hp). cbn [filter]. now rewrite Hrne. }
  rewrite F.
  assert (J : Js.join "/" (String PosixPath.sep (Js.join "/" segs)
                             :: parts ++ [Js.join "/" refsegs]) =
              (String PosixPath.sep (Js.join "/" segs)
                 ++ String PosixPath.sep (Js.join "/" (parts ++ refsegs)))%string).
  { rewrite <- (join_flatten parts refsegs Hne). unfold Js.join.
    destruct (parts ++ [String.concat "/" refsegs]) as [|y r] eqn:E.
    - destruct parts; discriminate.
    - reflexivity. }
  rewrite J. clear F J.
  set (base := String PosixPath.sep (Js.join "/" segs)).
  set (jl := Js.join "/" (parts ++ refsegs)).
  unfold PosixPath.normalize.
  rewrite isEmpty_append by reflexivity.
  rewrite isAbsolute_append by reflexivity.
  change (PosixPath.isAbsolute base) with true. cbv zeta. cbn [negb].
  assert (T : PosixPath.endsWithSep (base ++ String PosixPath.sep jl) = false).
  { pose proof (join_not_empty _ Hlne Hl) as Hj. fold jl in Hj.
    change (base ++ String PosixPath.sep jl)%string with (base ++ "/" ++ jl)%string.
    rewrite <- append_assoc, endsWithSep_append by exact Hj.
    now apply endsWithSep_join. }
  rewrite T.
  assert (Q : PosixPath.normalizeString (base ++ String PosixPath.sep jl) false =
              Js.join "/" (segs ++ parts ++ refsegs)).
  { unfold PosixPath.normalizeString. f_equal.
    rewrite splitOn_append. unfold jl.
    rewrite (splitOn_join _ Hlne (forallb_plain_noSep _ Hl)).
    unfold base. cbn [Js.splitOn]. rewrite Ascii.eqb_refl.
    rewrite <- app_comm_cons, normalizeSegments_blank.
    destruct segs as [|x r].
    - cbn [Js.join String.concat Js.splitOn]. rewrite <- app_comm_cons.
      rewrite normalizeSegments_blank. cbn [app].
      now apply normalizeSegments_plain.
    - rewrite (splitOn_join (x :: r) ltac:(discriminate) (forallb_plain_noSep _ Hs)).
      apply normalizeSegments_plain. rewrite forallb_app, Hs, Hl. reflexivity. }
  rewrite Q.
  assert (N : Js.isEmpty (Js.join "/" (segs ++ parts ++ refsegs)) = false).
  { apply join_not_empty.
    - destruct segs; [assumption | discriminate].
    - rewrite forallb_app, Hs, Hl. reflexivity. }
  rewrite N. reflexivity.
Qed.

(** A "/" in front of the last, non-empty argument of [join] is without
    effect. *)
Lemma join_leading_slash (base : string) (parts : list string) (r : string) :
  Js.isEmpty base = false -> Js.isEmpty r = false ->
  PosixPath.join (base :: parts ++ [String "/" r]) =
  PosixPath.join (base :: parts ++ [r]).
Proof.
  intros Hb Hr. unfold PosixPath.join, Js.filterNonEmpty.
  cbn [filter]. rewrite Hb. cbn [negb]. rewrite !filter_app. cbn [filter Js.isEmpty negb].
  rewrite Hr. cbn [negb].
  set (f := base :: filter (fun s => negb (Js.isEmpty s)) parts).
  change (base :: filter (fun s => negb (Js.isEmpty s)) parts ++ [String "/" r])
    with (f ++ [String "/"%char r]).
  change (base :: filter (fun s => negb (Js.isEmpty s)) parts ++ [r])
    with (f ++ [r]).
  assert (Hf : f <> []) by discriminate.
  destruct (f ++ [String "/"%char r]) as [|y1 l1] eqn:E1;
    [destruct f; discriminate|]. rewrite <- E1. clear E1 y1 l1.
  destruct (f ++ [r]) as [|y2 l2] eqn:E2;
    [destruct f; discriminate|]. rewrite <- E2. clear E2 y2 l2.
  unfold Js.join. rewrite !concat_app by (assumption || discriminate).
  cbn [String.concat].
  assert (Hp : Js.isEmpty (String.concat "/" f) = false).
  { unfold f. destruct (filter _ parts); cbn [String.concat];
      [assumption | now apply isEmpty_append]. }
  set (P := String.concat "/" f) in *.
  change (P ++ "/" ++ String "/" r)%string
    with (P ++ String PosixPath.sep (String PosixPath.sep r))%string.
  change (P ++ "/" ++ r)%string with (P ++ String PosixPath.sep r)%string.
  unfold PosixPath.normalize.
  rewrite !isEmpty_append by assumption.
  rewrite !isAbsolute_append by assumption. cbv zeta.
  assert (T : PosixPath.endsWithSep (P ++ String PosixPath.sep (String PosixPath.sep r))
              = PosixPath.endsWithSep (P ++ String PosixPath.sep r)).
  { change (P ++ String PosixPath.sep (String PosixPath.sep r))%string
      with (P ++ ("//" ++ r))%string.
    change (P ++ String PosixPath.sep r)%string with (P ++ ("/" ++ r))%string.
    rewrite <- !append_assoc. now rewrite !endsWithSep_append by assumption. }
  rewrite T.
  assert (Q : forall allow,
             PosixPath.normalizeString
               (P ++ String PosixPath.sep (String PosixPath.sep r)) allow =
             PosixPath.normalizeString (P ++ String PosixPath.sep r) allow).
  { intros allow. unfold PosixPath.normalizeString. f_equal.
    rewrite !splitOn_append. cbn [Js.splitOn]. rewrite Ascii.eqb_refl.
    apply normalizeSegments_blank_inside. }
  now rewrite Q.
Qed.

Lemma stripDotSlash_cases (t : string) :
  (exists r, t = String "." (String "/" r) /\ Url.stripDotSlash t = r)
  \/ Url.stripDotSlash t = t.
Proof.
  destruct t as [|c r]; [now right|].
  destruct (Ascii.eqb_spec c ".") as [->|Hc].
  - destruct r as [|d r]; [now right|].
    destruct (Ascii.eqb_spec d "/") as [->|Hd].
    + left. now exists r.
    + right. destruct d as [[] [] [] [] [] [] [] []];
        try reflexivity; contradiction.
  - right. destruct c as [[] [] [] [] [] [] [] []];
      try reflexivity; contradiction.
Qed.

Lemma stripSlash_cases (s : string) :
  (exists r, s = String "/" r /\ Url.stripSlash s = r)
  \/ (Js.startsWith s "/" = false /\ Url.stripSlash s = s).
Proof.
  destruct s as [|c r]; [now right|].
  destruct (Ascii.eqb_spec c "/") as [->|Hc].
  - left. now exists r.
  - right. destruct c as [[] [] [] [] [] [] [] []];
      (split; reflexivity) || contradiction.
Qed.

Lemma stripDotOrSlash_relative (t : string) :
  Js.startsWith t "/" = false -> Url.stripDotOrSlash t = Url.stripDotSlash t.
Proof.
  destruct t as [|c r]; [reflexivity|].
  destruct (Ascii.eqb_spec c "/") as [->|Hc].
  - unfold Js.startsWith. simpl. destruct r; discriminate.
  - intros _. destruct c as [[] [] [] [] [] [] [] []];
      try reflexivity; contradiction.
Qed.

Lemma starts_with_slash (r : string) : Js.startsWith (String "/" r) "/" = true.
Proof. unfold Js.startsWith. simpl. now destruct r. Qed.

(** The second replacement of [clean] matters for ".//" alone. *)
Lemma clean_join (base : string) (parts : list string) (t : string) :
  Js.isEmpty base = false -> Js.startsWith t "/" = false -> t <> ".//" ->
  PosixPath.join (base :: parts ++ [Url.stripSlash (Url.stripDotSlash t)]) =
  PosixPath.join (base :: parts ++ [Url.stripDotSlash t]).
Proof.
  intros Hb Ht Hne.
  destruct (stripDotSlash_cases t) as [(r & -> & ->) | ->].
  - destruct (stripSlash_cases r) as [(r' & -> & ->)|(_ & ->)]; [|reflexivity].
    destruct r' as [|c r']; [contradiction|].
    symmetry. now apply join_leading_slash.
  - destruct (stripSlash_cases t) as [(r' & -> & _)|(_ & ->)]; [|reflexivity].
    now rewrite starts_with_slash in Ht.
Qed.

Lemma isAbsoluteRef_slash (base t : string) :
  Url.isAbsoluteRef base t = false -> Js.startsWith t "/" = false.
Proof.
  unfold Url.isAbsoluteRef. intros H.
  apply orb_false_elim in H. destruct H as [H _].
  apply orb_false_elim in H. now destruct H.
Qed.

Lemma absolute_not_empty (base : string) :
  PosixPath.isAbsolute base = true -> Js.isEmpty base = false.
Proof. now destruct base. Qed.

Lemma plain_reference (ref : string) :
  forallb plain (Js.splitOn PosixPath.sep ref) = true ->
  Url.stripSlash ref = ref /\ Js.splitOn PosixPath.sep ref <> [].
Proof.
  intros H. split.
  - destruct (stripSlash_cases ref) as [(r & -> & _)|[_ E]]; [|exact E].
    simpl in H. discriminate.
  - destruct (splitOn_cons PosixPath.sep ref) as (q & qs & ->). discriminate.
Qed.

Lemma sample_reference_relative (base : string) :
  PosixPath.isAbsolute base = true ->
  Url.isAbsoluteRef base "./img/q1.png" = false.
Proof.
  destruct base as [|c b]; [discriminate|]. simpl. intros H.
  apply Ascii.eqb_eq in H. unfold PosixPath.sep in H. subst c. reflexivity.
Qed.

(** C4, as the code has it.  A reference whose trimmed text is not an
    http(s) URL and begins with neither "~", "/" nor the resolved root
    loses one leading "./", and one "/" should that follow, and is joined
    behind the root and the segments of the directory by
    [path.posix.join]; save for the reference ".//" that is the join of the
    reference without its "./"; and when the directory and the reference
    are made of plain segments, the result is root, directory and reference
    with "/" between them: "./img/q1.png" in "python" becomes
    "{root}/python/img/q1.png". *)
Theorem relative_reference_joined (cwd root relDir : string) :
  PosixPath.isAbsolute cwd = true ->
  let base := Url.basePrefix cwd root in
  let parts := Url.relParts relDir in
  (forall a url,
      att_url a = Some url ->
      Url.isAbsoluteRef base (Js.trim url) = false ->
      let t := Js.trim url in
      let a' := BuildQuizzSets.normalizeAttachment base parts a in
      att_url a' =
        Some (PosixPath.join
                (base :: parts ++ [Url.stripSlash (Url.stripDotSlash t)]))
      /\ (t <> ".//" ->
          att_url a' =
            Some (PosixPath.join (base :: parts ++ [Url.stripDotSlash t])))
      /\ (forallb plain parts = true ->
          forallb plain (Js.splitOn PosixPath.sep (Url.stripDotSlash t)) = true ->
          att_url a' =
            Some (rooted base ++ "/"
                    ++ Js.join "/" (parts ++ [Url.stripDotSlash t]))%string))
  /\ (forall a,
      att_url a = Some "./img/q1.png" ->
      List.map att_url (BuildQuizzSets.normalizeAttachments cwd [a] "python" root) =
      [Some (rooted base ++ "/python/img/q1.png")%string]).
Proof.
  intros Hcwd base parts.
  assert (Hb : PosixPath.isAbsolute base = true) by now apply basePrefix_absolute.
  assert (Hplain : forall ps a url,
            att_url a = Some url ->
            Url.isAbsoluteRef base (Js.trim url) = false ->
            forallb plain ps = true ->
            forallb plain (Js.splitOn PosixPath.sep (Url.stripDotSlash (Js.trim url))) = true ->
            att_url (BuildQuizzSets.normalizeAttachment base ps a) =
            Some (rooted base ++ "/"
                    ++ Js.join "/" (ps ++ [Url.stripDotSlash (Js.trim url)]))%string).
  { intros ps a url E Hrel Hp Hr.
    rewrite (consolidator_attachment base ps a url E). cbn [withUrl att_url].
    unfold consolidatorUrl. cbv zeta. rewrite Hrel. f_equal.
    destruct (plain_reference _ Hr) as [-> Hne].
    destruct (resolve_shape cwd root Hcwd) as (segs & Hs & Eb).
    unfold base. rewrite basePrefix_resolve, Eb.
    set (ref := Url.stripDotSlash (Js.trim url)) in *.
    assert (Eref : ref = Js.join "/" (Js.splitOn PosixPath.sep ref))
      by (symmetry; apply join_splitOn).
    set (rs := Js.splitOn PosixPath.sep ref) in *. clearbody rs.
    rewrite Eref.
    rewrite (join_plain segs ps rs Hs Hp Hr Hne).
    rewrite join_flatten by exact Hne.
    apply rooted_join; [exact Hs|].
    destruct ps; [exact Hne | discriminate]. }
  split.
  - intros a url E Hrel t a'. subst a'.
    split; [|split].
    + rewrite (consolidator_attachment base parts a url E). cbn [withUrl att_url].
      unfold consolidatorUrl. cbv zeta. now rewrite Hrel.
    + intros Hne.
      rewrite (consolidator_attachment base parts a url E). cbn [withUrl att_url].
      unfold consolidatorUrl. cbv zeta. rewrite Hrel. f_equal.
      apply clean_join; [now apply absolute_not_empty | | exact Hne].
      now apply (isAbsoluteRef_slash base).
    + intros Hp Hr. now apply Hplain.
  - intros a E. unfold BuildQuizzSets.normalizeAttachments. cbn [List.map].
    fold base.
    rewrite (Hplain (Url.relParts "python") a "./img/q1.png" E
               (sample_reference_relative base Hb) eq_refl eq_refl).
    reflexivity.
Qed.

Lemma relative_reference_joined_witness :
  List.map att_url
    (BuildQuizzSets.normalizeAttachments "/home/user"
       [Sample.attachment "./img/q1.png"] "python" "/repo") =
  [Some (rooted (Url.basePrefix "/home/user" "/repo") ++ "/python/img/q1.png")%string].
Proof.
  destruct (relative_reference_joined "/home/user" "/repo" "python" eq_refl)
    as [_ H].
  apply (H (Sample.attachment "./img/q1.png")). reflexivity.
Defined.

(** C4, as the claim has it, fails at the reference ".//": without its "./"
    it is "/", which [path.posix.join] keeps as a closing "/", while the
    normalizer removes that "/" too. *)
Lemma dot_slash_slash_reference :
  let a := Sample.attachment ".//" in
  Url.isAbsoluteRef (Url.basePrefix "/repo" "/repo") (Js.trim ".//") = false
  /\ List.map att_url (BuildQuizzSets.normalizeAttachments "/repo" [a] "python" "/repo")
     = [Some "/repo/python"]
  /\ PosixPath.join
       (Url.basePrefix "/repo" "/repo"
          :: Url.relParts "python" ++ [Url.stripDotSlash (Js.trim ".//")])
     = "/repo/python/".
Proof. vm_compute. repeat split; reflexivity. Qed.

(** *** The two normalizers side by side *)

(** Where the trimmed reference is neither empty nor ".//", the seeder and
    the consolidator give an attachment the same URL. *)
Lemma normalizers_agree (cwd root relDir : string) (a : Attachment) :
  PosixPath.isAbsolute cwd = true ->
  let base := Url.basePrefix cwd root in
  let parts := Url.relParts relDir in
  (forall url, att_url a = Some url ->
     Js.trim url <> "" /\ Js.trim url <> ".//") ->
  BuildQuizzSets.normalizeAttachment base parts a =
  fst (Seeder.normalizeAttachment base parts a).
Proof.
  intros Hcwd base parts H.
  assert (Hb : PosixPath.isAbsolute base = true) by now apply basePrefix_absolute.
  destruct (att_url a) as [url|] eqn:E.
  - destruct (H url eq_refl) as [H0 H1].
    rewrite (consolidator_attachment base parts a url E).
    rewrite (seeder_attachment base parts a url E). f_equal.
    unfold consolidatorUrl, seederUrl. cbv zeta.
    destruct (Js.trim url) as [|c r] eqn:Et; [contradiction|].
    cbn [Js.isEmpty]. rewrite <- Et in *.
    destruct (Url.isAbsoluteRef base (Js.trim url)) eqn:Ha; [reflexivity|].
    pose proof (isAbsoluteRef_slash _ _ Ha) as Hs.
    rewrite (stripDotOrSlash_relative _ Hs).
    apply clean_join; [now apply absolute_not_empty | exact Hs | exact H1].
  - unfold BuildQuizzSets.normalizeAttachment, Seeder.normalizeAttachment.
    now rewrite E.
Qed.

(** C10 fails on the code: for an empty URL the consolidator writes the
    path of the directory, the seeder leaves the URL alone and counts no
    change; for ".//" the two results differ in the closing "/". *)
Lemma normalizers_differ_on_blank_url :
  let cwd := "/repo" in
  let root := "/repo" in
  List.map att_url
    (BuildQuizzSets.normalizeAttachments cwd [Sample.attachment ""] "python" root)
    = [Some "/repo/python"]
  /\ Seeder.normalizeAttachmentUrls cwd (Seeder.Single [Sample.questionWith ""])
       "/repo/python/python-quiz.json" root
     = (Seeder.Single [Sample.questionWith ""], 0)
  /\ List.map att_url
       (BuildQuizzSets.normalizeAttachments cwd [Sample.attachment "   "] "python" root)
     = [Some "/repo/python"]
  /\ Seeder.normalizeAttachmentUrls cwd (Seeder.Single [Sample.questionWith "   "])
       "/repo/python/python-quiz.json" root
     = (Seeder.Single [Sample.questionWith "   "], 0)
  /\ List.map att_url
       (BuildQuizzSets.normalizeAttachments cwd [Sample.attachment ".//"] "python" root)
     = [Some "/repo/python"]
  /\ Seeder.normalizeAttachmentUrls cwd (Seeder.Single [Sample.questionWith ".//"])
       "/repo/python/python-quiz.json" root
     = (Seeder.Single
          [Seeder.setAttachments (Sample.questionWith ".//")
             [withUrl (Sample.attachment ".//") "/repo/python/"]], 1).
Proof. vm_compute. repeat split; reflexivity. Qed.

End RelativeReferences.

(** ** Consolidation *)

Section Consolidation.
Import BuildQuizzSets.
Local Open Scope list_scope.

Lemma sort_en_fr (p1 p2 : ParsedFile) :
  language p1 = "en" -> language p2 = "fr" ->
  sortByLanguage [p1; p2] = [p1; p2] /\ sortByLanguage [p2; p1] = [p1; p2].
Proof.
  intros H1 H2. unfold sortByLanguage. cbn [fold_right insertSorted].
  unfold languageAfter. rewrite H1, H2. split; reflexivity.
Qed.

Lemma pickBase_en (p : ParsedFile) (l : list ParsedFile) :
  language p = "en" -> pickBase (p :: l) = Some p.
Proof. intros H. unfold pickBase. cbn [find]. now rewrite H. Qed.

Lemma stamped (env : Env) (setId quizzId relDir root : string)
    (qs : list Question) :
  Forall (fun sq => sq_setId sq = setId /\ sq_quizzId sq = quizzId)
         (List.map (stampQuestion env setId quizzId relDir root) qs).
Proof.
  apply Forall_forall. intros sq H. apply in_map_iff in H.
  destruct H as (q & <- & _). now split.
Qed.

(** C5, as the code has it.  An "en" file and an "fr" file, in either
    order, give one aggregate with two sets, "en" before "fr", and
    [meta.languages = ["en"; "fr"]]; the id and the creator are those of
    the "en" document when it has them and they are not empty, else a fresh
    UUID and the default creator; the slug is that of the "en" title, or the
    base name of the directory when that slug is empty; each set has the id
    "{aggregate id}-{language}" and the questions of its document, every
    one stamped with the id of its set and the id of the aggregate. *)
Theorem consolidate_en_fr (env : Env) (dir root : string)
    (f1 f2 : string) (j1 j2 : QuizJson) (files : list (string * QuizJson)) :
  inferLanguage (j_language j1) f1 = "en" ->
  inferLanguage (j_language j2) f2 = "fr" ->
  files = [(f1, j1); (f2, j2)] \/ files = [(f2, j2); (f1, j1)] ->
  let c := buildCombinedPayload env dir files root in
  let q := combined_quizz c in
  List.map set_language (cq_sets q) = ["en"; "fr"]
  /\ cm_languages (combined_meta c) = ["en"; "fr"]
  /\ cq_id q = orElse (j_id j1) (uuid env)
  /\ (forall id, j_id j1 = Some id -> id <> "" -> cq_id q = id)
  /\ cq_createdById q = orElse (j_createdById j1) DEFAULT_CREATOR
  /\ (forall creator, j_createdById j1 = Some creator -> creator <> "" ->
        cq_createdById q = creator)
  /\ cq_slug q = (if Js.isEmpty (slugify (j_title j1))
                  then PosixPath.basename dir else slugify (j_title j1))
  /\ List.map set_id (cq_sets q) = [cq_id q ++ "-en"; cq_id q ++ "-fr"]%string
  /\ List.map (fun s => List.map (fun sq => q_id (sq_question sq)) (set_questions s))
              (cq_sets q)
     = [List.map q_id (j_questions j1); List.map q_id (j_questions j2)]
  /\ Forall (fun s =>
               Forall (fun sq => sq_setId sq = set_id s /\ sq_quizzId sq = cq_id q)
                      (set_questions s))
            (cq_sets q).
Proof.
  intros H1 H2 Hf c q.
  set (p1 := mkParsedFile f1 (inferLanguage (j_language j1) f1) j1).
  set (p2 := mkParsedFile f2 (inferLanguage (j_language j2) f2) j2).
  assert (L1 : language p1 = "en") by exact H1.
  assert (L2 : language p2 = "fr") by exact H2.
  assert (S : sortByLanguage
                (List.map (fun '(f, json) =>
                     mkParsedFile f (inferLanguage (j_language json) f) json) files)
              = [p1; p2]).
  { destruct (sort_en_fr p1 p2 L1 L2) as [Sa Sb].
    destruct Hf as [-> | ->]; [exact Sa | exact Sb]. }
  assert (C : c = buildCombinedPayload env dir files root) by reflexivity.
  unfold buildCombinedPayload in C. rewrite S in C.
  rewrite (pickBase_en p1 [p2] L1) in C. cbv zeta in C.
  subst q. rewrite C. clear C S. subst p1 p2.
  cbn [combined_quizz combined_meta cq_sets cq_id cq_slug cq_createdById
       cm_languages List.map set_language set_id set_questions buildSet
       data language] in *.
  rewrite L1, L2.
  split; [reflexivity|]. split; [reflexivity|]. split; [reflexivity|].
  split.
  { intros id E Hne. rewrite E. unfold orElse. now destruct id. }
  split; [reflexivity|].
  split.
  { intros creator E Hne. rewrite E. unfold orElse. now destruct creator. }
  split; [reflexivity|]. split; [reflexivity|].
  split.
  { rewrite !map_map. reflexivity. }
  repeat constructor; apply stamped.
Qed.

Lemma consolidate_en_fr_witness :
  let c := buildCombinedPayload Sample.env "/repo/python"
             [("/repo/python/python-quiz-fr.json", Sample.french);
              ("/repo/python/python-quiz.json", Sample.english)] "/repo" in
  List.map set_language (cq_sets (combined_quizz c)) = ["en"; "fr"]
  /\ cq_id (combined_quizz c) = "5357dda4d5cd74202128d676"
  /\ cq_createdById (combined_quizz c) = "seed-user".
Proof.
  intros c.
  destruct (consolidate_en_fr Sample.env "/repo/python" "/repo"
              "/repo/python/python-quiz.json" "/repo/python/python-quiz-fr.json"
              Sample.english Sample.french
              [("/repo/python/python-quiz-fr.json", Sample.french);
               ("/repo/python/python-quiz.json", Sample.english)])
    as (Hl & _ & _ & Hid & _ & Hcr & _).
  - vm_compute. reflexivity.
  - vm_compute. reflexivity.
  - right. reflexivity.
  - split; [exact Hl|]. split.
    + apply Hid; [vm_compute; reflexivity | discriminate].
    + apply Hcr; [vm_compute; reflexivity | discriminate].
Defined.

(** C5, as the claim has it, fails: the title "???" of the "en" document
    has an empty slug, and the aggregate takes the name of the directory
    for its slug. *)
Lemma slug_from_directory :
  let c := buildCombinedPayload Sample.env "/repo/python"
             [("/repo/python/python-quiz.json", Sample.untitled);
              ("/repo/python/python-quiz-fr.json", Sample.french)] "/repo" in
  j_title Sample.untitled = Some "???"
  /\ slugify (j_title Sample.untitled) = ""
  /\ cm_languages (combined_meta c) = ["en"; "fr"]
  /\ cq_slug (combined_quizz c) = "python".
Proof. vm_compute. repeat split; reflexivity. Qed.

End Consolidation.

(** ** The fields of a parsed question *)

Section QuestionFields.
Import GenerateQuizJson Props Order.
Local Open Scope list_scope.

Lemma subsequence_snoc {A : Type} (l1 l2 : list A) (x : A) :
  Subsequence l1 l2 -> Subsequence (l1 ++ [x]) (l2 ++ [x]).
Proof.
  induction 1 as [l | y l1 l2 _ IH | y l1 l2 _ IH]; simpl.
  - induction l as [|y l IH]; simpl; [repeat constructor|].
    now apply sub_skip.
  - now apply sub_keep.
  - now apply sub_skip.
Qed.

Lemma subsequence_skip_last {A : Type} (l1 l2 : list A) (x : A) :
  Subsequence l1 l2 -> Subsequence l1 (l2 ++ [x]).
Proof.
  induction 1 as [l | y l1 l2 _ IH | y l1 l2 _ IH]; simpl.
  - constructor.
  - now apply sub_keep.
  - now apply sub_skip.
Qed.


Lemma scanLine_subsequence (quizId : string) (index : nat) (s : Scan)
    (line : string) :
  Subsequence (correctAnswer s) (options s) ->
  Subsequence (correctAnswer (scanLine quizId index s line))
              (options (scanLine quizId index s line)).
Proof.
  intros H. unfold scanLine.
  destruct (matchOption line) as [[mark g]|];
    destruct (if Js.startsWith (Js.trim line) "```" then negb (insideCode s)
              else insideCode s);
    try (destruct (negb (insideOptions s)); exact H).
  cbn [correctAnswer options].
  destruct (Ascii.eqb (Js.lowerChar mark) "x").
  - now apply subsequence_snoc.
  - now apply subsequence_skip_last.
Qed.

Lemma scanBody_subsequence (quizId : string) (index : nat)
    (lines : list string) :
  forall s, Subsequence (correctAnswer s) (options s) ->
    Subsequence (correctAnswer (fold_left (scanLine quizId index) lines s))
                (options (fold_left (scanLine quizId index) lines s)).
Proof.
  induction lines as [|l r IH]; intros s H; simpl; [exact H|].
  apply IH. now apply scanLine_subsequence.
Qed.

Lemma question_subsequence (block : Block) (quizId : string) (index : nat) :
  Subsequence (q_correctAnswer (parseQuestionBlock block quizId index))
              (q_options (parseQuestionBlock block quizId index)).
Proof.
  destruct (question_fields block quizId index) as (-> & -> & _).
  unfold scanBody. apply scanBody_subsequence. constructor.
Qed.



(** *** Trimmed texts *)

Lemma trim_trimmed (s : string) : Trimmed (Js.trim s).
Proof. apply trim_idem. Qed.

Lemma orNull_trim (s : string) : TrimmedText (orNull (Js.trim s)).
Proof.
  unfold orNull. destruct (Js.trim s) eqn:E; simpl; [exact I|].
  split; [|discriminate]. rewrite <- E. apply trim_trimmed.
Qed.

Lemma scanLine_trimmed (quizId : string) (index : nat) (s : Scan) (line : string) :
  Forall Trimmed (options s) ->
  Forall Trimmed (options (scanLine quizId index s line)).
Proof.
  intros H. unfold scanLine.
  destruct (matchOption line) as [[mark g]|];
    destruct (if Js.startsWith (Js.trim line) "```" then negb (insideCode s)
              else insideCode s);
    try (destruct (negb (insideOptions s)); exact H).
  cbn [options]. apply Forall_app. split; [exact H|].
  constructor; [apply trim_trimmed | constructor].
Qed.

Lemma scanBody_trimmed (quizId : string) (index : nat) (lines : list string) :
  forall s, Forall Trimmed (options s) ->
    Forall Trimmed (options (fold_left (scanLine quizId index) lines s)).
Proof.
  induction lines as [|l r IH]; intros s H; simpl; [exact H|].
  apply IH. now apply scanLine_trimmed.
Qed.

Lemma subsequence_Forall {A : Type} (P : A -> Prop) (l1 l2 : list A) :
  Subsequence l1 l2 -> Forall P l2 -> Forall P l1.
Proof.
  induction 1 as [l | y l1 l2 _ IH | y l1 l2 _ IH]; intros H.
  - constructor.
  - inversion H; subst. constructor; [assumption | now apply IH].
  - inversion H; subst. now apply IH.
Qed.

(** X2.  Every text of a parsed question is trimmed: the question text,
    each option and each correct answer carry no white space at their ends,
    and a hint or an explanation, when there is one, is trimmed and not
    empty. *)
Theorem question_texts_trimmed (block : Block) (quizId : string) (index : nat) :
  let q := parseQuestionBlock block quizId index in
  Trimmed (q_question q)
  /\ Forall Trimmed (q_options q)
  /\ Forall Trimmed (q_correctAnswer q)
  /\ TrimmedText (q_hint q)
  /\ TrimmedText (q_explanation q).
Proof.
  intros q.
  assert (Ho : Forall Trimmed (q_options q)).
  { subst q. destruct (question_fields block quizId index) as (-> & _ & _).
    unfold scanBody. apply scanBody_trimmed. constructor. }
  assert (Hc : Forall Trimmed (q_correctAnswer q)).
  { apply (subsequence_Forall Trimmed _ (q_options q)); [|exact Ho].
    apply question_subsequence. }
  split; [|split; [exact Ho | split; [exact Hc|]]].
  - subst q. unfold parseQuestionBlock.
    destruct (fold_left classifyTrailing _ _) as [hl el]. cbn [q_question].
    apply trim_trimmed.
  - subst q. unfold parseQuestionBlock.
    destruct (fold_left classifyTrailing _ _) as [hl el].
    cbn [q_hint q_explanation]. split; apply orNull_trim.
Qed.

(** *** The answer line *)

Lemma join_empty (sep : string) (l : list string) :
  sep <> "" ->
  (Js.join sep l = "" <-> l = [] \/ l = [""]).
Proof.
  intros Hs. unfold Js.join. split.
  - destruct l as [|x [|y r]]; simpl; intros H.
    + now left.
    + right. now rewrite H.
    + exfalso. destruct x; [|discriminate]. simpl in H.
      destruct sep; [contradiction | discriminate].
  - intros [-> | ->]; reflexivity.
Qed.

(** X3.  The [answer] of a question is the correct answers joined by "; ";
    it is [null] exactly when nothing is marked or when the one marked
    option has an empty text. *)
Theorem answer_of_correct_answers (block : Block) (quizId : string) (index : nat) :
  let q := parseQuestionBlock block quizId index in
  (q_answer q = None <-> q_correctAnswer q = [] \/ q_correctAnswer q = [""])
  /\ (forall a, q_answer q = Some a -> a = Js.join "; " (q_correctAnswer q)).
Proof.
  intros q. subst q. unfold parseQuestionBlock.
  destruct (fold_left classifyTrailing _ _) as [hl el].
  cbn [q_answer q_correctAnswer]. unfold orNull.
  set (ca := correctAnswer (scanBody quizId index (body block))).
  pose proof (join_empty "; " ca ltac:(discriminate)) as J.
  destruct (Js.join "; " ca) as [|c r] eqn:E; cbn [Js.isEmpty].
  - split; [|intros a H; discriminate]. split; intros _; [now apply J | reflexivity].
  - split.
    + split; [discriminate|]. intros H. apply J in H. discriminate.
    + intros a H. now injection H as <-.
Qed.

Lemma answer_of_correct_answers_witness :
  q_answer (parseQuestionBlock (mkBlock "1. Blank" ["- [x]  "]) "quiz" 0) = None.
Proof.
  destruct (answer_of_correct_answers (mkBlock "1. Blank" ["- [x]  "]) "quiz" 0)
    as [[_ H] _].
  apply H. right. vm_compute. reflexivity.
Defined.

End QuestionFields.

(** ** Headings, titles and descriptions *)

Section Headings.
Import GenerateQuizJson Props Order.
Local Open Scope list_scope.

Lemma dropWhile_all (p : ascii -> bool) (s : string) :
  Js.all p s = true -> Js.dropWhile p s = "".
Proof.
  induction s as [|c r IH]; simpl; [reflexivity|].
  intros H. apply andb_prop in H. destruct H as [Hc H]. rewrite Hc. now apply IH.
Qed.

Lemma dropWhile_suffix_all (p q : ascii -> bool) (s : string) :
  Js.all p s = true -> Js.all p (Js.dropWhile q s) = true.
Proof.
  induction s as [|c r IH]; simpl; [reflexivity|].
  intros H. destruct (q c).
  - apply andb_prop in H. destruct H as [_ H]. now apply IH.
  - exact H.
Qed.

Lemma dropWhile_head (p : ascii -> bool) (s : string) (c : ascii) (r : string) :
  Js.dropWhile p s = String c r -> p c = false.
Proof.
  induction s as [|d t IH]; simpl; [discriminate|].
  destruct (p d) eqn:E; [exact IH|]. intros H. injection H as -> _. exact E.
Qed.

Lemma trim_blank (s : string) : Js.all Js.isSpace s = true -> Js.trim s = "".
Proof.
  intros H. unfold Js.trim, Js.trimStart. now rewrite dropWhile_all.
Qed.

Lemma trim_not_blank (s : string) :
  Js.trim s = "" -> Js.all Js.isSpace s = true.
Proof.
  unfold Js.trim, Js.trimStart. induction s as [|c r IH]; [reflexivity|].
  cbn [Js.dropWhile Js.all]. destruct (Js.isSpace c) eqn:E; [exact IH|].
  intros H. destruct (trimEnd_keeps_head c r E) as [r' E']. congruence.
Qed.

Lemma trim_starting (c : ascii) (r : string) :
  Js.isSpace c = false -> Js.trim (String c r) <> "".
Proof.
  intros H E. apply trim_not_blank in E. simpl in E. now rewrite H in E.
Qed.

(** X4.  The question text that [stripQuestionNumber] leaves is trimmed,
    and it is empty only for a heading that is blank: a heading that is
    nothing but a number keeps it. *)
Theorem stripped_heading_not_empty (text : string) :
  Trimmed (stripQuestionNumber text)
  /\ (stripQuestionNumber text = "" <-> Js.trim text = "").
Proof.
  unfold stripQuestionNumber.
  set (r1 := Js.dropWhile Js.isSpace (Js.dropWhile isLabelChar text)).
  destruct r1 as [|d r] eqn:E1; [split; [apply trim_trimmed | reflexivity]|].
  destruct (Js.isDigit d) eqn:Ed; [|split; [apply trim_trimmed | reflexivity]].
  assert (Ht : Js.trim text <> "").
  { intros H. apply trim_not_blank in H.
    pose proof (dropWhile_suffix_all Js.isSpace isLabelChar text H) as H1.
    apply dropWhile_all in H1. subst r1. congruence. }
  cbv zeta.
  match goal with |- context [noLineTerminator ?x && negb (Js.isEmpty ?x)] =>
    set (rest := x) end.
  destruct (noLineTerminator rest && negb (Js.isEmpty rest)) eqn:Er;
    [|split; [apply trim_trimmed | reflexivity]].
  split; [apply trim_trimmed|].
  split; [|intros H; contradiction].
  intros H. exfalso. apply andb_prop in Er. destruct Er as [_ Er].
  destruct rest as [|c t] eqn:E; [discriminate|].
  apply dropWhile_head in E. now apply (trim_starting c t E).
Qed.

Lemma stripped_heading_not_empty_witness : stripQuestionNumber "   " = "".
Proof.
  apply (proj2 (stripped_heading_not_empty "   ")). reflexivity.
Defined.

(** *** [buildTitleFromPath] *)

Lemma splitWhen_cons (p : ascii -> bool) (s : string) :
  exists q qs, Js.splitWhen p s = q :: qs.
Proof.
  destruct s as [|c r]; simpl.
  - now exists "", [].
  - destruct (p c).
    + now exists "", (Js.splitWhen p r).
    + destruct (Js.splitWhen p r) as [|q qs].
      * now exists (String c ""), [].
      * now exists (String c q), qs.
Qed.

Lemma join_blank_cons (x y : string) (r : list string) :
  Js.join " " (x :: y :: r) = (x ++ String " " (Js.join " " (y :: r)))%string.
Proof. reflexivity. Qed.

(** The parts of a text and the blanks between them are as long as the
    text. *)
Lemma parts_length (folder : string) :
  String.length (Js.join " " (Js.splitWhen isDashOrUnderscore folder))
  = String.length folder.
Proof.
  induction folder as [|c r IH]; [reflexivity|].
  cbn [Js.splitWhen].
  destruct (splitWhen_cons isDashOrUnderscore r) as (q & qs & E).
  rewrite E in *. destruct (isDashOrUnderscore c).
  - rewrite join_blank_cons, length_append. cbn [String.length]. now rewrite IH.
  - destruct qs as [|q2 qs].
    + unfold Js.join in *. cbn [String.concat String.length] in *. now rewrite IH.
    + rewrite join_blank_cons in *. rewrite length_append in *.
      cbn [String.length append] in *. lia.
Qed.

Lemma upperChar_shape (c : ascii) :
  match Js.upperChar c with
  | Some u =>
      noDash u = noDash (String c "")
      /\ (String.length u = 1 \/ (Js.code c = 223 /\ String.length u = 2))
  | None => Js.code c = 181 \/ Js.code c = 255
  end.
Proof.
  destruct c as [[] [] [] [] [] [] [] []]; vm_compute;
    first [ split; [reflexivity | left; reflexivity]
          | split; [reflexivity | right; split; reflexivity]
          | left; reflexivity | right; reflexivity ].
Qed.

(** A part with its first character in upper case. *)
Lemma capitalize_shape (s t : string) :
  capitalize s = Some t ->
  noDash t = noDash s
  /\ String.length s <= String.length t
  /\ (evenCase s = true -> String.length t = String.length s).
Proof.
  destruct s as [|c r]; cbn [capitalize].
  - intros E. injection E as <-. repeat split; auto.
  - pose proof (upperChar_shape c) as H.
    destruct (Js.upperChar c) as [u|]; [|discriminate].
    intros E. injection E as <-. destruct H as [Hd Hl].
    unfold noDash in *. rewrite all_append, Hd, length_append.
    cbn [Js.all String.length evenCase]. split; [now rewrite andb_true_r|].
    split; [destruct Hl as [->|[_ ->]]; lia|].
    intros He. unfold evenCase in He. cbn [Js.all] in He.
    apply andb_prop in He. destruct He as [He _].
    destruct Hl as [->|[E _]]; [reflexivity|].
    rewrite E in He. discriminate.
Qed.

Lemma capitalize_some (s : string) :
  evenCase s = true -> exists t, capitalize s = Some t.
Proof.
  destruct s as [|c r]; [now exists ""|]. cbn [capitalize]. intros He.
  pose proof (upperChar_shape c) as H.
  destruct (Js.upperChar c) as [u|]; [now eexists|].
  unfold evenCase in He. cbn [Js.all] in He.
  apply andb_prop in He. destruct He as [He _].
  destruct H as [E|E]; rewrite E in He; discriminate.
Qed.

Lemma splitWhen_noDash (s : string) :
  forallb noDash (Js.splitWhen isDashOrUnderscore s) = true.
Proof.
  induction s as [|c r IH]; [reflexivity|]. cbn [Js.splitWhen].
  destruct (isDashOrUnderscore c) eqn:E; [exact IH|].
  destruct (Js.splitWhen isDashOrUnderscore r) as [|q qs]; simpl in *.
  - unfold noDash. simpl. now rewrite E.
  - unfold noDash in *. simpl. now rewrite E.
Qed.

Lemma splitWhen_evenCase (s : string) :
  evenCase s = true ->
  forallb evenCase (Js.splitWhen isDashOrUnderscore s) = true.
Proof.
  unfold evenCase. induction s as [|c r IH]; [reflexivity|].
  cbn [Js.all Js.splitWhen]. intros H. apply andb_prop in H. destruct H as [Hc H].
  specialize (IH H). destruct (isDashOrUnderscore c); [exact IH|].
  destruct (Js.splitWhen isDashOrUnderscore r) as [|q qs]; cbn [forallb Js.all] in *.
  - now rewrite Hc.
  - now rewrite Hc.
Qed.

Lemma join_blank_noDash (l : list string) :
  forallb noDash l = true -> noDash (Js.join " " l) = true.
Proof.
  induction l as [|x [|y r] IH]; intros H.
  - reflexivity.
  - simpl in *. now rewrite andb_true_r in H.
  - rewrite join_blank_cons. cbn [forallb] in H.
    apply andb_prop in H. destruct H as [Hx H].
    unfold noDash in *. rewrite all_append, Hx. simpl. now apply IH.
Qed.

Lemma join_blank_length (l : list string) :
  String.length (Js.join " " l)
  = list_sum (List.map String.length l) + Nat.pred (List.length l).
Proof.
  induction l as [|x [|y r] IH]; [reflexivity | cbn; lia|].
  rewrite join_blank_cons, length_append. cbn [String.length].
  rewrite IH. cbn [List.map List.length list_sum fold_right Nat.pred]. lia.
Qed.

(** The parts with their first characters in upper case. *)
Lemma capitalizeAll_shape (parts caps : list string) :
  capitalizeAll parts = Some caps ->
  List.length caps = List.length parts
  /\ (forallb noDash parts = true -> forallb noDash caps = true)
  /\ list_sum (List.map String.length parts) <= list_sum (List.map String.length caps)
  /\ (forallb evenCase parts = true ->
      list_sum (List.map String.length caps) = list_sum (List.map String.length parts)).
Proof.
  revert caps. induction parts as [|p r IH]; intros caps E; cbn [capitalizeAll] in E.
  - injection E as <-. repeat split; auto.
  - destruct (capitalize p) as [t|] eqn:Ep; [|discriminate].
    destruct (capitalizeAll r) as [ts|]; [|discriminate].
    injection E as <-. destruct (IH ts eq_refl) as (L & D & S & V).
    destruct (capitalize_shape p t Ep) as (Dp & Sp & Vp).
    cbn [List.length List.map forallb].
    change (list_sum (?a :: ?l)) with (a + list_sum l).
    repeat split.
    + now rewrite L.
    + intros H. apply andb_prop in H. destruct H as [H1 H2].
      now rewrite Dp, H1, (D H2).
    + lia.
    + intros H. apply andb_prop in H. destruct H as [H1 H2].
      rewrite (Vp H1), (V H2). reflexivity.
Qed.

Lemma capitalizeAll_some (parts : list string) :
  forallb evenCase parts = true -> exists caps, capitalizeAll parts = Some caps.
Proof.
  induction parts as [|p r IH]; [now exists []|]. cbn [forallb capitalizeAll].
  intros H. apply andb_prop in H. destruct H as [H1 H2].
  destruct (capitalize_some p H1) as [t ->], (IH H2) as [ts ->]. now eexists.
Qed.

Lemma path_title (sourcePath : string) :
  buildTitleFromPath sourcePath
  = match capitalizeAll (Js.splitWhen isDashOrUnderscore (firstSegment sourcePath)) with
    | Some parts => Some (Js.join " " parts)
    | None => None
    end.
Proof.
  unfold buildTitleFromPath, firstSegment.
  now destruct (splitOn_cons PosixPath.sep sourcePath) as (f & r & ->).
Qed.

Lemma path_title_length (sourcePath t : string) :
  buildTitleFromPath sourcePath = Some t ->
  noDash t = true
  /\ String.length (firstSegment sourcePath) <= String.length t
  /\ (evenCase (firstSegment sourcePath) = true ->
      String.length t = String.length (firstSegment sourcePath)).
Proof.
  rewrite path_title. set (f := firstSegment sourcePath).
  destruct (capitalizeAll (Js.splitWhen isDashOrUnderscore f)) as [caps|] eqn:E;
    [|discriminate].
  intros H. injection H as <-.
  destruct (capitalizeAll_shape _ _ E) as (L & D & S & V).
  rewrite <- (parts_length f), !join_blank_length, L.
  split; [apply join_blank_noDash, D, splitWhen_noDash|].
  split; [lia|]. intros He. rewrite (V (splitWhen_evenCase f He)). reflexivity.
Qed.

(** X5.  A title built from a path holds neither "-" nor "_", each of
    them has become one blank, and it is not shorter than the first segment of
    the path.  When the segment holds none of U+00B5, U+00DF and U+00FF
    there is such a title and it is as long as the segment; a part that
    begins with U+00DF makes the title longer, "SS" standing for it. *)
Theorem path_title_shape (sourcePath : string) :
  (forall t,
      buildTitleFromPath sourcePath = Some t ->
      noDash t = true
      /\ String.length (firstSegment sourcePath) <= String.length t)
  /\ (evenCase (firstSegment sourcePath) = true ->
      exists t,
        buildTitleFromPath sourcePath = Some t
        /\ String.length t = String.length (firstSegment sourcePath))
  /\ (forall r,
        firstSegment sourcePath = String "223" r -> noDash r = true ->
        buildTitleFromPath sourcePath = Some (String "S" (String "S" r))).
Proof.
  split; [|split].
  - intros t H. destruct (path_title_length sourcePath t H) as (D & L & _).
    now split.
  - intros He.
    destruct (capitalizeAll_some _ (splitWhen_evenCase _ He)) as [caps E].
    assert (H : buildTitleFromPath sourcePath = Some (Js.join " " caps))
      by (rewrite path_title; now rewrite E).
    exists (Js.join " " caps). split; [exact H|].
    now apply (path_title_length sourcePath).
  - intros r E Hd. rewrite path_title, E.
    assert (S : Js.splitWhen isDashOrUnderscore (String "223" r)
                = [String "223" r]).
    { cbn [Js.splitWhen]. change (isDashOrUnderscore "223") with false. cbv iota.
      clear E. unfold noDash in Hd.
      assert (G : Js.splitWhen isDashOrUnderscore r = [r]).
      { induction r as [|c r IH]; [reflexivity|]. cbn [Js.all] in Hd.
        apply andb_prop in Hd. destruct Hd as [Hc Hd]. apply negb_true_iff in Hc.
        cbn [Js.splitWhen]. now rewrite Hc, (IH Hd). }
      now rewrite G. }
    rewrite S. reflexivity.
Qed.

Lemma path_title_shape_witness :
  buildTitleFromPath (String "223" "eta/q.md") = Some "SSeta".
Proof.
  destruct (path_title_shape (String "223" "eta/q.md")) as (_ & _ & H).
  exact (H "eta" eq_refl eq_refl).
Defined.

(** *** Title and description of a parsed quiz *)

Lemma collapse_single (s : string) :
  forall inSpace,
    SingleSpaced (Js.collapseFrom inSpace s) = true
    /\ (inSpace = true ->
        match Js.collapseFrom inSpace s with
        | String d _ => Js.isSpace d = false
        | EmptyString => True
        end).
Proof.
  induction s as [|c r IH]; intros inSpace; [now split|].
  cbn [Js.collapseFrom]. destruct (Js.isSpace c) eqn:Ec.
  - destruct (IH true) as [H1 H2]. specialize (H2 eq_refl).
    destruct inSpace.
    + split; [exact H1 | now intros _].
    + split; [|discriminate]. cbn [SingleSpaced].
      change (Js.isSpace " ") with true. cbn [Ascii.eqb]. rewrite H1.
      destruct (Js.collapseFrom true r); [reflexivity|]. now rewrite H2.
  - destruct (IH false) as [H1 _]. split.
    + cbn [SingleSpaced]. now rewrite Ec, H1.
    + now intros _.
Qed.

Lemma single_dropWhile (p : ascii -> bool) (s : string) :
  SingleSpaced s = true -> SingleSpaced (Js.dropWhile p s) = true.
Proof.
  induction s as [|c r IH]; [reflexivity|]. cbn [Js.dropWhile].
  intros H. destruct (p c); [|exact H].
  apply IH. cbn [SingleSpaced] in H. apply andb_prop in H. now destruct H.
Qed.

Lemma trimEnd_head (s : string) :
  match Js.trimEnd s with
  | String d _ => exists r, s = String d r
  | EmptyString => True
  end.
Proof.
  destruct s as [|c r]; [exact I|]. cbn [Js.trimEnd].
  destruct (Js.trimEnd r); [destruct (Js.isSpace c); [exact I|]|]; now exists r.
Qed.

Lemma single_trimEnd (s : string) :
  SingleSpaced s = true -> SingleSpaced (Js.trimEnd s) = true.
Proof.
  induction s as [|c r IH]; [reflexivity|].
  intros H. cbn [SingleSpaced] in H. apply andb_prop in H. destruct H as [Hc H].
  specialize (IH H). cbn [Js.trimEnd].
  pose proof (trimEnd_head r) as Hh.
  destruct (Js.trimEnd r) as [|d t] eqn:E.
  - destruct (Js.isSpace c) eqn:Ec; [reflexivity|].
    cbn [SingleSpaced]. now rewrite Ec.
  - cbn [SingleSpaced] in *. rewrite IH, andb_true_r.
    destruct Hh as [r0 ->]. exact Hc.
Qed.

Lemma single_trim (s : string) :
  SingleSpaced s = true -> SingleSpaced (Js.trim s) = true.
Proof.
  intros H. unfold Js.trim, Js.trimStart.
  now apply single_trimEnd, single_dropWhile.
Qed.

Lemma title_from_path_not_empty (sourcePath : string) :
  firstSegment sourcePath <> "" -> buildTitleFromPath sourcePath <> Some "".
Proof.
  intros H E. destruct (path_title_length sourcePath "" E) as (_ & L & _).
  cbn in L. destruct (firstSegment sourcePath); [contradiction | cbn in L; lia].
Qed.

(** X6.  The description of a parsed quiz is never empty.  It is made of
    the lines before the first question heading, those taken for the title
    left out: joined by blanks, every run of white space turned into one
    blank, trimmed; when nothing is left of them it is "Seeded from" and the
    source path.  The title is never the empty text when the first segment
    of the source path is not empty, and it is a text of the model when
    that segment holds none of U+00B5, U+00DF and U+00FF. *)
Theorem title_and_description_present (now content sourcePath createdById : string) :
  let q := quizz (parseQuizMarkdown now content sourcePath createdById) in
  let intro :=
    Js.trim (Js.collapseSpaces
               (Js.join " " (preamble (withoutTitleLines (Js.splitLines content))))) in
  quizz_description q <> ""
  /\ (intro = "" -> quizz_description q = ("Seeded from " ++ sourcePath)%string)
  /\ (intro <> "" ->
      quizz_description q = intro
      /\ Trimmed (quizz_description q)
      /\ SingleSpaced (quizz_description q) = true)
  /\ (firstSegment sourcePath <> "" -> quizz_title q <> Some "")
  /\ (evenCase (firstSegment sourcePath) = true ->
      exists t, quizz_title q = Some t).
Proof.
  cbv zeta. rewrite parse_description, parse_title. unfold descriptionOf.
  set (intro := Js.trim (Js.collapseSpaces _)).
  assert (Hintro : Trimmed intro /\ SingleSpaced intro = true).
  { split; [apply trim_trimmed|]. apply single_trim. unfold Js.collapseSpaces.
    match goal with |- context [Js.collapseFrom false ?x] =>
      now destruct (collapse_single x false) end. }
  split; [|split; [|split; [|split]]].
  - destruct intro; discriminate.
  - now intros ->.
  - intros H. destruct intro as [|c r]; [contradiction|]. cbn [Js.isEmpty].
    split; [reflexivity | exact Hintro].
  - intros Hp.
    destruct (firstTitleLine (Js.splitLines content)) as [l|] eqn:E.
    + unfold firstTitleLine in E. apply find_some in E.
      destruct E as [_ E]. apply andb_prop in E. destruct E as [_ E].
      intros H. injection H as H. rewrite H in E. discriminate.
    + now apply title_from_path_not_empty.
  - intros He. destruct (firstTitleLine (Js.splitLines content)) as [l|];
      [now eexists|].
    destruct (capitalizeAll_some _ (splitWhen_evenCase _ He)) as [caps E].
    rewrite path_title, E. now eexists.
Qed.

Lemma title_and_description_present_witness :
  quizz_title (quizz Sample.parsed) <> Some "".
Proof.
  destruct (title_and_description_present "2024-01-01T00:00:00.000Z" Sample.content
              "python/python-quiz.md" "seed-user") as (_ & _ & _ & H & _).
  apply H. vm_compute. discriminate.
Defined.

End Headings.

(** ** Languages and identifiers of the parser *)

Section ParserIdentity.
Import GenerateQuizJson Props Order.
Local Open Scope list_scope.






Lemma lastSegment_last (l : list string) (x : string) :
  PosixPath.lastSegment (l ++ [x]) = x.
Proof.
  induction l as [|y r IH]; [reflexivity|].
  cbn [app PosixPath.lastSegment]. destruct (r ++ [x]) eqn:E; [|exact IH].
  destruct r; discriminate.
Qed.





(** *** What the hash is fed *)

Lemma all_weaken (p q : ascii -> bool) (s : string) :
  (forall c, p c = true -> q c = true) -> Js.all p s = true -> Js.all q s = true.
Proof.
  intros Hpq. induction s as [|c r IH]; [reflexivity|]. simpl.
  intros H. apply andb_prop in H. destruct H as [Hc H].
  now rewrite (Hpq c Hc), IH.
Qed.

Lemma hex_no_pipe (s : string) : Js.all isHexChar s = true -> hasPipe s = false.
Proof.
  intros H. unfold hasPipe. apply negb_false_iff.
  revert H. apply all_weaken. intros c.
  destruct c as [[] [] [] [] [] [] [] []]; vm_compute; intros H;
    reflexivity || discriminate.
Qed.

Lemma digits_no_pipe (s : string) : Js.all Js.isDigit s = true -> hasPipe s = false.
Proof.
  intros H. unfold hasPipe. apply negb_false_iff.
  revert H. apply all_weaken. intros c.
  destruct c as [[] [] [] [] [] [] [] []]; vm_compute; intros H;
    reflexivity || discriminate.
Qed.

Lemma uint_digits (d : Decimal.uint) :
  Js.all Js.isDigit (NilEmpty.string_of_uint d) = true.
Proof. induction d; simpl; try reflexivity; exact IHd. Qed.

Lemma stableId_no_pipe (parts : list Part) : hasPipe (stableId parts) = false.
Proof.
  apply hex_no_pipe. unfold stableId, Sha256.sha256Hex.
  apply all_prefix, digest_hex.
Qed.

Lemma index_no_pipe (n : nat) : hasPipe (partString (PNum n)) = false.
Proof.
  destruct n as [|n]; [reflexivity|]. apply digits_no_pipe, uint_digits.
Qed.

Lemma ofNat_injective (n m : nat) : Js.ofNat n = Js.ofNat m -> n = m.
Proof.
  unfold Js.ofNat. intros H.
  apply (f_equal NilEmpty.uint_of_string) in H. rewrite !NilEmpty.usu in H.
  injection H as H. now apply DecimalNat.Unsigned.to_uint_inj.
Qed.

Lemma ofNat_not_empty (n : nat) : Js.ofNat (S n) <> "".
Proof.
  unfold Js.ofNat. intros H.
  change "" with (NilEmpty.string_of_uint Decimal.Nil) in H.
  apply (f_equal NilEmpty.uint_of_string) in H. rewrite !NilEmpty.usu in H.
  injection H as H. apply (f_equal Nat.of_uint) in H.
  rewrite DecimalNat.Unsigned.of_to in H. discriminate.
Qed.

Lemma index_injective (n m : nat) :
  partString (PNum n) = partString (PNum m) -> n = m.
Proof.
  destruct n as [|n]; destruct m as [|m]; cbn [partString]; intros H.
  - reflexivity.
  - symmetry in H. now apply ofNat_not_empty in H.
  - now apply ofNat_not_empty in H.
  - now apply ofNat_injective.
Qed.

Lemma four_parts_injective (tag quizId : string) (i j : nat) (x y : string) :
  hasPipe tag = false -> hasPipe quizId = false ->
  hashInput [PStr tag; PStr quizId; PNum i; PStr x] =
  hashInput [PStr tag; PStr quizId; PNum j; PStr y] ->
  i = j /\ x = y.
Proof.
  intros Ht Hq E.
  apply hashInput_injective_last in E; [|reflexivity| |].
  - cbn [List.map partString] in E. injection E as E1 E2.
    split; [now apply index_injective | exact E2].
  - cbn [removelast pipeFree forallb].
    change (partString (PStr tag)) with tag.
    change (partString (PStr quizId)) with quizId.
    rewrite Ht, Hq. now rewrite (index_no_pipe i).
  - cbn [removelast pipeFree forallb].
    change (partString (PStr tag)) with tag.
    change (partString (PStr quizId)) with quizId.
    rewrite Ht, Hq. now rewrite (index_no_pipe j).
Qed.

(** X8.  Within a quiz the identifiers are hashes of different texts: two
    questions are fed to the hash as the same text only when they have the
    same position and heading, two attachments only when they have the
    same question position and reference, and a quiz, a question and an
    attachment never. *)
Theorem identifier_inputs_distinct (sourcePath : string) :
  let quizId := stableId [PStr "quiz"; PStr sourcePath] in
  (forall i j h1 h2,
      questionInput quizId i h1 = questionInput quizId j h2 -> i = j /\ h1 = h2)
  /\ (forall i j r1 r2,
      attachmentInput quizId i r1 = attachmentInput quizId j r2 -> i = j /\ r1 = r2)
  /\ (forall i j h r, questionInput quizId i h <> attachmentInput quizId j r)
  /\ (forall p i h, quizInput p <> questionInput quizId i h)
  /\ (forall p i r, quizInput p <> attachmentInput quizId i r)
  /\ (forall block index,
      q_id (parseQuestionBlock block quizId index) =
      String.substring 0 24
        (Sha256.sha256Hex (questionInput quizId index (heading block)))).
Proof.
  intros quizId.
  assert (Hq : hasPipe quizId = false) by apply stableId_no_pipe.
  split; [|split; [|split; [|split; [|split]]]].
  - intros i j h1 h2 E. now apply (four_parts_injective "question" quizId).
  - intros i j r1 r2 E. now apply (four_parts_injective "attachment" quizId).
  - intros i j h r E. unfold questionInput, attachmentInput in E.
    rewrite !hashInput_cons in E.
    apply cut_at_pipe in E; [|reflexivity|reflexivity].
    destruct E as [E _]. discriminate.
  - intros p i h E. unfold quizInput, questionInput in E.
    rewrite !hashInput_cons in E.
    apply cut_at_pipe in E; [|reflexivity|reflexivity].
    destruct E as [E _]. discriminate.
  - intros p i r E. unfold quizInput, attachmentInput in E.
    rewrite !hashInput_cons in E.
    apply cut_at_pipe in E; [|reflexivity|reflexivity].
    destruct E as [E _]. discriminate.
  - intros block index. unfold parseQuestionBlock.
    destruct (fold_left classifyTrailing _ _) as [hl el]. reflexivity.
Qed.

Lemma identifier_inputs_distinct_witness :
  3 = 3 /\ "1. What is 2+2?" = "1. What is 2+2?".
Proof.
  destruct (identifier_inputs_distinct "python/python-quiz.md") as [H _].
  apply (H 3 3 "1. What is 2+2?" "1. What is 2+2?"). reflexivity.
Defined.

End ParserIdentity.

(** ** Languages and sets of the consolidator *)

Section Languages.
Import BuildQuizzSets Order.
Local Open Scope list_scope.

Lemma known_in (l : string) : In l KNOWN_LANGS -> isKnownLang l = true.
Proof.
  intros H. unfold isKnownLang. apply existsb_exists. exists l.
  split; [exact H | apply String.eqb_refl].
Qed.

Lemma filename_language_known (filePath : string) :
  isKnownLang
    (match matchLangSuffix (PosixPath.basenameExt filePath ".json") with
     | Some l => l
     | None => "en"
     end) = true.
Proof.
  unfold matchLangSuffix.
  destruct (find _ KNOWN_LANGS) as [l|] eqn:E; [|reflexivity].
  apply find_some in E. now apply known_in.
Qed.

(** X9.  [inferLanguage] always returns one of the known language codes.
    A language of the metadata that is known once trimmed and put in lower
    case decides, whatever the file is called; else the file name
    decides, and without a known suffix the language is "en". *)
Theorem inferred_language_known (metaLanguage : option string) (filePath : string) :
  isKnownLang (inferLanguage metaLanguage filePath) = true
  /\ (forall m, metaLanguage = Some m ->
        isKnownLang (Js.toLowerCase (Js.trim m)) = true ->
        inferLanguage metaLanguage filePath = Js.toLowerCase (Js.trim m))
  /\ (metaLanguage = None ->
      matchLangSuffix (PosixPath.basenameExt filePath ".json") = None ->
      inferLanguage metaLanguage filePath = "en").
Proof.
  split; [|split].
  - unfold inferLanguage. destruct metaLanguage as [m|].
    + destruct (Js.isEmpty m); [apply filename_language_known|].
      destruct (isKnownLang (Js.toLowerCase (Js.trim m))) eqn:E;
        [exact E | apply filename_language_known].
    + apply filename_language_known.
  - intros m -> H. unfold inferLanguage. rewrite H.
    destruct m as [|c r]; [discriminate H | reflexivity].
  - intros -> H. unfold inferLanguage. now rewrite H.
Qed.

Lemma inferred_language_known_witness :
  inferLanguage (Some " FR ") "/repo/python/python-quiz-es.json" = "fr"
  /\ inferLanguage None "/repo/python/python-quiz.json" = "en".
Proof.
  destruct (inferred_language_known (Some " FR ") "/repo/python/python-quiz-es.json")
    as (_ & H & _).
  destruct (inferred_language_known None "/repo/python/python-quiz.json")
    as (_ & _ & H').
  split; [apply (H " FR "); reflexivity | apply H'; reflexivity].
Defined.

(** *** The order of the sets *)

Lemma ascii_compare_refl (a : ascii) : Ascii.compare a a = Eq.
Proof. unfold Ascii.compare. apply N.compare_refl. Qed.

Lemma string_compare_refl (s : string) : String.compare s s = Eq.
Proof.
  induction s as [|c r IH]; [reflexivity|]. simpl.
  now rewrite ascii_compare_refl.
Qed.

Lemma string_le_trans (a b c : string) :
  String.compare a b <> Gt -> String.compare b c <> Gt ->
  String.compare a c <> Gt.
Proof.
  revert b c. induction a as [|x a IH]; intros [|y b] [|z c] H1 H2; simpl in *;
    try discriminate; try (exfalso; now apply H1); try (exfalso; now apply H2).
  unfold Ascii.compare in *.
  destruct (N.compare_spec (N_of_ascii x) (N_of_ascii y)) as [Exy|Lxy|Gxy];
    destruct (N.compare_spec (N_of_ascii y) (N_of_ascii z)) as [Eyz|Lyz|Gyz];
    destruct (N.compare_spec (N_of_ascii x) (N_of_ascii z)) as [Exz|Lxz|Gxz];
    try discriminate; try (exfalso; lia);
    try (exfalso; now apply H1); try (exfalso; now apply H2).
  now apply (IH b c).
Qed.

Lemma languageLe_trans (a b c : ParsedFile) :
  languageLe a b -> languageLe b c -> languageLe a c.
Proof.
  unfold languageLe, languageAfter. intros H1 H2.
  pose proof (string_le_trans (language a) (language b) (language c)) as T.
  destruct (String.compare (language a) (language b));
    destruct (String.compare (language b) (language c));
    destruct (String.compare (language a) (language c));
    try reflexivity; try discriminate; exfalso; apply T; congruence.
Qed.

Lemma languageAfter_le (x y : ParsedFile) :
  languageAfter x y = true -> languageLe y x.
Proof.
  unfold languageLe, languageAfter.
  rewrite (String.compare_antisym (language y) (language x)).
  destruct (String.compare (language x) (language y)); simpl;
    intros H; reflexivity || discriminate.
Qed.

Lemma insertSorted_permutation (x : ParsedFile) (l : list ParsedFile) :
  Permutation (insertSorted x l) (x :: l).
Proof.
  induction l as [|y r IH]; simpl; [reflexivity|].
  destruct (languageAfter x y); [|reflexivity].
  rewrite IH. apply perm_swap.
Qed.

Lemma insertSorted_sorted (x : ParsedFile) (l : list ParsedFile) :
  StronglySorted languageLe l -> StronglySorted languageLe (insertSorted x l).
Proof.
  induction 1 as [|y r Hs IH Hy]; simpl.
  - repeat constructor.
  - destruct (languageAfter x y) eqn:E.
    + constructor; [exact IH|].
      apply (Permutation_Forall (Permutation_sym (insertSorted_permutation x r))).
      constructor; [now apply languageAfter_le | exact Hy].
    + constructor; [now constructor|].
      constructor; [exact E|].
      revert Hy. apply Forall_impl. intros z. now apply languageLe_trans.
Qed.

Lemma insertSorted_stable (lang : string) (x : ParsedFile) (l : list ParsedFile) :
  ofLanguage lang (insertSorted x l) = ofLanguage lang (x :: l).
Proof.
  unfold ofLanguage. induction l as [|y r IH]; [reflexivity|].
  cbn [insertSorted]. destruct (languageAfter x y) eqn:E; [|reflexivity].
  cbn [filter] in *. rewrite IH.
  destruct (String.eqb_spec (language x) lang) as [Ex|Ex]; [|reflexivity].
  destruct (String.eqb_spec (language y) lang) as [Ey|Ey]; [|reflexivity].
  exfalso. unfold languageAfter in E.
  rewrite Ex, Ey, string_compare_refl in E. discriminate.
Qed.

Lemma sort_permutation (l : list ParsedFile) : Permutation (sortByLanguage l) l.
Proof.
  unfold sortByLanguage. induction l as [|x r IH]; simpl; [reflexivity|].
  rewrite insertSorted_permutation. now constructor.
Qed.

Lemma sort_sorted (l : list ParsedFile) : StronglySorted languageLe (sortByLanguage l).
Proof.
  unfold sortByLanguage. induction l as [|x r IH]; simpl; [constructor|].
  now apply insertSorted_sorted.
Qed.

Lemma sort_stable (lang : string) (l : list ParsedFile) :
  ofLanguage lang (sortByLanguage l) = ofLanguage lang l.
Proof.
  unfold sortByLanguage. induction l as [|x r IH]; simpl; [reflexivity|].
  rewrite insertSorted_stable. unfold ofLanguage in *. cbn [filter].
  now rewrite IH.
Qed.

Lemma sorted_languages (l : list ParsedFile) :
  StronglySorted languageLe l ->
  StronglySorted (fun a b => String.compare a b <> Gt) (List.map language l).
Proof.
  induction 1 as [|x r Hsr IH Hx]; simpl; constructor.
  - exact IH.
  - apply Forall_forall. intros z Hz. apply in_map_iff in Hz.
    destruct Hz as (y & <- & Hy). rewrite Forall_forall in Hx.
    specialize (Hx y Hy). unfold languageLe, languageAfter in Hx.
    destruct (String.compare (language x) (language y)); congruence.
Qed.

Lemma find_filter {A : Type} (p : A -> bool) (l : list A) :
  find p l = hd_error (filter p l).
Proof.
  induction l as [|x r IH]; [reflexivity|]. simpl.
  destruct (p x); [reflexivity | exact IH].
Qed.

Lemma payload_sets (env : Env) (dir root : string)
    (files : list (string * QuizJson)) :
  let c := buildCombinedPayload env dir files root in
  cq_sets (combined_quizz c) =
    List.map (buildSet env (cq_id (combined_quizz c))
                (PosixPath.relative (cwd env) root dir) root)
             (sortByLanguage (readFiles files))
  /\ cm_languages (combined_meta c) =
     List.map language (sortByLanguage (readFiles files))
  /\ cq_id (combined_quizz c) =
     orElse (match pickBase (sortByLanguage (readFiles files)) with
             | Some b => j_id (data b)
             | None => None
             end) (uuid env).
Proof. repeat split. Qed.

(** X10.  For any files of a directory the aggregate has one set for each
    file; the sets stand in the order of their languages, files of one
    language in the order they were given; each set has the id
    "{aggregate id}-{language}", so two files of one language give two sets
    with one id; [meta.languages] lists the languages of the sets; and
    every question carries the id of its set and of the aggregate. *)
Theorem consolidated_sets (env : Env) (dir root : string)
    (files : list (string * QuizJson)) :
  let c := buildCombinedPayload env dir files root in
  let sets := cq_sets (combined_quizz c) in
  List.length sets = List.length files
  /\ cm_languages (combined_meta c) = List.map set_language sets
  /\ Permutation (List.map set_language sets) (List.map language (readFiles files))
  /\ StronglySorted (fun a b => String.compare a b <> Gt) (List.map set_language sets)
  /\ (forall lang,
        List.map set_title (List.filter (fun s => String.eqb (set_language s) lang) sets)
        = List.map (fun p => orEmpty (j_title (data p)))
                   (ofLanguage lang (readFiles files)))
  /\ Forall (fun s =>
               set_id s = (cq_id (combined_quizz c) ++ "-" ++ set_language s)%string
               /\ Forall (fun sq => sq_setId sq = set_id s
                                    /\ sq_quizzId sq = cq_id (combined_quizz c))
                         (set_questions s))
            sets.
Proof.
  intros c sets.
  destruct (payload_sets env dir root files) as (Hs & Hl & _).
  fold c in Hs, Hl. fold sets in Hs.
  set (quizzId := cq_id (combined_quizz c)) in *.
  set (relDir := PosixPath.relative (cwd env) root dir) in *.
  set (sorted := sortByLanguage (readFiles files)) in *.
  assert (Hlang : List.map set_language sets = List.map language sorted).
  { rewrite Hs, map_map. reflexivity. }
  split; [|split; [|split; [|split; [|split]]]].
  - rewrite Hs, length_map. subst sorted.
    rewrite (Permutation_length (sort_permutation _)).
    unfold readFiles. apply length_map.
  - now rewrite Hl, Hlang.
  - rewrite Hlang. apply Permutation_map, sort_permutation.
  - rewrite Hlang. apply sorted_languages, sort_sorted.
  - intros lang. rewrite <- (sort_stable lang (readFiles files)). fold sorted.
    rewrite Hs. unfold ofLanguage. clear.
    induction sorted as [|x r IH]; [reflexivity|].
    cbn [List.map filter buildSet set_language].
    destruct (String.eqb (language x) lang); [|exact IH].
    cbn [List.map set_title]. now rewrite IH.
  - rewrite Hs. apply Forall_forall. intros s Hin. apply in_map_iff in Hin.
    destruct Hin as (p & <- & _). split; [reflexivity|]. apply stamped.
Qed.

(** X11.  The aggregate takes its id, slug and creator from the first file,
    in the order given, whose language is "en", however many files there
    are and wherever it stands; without such a file it takes them from the
    first set. *)
Theorem base_is_first_english (env : Env) (dir root : string)
    (files : list (string * QuizJson)) :
  let c := buildCombinedPayload env dir files root in
  (forall before f j after,
      files = before ++ (f, j) :: after ->
      inferLanguage (j_language j) f = "en" ->
      ofLanguage "en" (readFiles before) = [] ->
      cq_id (combined_quizz c) = orElse (j_id j) (uuid env)
      /\ cq_createdById (combined_quizz c) = orElse (j_createdById j) DEFAULT_CREATOR
      /\ cq_slug (combined_quizz c) =
         (if Js.isEmpty (slugify (j_title j)) then PosixPath.basename dir
          else slugify (j_title j)))
  /\ (ofLanguage "en" (readFiles files) = [] ->
      pickBase (sortByLanguage (readFiles files)) =
      hd_error (sortByLanguage (readFiles files)))
  /\ (files = [] ->
      cq_id (combined_quizz c) = uuid env
      /\ cq_slug (combined_quizz c) = PosixPath.basename dir
      /\ cq_createdById (combined_quizz c) = DEFAULT_CREATOR
      /\ cq_sets (combined_quizz c) = []).
Proof.
  intros c. split; [|split].
  - intros before f j after Hf Hen Hb.
    assert (P : pickBase (sortByLanguage (readFiles files)) =
                Some (mkParsedFile f (inferLanguage (j_language j) f) j)).
    { unfold pickBase. rewrite find_filter.
      pose proof (sort_stable "en" (readFiles files)) as S.
      unfold ofLanguage in S, Hb. rewrite S, Hf.
      unfold readFiles. rewrite map_app, filter_app.
      fold (readFiles before). rewrite Hb. cbn [List.map filter app].
      cbn [language]. now rewrite Hen. }
    subst c. unfold buildCombinedPayload. fold (readFiles files).
    rewrite P. cbn [combined_quizz cq_id cq_createdById cq_slug data].
    repeat split.
  - intros H. unfold pickBase. rewrite find_filter.
    pose proof (sort_stable "en" (readFiles files)) as S.
    unfold ofLanguage in S, H. now rewrite S, H.
  - intros ->. repeat split.
Qed.

Lemma base_is_first_english_witness :
  cq_id (combined_quizz
           (buildCombinedPayload Sample.env "/repo/python"
              [("/repo/python/python-quiz-fr.json", Sample.french);
               ("/repo/python/python-quiz.json", Sample.english);
               ("/repo/python/python-quiz-en.json", Sample.untitled)] "/repo"))
  = orElse (j_id Sample.english) (uuid Sample.env).
Proof.
  destruct (base_is_first_english Sample.env "/repo/python" "/repo"
              [("/repo/python/python-quiz-fr.json", Sample.french);
               ("/repo/python/python-quiz.json", Sample.english);
               ("/repo/python/python-quiz-en.json", Sample.untitled)]) as [H _].
  apply (H [("/repo/python/python-quiz-fr.json", Sample.french)]
           "/repo/python/python-quiz.json" Sample.english
           [("/repo/python/python-quiz-en.json", Sample.untitled)]).
  - reflexivity.
  - vm_compute. reflexivity.
  - vm_compute. reflexivity.
Defined.

End Languages.

(** ** Slugs *)

Section Slugs.
Import BuildQuizzSets Order.
Local Open Scope list_scope.

Lemma rev_onto_append (s acc : string) :
  Js.rev_onto s acc = (Js.rev_onto s "" ++ acc)%string.
Proof.
  revert acc. induction s as [|c r IH]; intros acc; [reflexivity|].
  cbn [Js.rev_onto]. rewrite (IH (String c acc)), (IH (String c "")).
  now rewrite append_assoc.
Qed.

Lemma rev_cons (c : ascii) (r : string) :
  Js.rev (String c r) = (Js.rev r ++ String c "")%string.
Proof. unfold Js.rev. cbn [Js.rev_onto]. apply rev_onto_append. Qed.

Lemma rev_snoc (a : string) (c : ascii) :
  Js.rev (a ++ String c "") = String c (Js.rev a).
Proof.
  induction a as [|d a IH]; [reflexivity|].
  cbn [append]. rewrite !rev_cons, IH. reflexivity.
Qed.

Lemma rev_involutive (s : string) : Js.rev (Js.rev s) = s.
Proof.
  induction s as [|c r IH]; [reflexivity|]. now rewrite rev_cons, rev_snoc, IH.
Qed.

Lemma all_rev (p : ascii -> bool) (s : string) : Js.all p (Js.rev s) = Js.all p s.
Proof.
  induction s as [|c r IH]; [reflexivity|].
  rewrite rev_cons, all_append, IH. simpl. rewrite andb_true_r. apply andb_comm.
Qed.

Lemma lastChar_snoc (a : string) (c : ascii) :
  GenerateQuizJson.lastChar (a ++ String c "") = Some c.
Proof.
  induction a as [|d a IH]; [reflexivity|]. cbn [append GenerateQuizJson.lastChar].
  destruct (a ++ String c "")%string eqn:E; [destruct a; discriminate | exact IH].
Qed.

Lemma lastChar_rev (s : string) : GenerateQuizJson.lastChar (Js.rev s) = head s.
Proof.
  destruct s as [|c r]; [reflexivity|]. rewrite rev_cons. apply lastChar_snoc.
Qed.

Lemma head_rev (s : string) : head (Js.rev s) = GenerateQuizJson.lastChar s.
Proof.
  rewrite <- (rev_involutive s) at 2. now rewrite lastChar_rev.
Qed.

Lemma all_dropWhile (p q : ascii -> bool) (s : string) :
  Js.all p s = true -> Js.all p (Js.dropWhile q s) = true.
Proof. apply dropWhile_suffix_all. Qed.

Lemma head_dropWhile (s : string) : notHyphen (head (Js.dropWhile isHyphen s)) = true.
Proof.
  destruct (Js.dropWhile isHyphen s) as [|c r] eqn:E; [reflexivity|].
  simpl. now rewrite (dropWhile_head _ _ _ _ E).
Qed.

Lemma lastChar_dropWhile (p : ascii -> bool) (s : string) :
  Js.dropWhile p s <> "" ->
  GenerateQuizJson.lastChar (Js.dropWhile p s) = GenerateQuizJson.lastChar s.
Proof.
  induction s as [|c r IH]; [reflexivity|]. cbn [Js.dropWhile].
  destruct (p c); [|reflexivity]. intros H. rewrite (IH H).
  cbn [GenerateQuizJson.lastChar]. destruct r; [contradiction | reflexivity].
Qed.

Lemma dropWhile_id (s : string) :
  notHyphen (head s) = true -> Js.dropWhile isHyphen s = s.
Proof.
  destruct s as [|c r]; [reflexivity|]. simpl.
  intros H. apply negb_true_iff in H. now rewrite H.
Qed.

(** *** The stages of [slugify] *)

Lemma hyphenate_chars (s : string) :
  forall inRun, Js.all slugOrHyphen (hyphenate inRun s) = true.
Proof.
  induction s as [|c r IH]; intros inRun; [reflexivity|]. cbn [hyphenate].
  destruct (isSlugChar c) eqn:E.
  - cbn [Js.all]. unfold slugOrHyphen at 1. now rewrite E, IH.
  - destruct inRun; [apply IH|]. cbn [Js.all]. now rewrite IH.
Qed.

Lemma trimHyphens_chars (s : string) :
  Js.all slugOrHyphen s = true -> Js.all slugOrHyphen (trimHyphens s) = true.
Proof.
  intros H. unfold trimHyphens.
  rewrite all_rev. apply all_dropWhile. rewrite all_rev. now apply all_dropWhile.
Qed.

Lemma trimHyphens_ends (s : string) :
  notHyphen (head (trimHyphens s)) = true
  /\ notHyphen (GenerateQuizJson.lastChar (trimHyphens s)) = true.
Proof.
  unfold trimHyphens. set (u := Js.dropWhile isHyphen s).
  rewrite head_rev, lastChar_rev. split; [|apply head_dropWhile].
  destruct (Js.dropWhile isHyphen (Js.rev u)) as [|c r] eqn:E; [reflexivity|].
  rewrite <- E. rewrite lastChar_dropWhile by (rewrite E; discriminate).
  rewrite lastChar_rev. apply head_dropWhile.
Qed.

Lemma squeeze_chars (p : ascii -> bool) (s : string) :
  forall prev, Js.all p s = true -> Js.all p (squeezeHyphens prev s) = true.
Proof.
  induction s as [|c r IH]; intros prev H; [reflexivity|].
  cbn [squeezeHyphens Js.all] in *. apply andb_prop in H. destruct H as [Hc H].
  destruct (isHyphen c); [destruct prev|]; cbn [Js.all];
    rewrite ?Hc; now apply IH.
Qed.

Lemma squeeze_single (s : string) :
  forall prev,
    noDoubleHyphen (squeezeHyphens prev s) = true
    /\ (prev = true -> notHyphen (head (squeezeHyphens prev s)) = true).
Proof.
  induction s as [|c r IH]; intros prev; [now split|].
  cbn [squeezeHyphens]. destruct (isHyphen c) eqn:E.
  - destruct (IH true) as [H1 H2]. specialize (H2 eq_refl). destruct prev.
    + split; [exact H1 | now intros _].
    + split; [|discriminate]. cbn [noDoubleHyphen]. now rewrite E, H2, H1.
  - destruct (IH false) as [H1 _]. split.
    + cbn [noDoubleHyphen]. now rewrite E, H1.
    + intros _. simpl. now rewrite E.
Qed.

Lemma squeeze_head (s : string) :
  head (squeezeHyphens false s) = head s.
Proof.
  destruct s as [|c r]; [reflexivity|]. cbn [squeezeHyphens].
  now destruct (isHyphen c).
Qed.

Lemma squeeze_last (s : string) (c : ascii) :
  isHyphen c = false -> GenerateQuizJson.lastChar s = Some c ->
  forall prev, GenerateQuizJson.lastChar (squeezeHyphens prev s) = Some c.
Proof.
  intros Hc. induction s as [|d r IH]; [discriminate|].
  intros H prev. destruct r as [|e r].
  - simpl in H. injection H as ->. cbn [squeezeHyphens]. now rewrite Hc.
  - assert (H' : GenerateQuizJson.lastChar (String e r) = Some c) by exact H.
    assert (N : forall q, squeezeHyphens q (String e r) <> "").
    { intros q E. pose proof (IH H' q) as L. rewrite E in L. discriminate. }
    set (t := String e r) in *. clearbody t.
    cbn [squeezeHyphens]. destruct (isHyphen d); [destruct prev|].
    + apply (IH H').
    + cbn [GenerateQuizJson.lastChar].
      destruct (squeezeHyphens true t) eqn:E;
        [now apply N in E | rewrite <- E; apply (IH H')].
    + cbn [GenerateQuizJson.lastChar].
      destruct (squeezeHyphens false t) eqn:E;
        [now apply N in E | rewrite <- E; apply (IH H')].
Qed.

Lemma lastChar_none (s : string) : GenerateQuizJson.lastChar s = None -> s = "".
Proof.
  induction s as [|c r IH]; [reflexivity|]. cbn [GenerateQuizJson.lastChar].
  destruct r; [discriminate|]. intros H. apply IH in H. discriminate.
Qed.

Lemma slugify_is_slug (input : option string) : isSlug (slugify input) = true.
Proof.
  destruct input as [t|]; [|reflexivity]. unfold slugify.
  set (h := hyphenate false _).
  destruct (trimHyphens_ends h) as [Hh Hl].
  pose proof (trimHyphens_chars h (hyphenate_chars _ false)) as Hc.
  set (u := trimHyphens h) in *.
  unfold isSlug. rewrite (squeeze_chars slugOrHyphen u false Hc).
  destruct (squeeze_single u false) as [-> _]. rewrite squeeze_head, Hh.
  cbn [andb].
  destruct (GenerateQuizJson.lastChar u) as [c|] eqn:E.
  - simpl in Hl. apply negb_true_iff in Hl.
    now rewrite (squeeze_last u c Hl E false), <- E, E; simpl; rewrite Hl.
  - clearbody u. apply lastChar_none in E. subst u. reflexivity.
Qed.

(** *** A slug is its own slug *)

Lemma slug_char_cases (c : ascii) :
  slugOrHyphen c = true ->
  Js.lowerChar c = c
  /\ Ascii.eqb c "+" = false /\ Ascii.eqb c "#" = false /\ Ascii.eqb c "&" = false
  /\ (isSlugChar c = false -> c = "-"%char)
  /\ (isSlugChar c = true -> isHyphen c = false).
Proof.
  destruct c as [[] [] [] [] [] [] [] []]; vm_compute; intros H;
    try discriminate H; repeat split; intros; reflexivity || discriminate.
Qed.

Lemma lower_slug (s : string) :
  Js.all slugOrHyphen s = true -> Js.toLowerCase s = s.
Proof.
  unfold Js.toLowerCase. induction s as [|c r IH]; [reflexivity|].
  cbn [Js.all Js.map]. intros H. apply andb_prop in H. destruct H as [Hc H].
  destruct (slug_char_cases c Hc) as (-> & _). now rewrite IH.
Qed.

Lemma replace_slug (c : ascii) (word s : string) :
  Js.all (fun d => negb (Ascii.eqb d c)) s = true -> replaceChar c word s = s.
Proof.
  induction s as [|d r IH]; [reflexivity|]. cbn [Js.all replaceChar].
  intros H. apply andb_prop in H. destruct H as [Hd H].
  apply negb_true_iff in Hd. now rewrite Hd, IH.
Qed.

Lemma hyphenate_slug (s : string) :
  forall inRun,
    Js.all slugOrHyphen s = true -> noDoubleHyphen s = true ->
    (inRun = true -> notHyphen (head s) = true) ->
    hyphenate inRun s = s.
Proof.
  induction s as [|c r IH]; intros inRun Hc Hd Hh; [reflexivity|].
  cbn [Js.all noDoubleHyphen hyphenate] in *.
  apply andb_prop in Hc. destruct Hc as [Hc Hr].
  apply andb_prop in Hd. destruct Hd as [Hn Hd].
  destruct (slug_char_cases c Hc) as (_ & _ & _ & _ & Hy & Hs).
  destruct (isSlugChar c) eqn:E.
  - rewrite (IH false Hr Hd); [reflexivity | discriminate].
  - rewrite (Hy eq_refl) in *. change (isHyphen "-") with true in Hn.
    destruct inRun; [specialize (Hh eq_refl); discriminate|].
    now rewrite (IH true Hr Hd).
Qed.

Lemma trimHyphens_slug (s : string) :
  notHyphen (head s) = true -> notHyphen (GenerateQuizJson.lastChar s) = true ->
  trimHyphens s = s.
Proof.
  intros Hh Hl. unfold trimHyphens. rewrite (dropWhile_id s Hh).
  rewrite dropWhile_id by (now rewrite head_rev).
  apply rev_involutive.
Qed.

Lemma squeeze_slug (s : string) :
  forall prev, noDoubleHyphen s = true ->
    (prev = true -> notHyphen (head s) = true) ->
    squeezeHyphens prev s = s.
Proof.
  induction s as [|c r IH]; intros prev Hd Hh; [reflexivity|].
  cbn [noDoubleHyphen squeezeHyphens] in *.
  apply andb_prop in Hd. destruct Hd as [Hn Hd].
  destruct (isHyphen c) eqn:E.
  - destruct prev.
    + specialize (Hh eq_refl). simpl in Hh. rewrite E in Hh. discriminate.
    + now rewrite (IH true Hd).
  - rewrite (IH false Hd); [reflexivity | discriminate].
Qed.

Lemma slugify_slug (s : string) : isSlug s = true -> slugify (Some s) = s.
Proof.
  unfold isSlug. intros H.
  apply andb_prop in H. destruct H as [H Hl].
  apply andb_prop in H. destruct H as [H Hh].
  apply andb_prop in H. destruct H as [Hc Hd].
  unfold slugify. rewrite (lower_slug s Hc).
  rewrite (replace_slug "+" " plus " s), (replace_slug "#" " sharp " s),
    (replace_slug "&" " and " s);
    try (revert Hc; apply all_weaken; intros c Hc;
         destruct (slug_char_cases c Hc) as (_ & E1 & E2 & E3 & _);
         now rewrite ?E1, ?E2, ?E3).
  rewrite (hyphenate_slug s false Hc Hd) by discriminate.
  rewrite (trimHyphens_slug s Hh Hl).
  apply squeeze_slug; [exact Hd | discriminate].
Qed.

(** X12.  [slugify] always returns a slug: lower-case letters, digits and
    single hyphens only, with no hyphen at either end (the empty text for a
    title without letters and digits).  A slug is its own slug, so applying
    [slugify] a second time changes nothing. *)
Theorem slugify_gives_slug (input : option string) :
  isSlug (slugify input) = true
  /\ slugify (Some (slugify input)) = slugify input
  /\ (forall s, isSlug s = true -> slugify (Some s) = s).
Proof.
  split; [apply slugify_is_slug|]. split.
  - apply slugify_slug, slugify_is_slug.
  - apply slugify_slug.
Qed.

Lemma slugify_gives_slug_witness :
  slugify (Some "c-plus-plus-and-c-sharp-quiz") = "c-plus-plus-and-c-sharp-quiz".
Proof.
  destruct (slugify_gives_slug None) as (_ & _ & H).
  apply H. reflexivity.
Defined.

End Slugs.

(** ** Normalized URLs and the seeder's count *)

Section SeederCount.
Import Props Order.
Local Open Scope list_scope.

Lemma prefix_head (c d : ascii) (b t : string) :
  String.prefix (String c b) (String d t) = true -> c = d.
Proof.
  cbn [String.prefix]. destruct (ascii_dec c d); [intros _; assumption | discriminate].
Qed.

Lemma prefix_absolute (base t : string) :
  PosixPath.isAbsolute base = true -> Js.startsWith t base = true ->
  Js.startsWith t "/" = true.
Proof.
  destruct base as [|c b]; [discriminate|]. cbn [PosixPath.isAbsolute]. intros H.
  apply Ascii.eqb_eq in H. unfold PosixPath.sep in H. subst c.
  unfold Js.startsWith at 1. destruct t as [|d t]; [discriminate|].
  intros H. apply prefix_head in H. subst d. apply starts_with_slash.
Qed.

Lemma absoluteRef_rooted (base t : string) :
  PosixPath.isAbsolute base = true -> Url.isAbsoluteRef base t = true ->
  isRooted t = true.
Proof.
  intros Hb H. unfold Url.isAbsoluteRef in H. unfold isRooted.
  destruct (Url.isHttp t); [reflexivity|].
  destruct (Js.startsWith t "~"); [reflexivity|].
  destruct (Js.startsWith t "/") eqn:E; [reflexivity|].
  simpl in H. now rewrite (prefix_absolute base t Hb H) in E.
Qed.

Lemma absolute_rooted (u : string) : PosixPath.isAbsolute u = true -> isRooted u = true.
Proof.
  destruct u as [|c r]; [discriminate|]. simpl. intros H.
  apply Ascii.eqb_eq in H. unfold PosixPath.sep in H. subst c.
  unfold isRooted. rewrite starts_with_slash. now rewrite !orb_true_r.
Qed.

(** X13.  With the working directory absolute, the consolidator leaves no
    relative URL behind: every attachment that has a URL has, once
    normalized, an http(s) URL or one that begins with "~" or "/"; the
    attachments stay as many, in their order, and one without a URL is not
    touched. *)
Theorem consolidated_urls_rooted (cwd root relDir : string)
    (attachments : list Attachment) :
  PosixPath.isAbsolute cwd = true ->
  let out := BuildQuizzSets.normalizeAttachments cwd attachments relDir root in
  List.length out = List.length attachments
  /\ List.map att_id out = List.map att_id attachments
  /\ Forall (fun a => match att_url a with
                      | Some u => isRooted u = true
                      | None => True
                      end) out
  /\ (forall a, In a attachments -> att_url a = None -> In a out).
Proof.
  intros Hcwd out. subst out. unfold BuildQuizzSets.normalizeAttachments.
  set (base := Url.basePrefix cwd root). set (parts := Url.relParts relDir).
  assert (Hb : PosixPath.isAbsolute base = true) by now apply basePrefix_absolute.
  split; [apply length_map|]. split; [|split].
  - rewrite map_map. apply map_ext. intros a.
    now destruct (consolidator_frame base parts a) as (-> & _).
  - apply Forall_forall. intros a' Hin. apply in_map_iff in Hin.
    destruct Hin as (a & <- & _).
    destruct (att_url a) as [url|] eqn:E.
    + rewrite (consolidator_attachment base parts a url E). cbn [withUrl att_url].
      unfold consolidatorUrl. cbv zeta.
      destruct (Url.isAbsoluteRef base (Js.trim url)) eqn:Ea.
      * now apply (absoluteRef_rooted base).
      * apply absolute_rooted. now apply join_absolute.
    + unfold BuildQuizzSets.normalizeAttachment. now rewrite E, E.
  - intros a Hin E. apply in_map_iff. exists a. split; [|exact Hin].
    unfold BuildQuizzSets.normalizeAttachment. now rewrite E.
Qed.

Lemma consolidated_urls_rooted_witness :
  List.length (BuildQuizzSets.normalizeAttachments "/repo"
                 [Sample.attachment "../../etc/x.png"] "python" "/repo") = 1.
Proof.
  destruct (consolidated_urls_rooted "/repo" "/repo" "python"
              [Sample.attachment "../../etc/x.png"] eq_refl) as [H _].
  exact H.
Defined.

(** *** The count of changes *)

Lemma basePrefix_not_empty (cwd root : string) :
  Js.isEmpty (Url.basePrefix cwd root) = false.
Proof.
  rewrite basePrefix_resolve. unfold PosixPath.resolve. cbv zeta.
  destruct (PosixPath.isAbsolute root || PosixPath.isAbsolute cwd); [reflexivity|].
  set (q := PosixPath.normalizeString _ _). clearbody q.
  destruct q; reflexivity.
Qed.

Lemma seederUrl_absolute (base : string) (parts : list string) (url : string) :
  PosixPath.isAbsolute base = true -> Js.isEmpty (Js.trim url) = false ->
  Url.isAbsoluteRef base (Js.trim (seederUrl base parts url)) = true
  /\ Js.isEmpty (Js.trim (seederUrl base parts url)) = false.
Proof.
  intros Hb E0. unfold seederUrl. cbv zeta. rewrite E0.
  destruct (Url.isAbsoluteRef base (Js.trim url)) eqn:E.
  - rewrite trim_idem. now split.
  - match goal with |- context [Js.trim (PosixPath.join ?l)] =>
      pose proof (trim_absolute (PosixPath.join l) (join_absolute base _ Hb)) as Ht;
      set (n := PosixPath.join l) in * end.
    split; [now apply absolute_is_absoluteRef|].
    destruct (Js.trim n); [discriminate | reflexivity].
Qed.

Lemma seeder_second_flag (base : string) (parts : list string) (a : Attachment) :
  PosixPath.isAbsolute base = true ->
  snd (Seeder.normalizeAttachment base parts
         (fst (Seeder.normalizeAttachment base parts a))) = false.
Proof.
  intros Hb. destruct (att_url a) as [url|] eqn:E.
  - rewrite (seeder_attachment base parts a url E).
    unfold Seeder.normalizeAttachment at 1. cbn [withUrl att_url].
    destruct (Js.isEmpty (Js.trim url)) eqn:E0.
    + assert (Eu : seederUrl base parts url = url)
        by (unfold seederUrl; cbv zeta; now rewrite E0).
      rewrite Eu, E0. reflexivity.
    + destruct (seederUrl_absolute base parts url Hb E0) as [Ha He].
      rewrite He, Ha. reflexivity.
  - unfold Seeder.normalizeAttachment. rewrite E. cbn [fst]. now rewrite E.
Qed.

Lemma seeder_absolute_flag (base : string) (parts : list string)
    (a : Attachment) (url : string) :
  att_url a = Some url -> Url.isAbsoluteRef base (Js.trim url) = true ->
  snd (Seeder.normalizeAttachment base parts a) = false.
Proof.
  intros E Ha. unfold Seeder.normalizeAttachment. rewrite E.
  destruct (Js.isEmpty (Js.trim url)); [reflexivity|]. now rewrite Ha.
Qed.

Lemma countTrue_le (l : list bool) : Seeder.countTrue l <= List.length l.
Proof.
  unfold Seeder.countTrue. induction l as [|b r IH]; simpl; [lia|].
  destruct b; simpl; lia.
Qed.

Lemma countTrue_none (l : list bool) :
  Forall (fun b => b = false) l -> Seeder.countTrue l = 0.
Proof.
  unfold Seeder.countTrue. induction 1 as [|b r Hb _ IH]; [reflexivity|].
  subst b. exact IH.
Qed.

Lemma fold_add (l : list nat) (a : nat) :
  fold_left Nat.add l a = a + list_sum l.
Proof.
  revert a. induction l as [|x r IH]; intros a; simpl; [lia|].
  rewrite IH. lia.
Qed.

Lemma list_sum_zero (l : list nat) : Forall (fun n => n = 0) l -> list_sum l = 0.
Proof. induction 1 as [|x r Hx _ IH]; simpl; [reflexivity | lia]. Qed.

Lemma normalizeList_second (base : string) (parts : list string)
    (questions : list Question) :
  PosixPath.isAbsolute base = true ->
  snd (Seeder.normalizeList base parts
         (fst (Seeder.normalizeList base parts questions))) = 0.
Proof.
  intros Hb. unfold Seeder.normalizeList. cbn [fst snd].
  rewrite fold_add. cbn [Nat.add]. apply list_sum_zero.
  rewrite !map_map. apply Forall_forall. intros n Hn.
  apply in_map_iff in Hn. destruct Hn as (q & <- & _). cbn [fst snd].
  apply countTrue_none. cbn [Seeder.setAttachments q_attachments].
  rewrite !map_map. apply Forall_forall. intros b Hin.
  apply in_map_iff in Hin. destruct Hin as (a & <- & _).
  now apply seeder_second_flag.
Qed.

Lemma normalizeList_bound (base : string) (parts : list string)
    (questions : list Question) :
  snd (Seeder.normalizeList base parts questions)
  <= List.length (List.concat (attachmentsOf questions)).
Proof.
  unfold Seeder.normalizeList, attachmentsOf. cbv zeta. cbn [snd].
  rewrite fold_add. cbn [Nat.add]. rewrite map_map. cbn [snd].
  induction questions as [|q r IH]; [simpl; lia|].
  cbn [List.map List.concat]. rewrite length_app.
  change (list_sum (?x :: ?l)) with (x + list_sum l).
  pose proof (countTrue_le
    (List.map snd (List.map (Seeder.normalizeAttachment base parts) (q_attachments q)))) as H.
  rewrite !length_map in H. lia.
Qed.

(** X14.  The number [normalizeAttachmentUrls] returns is never more than
    the number of attachments of the payload, and, with the working
    directory absolute, a second run over the payload it has left returns
    0.  A URL that is only trimmed is not counted: an http(s) URL, or one
    that begins with "~", "/" or the root, has its outer white space removed
    without a change being reported. *)
Theorem seeder_change_count (cwd root filePath : string) (payload : Seeder.Payload) :
  let once := Seeder.normalizeAttachmentUrls cwd payload filePath root in
  snd once <= List.length (payloadAttachments payload)
  /\ (PosixPath.isAbsolute cwd = true ->
      snd (Seeder.normalizeAttachmentUrls cwd (fst once) filePath root) = 0)
  /\ (forall a url,
        att_url a = Some url ->
        Url.isAbsoluteRef (Url.basePrefix cwd root) (Js.trim url) = true ->
        let r := Seeder.normalizeAttachment (Url.basePrefix cwd root)
                   (Url.relParts (PosixPath.relative cwd root (PosixPath.dirname filePath)))
                   a in
        snd r = false /\ att_url (fst r) = Some (Js.trim url)).
Proof.
  intros once. subst once. unfold Seeder.normalizeAttachmentUrls.
  set (base := Url.basePrefix cwd root).
  set (parts := Url.relParts (PosixPath.relative cwd root (PosixPath.dirname filePath))).
  split; [|split].
  - destruct payload as [sets|questions].
    + cbn [snd payloadAttachments]. rewrite fold_add. cbn [Nat.add].
      induction sets as [|qs r IH]; [simpl; lia|].
      cbn [List.map List.concat].
      change (list_sum (?x :: ?l)) with (x + list_sum l).
      rewrite List.concat_app, length_app.
      pose proof (normalizeList_bound base parts qs). lia.
    + pose proof (normalizeList_bound base parts questions) as H.
      destruct (Seeder.normalizeList base parts questions) as [qs n].
      exact H.
  - intros Hcwd.
    assert (Hb : PosixPath.isAbsolute base = true) by now apply basePrefix_absolute.
    destruct payload as [sets|questions].
    + cbn [fst snd]. rewrite fold_add. cbn [Nat.add]. apply list_sum_zero.
      rewrite !map_map. apply Forall_forall. intros n Hn.
      apply in_map_iff in Hn. destruct Hn as (qs & <- & _).
      now apply normalizeList_second.
    + pose proof (normalizeList_second base parts questions Hb) as H.
      destruct (Seeder.normalizeList base parts questions) as [qs n].
      cbn [fst snd] in *.
      destruct (Seeder.normalizeList base parts qs) as [qs' n']. exact H.
  - intros a url E Ha. cbv zeta.
    split; [now apply (seeder_absolute_flag base parts a url)|].
    rewrite (seeder_attachment base parts a url E). cbn [withUrl att_url].
    unfold seederUrl. cbv zeta. rewrite Ha.
    destruct (Js.trim url) eqn:Et; [|reflexivity].
    exfalso. pose proof (basePrefix_not_empty cwd root) as Hne. fold base in Hne.
    unfold Url.isAbsoluteRef, Js.startsWith in Ha. simpl in Ha.
    destruct base; discriminate.
Qed.

Lemma seeder_change_count_witness :
  snd (Seeder.normalizeAttachmentUrls "/repo"
         (fst (Seeder.normalizeAttachmentUrls "/repo"
                 (Seeder.Single [Sample.questionWith "./img/q1.png"])
                 "/repo/python/python-quiz.json" "/repo"))
         "/repo/python/python-quiz.json" "/repo") = 0.
Proof.
  destruct (seeder_change_count "/repo" "/repo" "/repo/python/python-quiz.json"
              (Seeder.Single [Sample.questionWith "./img/q1.png"])) as (_ & H & _).
  apply H. reflexivity.
Defined.

End SeederCount.

(** ** The command line of the generator *)

Section CommandLine.
Import GenerateQuizJsonCli Runs.
Local Open Scope list_scope.

Lemma flagOf_dry_run (arg : string) : flagOf arg = Some DryRun -> arg = "--dry-run".
Proof.
  unfold flagOf. intros H.
  repeat match type of H with
         | (if String.eqb ?a ?b then _ else _) = _ =>
             destruct (String.eqb_spec a b); [try discriminate|]
         end; [assumption | discriminate].
Qed.

Lemma flagOf_overwrite (arg : string) :
  flagOf arg = Some Overwrite -> arg = "--overwrite".
Proof.
  unfold flagOf. intros H.
  repeat match type of H with
         | (if String.eqb ?a ?b then _ else _) = _ =>
             destruct (String.eqb_spec a b); [try discriminate|]
         end; [assumption | discriminate].
Qed.

Lemma flagOf_eqb (arg word : string) (f : Flag) :
  flagOf word = Some f -> flagOf arg = Some f -> String.eqb word arg = true.
Proof.
  unfold flagOf. intros Hw Ha.
  repeat match type of Hw with
         | (if String.eqb ?a ?b then _ else _) = _ =>
             destruct (String.eqb_spec a b); [subst|]
         end;
  repeat match type of Ha with
         | (if String.eqb ?a ?b then _ else _) = _ =>
             destruct (String.eqb_spec a b); [subst|]
         end;
  try reflexivity; try congruence.
Qed.

Lemma parseArgsFrom_cons (c : Config) (arg : string) (rest : list string) :
  parseArgsFrom c (arg :: rest) =
  match flagOf arg with
  | None => parseArgsFrom c rest
  | Some f =>
      if takesValue f then
        match rest with
        | [] => assign f None c
        | v :: rest' => parseArgsFrom (assign f (Some v) c) rest'
        end
      else parseArgsFrom (assign f None c) rest
  end.
Proof. reflexivity. Qed.

(** The loop seen two arguments at a time: what holds for every list
    holds for every list with one more argument in front. *)
Lemma parse_induction (P : list string -> Prop) :
  P [] -> (forall a, P [a]) ->
  (forall a b r, P r -> P (b :: r) -> P (a :: b :: r)) ->
  forall argv, P argv.
Proof.
  intros H0 H1 H2 argv.
  enough (G : P argv /\ forall a, P (a :: argv)) by apply G.
  induction argv as [|b r [IH1 IH2]].
  - split; [exact H0 | exact H1].
  - split; [apply IH2 | intros a; apply H2; [exact IH1 | apply IH2]].
Qed.

(** A switch that is on stays on, and one that is off is turned on by the
    arguments alone. *)
Lemma dryRun_from (argv : list string) :
  forall c d, dryRun d = false ->
    dryRun (parseArgsFrom c argv) = dryRun c || dryRun (parseArgsFrom d argv).
Proof.
  induction argv as [| a | a b r IHr IHbr] using parse_induction; intros c d Hd.
  - cbn. now rewrite Hd, orb_false_r.
  - cbn. destruct (flagOf a) as [[]|]; cbn; rewrite ?Hd, ?orb_false_r, ?orb_true_r;
      reflexivity.
  - rewrite !(parseArgsFrom_cons _ a). destruct (flagOf a) as [f|].
    + destruct (takesValue f) eqn:Ef.
      * rewrite (IHr (assign f (Some b) c) d Hd).
        rewrite (IHr (assign f (Some b) d) d Hd).
        destruct f; try discriminate; cbn [assign dryRun]; now rewrite Hd.
      * rewrite (IHbr (assign f None c) d Hd).
        rewrite (IHbr (assign f None d) d Hd).
        destruct f; try discriminate; cbn [assign dryRun];
          rewrite ?Hd, ?orb_true_l, ?orb_false_l, ?orb_true_r; reflexivity.
    + apply IHbr. exact Hd.
Qed.

Lemma overwrite_from (argv : list string) :
  forall c d, overwrite d = false ->
    overwrite (parseArgsFrom c argv)
    = overwrite c || overwrite (parseArgsFrom d argv).
Proof.
  induction argv as [| a | a b r IHr IHbr] using parse_induction; intros c d Hd.
  - cbn. now rewrite Hd, orb_false_r.
  - cbn. destruct (flagOf a) as [[]|]; cbn; rewrite ?Hd, ?orb_false_r, ?orb_true_r;
      reflexivity.
  - rewrite !(parseArgsFrom_cons _ a). destruct (flagOf a) as [f|].
    + destruct (takesValue f) eqn:Ef.
      * rewrite (IHr (assign f (Some b) c) d Hd).
        rewrite (IHr (assign f (Some b) d) d Hd).
        destruct f; try discriminate; cbn [assign overwrite]; now rewrite Hd.
      * rewrite (IHbr (assign f None c) d Hd).
        rewrite (IHbr (assign f None d) d Hd).
        destruct f; try discriminate; cbn [assign overwrite];
          rewrite ?Hd, ?orb_true_l, ?orb_false_l, ?orb_true_r; reflexivity.
    + apply IHbr. exact Hd.
Qed.

Lemma dryRun_given (argv : list string) :
  forall c, dryRun c = false -> dryRun (parseArgsFrom c argv) = true ->
    In "--dry-run" argv.
Proof.
  induction argv as [| a | a b r IHr IHbr] using parse_induction; intros c Hc H.
  - cbn in H. congruence.
  - cbn in H. destruct (flagOf a) as [f|] eqn:Ea; [|congruence].
    destruct f; cbn in H; try congruence.
    left. now apply flagOf_dry_run.
  - rewrite parseArgsFrom_cons in H. destruct (flagOf a) as [f|] eqn:Ea.
    + destruct (takesValue f) eqn:Ef.
      * right. right. apply (IHr (assign f (Some b) c)); [|exact H].
        destruct f; try discriminate; exact Hc.
      * destruct f; try discriminate.
        -- right. apply (IHbr (assign Overwrite None c)); [exact Hc | exact H].
        -- left. now apply flagOf_dry_run.
    + right. now apply (IHbr c).
Qed.

Lemma overwrite_given (argv : list string) :
  forall c, overwrite c = false -> overwrite (parseArgsFrom c argv) = true ->
    In "--overwrite" argv.
Proof.
  induction argv as [| a | a b r IHr IHbr] using parse_induction; intros c Hc H.
  - cbn in H. congruence.
  - cbn in H. destruct (flagOf a) as [f|] eqn:Ea; [|congruence].
    destruct f; cbn in H; try congruence.
    left. now apply flagOf_overwrite.
  - rewrite parseArgsFrom_cons in H. destruct (flagOf a) as [f|] eqn:Ea.
    + destruct (takesValue f) eqn:Ef.
      * right. right. apply (IHr (assign f (Some b) c)); [|exact H].
        destruct f; try discriminate; exact Hc.
      * destruct f; try discriminate.
        -- left. now apply flagOf_overwrite.
        -- right. apply (IHbr (assign DryRun None c)); [exact Hc | exact H].
    + right. now apply (IHbr c).
Qed.

(** Without an argument that takes a value every argument is read as
    itself. *)
Lemma switches_only (argv : list string) :
  List.existsb isValueFlag argv = false ->
  forall c,
    let c' := parseArgsFrom c argv in
    dryRun c' = dryRun c || List.existsb (String.eqb "--dry-run") argv
    /\ overwrite c' = overwrite c || List.existsb (String.eqb "--overwrite") argv
    /\ root c' = root c /\ output c' = output c /\ match_ c' = match_ c
    /\ createdById c' = createdById c.
Proof.
  induction argv as [|a r IH]; intros H c; cbv zeta.
  - cbn. now rewrite !orb_false_r.
  - cbn [List.existsb] in H. apply orb_false_elim in H. destruct H as [Ha Hr].
    unfold isValueFlag in Ha. rewrite parseArgsFrom_cons. cbn [List.existsb].
    destruct (flagOf a) as [f|] eqn:Ea.
    + rewrite Ha. destruct (IH Hr (assign f None c)) as (D & O & R & U & M & C).
      rewrite D, O, R, U, M, C.
      destruct f; try discriminate; cbn [assign dryRun overwrite root output
                                          match_ createdById].
      * rewrite (flagOf_eqb a "--overwrite" Overwrite eq_refl Ea).
        rewrite orb_true_l, orb_true_r.
        destruct (String.eqb_spec "--dry-run" a) as [<-|]; [discriminate|].
        repeat split.
      * rewrite (flagOf_eqb a "--dry-run" DryRun eq_refl Ea).
        rewrite orb_true_l, orb_true_r.
        destruct (String.eqb_spec "--overwrite" a) as [<-|]; [discriminate|].
        repeat split.
    + destruct (IH Hr c) as (D & O & R & U & M & C). rewrite D, O, R, U, M, C.
      destruct (String.eqb_spec "--dry-run" a) as [<-|]; [discriminate|].
      destruct (String.eqb_spec "--overwrite" a) as [<-|]; [discriminate|].
      repeat split.
Qed.

(** X15.  [parseArgs] turns [dryRun] and [overwrite] on only when
    "--dry-run" and "--overwrite" are among the arguments.  Arguments
    without "--root", "--output", "--match" and "--created-by" are read as
    they stand: the switches that occur are on and the other fields keep
    their defaults.  But the argument behind one of those four is its
    value, whatever it is: behind "--match", say, "--dry-run" is a keyword
    and turns nothing on. *)
Theorem parse_args_switches (cwd : string) (seedUserId : option string)
    (argv : list string) :
  let config := parseArgs cwd seedUserId argv in
  (dryRun config = true -> In "--dry-run" argv)
  /\ (overwrite config = true -> In "--overwrite" argv)
  /\ (List.existsb isValueFlag argv = false ->
      dryRun config = List.existsb (String.eqb "--dry-run") argv
      /\ overwrite config = List.existsb (String.eqb "--overwrite") argv
      /\ root config = Some cwd /\ output config = None
      /\ match_ config = None)
  /\ (forall before flag value rest,
        argv = before ++ flag :: value :: rest ->
        List.existsb isValueFlag before = false ->
        isValueFlag flag = true ->
        dryRun config
        = List.existsb (String.eqb "--dry-run") before
          || dryRun (parseArgs cwd seedUserId rest)
        /\ overwrite config
           = List.existsb (String.eqb "--overwrite") before
             || overwrite (parseArgs cwd seedUserId rest)).
Proof.
  cbv zeta. unfold parseArgs.
  set (start := mkConfig (Some cwd) None false false None
                  (Some (BuildQuizzSets.orElse seedUserId "seed-user"))).
  split; [|split; [|split]].
  - now apply dryRun_given.
  - now apply overwrite_given.
  - intros H. destruct (switches_only argv H start) as (D & O & R & U & M & _).
    rewrite D, O, R, U, M. repeat split.
  - intros before flag value rest -> Hb Hf.
    assert (G : forall c,
               parseArgsFrom c (before ++ flag :: value :: rest)
               = parseArgsFrom (parseArgsFrom c before) (flag :: value :: rest)).
    { clear - Hb. induction before as [|a r IH]; intros c; [reflexivity|].
      cbn [List.existsb] in Hb. apply orb_false_elim in Hb. destruct Hb as [Ha Hr].
      unfold isValueFlag in Ha. cbn [app]. rewrite !(parseArgsFrom_cons _ a).
      destruct (flagOf a) as [f|]; [rewrite Ha|]; now apply IH. }
    rewrite G. rewrite parseArgsFrom_cons. unfold isValueFlag in Hf.
    destruct (flagOf flag) as [f|]; [|discriminate]. rewrite Hf.
    rewrite (dryRun_from rest _ start eq_refl).
    rewrite (overwrite_from rest _ start eq_refl).
    destruct (switches_only before Hb start) as (D & O & _).
    destruct f; try discriminate; cbn [assign dryRun overwrite]; rewrite D, O;
      split; reflexivity.
Qed.

Lemma parse_args_switches_witness :
  dryRun (parseArgs "/repo" None ["--overwrite"; "--match"; "--dry-run"]) = false.
Proof.
  destruct (parse_args_switches "/repo" None ["--overwrite"; "--match"; "--dry-run"])
    as (_ & _ & _ & H).
  exact (proj1 (H ["--overwrite"] "--match" "--dry-run" [] eq_refl eq_refl eq_refl)).
Defined.

End CommandLine.

(** ** Where the generator writes *)

Section OutputPath.
Import GenerateQuizJsonCli Runs Props.
Local Open Scope list_scope.

Lemma rev_append (a b : string) :
  Js.rev (a ++ b)%string = (Js.rev b ++ Js.rev a)%string.
Proof.
  induction a as [|c a IH]; cbn [append].
  - now rewrite append_empty.
  - now rewrite !rev_cons, IH, append_assoc.
Qed.

Lemma dropWhile_append_all (p : ascii -> bool) (a : string) (c : ascii) (b : string) :
  Js.all p a = true -> p c = false ->
  Js.dropWhile p (a ++ String c b)%string = String c b.
Proof.
  intros Ha Hc. induction a as [|d a IH]; cbn [append Js.dropWhile].
  - now rewrite Hc.
  - cbn [Js.all] in Ha. apply andb_prop in Ha. destruct Ha as [Hd Ha].
    rewrite Hd. now apply IH.
Qed.

Lemma dropWhile_stop (p : ascii -> bool) (s : string) :
  match s with
  | String c _ => p c = false
  | EmptyString => True
  end -> Js.dropWhile p s = s.
Proof. destruct s as [|c r]; [reflexivity|]. cbn. now intros ->. Qed.

Lemma noSep_rev (s : string) : noSep (Js.rev s) = noSep s.
Proof. apply all_rev. Qed.

(** [path.dirname] of a file in a directory. *)
Lemma dirname_file (d f : string) :
  noSep f = true -> f <> "" -> d <> "" -> d <> "/" ->
  PosixPath.dirname (d ++ String PosixPath.sep f)%string = d.
Proof.
  intros Hf Hne Hd Hroot. unfold PosixPath.dirname.
  destruct d as [|x d']; [contradiction|]. cbn [append Js.isEmpty]. cbv zeta.
  change (String x (d' ++ String PosixPath.sep f))
    with (String x d' ++ String PosixPath.sep f)%string.
  set (d := String x d') in *.
  rewrite rev_append, rev_cons, append_assoc. cbn [append].
  assert (Hr : noSep (Js.rev f) = true) by now rewrite noSep_rev.
  assert (R1 : Js.dropWhile (Ascii.eqb PosixPath.sep)
                 (Js.rev f ++ String PosixPath.sep (Js.rev d))
               = (Js.rev f ++ String PosixPath.sep (Js.rev d))%string).
  { apply dropWhile_stop. destruct (Js.rev f) as [|c r] eqn:E.
    - apply (f_equal Js.rev) in E. rewrite rev_involutive in E. contradiction.
    - cbn [append]. unfold noSep in Hr. cbn [Js.all] in Hr.
      apply andb_prop in Hr. destruct Hr as [Hc _].
      apply negb_true_iff in Hc. now rewrite Ascii.eqb_sym. }
  rewrite R1.
  rewrite (dropWhile_append_all _ (Js.rev f) PosixPath.sep (Js.rev d));
    [| exact Hr | now rewrite Ascii.eqb_refl].
  destruct (Js.rev d) as [|y [|z t]] eqn:E.
  - apply (f_equal Js.rev) in E. rewrite rev_involutive in E. discriminate.
  - apply (f_equal Js.rev) in E. rewrite rev_involutive in E. cbn in E.
    unfold d in E. injection E as -> ->.
    subst d. unfold PosixPath.isAbsolute. cbn [append].
    destruct (Ascii.eqb_spec y PosixPath.sep) as [->|]; [|reflexivity].
    exfalso. apply Hroot. reflexivity.
  - rewrite <- E. apply rev_involutive.
Qed.

Lemma dirname_root_file (f : string) :
  noSep f = true -> f <> "" ->
  PosixPath.dirname (String PosixPath.sep f) = "/".
Proof.
  intros Hf Hne. unfold PosixPath.dirname. cbn [Js.isEmpty]. cbv zeta.
  rewrite rev_cons.
  assert (Hr : noSep (Js.rev f) = true) by now rewrite noSep_rev.
  assert (R1 : Js.dropWhile (Ascii.eqb PosixPath.sep)
                 (Js.rev f ++ String PosixPath.sep "")
               = (Js.rev f ++ String PosixPath.sep "")%string).
  { apply dropWhile_stop. destruct (Js.rev f) as [|c r] eqn:E.
    - apply (f_equal Js.rev) in E. rewrite rev_involutive in E. contradiction.
    - cbn [append]. unfold noSep in Hr. cbn [Js.all] in Hr.
      apply andb_prop in Hr. destruct Hr as [Hc _].
      apply negb_true_iff in Hc. now rewrite Ascii.eqb_sym. }
  rewrite R1.
  rewrite (dropWhile_append_all _ (Js.rev f) PosixPath.sep "");
    [| exact Hr | now rewrite Ascii.eqb_refl].
  reflexivity.
Qed.

Lemma dirname_plain (f : string) :
  noSep f = true -> f <> "" -> PosixPath.dirname f = ".".
Proof.
  intros Hf Hne. unfold PosixPath.dirname.
  destruct f as [|c r] eqn:Ef; [contradiction|]. cbn [Js.isEmpty]. cbv zeta.
  rewrite <- Ef in *.
  assert (Hr : noSep (Js.rev f) = true) by now rewrite noSep_rev.
  assert (R1 : Js.dropWhile (Ascii.eqb PosixPath.sep) (Js.rev f) = Js.rev f).
  { apply dropWhile_stop. destruct (Js.rev f) as [|d t] eqn:E; [exact I|].
    unfold noSep in Hr. cbn [Js.all] in Hr.
    apply andb_prop in Hr. destruct Hr as [Hc _].
    apply negb_true_iff in Hc. now rewrite Ascii.eqb_sym. }
  rewrite R1, dropWhile_all.
  - subst f. unfold noSep in Hf. cbn [Js.all] in Hf.
    apply andb_prop in Hf. destruct Hf as [Hc _]. apply negb_true_iff in Hc.
    unfold PosixPath.isAbsolute. now rewrite Hc.
  - unfold noSep in Hr.
    apply (all_weaken (fun c => negb (Ascii.eqb c PosixPath.sep))); [|exact Hr].
    intros a Ha. rewrite Ascii.eqb_sym. exact Ha.
Qed.

Lemma join_snoc (l : list string) (x : string) :
  l <> [] -> Js.join "/" (l ++ [x]) = (Js.join "/" l ++ String PosixPath.sep x)%string.
Proof.
  intros Hl. unfold Js.join. rewrite concat_app by (assumption || discriminate).
  reflexivity.
Qed.

(** The directory of a resolved path. *)
Lemma dirname_rootPath (l : list string) (name : string) :
  forallb plain l = true -> plain name = true ->
  PosixPath.dirname (rootPath (l ++ [name])) = rootPath l.
Proof.
  intros Hl Hn. pose proof (plain_noSep name Hn) as Hs.
  assert (Hne : name <> "").
  { intros ->. discriminate. }
  destruct l as [|x r].
  - now apply dirname_root_file.
  - unfold rootPath. rewrite join_snoc by discriminate.
    change (String PosixPath.sep (Js.join "/" (x :: r) ++ String PosixPath.sep name))
      with (String PosixPath.sep (Js.join "/" (x :: r)) ++ String PosixPath.sep name)%string.
    pose proof (join_not_empty (x :: r) ltac:(discriminate) Hl) as H.
    set (j := Js.join "/" (x :: r)) in *. clearbody j.
    apply dirname_file; try assumption; [discriminate|].
    intros E. injection E as ->. discriminate.
Qed.

(** The directory of a relative path of plain segments. *)
Lemma dirname_relative (dirs : list string) (name : string) :
  forallb plain dirs = true -> plain name = true ->
  PosixPath.dirname (Js.join "/" (dirs ++ [name]))
  = match dirs with
    | [] => "."
    | _ => Js.join "/" dirs
    end.
Proof.
  intros Hd Hn. pose proof (plain_noSep name Hn) as Hs.
  assert (Hne : name <> "").
  { intros ->. discriminate. }
  destruct dirs as [|x r].
  - now apply dirname_plain.
  - rewrite join_snoc by discriminate.
    pose proof (join_not_empty (x :: r) ltac:(discriminate) Hd) as H.
    assert (A : PosixPath.isAbsolute (Js.join "/" (x :: r)) = false).
    { cbn [forallb] in Hd. apply andb_prop in Hd. destruct Hd as [Hx _].
      pose proof (plain_noSep x Hx) as Hs'. apply plain_not_empty in Hx.
      destruct x as [|c x]; [discriminate|]. unfold noSep in Hs'. cbn [Js.all] in Hs'.
      apply andb_prop in Hs'. destruct Hs' as [Hc _]. apply negb_true_iff in Hc.
      unfold Js.join. destruct r; cbn; exact Hc. }
    set (j := Js.join "/" (x :: r)) in *. clearbody j.
    apply dirname_file; try assumption.
    + intros ->. discriminate.
    + intros ->. discriminate.
Qed.

Lemma segments_join (l : list string) :
  forallb plain l = true -> PosixPath.segments (Js.join "/" l) = l.
Proof.
  intros H. unfold PosixPath.segments. destruct l as [|x r]; [reflexivity|].
  rewrite splitOn_join by (discriminate || now apply forallb_plain_noSep).
  now apply filterNonEmpty_plain.
Qed.

Lemma segments_rootPath (l : list string) :
  forallb plain l = true -> PosixPath.segments (rootPath l) = l.
Proof.
  intros H. unfold PosixPath.segments, rootPath. cbn [Js.splitOn].
  rewrite Ascii.eqb_refl. unfold Js.filterNonEmpty. cbn [filter Js.isEmpty negb].
  apply (segments_join l H).
Qed.

Lemma basename_join (dirs : list string) (name : string) :
  forallb plain dirs = true -> plain name = true ->
  PosixPath.basename (Js.join "/" (dirs ++ [name])) = name.
Proof.
  intros Hd Hn. unfold PosixPath.basename.
  rewrite segments_join; [apply lastSegment_last|].
  rewrite forallb_app, Hd. cbn. now rewrite Hn.
Qed.

Lemma basename_rootPath (l : list string) (name : string) :
  forallb plain l = true -> plain name = true ->
  PosixPath.basename (rootPath (l ++ [name])) = name.
Proof.
  intros Hl Hn. unfold PosixPath.basename.
  rewrite segments_rootPath; [apply lastSegment_last|].
  rewrite forallb_app, Hl. cbn. now rewrite Hn.
Qed.

(** *** File names with an extension *)

Lemma substring_append_right (a b : string) (k : nat) :
  String.substring (String.length a) k (a ++ b)%string = String.substring 0 k b.
Proof. induction a as [|c a IH]; [reflexivity | exact IH]. Qed.

Lemma substring_all (b : string) : String.substring 0 (String.length b) b = b.
Proof. induction b as [|c b IH]; [reflexivity|]. cbn. now rewrite IH. Qed.

Lemma substring_append_left (a b : string) :
  String.substring 0 (String.length a) (a ++ b)%string = a.
Proof. induction a as [|c a IH]; cbn; [now destruct b | now rewrite IH]. Qed.

Lemma stripSuffix_append (name suffix : string) :
  PosixPath.stripSuffix (name ++ suffix)%string suffix = Some name.
Proof.
  unfold PosixPath.stripSuffix. cbv zeta. rewrite length_append.
  replace (String.length name + String.length suffix - String.length suffix)%nat
    with (String.length name) by lia.
  rewrite substring_append_right, substring_all, String.eqb_refl, substring_append_left.
  replace (String.length suffix <=? String.length name + String.length suffix)%nat
    with true by (symmetry; apply Nat.leb_le; lia).
  reflexivity.
Qed.

Lemma append_injective_left (a b s : string) :
  (a ++ s)%string = (b ++ s)%string -> a = b.
Proof.
  revert b. induction a as [|c a IH]; intros b H.
  - destruct b as [|d b]; [reflexivity|].
    apply (f_equal String.length) in H. cbn in H. rewrite length_append in H. lia.
  - destruct b as [|d b].
    + apply (f_equal String.length) in H. cbn in H. rewrite length_append in H. lia.
    + cbn in H. injection H as -> H. now rewrite (IH b H).
Qed.

Lemma noSep_append (a b : string) :
  noSep a = true -> noSep b = true -> noSep (a ++ b)%string = true.
Proof. unfold noSep. intros Ha Hb. now rewrite all_append, Ha, Hb. Qed.

(** A name with an extension of three characters or more is a plain
    segment. *)
Lemma plain_extension (name ext : string) :
  noSep name = true -> noSep ext = true -> (3 <= String.length ext)%nat ->
  plain (name ++ ext)%string = true.
Proof.
  intros Hn He Hl. unfold plain. rewrite (noSep_append _ _ Hn He), andb_true_r.
  assert (L : (3 <= String.length (name ++ ext)%string)%nat) by (rewrite length_append; lia).
  destruct (name ++ ext)%string as [|a [|b [|c r]]]; cbn in L; try lia.
  cbn. destruct (Ascii.eqb a "."); [|reflexivity].
  destruct (Ascii.eqb b "."); reflexivity.
Qed.

Lemma basenameExt_markdown (dirs : list string) (name : string) :
  forallb plain dirs = true -> noSep name = true -> name <> "" ->
  PosixPath.basenameExt (Js.join "/" (dirs ++ [(name ++ ".md")%string])) ".md" = name.
Proof.
  intros Hd Hn Hne.
  assert (Hp : plain (name ++ ".md")%string = true) by (apply plain_extension; cbn; auto).
  pose proof (basename_join dirs _ Hd Hp) as Hb.
  unfold PosixPath.basenameExt.
  destruct (String.eqb_spec (Js.join "/" (dirs ++ [(name ++ ".md")%string])) ".md")
    as [E|_].
  - rewrite E in Hb. cbn in Hb.
    apply (append_injective_left "" name ".md") in Hb. now subst name.
  - cbv zeta. rewrite Hb, stripSuffix_append.
    destruct name; [contradiction | reflexivity].
Qed.

(** *** Joining behind a resolved path *)

Lemma step_blank (allow : bool) (kept : list string) (seg : string) :
  seg = "" \/ seg = "." -> PosixPath.normalizeStep allow kept seg = kept.
Proof. now intros [-> | ->]. Qed.

Lemma join_file (l : list string) (name : string) :
  forallb plain l = true -> plain name = true ->
  PosixPath.join [rootPath l; name] = rootPath (l ++ [name]).
Proof.
  intros Hl Hn.
  exact (join_plain l [] [name] Hl eq_refl
           ltac:(cbn; now rewrite Hn) ltac:(discriminate)).
Qed.

Lemma join_directories (l dirs : list string) :
  forallb plain l = true -> forallb plain dirs = true -> dirs <> [] ->
  PosixPath.join [rootPath l; Js.join "/" dirs] = rootPath (l ++ dirs).
Proof.
  intros Hl Hd Hne. exact (join_plain l [] dirs Hl eq_refl Hd Hne).
Qed.

Lemma join_dot (l : list string) :
  forallb plain l = true -> PosixPath.join [rootPath l; "."] = rootPath l.
Proof.
  intros Hl. unfold PosixPath.join, rootPath.
  cbn [Js.filterNonEmpty filter Js.isEmpty negb].
  change (Js.join "/" [String PosixPath.sep (Js.join "/" l); "."])
    with (String PosixPath.sep (Js.join "/" l) ++ String PosixPath.sep ".")%string.
  unfold PosixPath.normalize. cbn [append Js.isEmpty PosixPath.isAbsolute].
  rewrite Ascii.eqb_refl. cbv zeta. cbn [negb].
  change (String PosixPath.sep (Js.join "/" l ++ String PosixPath.sep "."))
    with (String PosixPath.sep (Js.join "/" l) ++ String PosixPath.sep ".")%string.
  rewrite endsWithSep_append by reflexivity.
  change (PosixPath.endsWithSep (String PosixPath.sep ".")) with false.
  assert (Q : PosixPath.normalizeString
                (String PosixPath.sep (Js.join "/" l) ++ String PosixPath.sep ".")
                false
              = Js.join "/" l).
  { unfold PosixPath.normalizeString. f_equal.
    rewrite splitOn_append.
    change (Js.splitOn PosixPath.sep ".") with ["."].
    change (Js.splitOn PosixPath.sep (String PosixPath.sep (Js.join "/" l)))
      with ("" :: Js.splitOn PosixPath.sep (Js.join "/" l)).
    rewrite <- app_comm_cons, normalizeSegments_blank.
    destruct l as [|x r].
    - reflexivity.
    - rewrite (splitOn_join (x :: r) ltac:(discriminate) (forallb_plain_noSep _ Hl)).
      unfold PosixPath.normalizeSegments.
      rewrite fold_left_app, (fold_plain false (x :: r) Hl), app_nil_r.
      cbn [fold_left]. rewrite step_blank by now right.
      apply List.rev_involutive. }
  rewrite Q. destruct (Js.isEmpty (Js.join "/" l)) eqn:E; [|reflexivity].
  destruct (Js.join "/" l); [reflexivity | discriminate].
Qed.

(** *** The path of a file seen from the root *)

Lemma resolve_rootPath (cwd : string) (l : list string) :
  forallb plain l = true -> PosixPath.resolve cwd (rootPath l) = rootPath l.
Proof.
  intros Hl. unfold PosixPath.resolve, rootPath.
  cbn [Js.isEmpty PosixPath.isAbsolute]. rewrite Ascii.eqb_refl. cbv zeta.
  cbn [orb negb]. f_equal. unfold PosixPath.normalizeString. f_equal.
  change (String PosixPath.sep (Js.join "/" l) ++ "/")%string
    with (String PosixPath.sep (Js.join "/" l ++ String PosixPath.sep "")).
  change (Js.splitOn PosixPath.sep
            (String PosixPath.sep (Js.join "/" l ++ String PosixPath.sep "")))
    with ("" :: Js.splitOn PosixPath.sep (Js.join "/" l ++ String PosixPath.sep "")).
  rewrite normalizeSegments_blank, splitOn_append.
  change (Js.splitOn PosixPath.sep "") with [""].
  destruct l as [|x r].
  - reflexivity.
  - rewrite (splitOn_join (x :: r) ltac:(discriminate) (forallb_plain_noSep _ Hl)).
    unfold PosixPath.normalizeSegments.
    rewrite fold_left_app, (fold_plain false (x :: r) Hl), app_nil_r.
    cbn [fold_left]. rewrite step_blank by now left.
    apply List.rev_involutive.
Qed.

Lemma dropCommon_prefix (l rest : list string) :
  PosixPath.dropCommon l (l ++ rest) = ([], rest).
Proof.
  induction l as [|x r IH]; [now destruct rest|].
  cbn [app PosixPath.dropCommon]. now rewrite String.eqb_refl.
Qed.

Lemma rootPath_injective (a b : list string) :
  forallb plain a = true -> forallb plain b = true ->
  rootPath a = rootPath b -> a = b.
Proof.
  intros Ha Hb E. apply (f_equal PosixPath.segments) in E.
  now rewrite !segments_rootPath in E.
Qed.

(** [path.relative] from a resolved root to a path below it. *)
Lemma relative_below (cwd : string) (l rest : list string) :
  forallb plain l = true -> forallb plain rest = true -> rest <> [] ->
  PosixPath.relative cwd (rootPath l) (rootPath (l ++ rest)) = Js.join "/" rest.
Proof.
  intros Hl Hr Hne.
  assert (Hlr : forallb plain (l ++ rest) = true) by now rewrite forallb_app, Hl, Hr.
  assert (D : rootPath l <> rootPath (l ++ rest)).
  { intros E. apply rootPath_injective in E; try assumption.
    apply (f_equal (@List.length string)) in E. rewrite length_app in E.
    destruct rest; [contradiction | cbn in E; lia]. }
  unfold PosixPath.relative.
  destruct (String.eqb_spec (rootPath l) (rootPath (l ++ rest))); [contradiction|].
  cbv zeta. rewrite !resolve_rootPath by assumption.
  destruct (String.eqb_spec (rootPath l) (rootPath (l ++ rest))); [contradiction|].
  rewrite !segments_rootPath by assumption.
  rewrite dropCommon_prefix. reflexivity.
Qed.

(** X16.  For a markdown file below the root, [main] hands to
    [buildOutputPath] the path of the file from the root, and the JSON file
    lies below the output root where the markdown file lies below the root,
    under the same name with ".json" for ".md".  With the output root left
    at the root they lie in one directory. *)
Theorem output_mirrors_source (cwd : string) (segs outSegs dirs : list string)
    (name : string) :
  forallb plain segs = true -> forallb plain outSegs = true ->
  forallb plain dirs = true -> noSep name = true -> name <> "" ->
  let root := rootPath segs in
  let filePath := rootPath (segs ++ dirs ++ [(name ++ ".md")%string]) in
  let relPath := PosixPath.relative cwd root filePath in
  relPath = Js.join "/" (dirs ++ [(name ++ ".md")%string])
  /\ buildOutputPath root (rootPath outSegs) relPath
     = rootPath (outSegs ++ dirs ++ [(name ++ ".json")%string])
  /\ PosixPath.dirname (buildOutputPath root root relPath)
     = PosixPath.dirname filePath.
Proof.
  intros Hs Ho Hd Hn Hne. cbv zeta.
  assert (Hmd : plain (name ++ ".md")%string = true) by (apply plain_extension; cbn; auto).
  assert (Hjs : plain (name ++ ".json")%string = true) by (apply plain_extension; cbn; auto).
  assert (Hrest : forallb plain (dirs ++ [(name ++ ".md")%string]) = true).
  { rewrite forallb_app, Hd. cbn. now rewrite Hmd. }
  assert (R : PosixPath.relative cwd (rootPath segs)
                (rootPath (segs ++ dirs ++ [(name ++ ".md")%string]))
              = Js.join "/" (dirs ++ [(name ++ ".md")%string])).
  { apply relative_below; try assumption. destruct dirs; discriminate. }
  assert (B : forall out, forallb plain out = true ->
                buildOutputPath (rootPath segs) (rootPath out)
                  (Js.join "/" (dirs ++ [(name ++ ".md")%string]))
                = rootPath ((out ++ dirs) ++ [(name ++ ".json")%string])).
  { intros out Hout. unfold buildOutputPath. cbv zeta.
    rewrite (dirname_relative dirs _ Hd Hmd), (basenameExt_markdown dirs name Hd Hn Hne).
    assert (T : PosixPath.join [rootPath out;
                                match dirs with
                                | [] => "."
                                | _ :: _ => Js.join "/" dirs
                                end] = rootPath (out ++ dirs)).
    { destruct dirs as [|d ds].
      - rewrite app_nil_r. now apply join_dot.
      - apply join_directories; [assumption | assumption | discriminate]. }
    rewrite T. apply join_file; [|exact Hjs]. now rewrite forallb_app, Hout, Hd. }
  rewrite R. split; [reflexivity|]. split.
  - rewrite (B outSegs Ho). now rewrite <- app_assoc.
  - rewrite (B segs Hs). rewrite app_assoc.
    rewrite !dirname_rootPath; try assumption; try reflexivity;
      now rewrite forallb_app, Hs, Hd.
Qed.

Lemma output_mirrors_source_witness :
  buildOutputPath "/repo" "/out"
    (PosixPath.relative "/home" "/repo" "/repo/python/python-quiz.md")
  = "/out/python/python-quiz.json".
Proof.
  destruct (output_mirrors_source "/home" ["repo"] ["out"] ["python"] "python-quiz"
              eq_refl eq_refl eq_refl eq_refl ltac:(discriminate)) as (_ & H & _).
  exact H.
Defined.

End OutputPath.

(** ** The run of the generator *)

Section GeneratorRun.
Import Fs GenerateQuizJsonCli Runs.
Local Open Scope list_scope.

Lemma lookup_absent (p : string) (l : list (string * string)) :
  lookup p l = None ->
  List.filter (fun e => negb (String.eqb (fst e) p)) l = l.
Proof.
  induction l as [|[q s] r IH]; [reflexivity|]. cbn [lookup filter fst].
  destruct (String.eqb q p); [discriminate|]. intros H. cbn [negb].
  now rewrite (IH H).
Qed.

Lemma lookup_other (p q : string) (l : list (string * string)) :
  p <> q ->
  lookup p (List.filter (fun e => negb (String.eqb (fst e) q)) l) = lookup p l.
Proof.
  intros Hpq. induction l as [|[k s] r IH]; [reflexivity|]. cbn [lookup filter fst].
  destruct (String.eqb_spec k q) as [->|Hk]; cbn [negb].
  - rewrite IH. destruct (String.eqb_spec q p) as [->|]; [contradiction | reflexivity].
  - cbn [lookup]. now rewrite IH.
Qed.

(** What [writeFile] does to the files. *)
Lemma writeFile_spec (w w' : World) (p s : string) :
  writeFile w p s = Some w' ->
  readFile w' p = (if listed p (unreadable w) then None else Some s)
  /\ (forall q, q <> p -> readFile w' q = readFile w q)
  /\ (lookup p (contents w) = None ->
      List.length (contents w') = S (List.length (contents w))).
Proof.
  unfold writeFile. destruct (writable w p && negb (isDirectory w p)); [|discriminate].
  intros H. injection H as <-. unfold readFile.
  cbn [contents unreadable lookup]. rewrite String.eqb_refl.
  split; [reflexivity|]. split.
  - intros q Hq. destruct (String.eqb_spec p q) as [->|_]; [contradiction|].
    now rewrite lookup_other.
  - intros E. cbn [List.length]. now rewrite (lookup_absent p _ E).
Qed.

(** What is there stays there when a file is written. *)
Lemma writeFile_exists (w w' : World) (p s q : string) :
  writeFile w p s = Some w' -> fileExists w q = true -> fileExists w' q = true.
Proof.
  unfold writeFile. destruct (writable w p && negb (isDirectory w p)); [|discriminate].
  intros H. injection H as <-. unfold fileExists, isFile, isDirectory.
  cbn [contents unreadable directories lookup].
  destruct (String.eqb_spec p q) as [->|Hpq].
  - intros _. now rewrite orb_true_r.
  - rewrite lookup_other by (intros E; now apply Hpq). auto.
Qed.

(** What [mkdir] does: the files are what they were. *)
Lemma mkdir_spec (w w' : World) (dir : string) :
  mkdir w dir = Some w' ->
  contents w' = contents w
  /\ (forall q, readFile w' q = readFile w q)
  /\ (forall q, fileExists w q = true -> fileExists w' q = true)
  /\ fileExists w' dir = true.
Proof.
  unfold mkdir. destruct (makes w dir && negb _); [|discriminate].
  intros H. injection H as <-. split; [reflexivity|]. split; [reflexivity|].
  unfold fileExists, isFile, isDirectory, above.
  cbn [contents unreadable directories existsb]. split.
  - intros q Hq. apply orb_true_iff in Hq. destruct Hq as [-> | ->]; [reflexivity|].
    now rewrite !orb_true_r.
  - rewrite String.eqb_refl. cbn [orb]. now rewrite orb_true_r.
Qed.

Lemma fileExists_lookup (w : World) (p : string) :
  fileExists w p = false -> lookup p (contents w) = None.
Proof.
  unfold fileExists, isFile. intros H. apply orb_false_iff in H.
  destruct H as [H _]. apply orb_false_iff in H. destruct H as [_ H].
  now destruct (lookup p (contents w)).
Qed.

(** One round of the loop. *)
Lemma processFile_round (env : Env) (config : Config) (root outputRoot : string)
    (r : Run) (entry : nat * string) :
  let r' := processFile env config root outputRoot r entry in
  files (summary r') = files (summary r)
  /\ written (summary r) <= written (summary r')
  /\ skipped_ (summary r) <= skipped_ (summary r')
  /\ written (summary r') + skipped_ (summary r')
     <= S (written (summary r) + skipped_ (summary r))
  /\ (dryRun config = true ->
      world r' = world r
      /\ written (summary r') = written (summary r)
      /\ skipped_ (summary r') = skipped_ (summary r))
  /\ (forall p, fileExists (world r) p = true -> fileExists (world r') p = true)
  /\ (overwrite config = false ->
      (forall p, fileExists (world r) p = true ->
                 readFile (world r') p = readFile (world r) p)
      /\ List.length (contents (world r')) + written (summary r)
         = List.length (contents (world r)) + written (summary r')).
Proof.
  destruct entry as [k filePath]. cbv zeta. unfold processFile.
  destruct (readFile (world r) filePath) as [content|].
  2:{ cbn. repeat split; auto; lia. }
  set (relPath := PosixPath.relative (cwd env) root filePath).
  set (parsed := GenerateQuizJson.parseQuizMarkdown _ _ _ _).
  set (outputFile := buildOutputPath root outputRoot relPath).
  set (text := stringify env (createdById config) parsed).
  clearbody parsed outputFile text.
  assert (Write : forall made,
            mkdir (world r) (PosixPath.dirname outputFile) = Some made ->
            let r' := match writeFile made outputFile text with
                      | Some w => count w r 1 parsed
                      | None => failed (mkRun made (summary r))
                      end in
            files (summary r') = files (summary r)
            /\ written (summary r) <= written (summary r')
            /\ skipped_ (summary r) <= skipped_ (summary r')
            /\ written (summary r') + skipped_ (summary r')
               <= S (written (summary r) + skipped_ (summary r))
            /\ (forall p, fileExists (world r) p = true ->
                          fileExists (world r') p = true)
            /\ (fileExists (world r) outputFile = false ->
                (forall p, fileExists (world r) p = true ->
                           readFile (world r') p = readFile (world r) p)
                /\ List.length (contents (world r')) + written (summary r)
                   = List.length (contents (world r)) + written (summary r'))).
  { intros made Em. cbv zeta.
    destruct (mkdir_spec _ _ _ Em) as (Mc & Mr & Me & _).
    destruct (writeFile made outputFile text) as [w'|] eqn:Ew.
    - destruct (writeFile_spec _ _ _ _ Ew) as (_ & Hother & Hlen).
      cbn. repeat split; auto; try lia.
      + intros p Hp. apply (writeFile_exists _ _ _ _ _ Ew). now apply Me.
      + intros p Hp. rewrite Hother, Mr; [reflexivity|]. intros ->. congruence.
      + rewrite Hlen, Mc; [lia|]. rewrite Mc. now apply fileExists_lookup.
    - cbn. repeat split; auto; try lia. now rewrite Mc. }
  destruct (overwrite config) eqn:Eo, (dryRun config) eqn:Ed; cbn [negb andb].
  - cbn. repeat split; auto; try lia; discriminate.
  - destruct (mkdir (world r) (PosixPath.dirname outputFile)) as [made|] eqn:Em.
    + destruct (Write made eq_refl) as (A & B & C & D & E & _).
      repeat split; auto; discriminate.
    + cbn. repeat split; auto; try lia; discriminate.
  - cbn. repeat split; auto; lia.
  - destruct (fileExists (world r) outputFile) eqn:Ex.
    + cbn. repeat split; auto; try lia; discriminate.
    + destruct (mkdir (world r) (PosixPath.dirname outputFile)) as [made|] eqn:Em.
      * destruct (Write made eq_refl) as (A & B & C & D & E & F).
        destruct (F eq_refl) as [F1 F2]. repeat split; auto; discriminate.
      * cbn. repeat split; auto; try lia; discriminate.
Qed.

(** The rounds one behind the other. *)
Lemma processFiles_rounds (env : Env) (config : Config) (root outputRoot : string)
    (entries : list (nat * string)) :
  forall r,
    let r' := fold_left (processFile env config root outputRoot) entries r in
    files (summary r') = files (summary r)
    /\ written (summary r) <= written (summary r')
    /\ written (summary r') + skipped_ (summary r')
       <= List.length entries + (written (summary r) + skipped_ (summary r))
    /\ (dryRun config = true ->
        world r' = world r
        /\ written (summary r') = written (summary r)
        /\ skipped_ (summary r') = skipped_ (summary r))
    /\ (forall p, fileExists (world r) p = true -> fileExists (world r') p = true)
    /\ (overwrite config = false ->
        (forall p, fileExists (world r) p = true ->
                   readFile (world r') p = readFile (world r) p)
        /\ List.length (contents (world r')) + written (summary r)
           = List.length (contents (world r)) + written (summary r')).
Proof.
  induction entries as [|e rest IH]; intros r; cbv zeta.
  - cbn. repeat split; auto.
  - cbn [fold_left List.length].
    destruct (processFile_round env config root outputRoot r e)
      as (F1 & W1 & S1 & B1 & D1 & E1 & O1).
    destruct (IH (processFile env config root outputRoot r e))
      as (F2 & W2 & B2 & D2 & E2 & O2).
    split; [congruence|]. split; [lia|]. split; [lia|]. split; [|split].
    + intros Hd. destruct (D1 Hd) as (A1 & A2 & A3), (D2 Hd) as (C1 & C2 & C3).
      repeat split; congruence.
    + intros p Hp. apply E2. now apply E1.
    + intros Ho. destruct (O1 Ho) as [K1 L1], (O2 Ho) as [K2 L2]. split.
      * intros p Hp. rewrite K2; [now apply K1|]. now apply E1.
      * lia.
Qed.

(** The rounds over files that can be read and whose JSON files exist. *)
Lemma processFiles_skipped (env : Env) (config : Config) (root outputRoot : string)
    (entries : list (nat * string)) :
  overwrite config = false -> dryRun config = false ->
  forall r,
    (forall e, In e entries ->
       readFile (world r) (snd e) <> None
       /\ fileExists (world r)
            (buildOutputPath root outputRoot
               (PosixPath.relative (cwd env) root (snd e))) = true) ->
    let r' := fold_left (processFile env config root outputRoot) entries r in
    world r' = world r
    /\ written (summary r') = written (summary r)
    /\ warnings (summary r') = warnings (summary r)
    /\ skipped_ (summary r') = skipped_ (summary r) + List.length entries.
Proof.
  intros Ho Hd. induction entries as [|e rest IH]; intros r H; cbv zeta.
  - cbn. repeat split; auto.
  - cbn [fold_left List.length].
    assert (E : processFile env config root outputRoot r e = skipOne r).
    { destruct (H e (or_introl eq_refl)) as [Hr Hx]. destruct e as [k filePath].
      cbn [snd] in *. unfold processFile.
      destruct (readFile (world r) filePath); [|contradiction].
      now rewrite Ho, Hd, Hx. }
    rewrite E. destruct (IH (skipOne r)) as (A & B & C & D).
    { intros e' He'. apply H. now right. }
    cbn [skipOne world summary written warnings skipped_] in *.
    repeat split; auto. lia.
Qed.

(** X17.  [fileExists] holds at the files, those that cannot be read too,
    and at the directories.  A run of the generator with "--dry-run" leaves
    every file as it is and counts nothing as written or skipped.  A run
    without "--overwrite" leaves every file that exists as it is, and has
    then made one new file for each one it counts as written.  In every run
    [files] is the number of quiz files found, and what is counted as
    written or skipped is not more.  A run without "--overwrite" and
    "--dry-run", when each quiz file found can be read and its JSON file
    exists, be it a directory, changes nothing and counts every file as
    skipped, none as written and no warning. *)
Theorem generator_run (env : Env) (argv : list string) (tree : list Entry)
    (w : World) :
  let config := parseArgs (cwd env) (seedUserId env) argv in
  let root := rootOf env config in
  let found := findQuizFiles root (match_ config) tree in
  let outputOf file :=
    buildOutputPath root (outputRootOf env config)
      (PosixPath.relative (cwd env) root file) in
  let out := main env argv tree w in
  (forall p, fileExists w p = true
             <-> (In p (unreadable w) \/ lookup p (contents w) <> None
                  \/ exists d, In d (directories w) /\ above p d = true))
  /\ (dryRun config = true ->
      fst out = w
      /\ forall s, snd out = Some s -> written s = 0 /\ skipped_ s = 0)
  /\ (overwrite config = false ->
      (forall p, fileExists w p = true -> readFile (fst out) p = readFile w p)
      /\ forall s, snd out = Some s ->
           List.length (contents (fst out))
           = List.length (contents w) + written s)
  /\ (snd out = None <-> found = [])
  /\ (forall s, snd out = Some s ->
        files s = List.length found
        /\ written s + skipped_ s <= files s)
  /\ (overwrite config = false -> dryRun config = false ->
      (forall file, In file found ->
         readFile w file <> None /\ fileExists w (outputOf file) = true) ->
      fst out = w
      /\ forall s, snd out = Some s ->
           skipped_ s = files s /\ written s = 0 /\ warnings s = 0).
Proof.
  cbv zeta. split.
  { intros p. unfold fileExists, isFile, isDirectory, listed.
    rewrite !orb_true_iff, !existsb_exists. split.
    - intros [[(q & Hq & E)|H]|(d & Hd & E)].
      + apply String.eqb_eq in E. subst q. now left.
      + right. left. now destruct (lookup p (contents w)).
      + right. right. now exists d.
    - intros [H|[H|(d & Hd & E)]].
      + left. left. exists p. split; [exact H | apply String.eqb_refl].
      + left. right. destruct (lookup p (contents w)); [reflexivity | contradiction].
      + right. now exists d. }
  unfold main.
  set (config := parseArgs (cwd env) (seedUserId env) argv).
  set (found := findQuizFiles (rootOf env config) (match_ config) tree).
  destruct found as [|f fs] eqn:Ef.
  - cbn [fst snd]. repeat split; try discriminate; auto.
  - rewrite <- Ef. unfold processFiles.
    set (entries := List.combine (List.seq 0 (List.length found)) found).
    assert (Hlen : List.length entries = List.length found).
    { unfold entries. rewrite length_combine, length_seq. apply Nat.min_id. }
    destruct (processFiles_rounds env config (rootOf env config)
                (outputRootOf env config) entries
                (mkRun w (mkSummary 0 0 0 (List.length found))))
      as (F & _ & B & D & _ & O).
    pose proof (processFiles_skipped env config (rootOf env config)
                  (outputRootOf env config) entries) as K.
    cbn [world summary written skipped_ files] in *. cbn [fst snd].
    split; [|split; [|split; [|split]]].
    + intros Hd. destruct (D Hd) as (D1 & D2 & D3). split; [exact D1|].
      intros s Hs. injection Hs as <-. now split.
    + intros Ho. destruct (O Ho) as [O1 O2]. split; [exact O1|].
      intros s Hs. injection Hs as <-. lia.
    + split; [discriminate | intros E; rewrite Ef in E; discriminate].
    + intros s Hs. injection Hs as <-. split; [exact F | lia].
    + intros Ho Hd H.
      destruct (K Ho Hd (mkRun w (mkSummary 0 0 0 (List.length found))))
        as (K1 & K2 & K3 & K4).
      { intros [k file] He. apply in_combine_r in He. cbn [snd world].
        now apply H. }
      cbn [world summary written skipped_ warnings] in *.
      split; [exact K1|]. intros s Hs. injection Hs as <-.
      repeat split; auto. rewrite K4, F. cbn. exact Hlen.
Qed.

Lemma generator_run_witness :
  let w := mkWorld [("/repo/a-quiz.md", Sample.content)] [] ["/repo/a-quiz.json/img"]
                   (fun _ => true) (fun _ => true) in
  let out := main (mkEnv "/repo" None (fun _ => "2024-01-01T00:00:00.000Z")
                         (fun _ _ => "{}"))
                  [] [Dir "a-quiz.json" [Dir "img" []]; File "a-quiz.md"] w in
  fst out = w
  /\ option_map skipped_ (snd out) = Some 1
  /\ option_map written (snd out) = Some 0
  /\ option_map warnings (snd out) = Some 0.
Proof.
  intros w out.
  destruct (generator_run
              (mkEnv "/repo" None (fun _ => "2024-01-01T00:00:00.000Z")
                     (fun _ _ => "{}"))
              [] [Dir "a-quiz.json" [Dir "img" []]; File "a-quiz.md"] w)
    as (_ & _ & _ & _ & N & H).
  destruct (H eq_refl eq_refl) as [W S].
  { intros file [<-|[]]. split; [discriminate | reflexivity]. }
  split; [exact W|]. fold out in S, N.
  destruct (snd out) as [s|] eqn:E; [|discriminate].
  destruct (S s eq_refl) as (S1 & S2 & S3), (N s eq_refl) as [N1 _].
  cbn [option_map]. rewrite S1, S2, S3, N1. repeat split.
Defined.

End GeneratorRun.

(** ** Grouping by directory *)

Section Grouping.
Import Fs BuildQuizzSetsCli Runs.
Local Open Scope list_scope.

Variable key : string -> string.

(** The group of the key [d] among [files]. *)
Let group (files : list string) (d : string) : string * list string :=
  (d, List.filter (fun f => String.eqb (key f) d) files).

Lemma distinct_in (l : list string) (x : string) : In x (distinct l) <-> In x l.
Proof.
  induction l as [|y r IH]; [reflexivity|]. cbn [distinct In]. split.
  - intros [->|H]; [now left|]. apply filter_In in H. right. now apply IH.
  - intros [->|H]; [now left|].
    destruct (String.eqb_spec x y) as [->|Hxy]; [now left|]. right.
    apply filter_In. split; [now apply IH|].
    apply negb_true_iff. now apply String.eqb_neq.
Qed.

Lemma distinct_NoDup (l : list string) : NoDup (distinct l).
Proof.
  induction l as [|y r IH]; [constructor|]. cbn [distinct]. constructor.
  - intros H. apply filter_In in H. destruct H as [_ H].
    now rewrite String.eqb_refl in H.
  - now apply NoDup_filter.
Qed.

(** The first places of a list with one more element behind it. *)
Lemma distinct_snoc (l : list string) (x : string) :
  distinct (l ++ [x])
  = distinct l ++ (if List.existsb (String.eqb x) l then [] else [x]).
Proof.
  induction l as [|y r IH]; [reflexivity|].
  cbn [app distinct List.existsb]. rewrite IH, filter_app. f_equal. f_equal.
  destruct (String.eqb_spec x y) as [->|Hxy]; cbn [orb].
  - destruct (List.existsb (String.eqb y) r); cbn [filter];
      rewrite ?String.eqb_refl; reflexivity.
  - destruct (List.existsb (String.eqb x) r); [reflexivity|].
    cbn [filter]. destruct (String.eqb_spec x y); [contradiction | reflexivity].
Qed.

Lemma push_present (d f : string) (files keys : list string) :
  In d keys -> NoDup keys ->
  push d f (List.map (group files) keys)
  = List.map (fun k => (k, snd (group files k)
                           ++ (if String.eqb k d then [f] else [])))
             keys.
Proof.
  induction keys as [|k r IH]; [contradiction|]. intros Hin Hnd.
  apply NoDup_cons_iff in Hnd. destruct Hnd as [Hk Hnd].
  cbn [List.map push group]. unfold group at 1. cbn [snd].
  destruct (String.eqb_spec k d) as [->|Hkd].
  - f_equal. apply map_ext_in. intros k Hk'. unfold group. cbn [snd].
    destruct (String.eqb_spec k d) as [->|]; [contradiction|].
    now rewrite app_nil_r.
  - rewrite app_nil_r. f_equal. destruct Hin as [->|Hin]; [contradiction|].
    now apply IH.
Qed.

Lemma push_absent (d f : string) (files keys : list string) :
  ~ In d keys ->
  push d f (List.map (group files) keys)
  = List.map (group files) keys ++ [(d, [f])].
Proof.
  induction keys as [|k r IH]; [reflexivity|]. intros Hin.
  cbn [List.map push group]. unfold group at 1.
  destruct (String.eqb_spec k d) as [->|Hkd]; [exfalso; apply Hin; now left|].
  cbn [app]. f_equal. apply IH. intros H. apply Hin. now right.
Qed.

Lemma existsb_eqb_in (x : string) (l : list string) :
  List.existsb (String.eqb x) l = true <-> In x l.
Proof.
  rewrite existsb_exists. split.
  - intros (y & Hy & E). apply String.eqb_eq in E. now subst.
  - intros H. exists x. split; [exact H | apply String.eqb_refl].
Qed.

Lemma filter_none (d : string) (files : list string) :
  ~ In d (List.map key files) ->
  List.filter (fun f => String.eqb (key f) d) files = [].
Proof.
  intros H. induction files as [|f r IH]; [reflexivity|]. cbn [filter].
  destruct (String.eqb_spec (key f) d) as [E|_].
  - exfalso. apply H. left. exact E.
  - apply IH. intros H'. apply H. now right.
Qed.

(** The fold of [groupByDirectory] gives, for each key at its first place,
    the files with that key. *)
Lemma grouped_by_key (files : list string) :
  fold_left (fun grouped file => push (key file) file grouped) files []
  = List.map (group files) (distinct (List.map key files)).
Proof.
  induction files as [|f r IH] using rev_ind; [reflexivity|].
  rewrite fold_left_app. cbn [fold_left]. rewrite IH, map_app. cbn [List.map].
  rewrite distinct_snoc.
  destruct (List.existsb (String.eqb (key f)) (List.map key r)) eqn:E.
  - apply existsb_eqb_in in E. rewrite app_nil_r.
    rewrite push_present;
      [| now apply distinct_in | apply distinct_NoDup].
    apply map_ext. intros k. unfold group. cbn [snd]. f_equal.
    rewrite filter_app. cbn [filter].
    rewrite (String.eqb_sym k). reflexivity.
  - assert (Hn : ~ In (key f) (List.map key r)).
    { intros H. apply existsb_eqb_in in H. congruence. }
    rewrite push_absent by (intros H; apply Hn; now apply distinct_in).
    rewrite map_app. cbn [List.map]. f_equal.
    + apply map_ext_in. intros k Hk. unfold group. f_equal.
      rewrite filter_app. cbn [filter].
      destruct (String.eqb_spec (key f) k) as [<-|_]; [|now rewrite app_nil_r].
      exfalso. apply Hn. now apply distinct_in.
    + unfold group. rewrite filter_app. cbn [filter].
      rewrite String.eqb_refl, (filter_none (key f) r Hn). reflexivity.
Qed.

End Grouping.

Section GroupingByDirectory.
Import Fs BuildQuizzSetsCli Runs.
Local Open Scope list_scope.

(** X18.  [groupByDirectory] has one entry for each directory of the
    files, in the order in which the directories first occur; the entry of
    a directory holds the files of that directory, all of them, in the order
    of the files; no directory occurs twice and no entry is empty. *)
Theorem grouped_by_directory (files : list string) :
  let grouped := groupByDirectory files in
  grouped
  = List.map (fun dir =>
                (dir, List.filter (fun file =>
                                     String.eqb (PosixPath.dirname file) dir)
                                  files))
             (distinct (List.map PosixPath.dirname files))
  /\ NoDup (List.map fst grouped)
  /\ Forall (fun entry => snd entry <> []) grouped
  /\ (forall file, In file files <->
        exists entry, In entry grouped /\ In file (snd entry)
                      /\ fst entry = PosixPath.dirname file).
Proof.
  cbv zeta. unfold groupByDirectory. rewrite (grouped_by_key PosixPath.dirname).
  split; [reflexivity|]. split; [|split].
  - rewrite map_map. cbn [fst]. rewrite map_id. apply distinct_NoDup.
  - apply Forall_forall. intros entry H. apply in_map_iff in H.
    destruct H as (dir & <- & Hd). cbn [snd].
    apply distinct_in, in_map_iff in Hd. destruct Hd as (file & E & Hf).
    intros Hnil.
    assert (Hin : In file (List.filter (fun f => String.eqb (PosixPath.dirname f) dir)
                                       files)).
    { apply filter_In. split; [exact Hf | now apply String.eqb_eq]. }
    rewrite Hnil in Hin. contradiction.
  - intros file. split.
    + intros Hf. eexists. split; [|split].
      * apply in_map_iff. exists (PosixPath.dirname file). split; [reflexivity|].
        apply distinct_in, in_map. exact Hf.
      * cbn [snd]. apply filter_In. split; [exact Hf | apply String.eqb_refl].
      * reflexivity.
    + intros (entry & He & Hf & _). apply in_map_iff in He.
      destruct He as (dir & <- & _). cbn [snd] in Hf.
      now apply filter_In in Hf.
Qed.

Lemma grouped_by_directory_witness :
  exists entry,
    In entry (groupByDirectory ["/a/x-quiz.json"; "/b/y-quiz.json"; "/a/z-quiz.json"])
    /\ In "/a/z-quiz.json" (snd entry)
    /\ fst entry = PosixPath.dirname "/a/z-quiz.json".
Proof.
  destruct (grouped_by_directory
              ["/a/x-quiz.json"; "/b/y-quiz.json"; "/a/z-quiz.json"])
    as (_ & _ & _ & H).
  apply H. right. right. now left.
Defined.

End GroupingByDirectory.

(** ** Sorting what a walk has found *)

Section Sorting.
Import Fs Runs.
Local Open Scope list_scope.

Variable after : string -> string -> bool.

Lemma insert_permutation (x : string) (l : list string) :
  Permutation (insert after x l) (x :: l).
Proof.
  induction l as [|y r IH]; cbn [insert]; [reflexivity|].
  destruct (after x y); [|reflexivity]. rewrite IH. apply perm_swap.
Qed.

Lemma sortWith_permutation (l : list string) : Permutation (sortWith after l) l.
Proof.
  unfold sortWith. induction l as [|x r IH]; cbn [fold_right]; [reflexivity|].
  rewrite insert_permutation. now constructor.
Qed.

Lemma sortWith_in (l : list string) (x : string) : In x (sortWith after l) <-> In x l.
Proof.
  split; apply Permutation_in;
    [apply sortWith_permutation | apply Permutation_sym, sortWith_permutation].
Qed.

(** The comparison is one of an order. *)
Hypothesis after_asym : forall a b, after a b = true -> after b a = false.
Hypothesis after_trans :
  forall a b c, after a b = false -> after b c = false -> after a c = false.

Let le (a b : string) : Prop := after a b = false.

Lemma insert_sorted (x : string) (l : list string) :
  StronglySorted le l -> StronglySorted le (insert after x l).
Proof.
  induction 1 as [|y r Hs IH Hy]; cbn [insert].
  - repeat constructor.
  - destruct (after x y) eqn:E.
    + constructor; [exact IH|].
      apply (Permutation_Forall (Permutation_sym (insert_permutation x r))).
      constructor; [now apply after_asym | exact Hy].
    + constructor; [now constructor|].
      constructor; [exact E|].
      revert Hy. apply Forall_impl. intros z. now apply after_trans.
Qed.

Lemma sortWith_sorted (l : list string) : StronglySorted le (sortWith after l).
Proof.
  unfold sortWith. induction l as [|x r IH]; cbn [fold_right]; [constructor|].
  now apply insert_sorted.
Qed.

Lemma insert_first (x : string) (l : list string) :
  Forall (le x) l -> insert after x l = x :: l.
Proof.
  destruct l as [|y r]; [reflexivity|]. intros H. cbn [insert].
  apply Forall_inv in H. unfold le in H. now rewrite H.
Qed.

Lemma insert_filter (p : string -> bool) (x : string) (l : list string) :
  StronglySorted le l ->
  List.filter p (insert after x l)
  = if p x then insert after x (List.filter p l) else List.filter p l.
Proof.
  induction 1 as [|y r Hs IH Hy].
  - cbn. now destruct (p x).
  - cbn [insert]. destruct (after x y) eqn:E.
    + change (List.filter p (y :: insert after x r))
        with (if p y then y :: List.filter p (insert after x r)
              else List.filter p (insert after x r)).
      change (List.filter p (y :: r))
        with (if p y then y :: List.filter p r else List.filter p r).
      rewrite IH. destruct (p x), (p y); cbn [insert]; rewrite ?E; reflexivity.
    + assert (G : Forall (le x) (y :: r)).
      { constructor; [exact E|]. revert Hy. apply Forall_impl.
        intros z. now apply after_trans. }
      set (l := y :: r) in *. clearbody l.
      change (List.filter p (x :: l))
        with (if p x then x :: List.filter p l else List.filter p l).
      destruct (p x); [|reflexivity].
      symmetry. apply insert_first.
      apply Forall_forall. intros z Hz. rewrite Forall_forall in G.
      apply G. apply filter_In in Hz. now destruct Hz.
Qed.

(** Sorting and leaving out can change places. *)
Lemma sortWith_filter (p : string -> bool) (l : list string) :
  sortWith after (List.filter p l) = List.filter p (sortWith after l).
Proof.
  induction l as [|x r IH]; [reflexivity|].
  change (sortWith after (x :: r)) with (insert after x (sortWith after r)).
  rewrite insert_filter by apply sortWith_sorted. cbn [filter].
  destruct (p x); [|exact IH].
  change (sortWith after (x :: List.filter p r))
    with (insert after x (sortWith after (List.filter p r))).
  now rewrite IH.
Qed.

End Sorting.

(** ** The walks *)

Section Walks.
Import Fs Runs Props.
Local Open Scope list_scope.

Lemma codeUnits_asym (a b : string) :
  codeUnitsAfter a b = true -> codeUnitsAfter b a = false.
Proof.
  unfold codeUnitsAfter. rewrite (String.compare_antisym b a).
  destruct (String.compare a b); cbn; intros H; first [reflexivity | discriminate].
Qed.

Lemma codeUnits_le (a b : string) : codeUnitsAfter a b = false <-> codeUnitsLe a b.
Proof.
  unfold codeUnitsAfter, codeUnitsLe. destruct (String.compare a b);
    split; intros H; try reflexivity; try discriminate; try congruence.
Qed.

Lemma codeUnits_trans (a b c : string) :
  codeUnitsAfter a b = false -> codeUnitsAfter b c = false ->
  codeUnitsAfter a c = false.
Proof.
  rewrite !codeUnits_le. apply string_le_trans.
Qed.

(** Induction on an entry and what lies below it. *)
Lemma Entry_induction (P : Entry -> Prop) :
  (forall name, P (File name)) -> (forall name, P (Other name)) ->
  (forall name entries, Forall P entries -> P (Dir name entries)) ->
  forall entry, P entry.
Proof.
  intros HF HO HD. fix IH 1. intros [name|name entries|name].
  - apply HF.
  - apply HD. induction entries as [|e r IHr]; constructor; [apply IH | exact IHr].
  - apply HO.
Qed.

Lemma flat_map_ext_in {A B : Type} (f g : A -> list B) (l : list A) :
  Forall (fun a => f a = g a) l -> List.flat_map f l = List.flat_map g l.
Proof.
  induction 1 as [|a r Ha _ IH]; [reflexivity|]. cbn [List.flat_map].
  now rewrite Ha, IH.
Qed.

Lemma filter_flat_map {A : Type} (p : string -> bool) (f : A -> list string)
    (l : list A) :
  List.filter p (List.flat_map f l)
  = List.flat_map (fun a => List.filter p (f a)) l.
Proof.
  induction l as [|a r IH]; [reflexivity|]. cbn [List.flat_map].
  now rewrite filter_app, IH.
Qed.

(** *** The three walks as walks in general *)

Lemma generator_walk (keyword : option string) (entry : Entry) :
  forall dir listing,
    GenerateQuizJsonCli.walk keyword dir entry
    = paths (fun name => negb (GenerateQuizJsonCli.skipped name))
            (fun _ => markdownTaken keyword) dir listing entry.
Proof.
  induction entry as [name|name|name entries IH] using Entry_induction;
    intros dir listing; cbn [GenerateQuizJsonCli.walk paths].
  - unfold markdownTaken. destruct (GenerateQuizJsonCli.skipped name); reflexivity.
  - reflexivity.
  - destruct (GenerateQuizJsonCli.skipped name); [reflexivity|]. cbn [negb].
    apply flat_map_ext_in. revert IH. apply Forall_impl. intros e He. apply He.
Qed.

Lemma consolidator_walk (entry : Entry) :
  forall dir listing,
    BuildQuizzSetsCli.walk dir entry
    = paths (fun name => negb (BuildQuizzSetsCli.skipped name))
            (fun _ name _ => jsonCollected name) dir listing entry.
Proof.
  induction entry as [name|name|name entries IH] using Entry_induction;
    intros dir listing; cbn [BuildQuizzSetsCli.walk paths].
  - unfold jsonCollected. destruct (BuildQuizzSetsCli.skipped name); [reflexivity|].
    destruct (String.eqb name "quizz.json"); reflexivity.
  - reflexivity.
  - destruct (BuildQuizzSetsCli.skipped name); [reflexivity|]. cbn [negb].
    apply flat_map_ext_in. revert IH. apply Forall_impl. intros e He. apply He.
Qed.

Lemma seeder_walk (keyword : option string) (entry : Entry) :
  forall dir listing,
    SeederCli.walk keyword dir (SeederCli.hasCombined listing) entry
    = paths (fun name => negb (SeederCli.skip name)) (jsonSeeded keyword)
            dir listing entry.
Proof.
  induction entry as [name|name|name entries IH] using Entry_induction;
    intros dir listing; cbn [SeederCli.walk paths].
  - unfold jsonSeeded. destruct (SeederCli.skip name); [reflexivity|]. cbv zeta.
    destruct (SeederCli.hasCombined listing
              && negb (String.eqb (Js.toLowerCase name) "quizz.json"));
      reflexivity.
  - reflexivity.
  - destruct (SeederCli.skip name); [reflexivity|]. cbn [negb].
    apply flat_map_ext_in. revert IH. apply Forall_impl. intros e He. apply He.
Qed.

(** *** What a walk finds *)

Lemma wellNamed_in (tree : list Entry) (entry : Entry) :
  forallb wellNamed tree = true -> In entry tree -> wellNamed entry = true.
Proof. intros H. now apply forallb_forall. Qed.

Lemma rootPath_below (segs dirs : list string) (name : string) (dir : string) :
  rootPath ((segs ++ [dir]) ++ dirs ++ [name])
  = rootPath (segs ++ (dir :: dirs) ++ [name]).
Proof. now rewrite <- app_assoc. Qed.

Section General.

Variable enters : string -> bool.
Variable takes : list Entry -> string -> string -> bool.

(** The file [name] of [listing], below the directories [dirs] of [tree],
    is one the walk comes to and takes under the path [p]. *)
Let reached (tree : list Entry) (segs : list string) (p : string) : Prop :=
  exists dirs listing name,
    listingAt tree dirs listing /\ In (File name) listing
    /\ forallb enters dirs = true /\ forallb plain dirs = true
    /\ plain name = true
    /\ p = rootPath (segs ++ dirs ++ [name]) /\ takes listing name p = true.

Lemma paths_sound (entry : Entry) :
  forall segs listing p,
    forallb plain segs = true -> wellNamed entry = true -> In entry listing ->
    In p (paths enters takes (rootPath segs) listing entry) ->
    reached listing segs p.
Proof.
  induction entry as [name|name|name entries IH] using Entry_induction;
    intros segs listing p Hs Hw Hin Hp; cbn [paths wellNamed] in *.
  - rewrite (join_file segs name Hs Hw) in Hp.
    destruct (takes listing name (rootPath (segs ++ [name]))) eqn:E;
      [|contradiction].
    destruct Hp as [<-|[]].
    exists [], listing, name. repeat split; auto. constructor.
  - contradiction.
  - apply andb_prop in Hw. destruct Hw as [Hn Hw].
    destruct (enters name) eqn:En; [|contradiction].
    rewrite (join_file segs name Hs Hn) in Hp.
    apply in_flat_map in Hp. destruct Hp as (child & Hc & Hp).
    rewrite Forall_forall in IH.
    assert (Hs' : forallb plain (segs ++ [name]) = true).
    { rewrite forallb_app, Hs. cbn. now rewrite Hn. }
    destruct (IH child Hc (segs ++ [name]) entries p Hs'
                (wellNamed_in entries child Hw Hc) Hc Hp)
      as (dirs & found & file & L & F & E & Pd & Pn & -> & T).
    exists (name :: dirs), found, file.
    rewrite <- rootPath_below. repeat split; auto.
    + now apply (listing_below listing name entries).
    + cbn. now rewrite En.
    + cbn. now rewrite Hn.
Qed.

Lemma paths_complete (tree : list Entry) (dirs : list string) (listing : list Entry) :
  listingAt tree dirs listing ->
  forall segs name,
    forallb plain segs = true -> forallb wellNamed tree = true ->
    In (File name) listing -> forallb enters dirs = true ->
    takes listing name (rootPath (segs ++ dirs ++ [name])) = true ->
    In (rootPath (segs ++ dirs ++ [name]))
       (List.flat_map (paths enters takes (rootPath segs) tree) tree).
Proof.
  induction 1 as [tree | tree dir entries dirs listing Hd Hl IH];
    intros segs name Hs Hw Hf He Ht.
  - apply in_flat_map. exists (File name). split; [exact Hf|].
    pose proof (wellNamed_in tree _ Hw Hf) as Hn. cbn [wellNamed] in Hn.
    cbn [paths app] in *. rewrite (join_file segs name Hs Hn), Ht. now left.
  - apply in_flat_map. exists (Dir dir entries). split; [exact Hd|].
    pose proof (wellNamed_in tree _ Hw Hd) as Hn. cbn [wellNamed] in Hn.
    apply andb_prop in Hn. destruct Hn as [Hn Hw'].
    cbn [forallb] in He. apply andb_prop in He. destruct He as [He1 He2].
    cbn [paths]. rewrite He1, (join_file segs dir Hs Hn).
    rewrite <- rootPath_below. apply IH; auto.
    + rewrite forallb_app, Hs. cbn. now rewrite Hn.
    + now rewrite rootPath_below.
Qed.

Lemma listingAt_plain (tree : list Entry) (dirs : list string) (listing : list Entry) :
  listingAt tree dirs listing -> forallb wellNamed tree = true ->
  forallb plain dirs = true /\ forallb wellNamed listing = true.
Proof.
  induction 1 as [tree | tree dir entries dirs listing Hd Hl IH]; intros Hw.
  - now split.
  - pose proof (wellNamed_in tree _ Hw Hd) as Hn. cbn [wellNamed] in Hn.
    apply andb_prop in Hn. destruct Hn as [Hn Hw'].
    destruct (IH Hw') as [H1 H2]. split; [|exact H2]. cbn. now rewrite Hn.
Qed.

(** What a walk finds below a resolved root: the files of the listings it
    comes to that it takes. *)
Lemma paths_found (tree : list Entry) (segs : list string) (p : string) :
  forallb plain segs = true -> forallb wellNamed tree = true ->
  In p (List.flat_map (paths enters takes (rootPath segs) tree) tree)
  <-> exists dirs listing name,
        listingAt tree dirs listing /\ In (File name) listing
        /\ forallb enters dirs = true
        /\ p = rootPath (segs ++ dirs ++ [name]) /\ takes listing name p = true.
Proof.
  intros Hs Hw. split.
  - intros H. apply in_flat_map in H. destruct H as (entry & He & Hp).
    destruct (paths_sound entry segs tree p Hs (wellNamed_in tree entry Hw He) He Hp)
      as (dirs & listing & name & L & F & E & _ & _ & -> & T).
    now exists dirs, listing, name.
  - intros (dirs & listing & name & L & F & E & -> & T).
    now apply (paths_complete tree dirs listing L).
Qed.

End General.

(** *** Paths below the root *)

Lemma prefix_append (k a t : string) :
  String.prefix k a = true -> String.prefix k (a ++ t) = true.
Proof.
  revert a. induction k as [|c k IH]; intros a H;
    [destruct (a ++ t)%string; reflexivity|].
  destruct a as [|d a]; [discriminate|]. cbn [append String.prefix] in *.
  destruct (ascii_dec c d); [now apply IH | discriminate].
Qed.

Lemma includes_append (a t k : string) :
  includes a k = true -> includes (a ++ t) k = true.
Proof.
  induction a as [|d a IH]; intros H.
  - cbn [includes] in H. rewrite orb_false_r in H.
    destruct k; [|discriminate]. destruct t; reflexivity.
  - cbn [includes append] in *. apply orb_prop in H. destruct H as [H|H].
    + change (String d (a ++ t)) with (String d a ++ t)%string.
      now rewrite (prefix_append k (String d a) t H).
    + rewrite (IH H). apply orb_true_r.
Qed.

Lemma rootPath_extends (segs rest : list string) :
  forallb plain segs = true -> rest <> [] ->
  exists t, rootPath (segs ++ rest) = (rootPath segs ++ t)%string.
Proof.
  intros Hs Hr. unfold rootPath. rewrite (rooted_join segs rest Hs Hr).
  unfold rooted.
  destruct (String.eqb_spec (String PosixPath.sep (Js.join "/" segs)) "/") as [E|_].
  - rewrite E. exists (Js.join "/" rest). reflexivity.
  - eexists. reflexivity.
Qed.

End Walks.

(** ** The files the generator finds *)

Section FoundFiles.
Import Fs Runs Props.
Local Open Scope list_scope.

Lemma sorted_weaken (R R' : string -> string -> Prop) (l : list string) :
  (forall a b, R a b -> R' a b) -> StronglySorted R l -> StronglySorted R' l.
Proof.
  intros H. induction 1 as [|x r Hs IH Hx]; constructor; [exact IH|].
  revert Hx. apply Forall_impl. intros y. apply H.
Qed.

(** The keyword is looked at last: with a keyword the walk finds what it
    finds without one, less the paths the keyword is not part of. *)
Lemma walk_keyword (keyword : option string) (entry : Entry) :
  forall dir,
    GenerateQuizJsonCli.walk keyword dir entry
    = List.filter (keeps keyword) (GenerateQuizJsonCli.walk None dir entry).
Proof.
  induction entry as [name|name|name entries IH] using Entry_induction;
    intros dir; cbn [GenerateQuizJsonCli.walk].
  - destruct (GenerateQuizJsonCli.skipped name); [reflexivity|].
    destruct (GenerateQuizJsonCli.isQuizMarkdown name); [|reflexivity].
    cbn [andb keeps filter]. now destruct (keeps keyword _).
  - reflexivity.
  - destruct (GenerateQuizJsonCli.skipped name); [reflexivity|].
    rewrite filter_flat_map. apply flat_map_ext_in.
    revert IH. apply Forall_impl. intros e He. apply He.
Qed.

Lemma generator_paths (root : string) (keyword : option string) (tree : list Entry) :
  List.flat_map (GenerateQuizJsonCli.walk keyword root) tree
  = List.flat_map (paths (fun name => negb (GenerateQuizJsonCli.skipped name))
                         (fun _ => markdownTaken keyword) root tree)
                  tree.
Proof. apply flat_map_ext. intros e. apply generator_walk. Qed.

(** X19.  [findQuizFiles] returns the paths in the order of their code
    units.  With a keyword it returns what it returns without one, less the
    paths the keyword is not part of; an empty keyword leaves out nothing.
    Below a resolved root it finds the files whose names end with ".md" and
    hold "quiz" in any case, and neither they nor a directory above them has
    a name that begins with ".git" or is "node_modules".  The keyword is
    sought in the whole path, so a keyword that is part of the root leaves
    out nothing either. *)
Theorem found_quiz_files (root : string) (keyword : option string)
    (tree : list Entry) :
  let found := GenerateQuizJsonCli.findQuizFiles root keyword tree in
  let all := GenerateQuizJsonCli.findQuizFiles root None tree in
  StronglySorted codeUnitsLe found
  /\ found = List.filter (keeps keyword) all
  /\ (keyword = Some "" -> found = all)
  /\ (forall segs,
        root = rootPath segs -> forallb plain segs = true ->
        forallb wellNamed tree = true ->
        (forall p,
            In p found <->
            exists dirs listing name,
              listingAt tree dirs listing /\ In (File name) listing
              /\ forallb (fun d => negb (GenerateQuizJsonCli.skipped d)) dirs = true
              /\ p = rootPath (segs ++ dirs ++ [name])
              /\ markdownTaken keyword name p = true)
        /\ (forall k, keyword = Some k -> includes root k = true -> found = all)).
Proof.
  cbv zeta. unfold GenerateQuizJsonCli.findQuizFiles.
  assert (F : List.flat_map (GenerateQuizJsonCli.walk keyword root) tree
              = List.filter (keeps keyword)
                  (List.flat_map (GenerateQuizJsonCli.walk None root) tree)).
  { rewrite filter_flat_map. apply flat_map_ext. intros e. apply walk_keyword. }
  assert (S : sortWith codeUnitsAfter
                (List.flat_map (GenerateQuizJsonCli.walk keyword root) tree)
              = List.filter (keeps keyword)
                  (sortWith codeUnitsAfter
                     (List.flat_map (GenerateQuizJsonCli.walk None root) tree))).
  { rewrite F. apply sortWith_filter; [apply codeUnits_asym | apply codeUnits_trans]. }
  split; [|split; [|split]].
  - apply (sorted_weaken (fun a b => codeUnitsAfter a b = false)).
    + intros a b. apply codeUnits_le.
    + apply sortWith_sorted; [apply codeUnits_asym | apply codeUnits_trans].
  - exact S.
  - intros ->. rewrite S. apply forallb_filter_id. apply forallb_forall.
    reflexivity.
  - intros segs -> Hs Hw. split.
    + intros p. rewrite sortWith_in, generator_paths.
      exact (paths_found (fun name => negb (GenerateQuizJsonCli.skipped name))
               (fun _ => markdownTaken keyword) tree segs p Hs Hw).
    + intros k -> Hk. rewrite S. apply forallb_filter_id. apply forallb_forall.
      intros p Hp. rewrite sortWith_in, generator_paths in Hp.
      apply (paths_found (fun name => negb (GenerateQuizJsonCli.skipped name))
               (fun _ => markdownTaken None) tree segs p Hs Hw) in Hp.
      destruct Hp as (dirs & listing & name & _ & _ & _ & -> & _).
      destruct (rootPath_extends segs (dirs ++ [name]) Hs) as [t ->];
        [destruct dirs; discriminate|].
      cbn [keeps]. rewrite (includes_append _ t k Hk). apply orb_true_r.
Qed.

Lemma found_quiz_files_witness :
  GenerateQuizJsonCli.findQuizFiles "/repo" (Some "repo")
    [Dir "python" [File "python-quiz.md"; File "notes.md"];
     Dir ".github" [File "quiz.md"]]
  = GenerateQuizJsonCli.findQuizFiles "/repo" None
      [Dir "python" [File "python-quiz.md"; File "notes.md"];
       Dir ".github" [File "quiz.md"]].
Proof.
  destruct (found_quiz_files "/repo" (Some "repo")
              [Dir "python" [File "python-quiz.md"; File "notes.md"];
               Dir ".github" [File "quiz.md"]]) as (_ & _ & _ & H).
  destruct (H ["repo"] eq_refl eq_refl eq_refl) as [_ G].
  exact (G "repo" eq_refl eq_refl).
Defined.

End FoundFiles.

(** ** The run of the consolidator *)

Section ConsolidatorRun.
Import Fs BuildQuizzSetsCli Runs Props.
Local Open Scope list_scope.

Lemma distinct_length (l : list string) :
  List.length (distinct l) <= List.length l.
Proof.
  induction l as [|x r IH]; [reflexivity|]. cbn [distinct List.length].
  pose proof (filter_length_le (fun y => negb (String.eqb y x)) (distinct r)). lia.
Qed.

(** One round of the loop touches the combined file of the directory and
    nothing else. *)
Lemma processDirectory_round (env : Env) (root : string) (r : World * nat)
    (entry : nat * (string * list string)) (p : string) :
  let r' := processDirectory env root r entry in
  snd r <= snd r' /\ snd r' <= S (snd r)
  /\ (p <> PosixPath.join [fst (snd entry); "quizz.json"] ->
      readFile (fst r') p = readFile (fst r) p).
Proof.
  destruct entry as [k [dir files]], r as [w written]. cbv zeta.
  unfold processDirectory. cbn [fst snd].
  destruct (readAll env w files) as [read|]; [|cbn; repeat split; auto].
  destruct (writeFile w (PosixPath.join [dir; "quizz.json"]) _) as [w'|] eqn:E;
    [|cbn; repeat split; auto].
  destruct (writeFile_spec _ _ _ _ E) as (_ & H & _).
  cbn [fst snd]. repeat split; auto.
Qed.

Lemma processDirectories_frame (env : Env) (root : string)
    (entries : list (nat * (string * list string))) (p : string) :
  (forall e, In e entries -> p <> PosixPath.join [fst (snd e); "quizz.json"]) ->
  forall r,
    let r' := fold_left (processDirectory env root) entries r in
    readFile (fst r') p = readFile (fst r) p.
Proof.
  induction entries as [|e rest IH]; intros Hp r; [reflexivity|].
  cbn [fold_left]. cbv zeta.
  rewrite IH by (intros e' He'; apply Hp; now right).
  apply processDirectory_round. apply Hp. now left.
Qed.

Lemma processDirectories_count (env : Env) (root : string)
    (entries : list (nat * (string * list string))) :
  forall r,
    snd (fold_left (processDirectory env root) entries r)
    <= snd r + List.length entries.
Proof.
  induction entries as [|e rest IH]; intros r; cbn [fold_left List.length]; [lia|].
  pose proof (IH (processDirectory env root r e)) as G.
  destruct (processDirectory_round env root r e "") as (_ & H & _). lia.
Qed.

Lemma grouped_length (files : list string) :
  List.length (groupByDirectory files) <= List.length files.
Proof.
  unfold groupByDirectory. rewrite (grouped_by_key PosixPath.dirname).
  rewrite length_map. etransitivity; [apply distinct_length|].
  now rewrite length_map.
Qed.

Lemma grouped_directory (files : list string) (entry : string * list string) :
  In entry (groupByDirectory files) ->
  exists file, In file files /\ fst entry = PosixPath.dirname file.
Proof.
  unfold groupByDirectory. rewrite (grouped_by_key PosixPath.dirname).
  intros H. apply in_map_iff in H. destruct H as (dir & <- & H).
  apply distinct_in, in_map_iff in H. destruct H as (file & <- & Hf).
  now exists file.
Qed.

(** A file the consolidator has collected below a resolved root. *)
Lemma collected_shape (segs : list string) (tree : list Entry) (file : string) :
  forallb plain segs = true -> forallb wellNamed tree = true ->
  In file (collectQuizFiles (rootPath segs) tree) ->
  exists dirs name,
    file = rootPath (segs ++ dirs ++ [name]) /\ forallb plain dirs = true
    /\ plain name = true /\ jsonCollected name = true.
Proof.
  intros Hs Hw H. unfold collectQuizFiles in H.
  rewrite (flat_map_ext _ _ (fun e => consolidator_walk e (rootPath segs) tree)) in H.
  apply (paths_found (fun name => negb (skipped name))
           (fun _ name _ => jsonCollected name) tree segs file Hs Hw) in H.
  destruct H as (dirs & listing & name & L & F & _ & -> & T).
  destruct (listingAt_plain tree dirs listing L Hw) as [Hd Hl].
  exists dirs, name. repeat split; auto.
  exact (wellNamed_in listing (File name) Hl F).
Qed.

Lemma last_injective (a b : list string) (x y : string) :
  a ++ [x] = b ++ [y] -> x = y.
Proof. intros H. now apply app_inj_tail in H. Qed.

(** The combined file of the directory of a collected file. *)
Lemma combined_path (segs dirs : list string) (name : string) :
  forallb plain segs = true -> forallb plain dirs = true -> plain name = true ->
  PosixPath.join [PosixPath.dirname (rootPath (segs ++ dirs ++ [name])); "quizz.json"]
  = rootPath (segs ++ dirs ++ ["quizz.json"]).
Proof.
  intros Hs Hd Hn.
  assert (Hsd : forallb plain (segs ++ dirs) = true) by now rewrite forallb_app, Hs, Hd.
  rewrite !app_assoc, (dirname_rootPath (segs ++ dirs) name Hsd Hn).
  now apply join_file.
Qed.

(** X20.  Below a resolved root the consolidator collects no file named
    "quizz.json", and a run writes nothing but files of that name, each in
    the directory of a file it has collected: the files it has collected are
    after the run what they were before it.  It counts as written at most
    one file for each of those directories. *)
Theorem consolidator_run (env : Env) (argv : list string) (tree : list Entry)
    (w : World) (segs : list string) :
  rootOf (cwd env) argv = Some (rootPath segs) ->
  forallb plain segs = true -> forallb wellNamed tree = true ->
  let collected := collectQuizFiles (rootPath segs) tree in
  exists w' written,
    main env argv tree w = Some (w', written)
    /\ written <= List.length (groupByDirectory collected)
    /\ List.length (groupByDirectory collected) <= List.length collected
    /\ Forall (fun file => PosixPath.basename file <> "quizz.json") collected
    /\ (forall p, readFile w' p <> readFile w p ->
          PosixPath.basename p = "quizz.json"
          /\ exists file, In file collected
                          /\ PosixPath.dirname p = PosixPath.dirname file)
    /\ (forall file, In file collected -> readFile w' file = readFile w file).
Proof.
  intros Hroot Hs Hw. cbv zeta. unfold main. rewrite Hroot.
  set (collected := collectQuizFiles (rootPath segs) tree).
  set (grouped := groupByDirectory collected).
  unfold processDirectories.
  set (entries := List.combine (List.seq 0 (List.length grouped)) grouped).
  set (r := fold_left (processDirectory env (rootPath segs)) entries (w, 0)).
  assert (Hentries : forall e, In e entries ->
            exists dirs name,
              forallb plain dirs = true /\ plain name = true
              /\ In (rootPath (segs ++ dirs ++ [name])) collected
              /\ jsonCollected name = true
              /\ PosixPath.join [fst (snd e); "quizz.json"]
                 = rootPath (segs ++ dirs ++ ["quizz.json"])).
  { intros [k entry] He. apply in_combine_r in He.
    destruct (grouped_directory collected entry He) as (file & Hf & Hd).
    destruct (collected_shape segs tree file Hs Hw Hf) as (dirs & name & -> & Pd & Pn & T).
    exists dirs, name. cbn [fst snd]. rewrite Hd. repeat split; auto.
    now apply combined_path. }
  assert (Hframe : forall p,
            (forall e, In e entries -> p <> PosixPath.join [fst (snd e); "quizz.json"]) ->
            readFile (fst r) p = readFile w p).
  { intros p Hp. apply (processDirectories_frame env (rootPath segs) entries p Hp (w, 0)). }
  assert (Hnames : Forall (fun file => PosixPath.basename file <> "quizz.json") collected).
  { apply Forall_forall. intros file Hf.
    destruct (collected_shape segs tree file Hs Hw Hf) as (dirs & name & -> & Pd & Pn & T).
    rewrite app_assoc, basename_rootPath; [|now rewrite forallb_app, Hs, Pd | exact Pn].
    intros ->. discriminate. }
  exists (fst r), (snd r). split; [now destruct r|]. split; [|split; [|split; [|split]]].
  - pose proof (processDirectories_count env (rootPath segs) entries (w, 0)) as H.
    fold r in H. cbn [snd] in H. unfold entries in H.
    rewrite length_combine, length_seq, Nat.min_id in H. exact H.
  - apply grouped_length.
  - exact Hnames.
  - intros p Hp.
    destruct (in_dec string_dec p
                (List.map (fun e => PosixPath.join [fst (snd e); "quizz.json"]) entries))
      as [Hin|Hout].
    + apply in_map_iff in Hin. destruct Hin as (e & <- & He).
      destruct (Hentries e He) as (dirs & name & Pd & Pn & Hc & _ & ->).
      assert (Hsd : forallb plain (segs ++ dirs) = true)
        by now rewrite forallb_app, Hs, Pd.
      split.
      * rewrite app_assoc. now apply basename_rootPath.
      * exists (rootPath (segs ++ dirs ++ [name])). split; [exact Hc|].
        rewrite !app_assoc, !dirname_rootPath; auto.
    + exfalso. apply Hp. apply Hframe. intros e He E. apply Hout.
      apply in_map_iff. now exists e.
  - intros file Hf. apply Hframe. intros e He E.
    destruct (Hentries e He) as (dirs & name & Pd & Pn & _ & _ & Eq).
    rewrite Forall_forall in Hnames. apply (Hnames file Hf).
    rewrite E, Eq, app_assoc. apply basename_rootPath; [|reflexivity].
    now rewrite forallb_app, Hs, Pd.
Qed.

Lemma consolidator_run_witness :
  exists w' written,
    main (mkEnv "/repo" (fun _ => "id") (fun _ => "2024-01-01T00:00:00.000Z")
                (fun _ => None) (fun _ => "{}"))
         ["node"; "build-quizz-sets.js"]
         [Dir "python" [File "python-quiz.json"; File "quizz.json"]]
         (mkWorld [("/repo/python/python-quiz.json", "{}")] [] []
                  (fun _ => true) (fun _ => true))
    = Some (w', written)
    /\ readFile w' "/repo/python/python-quiz.json" = Some "{}".
Proof.
  destruct (consolidator_run
              (mkEnv "/repo" (fun _ => "id") (fun _ => "2024-01-01T00:00:00.000Z")
                     (fun _ => None) (fun _ => "{}"))
              ["node"; "build-quizz-sets.js"]
              [Dir "python" [File "python-quiz.json"; File "quizz.json"]]
              (mkWorld [("/repo/python/python-quiz.json", "{}")] [] []
                  (fun _ => true) (fun _ => true))
              ["repo"] eq_refl eq_refl eq_refl)
    as (w' & written & E & _ & _ & _ & _ & H).
  exists w', written. split; [exact E|].
  rewrite (H "/repo/python/python-quiz.json"); [reflexivity|].
  left. reflexivity.
Defined.

End ConsolidatorRun.

(** ** The files the seeder finds *)

Section SeederFiles.
Import Fs SeederCli Runs Props.
Local Open Scope list_scope.

Lemma hasCombined_in (listing : list Entry) :
  hasCombined listing = true <-> In (File "quizz.json") listing.
Proof.
  unfold hasCombined. rewrite existsb_exists. split.
  - intros ([name|name entries|name] & Hin & E); try discriminate.
    apply String.eqb_eq in E. now subst.
  - intros H. now exists (File "quizz.json").
Qed.

Lemma seeder_paths (env : Env) (root : string) (keyword : option string)
    (tree : list Entry) (p : string) :
  In p (findQuizJsonFiles env root keyword tree)
  <-> In p (List.flat_map
              (paths (fun name => negb (skip name)) (jsonSeeded keyword)
                     (PosixPath.resolve (cwd env) root) tree)
              tree).
Proof.
  unfold findQuizJsonFiles. rewrite sortWith_in.
  now rewrite (flat_map_ext _ _ (fun e => seeder_walk keyword e
                                            (PosixPath.resolve (cwd env) root) tree)).
Qed.

(** X21.  Below a resolved root [findQuizJsonFiles] finds the files whose
    names, in lower case, end with ".json" and hold "quiz", in the
    directories it comes to: those with no directory named ".git", ".github",
    ".vscode" or "node_modules" above them.  From a directory that holds a
    file "quizz.json" it takes no file of another name, the case of the
    letters apart; and without a keyword it finds every such "quizz.json". *)
Theorem seeder_found_files (env : Env) (root : string) (keyword : option string)
    (tree : list Entry) (segs : list string) :
  PosixPath.resolve (cwd env) root = rootPath segs ->
  forallb plain segs = true -> forallb wellNamed tree = true ->
  let found := findQuizJsonFiles env root keyword tree in
  (forall p,
      In p found <->
      exists dirs listing name,
        listingAt tree dirs listing /\ In (File name) listing
        /\ forallb (fun d => negb (skip d)) dirs = true
        /\ p = rootPath (segs ++ dirs ++ [name])
        /\ jsonSeeded keyword listing name p = true)
  /\ (forall p,
        In p found ->
        exists dirs listing name,
          listingAt tree dirs listing /\ In (File name) listing
          /\ p = rootPath (segs ++ dirs ++ [name])
          /\ isQuizJson (Js.toLowerCase name) = true
          /\ keeps keyword p = true
          /\ (In (File "quizz.json") listing ->
              Js.toLowerCase name = "quizz.json"))
  /\ (forall dirs listing,
        keyword = None ->
        listingAt tree dirs listing -> In (File "quizz.json") listing ->
        forallb (fun d => negb (skip d)) dirs = true ->
        In (rootPath (segs ++ dirs ++ ["quizz.json"])) found).
Proof.
  intros Hroot Hs Hw. cbv zeta.
  assert (F : forall p,
             In p (findQuizJsonFiles env root keyword tree) <->
             exists dirs listing name,
               listingAt tree dirs listing /\ In (File name) listing
               /\ forallb (fun d => negb (skip d)) dirs = true
               /\ p = rootPath (segs ++ dirs ++ [name])
               /\ jsonSeeded keyword listing name p = true).
  { intros p. rewrite seeder_paths, Hroot.
    exact (paths_found (fun name => negb (skip name)) (jsonSeeded keyword)
             tree segs p Hs Hw). }
  split; [exact F|]. split.
  - intros p Hp. apply F in Hp.
    destruct Hp as (dirs & listing & name & L & Hf & _ & -> & T).
    exists dirs, listing, name. unfold jsonSeeded in T.
    apply andb_prop in T. destruct T as [T K].
    apply andb_prop in T. destruct T as [T Q].
    apply andb_prop in T. destruct T as [_ C].
    repeat split; auto.
    intros Hc. apply hasCombined_in in Hc. rewrite Hc in C. cbn [andb] in C.
    apply negb_true_iff, negb_false_iff in C. now apply String.eqb_eq.
  - intros dirs listing -> L Hc He. apply F.
    exists dirs, listing, "quizz.json". repeat split; auto.
    unfold jsonSeeded. apply hasCombined_in in Hc. rewrite Hc. reflexivity.
Qed.

Lemma seeder_found_files_witness :
  In "/repo/python/quizz.json"
     (findQuizJsonFiles
        (mkEnv "/repo" String.compare true (fun _ => inl "unread") (fun _ _ => None))
        "/repo" None
        [Dir "python" [File "python-quiz.json"; File "quizz.json"]]).
Proof.
  destruct (seeder_found_files
              (mkEnv "/repo" String.compare true (fun _ => inl "unread")
                     (fun _ _ => None))
              "/repo" None
              [Dir "python" [File "python-quiz.json"; File "quizz.json"]]
              ["repo"] eq_refl eq_refl eq_refl) as (_ & _ & H).
  apply (H ["python"] [File "python-quiz.json"; File "quizz.json"] eq_refl).
  - apply (listing_below _ "python" [File "python-quiz.json"; File "quizz.json"]);
      [now left | constructor].
  - right. now left.
  - reflexivity.
Defined.

End SeederFiles.

(** ** The run of the seeder *)

Section SeederRun.
Import Fs SeederCli Runs Props Order.
Local Open Scope list_scope.

(** The URL the seeder gives is rooted unless it was blank. *)
Lemma seederUrl_rooted (base : string) (parts : list string) (url : string) :
  PosixPath.isAbsolute base = true ->
  isRooted (seederUrl base parts url) = true
  \/ Js.trim (seederUrl base parts url) = "".
Proof.
  intros Hb. unfold seederUrl. cbv zeta.
  destruct (Js.isEmpty (Js.trim url)) eqn:E0.
  - right. now destruct (Js.trim url).
  - left. destruct (Url.isAbsoluteRef base (Js.trim url)) eqn:E.
    + now apply (absoluteRef_rooted base).
    + apply absolute_rooted. now apply join_absolute.
Qed.

Lemma seeder_rooted (base : string) (parts : list string) (a : Attachment) :
  PosixPath.isAbsolute base = true ->
  rootedOrBlank (fst (Seeder.normalizeAttachment base parts a)).
Proof.
  intros Hb. unfold rootedOrBlank. destruct (att_url a) as [url|] eqn:E.
  - rewrite (seeder_attachment base parts a url E). cbn [withUrl att_url].
    now apply seederUrl_rooted.
  - unfold Seeder.normalizeAttachment. rewrite E. cbn [fst]. now rewrite E.
Qed.

Lemma normalizeList_rooted (base : string) (parts : list string)
    (questions : list Question) :
  PosixPath.isAbsolute base = true ->
  Forall rootedOrBlank
    (List.concat (attachmentsOf (fst (Seeder.normalizeList base parts questions)))).
Proof.
  intros Hb. unfold Seeder.normalizeList, attachmentsOf. cbv zeta. cbn [fst].
  rewrite !map_map. cbn [fst Seeder.setAttachments q_attachments].
  apply Forall_concat. apply Forall_map. apply Forall_forall. intros q _.
  rewrite map_map. apply Forall_map. apply Forall_forall. intros a _.
  now apply seeder_rooted.
Qed.

Lemma payload_rooted (cwd root filePath : string) (payload : Seeder.Payload) :
  PosixPath.isAbsolute cwd = true ->
  Forall rootedOrBlank
    (payloadAttachments
       (fst (Seeder.normalizeAttachmentUrls cwd payload filePath root))).
Proof.
  intros Hcwd. unfold Seeder.normalizeAttachmentUrls. cbv zeta.
  assert (Hb : PosixPath.isAbsolute (Url.basePrefix cwd root) = true)
    by now apply basePrefix_absolute.
  destruct payload as [sets|questions].
  - cbn [fst payloadAttachments]. apply Forall_concat, Forall_concat.
    rewrite !map_map. apply Forall_map. apply Forall_forall. intros qs _.
    apply Forall_concat. now apply normalizeList_rooted.
  - pose proof (normalizeList_rooted (Url.basePrefix cwd root)
                  (Url.relParts (PosixPath.relative cwd root (PosixPath.dirname filePath)))
                  questions Hb) as H.
    destruct (Seeder.normalizeList _ _ questions) as [qs n]. exact H.
Qed.

(** One call of [seedFile]. *)
Lemma seedFile_call (env : Env) (config : SeedConfig) (sent : list Request)
    (filePath : string) :
  let r := seedFile env config sent filePath in
  file (fst r) = tildePath env config filePath
  /\ (dryRun config = true -> snd r = sent /\ isOk (fst r) = false)
  /\ (dryRun config = false -> xorb (isOk (fst r)) (isFailed (fst r)) = true)
  /\ (snd r = sent /\ isOk (fst r) = false
      \/ exists request,
           snd r = request :: sent /\ dryRun config = false
           /\ req_endpoint request = endpoint config
           /\ req_name request = PosixPath.basename filePath
           /\ req_path request = tildePath env config filePath
           /\ exists parsed,
                readJson env filePath = inr parsed
                /\ req_body request
                   = fst (Seeder.normalizeAttachmentUrls (cwd env) parsed filePath
                            (root config))).
Proof.
  cbv zeta. unfold tildePath, seedFile.
  destruct (readJson env filePath) as [message|parsed] eqn:Er.
  - cbn. repeat split; auto.
  - destruct (Seeder.normalizeAttachmentUrls (cwd env) parsed filePath (root config))
      as [payload n] eqn:En.
    destruct (dryRun config) eqn:Ed.
    + cbn. repeat split; auto; discriminate.
    + set (path := PosixPath.join _).
      assert (Hfile : forall l,
                file (fst (match respond env l
                                   (mkRequest (endpoint config)
                                      (PosixPath.basename filePath) payload path) with
                           | Some message =>
                               (mkSeedResult path Failed (Some message),
                                mkRequest (endpoint config)
                                  (PosixPath.basename filePath) payload path :: l)
                           | None =>
                               (mkSeedResult path Ok
                                  (if Nat.eqb n 0 then None else Some (normalized n)),
                                mkRequest (endpoint config)
                                  (PosixPath.basename filePath) payload path :: l)
                           end)) = path).
      { intros l. now destruct (respond env l _). }
      rewrite !Hfile. split; [reflexivity|]. split; [discriminate|]. split.
      * intros _. now destruct (respond env sent _).
      * right. eexists. split; [|split; [reflexivity|]].
        -- destruct (respond env sent _); cbn [snd]; reflexivity.
        -- cbn [req_endpoint req_name req_path req_body].
           repeat split; auto. exists parsed. rewrite En. now split.
Qed.

(** A request as the run with [config] sends it: to the endpoint, with a
    body whose URLs are rooted or blank. *)
Let sound (config : SeedConfig) (request : Request) : Prop :=
  req_endpoint request = endpoint config
  /\ Forall rootedOrBlank (payloadAttachments (req_body request)).

Let step (env : Env) (config : SeedConfig)
    (acc : list SeedResult * list Request) (filePath : string) :=
  let '(result, sent) := seedFile env config (snd acc) filePath in
  (fst acc ++ [result], sent).

Lemma count_snoc (p : SeedResult -> bool) (l : list SeedResult) (r : SeedResult) :
  List.length (List.filter p (l ++ [r]))
  = List.length (List.filter p l) + (if p r then 1 else 0).
Proof. rewrite filter_app, length_app. cbn [filter]. now destruct (p r). Qed.

Lemma step_call (env : Env) (config : SeedConfig)
    (acc : list SeedResult * list Request) (filePath : string) :
  step env config acc filePath
  = (fst acc ++ [fst (seedFile env config (snd acc) filePath)],
     snd (seedFile env config (snd acc) filePath)).
Proof. unfold step. now destruct (seedFile env config (snd acc) filePath). Qed.

(** The calls one behind the other. *)
Lemma seedFiles_calls (env : Env) (config : SeedConfig) (files : list string) :
  PosixPath.isAbsolute (cwd env) = true ->
  forall acc,
    let acc' := fold_left (step env config) files acc in
    List.map file (fst acc')
    = List.map file (fst acc) ++ List.map (tildePath env config) files
    /\ List.length (List.filter isOk (fst acc')) + List.length (snd acc)
       <= List.length (List.filter isOk (fst acc)) + List.length (snd acc')
    /\ List.length (snd acc') <= List.length (snd acc) + List.length files
    /\ (dryRun config = true ->
        snd acc' = snd acc
        /\ List.length (List.filter isOk (fst acc'))
           = List.length (List.filter isOk (fst acc)))
    /\ (dryRun config = false ->
        List.length (List.filter isOk (fst acc'))
        + List.length (List.filter isFailed (fst acc'))
        = List.length (List.filter isOk (fst acc))
          + List.length (List.filter isFailed (fst acc)) + List.length files)
    /\ (Forall (sound config) (snd acc) -> Forall (sound config) (snd acc')).
Proof.
  intros Hcwd. induction files as [|f rest IH]; intros acc; cbv zeta.
  - cbn [fold_left List.map List.length]. rewrite app_nil_r.
    repeat split; auto; lia.
  - cbn [fold_left]. rewrite step_call.
    destruct (seedFile_call env config (snd acc) f) as (Hfile & Hdry & Hrun & Hsent).
    set (call := seedFile env config (snd acc) f) in *. clearbody call.
    destruct call as [result sent']. cbn [fst snd] in *.
    destruct (IH (fst acc ++ [result], sent')) as (M & U & R & D & N & Q).
    cbn [fst snd] in *.
    rewrite count_snoc in U.
    rewrite map_app in M. cbn [List.map List.length] in *.
    split; [|split; [|split; [|split; [|split]]]].
    + rewrite M, <- app_assoc, Hfile. reflexivity.
    + destruct Hsent as [[-> Hok] | (request & -> & _)].
      * rewrite Hok in U. lia.
      * cbn [List.length] in U. destruct (isOk result); lia.
    + destruct Hsent as [[-> _] | (request & -> & _)]; cbn [List.length] in R; lia.
    + intros Hd. destruct (D Hd) as [D1 D2], (Hdry Hd) as [-> Hok].
      rewrite count_snoc, Hok in D2. split; [exact D1 | lia].
    + intros Hd. specialize (N Hd). specialize (Hrun Hd).
      rewrite !count_snoc in N.
      destruct (isOk result), (isFailed result); cbn in Hrun; try discriminate; lia.
    + intros Hq. apply Q.
      destruct Hsent as [[-> _] | (request & -> & _ & He & _ & _ & parsed & _ & Hb)];
        [exact Hq|].
      constructor; [|exact Hq]. split; [exact He|].
      rewrite Hb. now apply payload_rooted.
Qed.

Lemma seedFiles_fold (env : Env) (config : SeedConfig) (files : list string) :
  seedFiles env config files = fold_left (step env config) files ([], []).
Proof. reflexivity. Qed.

Lemma tildePath_below (env : Env) (config : SeedConfig) (segs rest : list string) :
  root config = rootPath segs -> forallb plain segs = true ->
  forallb plain rest = true -> rest <> [] ->
  tildePath env config (rootPath (segs ++ rest)) = rootPath (segs ++ rest).
Proof.
  intros Hroot Hs Hr Hne. unfold tildePath, seedFile. cbv zeta.
  assert (T : PosixPath.join
                [Url.basePrefix (cwd env) (root config);
                 Js.join "/"
                   (Js.splitOn PosixPath.sep
                      (PosixPath.relative (cwd env) (root config)
                         (rootPath (segs ++ rest))))]
              = rootPath (segs ++ rest)).
  { rewrite Hroot, basePrefix_resolve, (resolve_rootPath (cwd env) segs Hs).
    rewrite (relative_below (cwd env) segs rest Hs Hr Hne).
    unfold Js.join at 1. rewrite join_splitOn.
    now apply join_directories. }
  rewrite T. destruct (readJson env _) as [message|parsed]; [reflexivity|].
  destruct (Seeder.normalizeAttachmentUrls _ _ _ _) as [payload n].
  destruct (dryRun config); [reflexivity|].
  now destruct (respond env [] _).
Qed.

(** X22.  A run of the seeder has one result for each file found, in the
    order of the files and under the path of the file.  It has sent at most
    one request for each file, each to the endpoint, and in the body of a
    request every URL of an attachment is an http(s) URL, begins with "~"
    or "/", or is blank.  With "--dry-run" it has sent nothing, has uploaded
    nothing and leaves the exit code at 0, whatever has failed; without, a
    file is uploaded or has failed, and the exit code is 1 exactly when one
    has failed. *)
Theorem seeder_run (env : Env) (argv : list string) (tree : list Entry)
    (config : SeedConfig) (segs : list string) :
  runtimeSupport env = true -> parseArgs (cwd env) argv = Some config ->
  PosixPath.isAbsolute (cwd env) = true ->
  root config = rootPath segs -> forallb plain segs = true ->
  forallb wellNamed tree = true ->
  let found := findQuizJsonFiles env (root config) (match_ config) tree in
  let out := main env argv tree in
  List.map file (results out) = found
  /\ uploaded out <= List.length (requests out)
  /\ List.length (requests out) <= List.length found
  /\ Forall (fun request =>
               req_endpoint request = endpoint config
               /\ Forall rootedOrBlank (payloadAttachments (req_body request)))
            (requests out)
  /\ (dryRun config = true ->
      requests out = [] /\ uploaded out = 0 /\ exitCode out = 0)
  /\ (dryRun config = false ->
      uploaded out + failures out = List.length found
      /\ (exitCode out = 1 <-> 0 < failures out)
      /\ (exitCode out = 0 <-> failures out = 0)).
Proof.
  intros Hrt Hargs Hcwd Hroot Hs Hw. cbv zeta. unfold main.
  rewrite Hrt, Hargs. cbn [negb].
  set (found := findQuizJsonFiles env (root config) (match_ config) tree).
  assert (Hfound : List.map (tildePath env config) found = found).
  { rewrite <- (map_id found) at 2. apply map_ext_in. intros p Hp.
    apply seeder_paths in Hp.
    rewrite Hroot, (resolve_rootPath (cwd env) segs Hs) in Hp.
    apply (paths_found (fun name => negb (skip name)) (jsonSeeded (match_ config))
             tree segs p Hs Hw) in Hp.
    destruct Hp as (dirs & listing & name & L & F & _ & -> & _).
    destruct (listingAt_plain tree dirs listing L Hw) as [Hd Hl].
    pose proof (wellNamed_in listing (File name) Hl F) as Hn. cbn [wellNamed] in Hn.
    apply tildePath_below; auto.
    - rewrite forallb_app, Hd. cbn. now rewrite Hn.
    - destruct dirs; discriminate. }
  destruct found as [|f fs] eqn:Ef.
  - cbn. repeat split; auto; try lia; discriminate.
  - rewrite <- Ef in *. rewrite seedFiles_fold.
    destruct (seedFiles_calls env config found Hcwd ([], []))
      as (M & U & R & D & N & Q).
    destruct (fold_left (step env config) found ([], [])) as [rs sent].
    cbn [fst snd List.map List.length filter app] in *.
    cbn [results requests uploaded failures exitCode].
    rewrite Hfound in M. split; [exact M|]. split; [lia|]. split; [lia|].
    split; [now apply Q|]. split.
    + intros Hd. destruct (D Hd) as [-> D2]. rewrite D2, Hd, andb_false_r.
      repeat split.
    + intros Hd. specialize (N Hd). rewrite Hd, andb_true_r.
      split; [lia|].
      destruct (Nat.ltb_spec 0 (List.length (List.filter isFailed rs)));
        split; split; intros; try lia; try discriminate; reflexivity.
Qed.

Lemma seeder_run_witness :
  requests
    (main (mkEnv "/repo" String.compare true (fun _ => inl "unread")
                 (fun _ _ => Some "HTTP 500"))
          ["--dry-run"] [File "python-quiz.json"])
  = [].
Proof.
  destruct (seeder_run
              (mkEnv "/repo" String.compare true (fun _ => inl "unread")
                     (fun _ _ => Some "HTTP 500"))
              ["--dry-run"] [File "python-quiz.json"]
              (mkSeedConfig "/repo" (Some "http://localhost:3000/api/seed") None true)
              ["repo"] eq_refl eq_refl eq_refl eq_refl eq_refl eq_refl)
    as (_ & _ & _ & _ & H & _).
  exact (proj1 (H eq_refl)).
Defined.

End SeederRun.

(** ** The sources of the generator *)

Section GeneratorSources.
Import Fs GenerateQuizJsonCli Runs Props.
Local Open Scope list_scope.

Lemma substring_split (s : string) (n : nat) :
  (n <= String.length s)%nat ->
  s = (String.substring 0 n s
       ++ String.substring n (String.length s - n)%nat s)%string.
Proof.
  revert n. induction s as [|c s IH]; intros [|n] H; cbn in *; try lia.
  - reflexivity.
  - now rewrite substring_all.
  - f_equal. apply IH. lia.
Qed.

(** A name that ends with a suffix is a stem and the suffix. *)
Lemma endsWith_stem (name suffix : string) :
  BuildQuizzSets.endsWith name suffix = true ->
  exists stem, name = (stem ++ suffix)%string.
Proof.
  unfold BuildQuizzSets.endsWith, PosixPath.stripSuffix. cbv zeta.
  destruct (String.length suffix <=? String.length name)%nat eqn:L; [|discriminate].
  destruct (String.eqb_spec
              (String.substring (String.length name - String.length suffix)%nat
                 (String.length suffix) name) suffix) as [E|]; [|discriminate].
  intros _. apply Nat.leb_le in L.
  exists (String.substring 0 (String.length name - String.length suffix)%nat name).
  pose proof (substring_split name (String.length name - String.length suffix)%nat
                ltac:(lia)) as S.
  replace (String.length name - (String.length name - String.length suffix))%nat
    with (String.length suffix) in S by lia.
  rewrite E in S. exact S.
Qed.

Lemma noSep_stem (stem suffix : string) :
  noSep (stem ++ suffix)%string = true -> noSep stem = true.
Proof.
  unfold noSep. rewrite all_append. intros H. now apply andb_prop in H.
Qed.

(** The name of a quiz file is a stem, which is not empty, and ".md". *)
Lemma markdown_stem (name : string) :
  plain name = true -> isQuizMarkdown name = true ->
  exists stem, name = (stem ++ ".md")%string /\ noSep stem = true /\ stem <> "".
Proof.
  intros Hp H. unfold isQuizMarkdown in H. apply andb_prop in H.
  destruct H as [He Hq]. destruct (endsWith_stem name ".md" He) as [stem ->].
  exists stem. split; [reflexivity|]. split.
  - apply (noSep_stem stem ".md"). now apply plain_noSep.
  - intros ->. discriminate.
Qed.

Lemma extensions_differ (a b : string) : (a ++ ".md")%string <> (b ++ ".json")%string.
Proof.
  intros H. apply (f_equal Js.rev) in H. rewrite !rev_append in H. discriminate.
Qed.

(** The JSON file of a markdown file below the root. *)
Lemma output_below (cwd : string) (segs out dirs : list string) (stem : string) :
  forallb plain segs = true -> forallb plain out = true ->
  forallb plain dirs = true -> noSep stem = true -> stem <> "" ->
  buildOutputPath (rootPath segs) (rootPath out)
    (PosixPath.relative cwd (rootPath segs)
       (rootPath (segs ++ dirs ++ [(stem ++ ".md")%string])))
  = rootPath (out ++ dirs ++ [(stem ++ ".json")%string]).
Proof.
  intros Hs Ho Hd Hn Hne.
  assert (Hmd : plain (stem ++ ".md")%string = true)
    by (apply plain_extension; cbn; auto).
  assert (Hjs : plain (stem ++ ".json")%string = true)
    by (apply plain_extension; cbn; auto).
  rewrite relative_below; try assumption;
    [| rewrite forallb_app, Hd; cbn; now rewrite Hmd | destruct dirs; discriminate].
  unfold buildOutputPath. cbv zeta.
  rewrite (dirname_relative dirs _ Hd Hmd), (basenameExt_markdown dirs stem Hd Hn Hne).
  assert (T : PosixPath.join [rootPath out;
                              match dirs with
                              | [] => "."
                              | _ :: _ => Js.join "/" dirs
                              end] = rootPath (out ++ dirs)).
  { destruct dirs as [|d ds].
    - rewrite app_nil_r. now apply join_dot.
    - apply join_directories; [assumption | assumption | discriminate]. }
  rewrite T, app_assoc. apply join_file; [|exact Hjs].
  now rewrite forallb_app, Ho, Hd.
Qed.

(** One round of the loop touches the JSON file of its markdown file and
    nothing else. *)
Lemma processFile_frame (env : Env) (config : Config) (root outputRoot : string)
    (r : Run) (entry : nat * string) (p : string) :
  p <> buildOutputPath root outputRoot
         (PosixPath.relative (cwd env) root (snd entry)) ->
  readFile (world (processFile env config root outputRoot r entry)) p
  = readFile (world r) p.
Proof.
  destruct entry as [k filePath]. cbn [snd]. intros Hp. unfold processFile.
  destruct (readFile (world r) filePath) as [content|]; [|reflexivity].
  destruct (negb (overwrite config) && negb (dryRun config)
            && fileExists (world r) _); [reflexivity|].
  destruct (dryRun config); [reflexivity|].
  destruct (mkdir (world r) _) as [made|] eqn:M; [|reflexivity].
  destruct (mkdir_spec _ _ _ M) as (_ & Hm & _).
  destruct (writeFile made _ _) as [w'|] eqn:E; [|apply Hm].
  destruct (writeFile_spec _ _ _ _ E) as (_ & H & _). cbn [count world].
  rewrite H by exact Hp. apply Hm.
Qed.

Lemma processFiles_frame (env : Env) (config : Config) (root outputRoot : string)
    (entries : list (nat * string)) (p : string) :
  (forall e, In e entries ->
     p <> buildOutputPath root outputRoot
            (PosixPath.relative (cwd env) root (snd e))) ->
  forall r,
    readFile (world (fold_left (processFile env config root outputRoot) entries r)) p
    = readFile (world r) p.
Proof.
  induction entries as [|e rest IH]; intros Hp r; [reflexivity|].
  cbn [fold_left]. rewrite IH by (intros e' He'; apply Hp; now right).
  apply processFile_frame. apply Hp. now left.
Qed.

(** A quiz file the generator has found below a resolved root. *)
Lemma found_shape (segs : list string) (keyword : option string)
    (tree : list Entry) (file : string) :
  forallb plain segs = true -> forallb wellNamed tree = true ->
  In file (findQuizFiles (rootPath segs) keyword tree) ->
  exists dirs stem,
    file = rootPath (segs ++ dirs ++ [(stem ++ ".md")%string])
    /\ forallb plain dirs = true /\ noSep stem = true /\ stem <> "".
Proof.
  intros Hs Hw H. unfold findQuizFiles in H.
  rewrite sortWith_in, generator_paths in H.
  apply (paths_found (fun name => negb (skipped name))
           (fun _ => markdownTaken keyword) tree segs file Hs Hw) in H.
  destruct H as (dirs & listing & name & L & F & _ & -> & T).
  destruct (listingAt_plain tree dirs listing L Hw) as [Hd Hl].
  pose proof (wellNamed_in listing (File name) Hl F) as Hn. cbn [wellNamed] in Hn.
  unfold markdownTaken in T. apply andb_prop in T. destruct T as [T _].
  apply andb_prop in T. destruct T as [_ T].
  destruct (markdown_stem name Hn T) as (stem & -> & Hstem & Hne).
  now exists dirs, stem.
Qed.

(** X23.  With the working directory absolute, a run of the generator,
    whatever its arguments, changes no file but the JSON files of the quiz
    files it has found, and none of these is one of the quiz files: the
    markdown files are after the run what they were before it. *)
Theorem generator_keeps_sources (env : Env) (argv : list string)
    (tree : list Entry) (w : World) :
  PosixPath.isAbsolute (cwd env) = true -> forallb wellNamed tree = true ->
  let config := parseArgs (cwd env) (seedUserId env) argv in
  let root := rootOf env config in
  let found := findQuizFiles root (match_ config) tree in
  let outputOf file :=
    buildOutputPath root (outputRootOf env config)
      (PosixPath.relative (cwd env) root file) in
  let w' := fst (main env argv tree w) in
  (forall file, In file found -> ~ In (outputOf file) found)
  /\ (forall p, readFile w' p <> readFile w p ->
        exists file, In file found /\ p = outputOf file)
  /\ (forall file, In file found -> readFile w' file = readFile w file).
Proof.
  intros Hcwd Hw. cbv zeta.
  set (config := parseArgs (cwd env) (seedUserId env) argv).
  destruct (resolve_shape (cwd env)
              (match root config with Some r => r | None => cwd env end) Hcwd)
    as (segs & Hs & Hroot).
  destruct (resolve_shape (cwd env)
              (match output config with Some o => o | None => rootOf env config end)
              Hcwd)
    as (out & Ho & Hout).
  fold (rootOf env config) in Hroot. fold (outputRootOf env config) in Hout.
  fold (rootPath segs) in Hroot. fold (rootPath out) in Hout.
  unfold main. fold config. rewrite Hroot, Hout.
  set (found := findQuizFiles (rootPath segs) (match_ config) tree).
  assert (Hdiffer : forall file source,
            In file found -> In source found ->
            file <> buildOutputPath (rootPath segs) (rootPath out)
                      (PosixPath.relative (cwd env) (rootPath segs) source)).
  { intros file source Hf Hsrc E.
    destruct (found_shape segs _ tree file Hs Hw Hf) as (d1 & s1 & -> & P1 & N1 & E1).
    destruct (found_shape segs _ tree source Hs Hw Hsrc) as (d2 & s2 & -> & P2 & N2 & E2).
    rewrite (output_below (cwd env) segs out d2 s2 Hs Ho P2 N2 E2) in E.
    apply rootPath_injective in E.
    - rewrite !app_assoc in E. apply last_injective in E.
      now apply extensions_differ in E.
    - rewrite !forallb_app, Hs, P1. cbn.
      rewrite plain_extension; cbn; auto.
    - rewrite !forallb_app, Ho, P2. cbn.
      rewrite plain_extension; cbn; auto. }
  assert (Hframe : forall p,
            (forall source, In source found ->
               p <> buildOutputPath (rootPath segs) (rootPath out)
                      (PosixPath.relative (cwd env) (rootPath segs) source)) ->
            readFile (world (processFiles env config (rootPath segs) (rootPath out)
                               found w)) p
            = readFile w p).
  { intros p Hp. unfold processFiles.
    apply (processFiles_frame env config (rootPath segs) (rootPath out)).
    intros [k source] He. apply in_combine_r in He. now apply Hp. }
  assert (Hworld : fst (match found with
                        | [] => (w, None)
                        | _ :: _ =>
                            (world (processFiles env config (rootPath segs)
                                      (rootPath out) found w),
                             Some (summary (processFiles env config (rootPath segs)
                                              (rootPath out) found w)))
                        end)
                   = world (processFiles env config (rootPath segs) (rootPath out)
                              found w)).
  { destruct found; reflexivity. }
  rewrite Hworld. split; [|split].
  - intros file Hf Hin. now apply (Hdiffer _ file Hin Hf).
  - intros p Hp.
    destruct (in_dec string_dec p
                (List.map (fun source =>
                             buildOutputPath (rootPath segs) (rootPath out)
                               (PosixPath.relative (cwd env) (rootPath segs) source))
                          found)) as [Hin|Hnot].
    + apply in_map_iff in Hin. destruct Hin as (source & <- & Hsrc).
      now exists source.
    + exfalso. apply Hp. apply Hframe. intros source Hsrc E. apply Hnot.
      apply in_map_iff. now exists source.
  - intros file Hf. apply Hframe. intros source Hsrc. now apply Hdiffer.
Qed.

Lemma generator_keeps_sources_witness :
  readFile
    (fst (main (mkEnv "/repo" None (fun _ => "2024-01-01T00:00:00.000Z")
                      (fun _ _ => "{}"))
               ["--overwrite"; "--output"; "/repo"]
               [File "python-quiz.md"]
               (mkWorld [("/repo/python-quiz.md", Sample.content)] [] []
                        (fun _ => true) (fun _ => true))))
    "/repo/python-quiz.md"
  = Some Sample.content.
Proof.
  destruct (generator_keeps_sources
              (mkEnv "/repo" None (fun _ => "2024-01-01T00:00:00.000Z")
                     (fun _ _ => "{}"))
              ["--overwrite"; "--output"; "/repo"]
              [File "python-quiz.md"]
              (mkWorld [("/repo/python-quiz.md", Sample.content)] [] []
                        (fun _ => true) (fun _ => true))
              eq_refl eq_refl) as (_ & _ & H).
  rewrite (H "/repo/python-quiz.md"); [reflexivity|].
  left. reflexivity.
Defined.

End GeneratorSources.

(** ** The older seeder *)

Section OlderSeeder.
Import Fs Runs Props Order.
Local Open Scope list_scope.

Lemma older_attachment (relParts : list string) (a : Attachment) :
  Url.isAbsoluteRef SeederOld.HOME
    (Js.trim (match att_url a with Some u => u | None => "" end))
  = SeederOld.isAbsolute
      (Js.trim (match att_url a with Some u => u | None => "" end)) ->
  SeederOld.normalizeAttachment relParts a
  = Seeder.normalizeAttachment SeederOld.HOME relParts a.
Proof.
  unfold SeederOld.normalizeAttachment, Seeder.normalizeAttachment.
  destruct (att_url a) as [url|]; [|reflexivity]. cbv zeta. intros ->. reflexivity.
Qed.

Lemma readAlike_absolute (a : Attachment) :
  readAlike a ->
  Url.isAbsoluteRef SeederOld.HOME
    (Js.trim (match att_url a with Some u => u | None => "" end))
  = SeederOld.isAbsolute
      (Js.trim (match att_url a with Some u => u | None => "" end)).
Proof.
  unfold readAlike. destruct (att_url a) as [url|]; [|reflexivity].
  intros [Ht Hs]. unfold Url.isAbsoluteRef, SeederOld.isAbsolute. rewrite Ht.
  destruct (Url.isHttp (Js.trim url)); [reflexivity|]. cbn [orb].
  destruct (Js.startsWith (Js.trim url) "/"); [|reflexivity].
  now rewrite (Hs eq_refl).
Qed.

Lemma isHttp_slash (r : string) : Url.isHttp (String "/" r) = false.
Proof. destruct r as [|a [|b [|c r]]]; reflexivity. Qed.

Lemma older_walk (keyword : option string) (entry : Entry) :
  forall dir combined p,
    In p (SeederCli.walk keyword dir combined entry) ->
    In p (SeederOld.walk keyword dir entry).
Proof.
  induction entry as [name|name|name entries IH] using Entry_induction;
    intros dir combined p; cbn [SeederCli.walk SeederOld.walk].
  - destruct (SeederCli.skip name); [auto|]. cbv zeta.
    destruct (combined && negb (String.eqb (Js.toLowerCase name) "quizz.json"));
      [contradiction | auto].
  - auto.
  - destruct (SeederCli.skip name); [auto|]. rewrite !in_flat_map.
    intros (child & Hc & Hp). exists child. split; [exact Hc|].
    rewrite Forall_forall in IH.
    exact (IH child Hc _ (SeederCli.hasCombined entries) p Hp).
Qed.

Lemma older_walk_same (keyword : option string) (entry : Entry) :
  forall dir, combinedFree entry = true ->
    SeederCli.walk keyword dir false entry = SeederOld.walk keyword dir entry.
Proof.
  induction entry as [name|name|name entries IH] using Entry_induction;
    intros dir Hf; cbn [SeederCli.walk SeederOld.walk combinedFree] in *.
  - reflexivity.
  - reflexivity.
  - apply andb_prop in Hf. destruct Hf as [Hc Hf]. apply negb_true_iff in Hc.
    rewrite Hc. destruct (SeederCli.skip name); [reflexivity|].
    apply flat_map_ext_in. rewrite Forall_forall in *. intros child Hin.
    apply IH; [exact Hin|]. rewrite forallb_forall in Hf. now apply Hf.
Qed.

(** X24.  The older seeder reads a payload with sets as one without
    questions: it returns it as it is, with the count 0.  On a single quiz
    whose URLs do not begin with "~", nor with "/" unless with the root
    written out in the older seeder, the two seeders give the same payload
    and the same count when that root is the root of the run.  A URL that
    begins with "/" and not with that root the older seeder takes for a
    relative one and joins behind the root. *)
Theorem older_seeder_urls (cwd root filePath : string) :
  (forall sets,
      SeederOld.normalizeAttachmentUrls cwd (Seeder.WithSets sets) filePath root
      = (Seeder.WithSets sets, 0))
  /\ (forall questions,
        Url.basePrefix cwd root = SeederOld.HOME ->
        Forall readAlike (List.concat (attachmentsOf questions)) ->
        SeederOld.normalizeAttachmentUrls cwd (Seeder.Single questions) filePath root
        = Seeder.normalizeAttachmentUrls cwd (Seeder.Single questions) filePath root)
  /\ (forall relParts a r,
        att_url a = Some (String "/" r) ->
        Js.trim (String "/" r) = String "/" r ->
        Js.startsWith (String "/" r) SeederOld.HOME = false ->
        att_url (fst (SeederOld.normalizeAttachment relParts a))
        = Some (PosixPath.join (SeederOld.HOME :: relParts ++ [r]))
        /\ att_url (fst (Seeder.normalizeAttachment (Url.basePrefix cwd root)
                           relParts a))
           = Some (String "/" r)).
Proof.
  split; [reflexivity|]. split.
  - intros questions Hbase Hq.
    unfold SeederOld.normalizeAttachmentUrls, Seeder.normalizeAttachmentUrls.
    cbv zeta. rewrite Hbase.
    set (parts := Url.relParts _).
    assert (E : List.map
                  (fun q =>
                     (Seeder.setAttachments q
                        (List.map fst (List.map (SeederOld.normalizeAttachment parts)
                                                (q_attachments q))),
                      Seeder.countTrue
                        (List.map snd (List.map (SeederOld.normalizeAttachment parts)
                                                (q_attachments q)))))
                  questions
                = List.map
                    (fun q =>
                       (Seeder.setAttachments q
                          (List.map fst
                             (List.map (Seeder.normalizeAttachment SeederOld.HOME parts)
                                       (q_attachments q))),
                        Seeder.countTrue
                          (List.map snd
                             (List.map (Seeder.normalizeAttachment SeederOld.HOME parts)
                                       (q_attachments q)))))
                    questions).
    { apply map_ext_in. intros q Hin.
      assert (A : List.map (SeederOld.normalizeAttachment parts) (q_attachments q)
                  = List.map (Seeder.normalizeAttachment SeederOld.HOME parts)
                             (q_attachments q)).
      { apply map_ext_in. intros a Ha. apply older_attachment, readAlike_absolute.
        rewrite Forall_forall in Hq. apply Hq. apply in_concat.
        exists (q_attachments q). split; [|exact Ha].
        unfold attachmentsOf. now apply in_map. }
      now rewrite A. }
    unfold Seeder.normalizeList. cbv zeta. now rewrite E.
  - intros relParts a r Ha Ht Hs. split.
    + unfold SeederOld.normalizeAttachment. rewrite Ha. cbv zeta. rewrite Ht.
      cbn [Js.isEmpty]. unfold SeederOld.isAbsolute.
      rewrite Hs, isHttp_slash. cbn [orb].
      change (Url.stripDotOrSlash (String "/" r)) with r.
      destruct (String.eqb_spec
                  (PosixPath.join (SeederOld.HOME :: relParts ++ [r]))
                  (String "/" r)) as [E|E]; cbn [negb fst].
      * now rewrite Ha, E.
      * reflexivity.
    + rewrite (seeder_attachment _ relParts a _ Ha). cbn [withUrl att_url].
      unfold seederUrl. cbv zeta. rewrite Ht. cbn [Js.isEmpty].
      unfold Url.isAbsoluteRef. rewrite starts_with_slash, isHttp_slash.
      reflexivity.
Qed.

Lemma older_seeder_urls_witness :
  att_url (fst (SeederOld.normalizeAttachment ["python"]
                  (Sample.attachment "/img/q1.png")))
  = Some (PosixPath.join (SeederOld.HOME :: ["python"] ++ ["img/q1.png"])).
Proof.
  destruct (older_seeder_urls "/repo" "/repo" "/repo/python/python-quiz.json")
    as (_ & _ & H).
  exact (proj1 (H ["python"] (Sample.attachment "/img/q1.png") "img/q1.png"
                  eq_refl eq_refl eq_refl)).
Defined.

(** X25.  What the seeder finds the older seeder finds as well, and in a
    tree without a file "quizz.json" they find the same files in the same
    order: the older one does not look for "quizz.json" and takes the other
    quiz files of a directory next to it. *)
Theorem older_seeder_files (env : SeederCli.Env) (root : string)
    (keyword : option string) (tree : list Entry) :
  (forall p,
      In p (SeederCli.findQuizJsonFiles env root keyword tree) ->
      In p (SeederOld.findQuizJsonFiles env root keyword tree))
  /\ (SeederCli.hasCombined tree = false ->
      forallb combinedFree tree = true ->
      SeederCli.findQuizJsonFiles env root keyword tree
      = SeederOld.findQuizJsonFiles env root keyword tree)
  /\ (forall dir name,
        SeederCli.skip name = false ->
        SeederCli.isQuizJson (Js.toLowerCase name) = true ->
        Js.toLowerCase name <> "quizz.json" ->
        SeederCli.walk None dir true (File name) = []
        /\ SeederOld.walk None dir (File name) = [PosixPath.join [dir; name]]).
Proof.
  unfold SeederCli.findQuizJsonFiles, SeederOld.findQuizJsonFiles.
  split; [|split].
  - intros p. rewrite !sortWith_in, !in_flat_map.
    intros (entry & He & Hp). exists entry. split; [exact He|].
    now apply (older_walk keyword entry _ _ p Hp).
  - intros Hc Hf. rewrite Hc. f_equal. apply flat_map_ext_in.
    apply Forall_forall. intros entry He. apply older_walk_same.
    rewrite forallb_forall in Hf. now apply Hf.
  - intros dir name Hs Hq Hn. cbn [SeederCli.walk SeederOld.walk].
    rewrite Hs, Hq. cbv zeta.
    destruct (String.eqb_spec (Js.toLowerCase name) "quizz.json");
      [contradiction|].
    now split.
Qed.

Lemma older_seeder_files_witness :
  SeederCli.findQuizJsonFiles
    (SeederCli.mkEnv "/repo" String.compare true (fun _ => inl "unread")
                     (fun _ _ => None))
    "/repo" None [Dir "python" [File "python-quiz.json"]]
  = SeederOld.findQuizJsonFiles
      (SeederCli.mkEnv "/repo" String.compare true (fun _ => inl "unread")
                       (fun _ _ => None))
      "/repo" None [Dir "python" [File "python-quiz.json"]].
Proof.
  destruct (older_seeder_files
              (SeederCli.mkEnv "/repo" String.compare true (fun _ => inl "unread")
                               (fun _ _ => None))
              "/repo" None [Dir "python" [File "python-quiz.json"]]) as (_ & H & _).
  exact (H eq_refl eq_refl).
Defined.

End OlderSeeder.

(** ** The roots of the seeder and of the consolidator *)

Section Roots.
Import Fs Runs Props.
Local Open Scope list_scope.

Lemma seeder_parse_cons (cwd : string) (c : SeederCli.SeedConfig) (arg : string)
    (rest : list string) :
  SeederCli.parseArgsFrom cwd c (arg :: rest)
  = if String.eqb arg "--root" then
      match rest with
      | [] => None
      | v :: rest' =>
          SeederCli.parseArgsFrom cwd
            (SeederCli.mkSeedConfig (PosixPath.resolve cwd v) (SeederCli.endpoint c)
                                    (SeederCli.match_ c) (SeederCli.dryRun c))
            rest'
      end
    else if String.eqb arg "--endpoint" then
      match rest with
      | [] => Some (SeederCli.mkSeedConfig (SeederCli.root c) None
                                           (SeederCli.match_ c) (SeederCli.dryRun c))
      | v :: rest' =>
          SeederCli.parseArgsFrom cwd
            (SeederCli.mkSeedConfig (SeederCli.root c) (Some v)
                                    (SeederCli.match_ c) (SeederCli.dryRun c))
            rest'
      end
    else if String.eqb arg "--match" then
      match rest with
      | [] => Some (SeederCli.mkSeedConfig (SeederCli.root c) (SeederCli.endpoint c)
                                           None (SeederCli.dryRun c))
      | v :: rest' =>
          SeederCli.parseArgsFrom cwd
            (SeederCli.mkSeedConfig (SeederCli.root c) (SeederCli.endpoint c)
                                    (Some v) (SeederCli.dryRun c))
            rest'
      end
    else if String.eqb arg "--dry-run" then
      SeederCli.parseArgsFrom cwd
        (SeederCli.mkSeedConfig (SeederCli.root c) (SeederCli.endpoint c)
                                (SeederCli.match_ c) true)
        rest
    else SeederCli.parseArgsFrom cwd c rest.
Proof. reflexivity. Qed.

(** What the loop of the seeder's [parseArgs] gives from a [config] on. *)
Lemma seeder_parse_from (cwd : string) (argv : list string) :
  forall c,
    match SeederCli.parseArgsFrom cwd c argv with
    | None => exists before, argv = before ++ ["--root"]
    | Some c' =>
        (SeederCli.root c' = SeederCli.root c
         \/ exists v, In v argv /\ SeederCli.root c' = PosixPath.resolve cwd v)
        /\ (SeederCli.dryRun c' = true ->
            SeederCli.dryRun c = true \/ In "--dry-run" argv)
    end.
Proof.
  induction argv as [| a | a b r IHr IHbr] using parse_induction; intros c.
  - cbn. split; auto.
  - rewrite seeder_parse_cons.
    destruct (String.eqb_spec a "--root") as [->|_]; [now exists []|].
    destruct (String.eqb a "--endpoint"); [cbn; split; auto|].
    destruct (String.eqb a "--match"); [cbn; split; auto|].
    destruct (String.eqb_spec a "--dry-run") as [->|_]; cbn; split; auto.
  - rewrite seeder_parse_cons.
    assert (Hvalue : forall c1,
              SeederCli.dryRun c1 = SeederCli.dryRun c ->
              SeederCli.root c1 = SeederCli.root c
              \/ SeederCli.root c1 = PosixPath.resolve cwd b ->
              match SeederCli.parseArgsFrom cwd c1 r with
              | Some c' =>
                  (SeederCli.root c' = SeederCli.root c
                   \/ (exists v, In v (a :: b :: r)
                                 /\ SeederCli.root c' = PosixPath.resolve cwd v))
                  /\ (SeederCli.dryRun c' = true ->
                      SeederCli.dryRun c = true \/ In "--dry-run" (a :: b :: r))
              | None => exists before, a :: b :: r = before ++ ["--root"]
              end).
    { intros c1 Hd Hr. specialize (IHr c1).
      destruct (SeederCli.parseArgsFrom cwd c1 r) as [c'|].
      - destruct IHr as [[R|(v & Hv & R)] D]; split.
        + destruct Hr as [Hr|Hr]; [left; congruence|].
          right. exists b. split; [right; now left | congruence].
        + intros H. destruct (D H) as [H1|H1]; [left; congruence|].
          right. right. now right.
        + right. exists v. split; [right; now right | exact R].
        + intros H. destruct (D H) as [H1|H1]; [left; congruence|].
          right. right. now right.
      - destruct IHr as [before ->]. now exists (a :: b :: before). }
    assert (Hswitch : forall c1,
              (SeederCli.dryRun c1 = true ->
               SeederCli.dryRun c = true \/ a = "--dry-run") ->
              SeederCli.root c1 = SeederCli.root c ->
              match SeederCli.parseArgsFrom cwd c1 (b :: r) with
              | Some c' =>
                  (SeederCli.root c' = SeederCli.root c
                   \/ (exists v, In v (a :: b :: r)
                                 /\ SeederCli.root c' = PosixPath.resolve cwd v))
                  /\ (SeederCli.dryRun c' = true ->
                      SeederCli.dryRun c = true \/ In "--dry-run" (a :: b :: r))
              | None => exists before, a :: b :: r = before ++ ["--root"]
              end).
    { intros c1 Hd Hr. specialize (IHbr c1).
      destruct (SeederCli.parseArgsFrom cwd c1 (b :: r)) as [c'|].
      - destruct IHbr as [[R|(v & Hv & R)] D]; split.
        + left. congruence.
        + intros H. destruct (D H) as [H1|H1].
          * destruct (Hd H1) as [H2| ->]; [now left | right; now left].
          * right. now right.
        + right. exists v. split; [now right | exact R].
        + intros H. destruct (D H) as [H1|H1].
          * destruct (Hd H1) as [H2| ->]; [now left | right; now left].
          * right. now right.
      - destruct IHbr as [before E]. exists (a :: before). cbn. now rewrite E. }
    destruct (String.eqb_spec a "--root") as [->|_];
      [apply Hvalue; cbn; auto|].
    destruct (String.eqb a "--endpoint"); [apply Hvalue; cbn; auto|].
    destruct (String.eqb a "--match"); [apply Hvalue; cbn; auto|].
    destruct (String.eqb_spec a "--dry-run") as [->|_]; apply Hswitch; cbn; auto.
Qed.

Lemma rootArg_last (argv : list string) :
  BuildQuizzSetsCli.rootArg argv = Some None <->
  exists before, ~ In "--root" before /\ argv = before ++ ["--root"].
Proof.
  induction argv as [|a r IH]; cbn [BuildQuizzSetsCli.rootArg].
  - split; [discriminate|]. intros ([|x before] & _ & E); discriminate.
  - destruct (String.eqb_spec a "--root") as [->|Ha].
    + split.
      * intros H. destruct r as [|b r]; [|discriminate].
        exists []. split; [intros []|reflexivity].
      * intros ([|x before] & Hn & E).
        -- injection E as ->. reflexivity.
        -- injection E as <- _. exfalso. apply Hn. now left.
    + rewrite IH. split.
      * intros (before & Hn & ->). exists (a :: before). split; [|reflexivity].
        intros [E|H]; [now apply Ha | now apply Hn].
      * intros ([|x before] & Hn & E).
        -- injection E as -> _. now contradiction Ha.
        -- injection E as <- ->. exists before. split; [|reflexivity].
           intros H. apply Hn. now right.
Qed.

(** X26.  The seeder's [parseArgs] throws only when "--root" is the last
    argument; else the root it returns is the working directory or an
    argument resolved against it, so that with a resolved working directory
    the root is resolved, and [dryRun] is on only when "--dry-run" is among
    the arguments.  The consolidator throws before it reads a directory
    exactly when its first "--root" is the last argument, and else its root
    is absolute when the working directory is. *)
Theorem roots_of_the_runs (cwd : string) (argv : list string) :
  (SeederCli.parseArgs cwd argv = None ->
   exists before, argv = before ++ ["--root"])
  /\ (forall config,
        SeederCli.parseArgs cwd argv = Some config ->
        (SeederCli.dryRun config = true -> In "--dry-run" argv)
        /\ (SeederCli.root config = cwd
            \/ exists v, In v argv
                         /\ SeederCli.root config = PosixPath.resolve cwd v)
        /\ (forall segs,
              cwd = rootPath segs -> forallb plain segs = true ->
              exists rootSegs,
                forallb plain rootSegs = true
                /\ SeederCli.root config = rootPath rootSegs))
  /\ (BuildQuizzSetsCli.rootOf cwd argv = None <->
      exists before, ~ In "--root" before /\ argv = before ++ ["--root"])
  /\ (forall root,
        BuildQuizzSetsCli.rootOf cwd argv = Some root ->
        PosixPath.isAbsolute cwd = true -> PosixPath.isAbsolute root = true).
Proof.
  unfold SeederCli.parseArgs.
  pose proof (seeder_parse_from cwd argv
                (SeederCli.mkSeedConfig cwd (Some "http://localhost:3000/api/seed")
                                        None false)) as H.
  split; [|split; [|split]].
  - intros E. now rewrite E in H.
  - intros config E. rewrite E in H. cbn [SeederCli.root SeederCli.dryRun] in H.
    destruct H as [R D]. split; [|split].
    + intros Hd. destruct (D Hd) as [F|F]; [discriminate | exact F].
    + exact R.
    + intros segs -> Hs. destruct R as [->|(v & _ & ->)].
      * now exists segs.
      * apply resolve_shape. reflexivity.
  - unfold BuildQuizzSetsCli.rootOf. rewrite <- rootArg_last.
    destruct (BuildQuizzSetsCli.rootArg argv) as [[r|]|]; split;
      intros E; try discriminate; reflexivity.
  - intros root E Hcwd. unfold BuildQuizzSetsCli.rootOf in E.
    destruct (BuildQuizzSetsCli.rootArg argv) as [[r|]|]; try discriminate;
      injection E as <-; [now apply resolve_absolute | exact Hcwd].
Qed.

Lemma roots_of_the_runs_witness :
  exists rootSegs,
    forallb plain rootSegs = true
    /\ SeederCli.root (SeederCli.mkSeedConfig "/repo/quizzes"
                         (Some "http://localhost:3000/api/seed") None false)
       = rootPath rootSegs.
Proof.
  destruct (roots_of_the_runs "/repo" ["--root"; "quizzes"]) as (_ & H & _).
  destruct (H (SeederCli.mkSeedConfig "/repo/quizzes"
                 (Some "http://localhost:3000/api/seed") None false) eq_refl)
    as (_ & _ & G).
  exact (G ["repo"] eq_refl eq_refl).
Defined.

End Roots.

(** ** The questions of the sets *)

Section SetQuestions.
Import BuildQuizzSets Runs Props Order.
Local Open Scope list_scope.

Lemma stamped_question (env : Env) (setId quizzId relDir root : string)
    (q : Question) :
  withoutAttachments (sq_question (stampQuestion env setId quizzId relDir root q))
  = withoutAttachments q
  /\ List.map att_id
       (q_attachments (sq_question (stampQuestion env setId quizzId relDir root q)))
     = List.map att_id (q_attachments q).
Proof.
  split; [reflexivity|]. cbn [stampQuestion sq_question q_attachments].
  unfold normalizeAttachments. rewrite map_map. apply map_ext. intros a.
  now destruct (consolidator_frame (Url.basePrefix (cwd env) root)
                  (Url.relParts relDir) a) as (-> & _).
Qed.

(** X27.  The sets of the aggregate hold the questions of their files, all
    of them and in their order: but for the URLs of the attachments, which
    are normalized, each question is the one of the file, with as many
    attachments under the same ids.  The sets are as many as the files and
    hold as many questions, file by file. *)
Theorem consolidated_questions_kept (env : Env) (dir root : string)
    (files : list (string * QuizJson)) :
  let c := buildCombinedPayload env dir files root in
  let sets := cq_sets (combined_quizz c) in
  let sorted := sortByLanguage (readFiles files) in
  List.map (fun s => List.map (fun sq => withoutAttachments (sq_question sq))
                              (set_questions s))
           sets
  = List.map (fun p => List.map withoutAttachments (j_questions (data p))) sorted
  /\ List.map (fun s => List.map (fun sq => List.map att_id
                                               (q_attachments (sq_question sq)))
                                 (set_questions s))
              sets
     = List.map (fun p => List.map (fun q => List.map att_id (q_attachments q))
                                   (j_questions (data p)))
                sorted
  /\ Permutation
       (List.map (fun s => List.length (set_questions s)) sets)
       (List.map (fun f => List.length (j_questions (snd f))) files).
Proof.
  cbv zeta. destruct (payload_sets env dir root files) as (-> & _).
  set (quizzId := cq_id _). set (relDir := PosixPath.relative _ _ _).
  clearbody quizzId relDir. rewrite !map_map. split; [|split].
  - apply map_ext. intros p. cbn [buildSet set_questions]. rewrite map_map.
    apply map_ext. intros q. apply stamped_question.
  - apply map_ext. intros p. cbn [buildSet set_questions]. rewrite map_map.
    apply map_ext. intros q. apply stamped_question.
  - cbn [buildSet set_questions].
    rewrite (Permutation_map _ (sort_permutation (readFiles files))).
    unfold readFiles. rewrite map_map.
    erewrite map_ext; [reflexivity|].
    intros [f json]. cbn [data snd]. apply length_map.
Qed.

End SetQuestions.
